(* ===== verification/_CoqProject ===== *)
-Q . S2P
Prelude.v
Refinement.v
BinaryHeap.v
NetDestModel.v
AddrRangeModel.v
NetworkModel.v
CommonTypes.v
GarnetState.v
FlitBuffer.v
Channels.v
RoutingUnitModel.v
SwapModel.v
UnitsModel.v
SwitchAllocatorModel.v
MessageBufferModel.v
NetworkInterfaceModel.v
BuildModel.v
TopologyModel.v
SimpleNetworkModel.v
FunctionalModel.v
Scenarios.v
SystemModel.v
TrafficModel.v
AddressModel.v
ReplacementModel.v
CacheMemoryModel.v
TablesModel.v
DataBlockModel.v
SequencerModel.v
DMASequencerModel.v
StateLemmas.v
QueueLemmas.v
RoutingTheory.v
Wiring.v
Ownership.v
SwapExchange.v
SwapProgress.v
RouterTheory.v
SystemTheory.v
WiredTheory.v
CreditTheory.v
SwapTheory.v
SwapTurns.v
FloatExact.v
OccupancyTheory.v
AllocatorTheory.v
OrderingTheory.v
BufferTheory.v
InterfaceTheory.v
FunctionalTheory.v
NetDestTheory.v
NetDestSets.v
SimpleSplit.v
SimpleInvariant.v
SimpleScene.v
SimpleSwitchTheory.v
SimpleThrottleTheory.v
SimpleRunTheory.v
TopologyTheory.v
AddrRangeTheory.v
AddressTheory.v
ReplacementTheory.v
PseudoLRUTheory.v
CacheTheory.v
TBETheory.v
TimerTheory.v
PersistentTheory.v
CacheRefinement.v
CacheRunTheory.v
SequencerTheory.v
SequencerRunTheory.v
SequencerWatch.v
DMATheory.v
TrafficTheory.v
