(* ===== verification/Prelude.v ===== *)
(** * SWAP on Garnet 2.0: a verification library

    ** The program

    The repository is the gem5 simulator extended with SWAP, a mechanism that
    keeps an on-chip network free of routing deadlock by exchanging, every few
    cycles, a packet in a router's buffer with a packet in the buffer of the
    next router on its way.  The mechanism and the network it works on are in
    src/gem5/src/mem/ruby/network/garnet2.0; this library is about that
    directory, the parts of mem/ruby that it is built on, and the tester that
    drives it.  In the paths below, [garnet2.0/] is that directory, and
    [network/], [common/], [structures/], [system/] and [slicc_interface/] are
    directories under src/gem5/src/mem/ruby.

    The parts interact as follows.  The synthetic traffic tester makes memory
    requests whose addresses name a destination; the address map of the
    network turns an address into a machine.  Protocol controllers put
    messages into message buffers.  A network interface takes a message, cuts it into flits
    and sends them over a link to its router.  A router stores an arriving
    flit in a virtual channel of the input unit of the port, computes its
    route with the routing unit, and each cycle grants output ports to VCs in
    the switch allocator; the winners cross the crossbar switch and leave by
    an output unit into the next link.  Credits travel back over credit links.
    A router's wake-up begins with the swap phase: when it is the router's turn
    and the occupancy reaches a threshold, the swap pointer selects a VC and the
    network exchanges its head flit with the one of the downstream VC.  The
    topology computes shortest paths, from which the links and the routing
    tables are made.  The simple network is the alternative that a configuration
    can choose for the same topology and the same message buffers: perfect
    switches copy whole messages to the output queues of their links, and
    throttles move them on at the bandwidth of a link.  A functional write of
    the simulator updates every copy of the data that is on its way through
    either network.  Everything runs from events of an event queue.

    The controllers that use the network keep their lines in cache memories: a
    set-associative array of pointers to entries with an index of tags, banked
    arrays that model the contention for it, and a replacement policy that names
    the line to give up.  Beside them they keep tables: of the transactions under
    way, of timers, and, in the token protocol, of the persistent requests by which
    starving machines take turns.  A processor uses the memory system through a
    sequencer: it keeps one request per line under way, puts requests into the
    queue of the first controller, moves the bytes between packets and lines when
    the controller answers, implements load-linked and store-conditional with the
    locks of the cache lines, and watches for requests that wait too long, upon
    which this repository prints the state of the network.  A device uses a DMA
    sequencer, which sends a request of any length in pieces of one line each.

    ** Files

    Models (each definition carries the name of the C++ member it translates):
    - Prelude.v: outcomes and failures, the state monad, C++ vectors, machine
      arithmetic, the weakest-precondition and preservation calculus;
    - BinaryHeap.v: [std::push_heap] and [std::pop_heap] on vectors;
    - NetDestModel.v: common/Set.hh, common/NetDest.hh, NetDest.cc;
    - AddrRangeModel.v: src/gem5/src/base/addr_range.hh, base/bitfield.hh;
    - NetworkModel.v: network/Network.hh, Network.cc (queues and address map),
      [AbstractController::mapAddressToMachine];
    - CommonTypes.v: garnet2.0/CommonTypes.hh, flit.hh, flit.cc, Credit.hh,
      Credit.cc, slicc_interface/Message.hh;
    - GarnetState.v: the data members of all garnet2.0 classes and the heap of
      flits, flit buffers and messages; common/Consumer.hh, Consumer.cc;
    - FlitBuffer.v: garnet2.0/flitBuffer.hh, flitBuffer.cc;
    - Channels.v: VirtualChannel, OutVcState and the credit and state
      operations of InputUnit and OutputUnit;
    - RoutingUnitModel.v: RoutingUnit.hh, RoutingUnit.cc and the mesh arithmetic
      of GarnetNetwork.cc;
    - SwapModel.v: the swap operations of Router, InputUnit and GarnetNetwork;
    - UnitsModel.v: NetworkLink, [InputUnit::wakeup], [OutputUnit::wakeup],
      CrossbarSwitch;
    - SwitchAllocatorModel.v: SwitchAllocator and [Router::wakeup];
    - MessageBufferModel.v: network/MessageBuffer.hh, MessageBuffer.cc;
    - NetworkInterfaceModel.v: NetworkInterface and the latency counters of
      GarnetNetwork.hh;
    - BuildModel.v: the constructors and set-up functions of all the classes;
    - TopologyModel.v: network/Topology.hh, Topology.cc, BasicLink.hh and
      garnet2.0/GarnetLink.cc;
    - SimpleNetworkModel.v: network/simple (SimpleNetwork, Switch,
      PerfectSwitch, Throttle, SimpleLink);
    - FunctionalModel.v: the [functionalWrite] members of both networks and of
      MessageBuffer, [collateStats] of Router and GarnetNetwork;
    - Scenarios.v: small concrete networks, on which the witnesses evaluate the
      model;
    - SystemModel.v: the network as a transition system;
    - TrafficModel.v: src/gem5/src/cpu/testers/garnet_synthetic_traffic;
    - AddressModel.v: common/Address.cc and the logarithm of base/intmath.hh;
    - ReplacementModel.v: structures/AbstractReplacementPolicy.cc, LRUPolicy.cc,
      PseudoLRUPolicy.cc and system/WeightedLRUPolicy.cc;
    - CacheMemoryModel.v: structures/CacheMemory.cc, BankedArray.cc and the
      entries of slicc_interface/AbstractCacheEntry.cc;
    - TablesModel.v: structures/TBETable.hh, TimerTable.cc, PersistentTable.cc,
      PerfectCacheMemory.hh;
    - DataBlockModel.v: common/DataBlock.cc, WriteMask.hh, SubBlock.cc;
    - SequencerModel.v: system/Sequencer.hh, Sequencer.cc, the blocked lines of
      slicc_interface/AbstractController.cc, the draining of RubyPort.cc and
      [dmDrainResume] of src/gem5/src/sim/drain.cc;
    - DMASequencerModel.v: system/DMASequencer.hh, DMASequencer.cc.

    Theories:
    - Refinement.v: an object whose calls refine a specification, call by call and
      along every run; the caches and tables instantiate it;
    - StateLemmas.v, QueueLemmas.v, Wiring.v, Ownership.v: shared lemmas on
      member accesses, on message queues, on the invariable part of the state,
      on the account of flit pointers;
    - RoutingTheory.v (C1, C2, C4): the mesh algorithms bring a packet one hop
      closer, XY and west-first deliver within the mesh distance, the table
      look-up is minimal;
    - SwapExchange.v (C6): a swap exchanges two flits or touches no buffer;
    - SwapProgress.v (C33): a swap between two routed flits that face each other
      completes, brings the first one hop closer to its destination and leaves
      both with a route that is right at their new router;
    - RouterTheory.v (C7), SystemTheory.v (C9): no wake-up and no reachable
      state loses, duplicates or leaks a flit; the wiring is fixed;
    - WiredTheory.v (C40): a network that is wired as a mesh stays wired in
      every reachable state, so that C1 and C33 apply there;
    - CreditTheory.v: the credit counters keep to their bounds, the choice of a
      free output VC;
    - SwapTheory.v (C14, C16): every initiated swap is accounted for; the swap
      pointer;
    - SwapTurns.v (C15): the swaps initiated in a cycle are those of a single
      router, and every router has its turn again and again;
    - FloatExact.v, OccupancyTheory.v (C17): floating-point operations whose exact
      result is representable, and the binary64 occupancy test for powers of two;
    - AllocatorTheory.v (C18): the switch allocator;
    - OrderingTheory.v (C39): when the allocator permits a VC to send, the check
      of the order of flits included;
    - BufferTheory.v (C21, C22): flit buffers and message buffers are priority
      queues;
    - InterfaceTheory.v (C24): VC choice of the network interface;
    - NetDestTheory.v, NetDestSets.v (C25): destination sets implement
      finite sets of machines; a multicast is split into single destinations;
    - FunctionalTheory.v (C11): a functional write of a Garnet network without
      stalled flits updates the message of every flit in its links, routers and
      interfaces as if once, and counts the flits;
    - SimpleSplit.v, SimpleInvariant.v, SimpleScene.v: how a perfect switch
      divides the destinations of a message over its links, the invariant of a
      simple network, and a star network as an instance;
    - SimpleSwitchTheory.v (C12): a perfect switch delivers every message
      to each of its destinations exactly once; the guard on the count of
      pending messages changes nothing;
    - SimpleThrottleTheory.v (C10): a throttle is work-conserving and keeps to
      its bandwidth;
    - SimpleRunTheory.v (C27): along every run of a simple network nothing is
      lost or duplicated;
    - TopologyTheory.v (C29 - C32): the shortest paths, the routing table
      entries, delivery by table routing, and link creation;
    - AddrRangeTheory.v (C34): interleaved ranges partition the addresses;
    - AddressTheory.v: line addresses and bit fields as quotients, strides;
    - ReplacementTheory.v, PseudoLRUTheory.v (C13): the contract of a replacement
      policy and its three instances; the tree policy spares what was touched
      last;
    - CacheTheory.v, CacheRefinement.v, CacheRunTheory.v (C19, C35): a cache with
      any such policy refines a finite map, with the exact error cases, and a
      miss in a full set can be served;
    - TBETheory.v, TimerTheory.v (C3), PersistentTheory.v (C23, C26): the tables of
      a controller refine finite maps, with the exact error cases; the free slots
      of the transaction table do not wrap around, the cached timer is the
      earliest, and the marks of persistent requests bound overtaking;
    - SequencerTheory.v, SequencerRunTheory.v (C5, C28): a sequencer with any
      data cache refines a map from lines to requests, composed with the map of
      the cache; every accepted packet is answered exactly once or under way; a
      store-conditional succeeds exactly if its load-linked was the last access to
      the lock;
    - SequencerWatch.v (C8): over runs with drains, resumptions and checks the watch
      for deadlock is scheduled when it has to be and reports exactly the requests
      that have waited too long;
    - DMATheory.v (C20): a DMA sequencer refines a map from lines to the pieces left
      of a request, and the pieces transfer exactly the bytes of the packet;
    - TrafficTheory.v (C36 - C38): traffic patterns are permutations, packets
      are addressed to their destination, the tester keeps to its limits.

    ** How the model reads

    An operation is a function of type [G A], from a state [GNet] to the
    result and the new state, or to a [failure]: a failed assertion, an index
    out of a vector, a null pointer, [fatal], [panic] or an exception.  Nothing
    the source checks is assumed; the theorems say on which states the checks
    succeed.  Objects are values in vectors indexed as in the source; flits,
    flit buffers and messages are shared by pointer, so they are entries of
    finite maps.  Integers are [Z]: indices, credits, weights and the swap
    pointer stay within bounds that are proved or checked by the code, and the
    clock and the event counters are 64-bit or count events of a run, so that
    no wrap-around is modelled there.  Addresses and their bit fields (64 and 8
    bits) and the tester's unsigned destination (32 bits) wrap as in the
    source ([u64], [u8], [u32]).  The occupancy of a router is computed
    in binary64, with the specification of IEEE arithmetic of the standard
    library.  Random numbers are a stream in the state, about which nothing is
    assumed.  The generated enumeration of machine types is the class
    [MachineTypes], the three virtual functions of a network that the topology
    calls are [LinkMaker], and the tester's port and random numbers are
    [PacketPort] and [RandomMt]; the laws of the machine types are
    [MachineTypesSpec], which [two_types_spec] and [sample_types_spec]
    instantiate, the law of the random numbers is
    [RandomMtSpec], which [counting_random_spec] instantiates.  The order in
    which [std::sort] leaves equal links is the class [LinkSort] with the laws
    [LinkSortSpec], instantiated by [stable_sort_spec]; the virtual
    [Message::functionalWrite] of the generated message classes is
    [FunctionalMessage] with [FunctionalMessageSpec], instantiated by
    [sample_write_spec].  The replacement policy of a cache is the class
    [ReplacementPolicy] with the contract [ReplacementPolicySpec], which the
    three policies of the source instantiate; the block size is [BlockSize] with
    [BlockSizeSpec], which the constructor of RubySystem establishes.

    The wake-ups are total functions: their loops run over vectors or number
    ranges that are fixed on entry.  Some loops are not of this form.  The
    shortest-path loop of Topology.cc runs until nothing changes; its fuel
    [path_fuel] (the sum of the weights plus one) is enough by C29.  A walk
    through the network is followed for a number of hops that is an argument
    of [walk] or of [Nat.iter]; C2 and C31 prove that the mesh distance,
    or the weight of a shortest path, is enough.  The loops of
    [PerfectSwitch::operateMessageBuffer] and [Throttle::operateVnet] are
    [while_loop]s, which end in [Diverges] when their fuel is used up.  Every
    iteration takes a message from the queue, so the length of the queue plus
    one (plus two for the throttle, which may take an iteration to finish a
    message that it has begun) is enough: C10 and C27 prove that the calls
    return.  The two loops of the constructor of PseudoLRUPolicy have fuel for an
    associativity of at most 32, which the constructor asserts first.

    ** Not modelled

    - printing ([print], [scan...], DPRINTF) and [regStats]: output of the
      simulator;
    - the fault model: an external reliability tool, off in all configurations;
    - the code behind the unconditional first return of
      [GarnetNetwork::chk_deadlck_symptm] and of [Router::is_myTurn], which
      cannot be reached;
    - the coherence protocols, which are compiled to C++ at build time: they are
      represented by arbitrary actions on message buffers and arbitrary calls of a
      cache and of a sequencer;
    - the ports of RubyPort.cc, the set-up and checkpoints of RubySystem.cc: they
      pass packets on; the calls of a sequencer to them are recorded;
    - processors, devices and the simulation kernel. *)

From stdpp Require Export base list gmap strings list_numbers.
From Stdlib Require Export ZArith Lia.
#[global] Open Scope Z_scope.

(** ** Failures and outcomes

    The simulator is built with assertions enabled (gem5.opt).  An operation
    either returns or stops the simulation; the constructors of [failure] are
    the ways in which it stops. *)
Inductive failure : Type :=
  | AssertFail (site : string)    (** a failed [assert] *)
  | OutOfRange (site : string)    (** an index outside a vector, an empty [front] *)
  | NullDeref (site : string)     (** a null or dangling pointer is followed *)
  | Fatal (msg : string)          (** [fatal(...)] *)
  | Panic (msg : string)          (** [panic(...)] / [panic_if(...)] *)
  | Throw (msg : string)          (** a C++ exception *)
  | Diverges (site : string).     (** a [while] loop has used up its bound *)

Inductive outcome (A : Type) : Type :=
  | Ok (a : A)
  | Abort (e : failure).
Arguments Ok {A} a.
Arguments Abort {A} e.

#[export] Instance outcome_ret : MRet outcome := @Ok.
#[export] Instance outcome_bind : MBind outcome := λ A B k m,
  match m with Ok a => k a | Abort e => Abort e end.

(** A stateful operation over state [S]. *)
Definition M (S A : Type) : Type := S → outcome (A * S).

#[export] Instance M_ret {S} : MRet (M S) := λ A a s, Ok (a, s).
#[export] Instance M_bind {S} : MBind (M S) := λ A B k m s,
  match m s with Ok (a, s') => k a s' | Abort e => Abort e end.

Definition fail {S A} (e : failure) : M S A := λ _, Abort e.
Definition gets {S A} (f : S → A) : M S A := λ s, Ok (f s, s).
Definition modify {S} (f : S → S) : M S () := λ s, Ok (tt, f s).
Definition assertM {S} (b : bool) (site : string) : M S () :=
  if b then mret tt else fail (AssertFail site).
Definition lift {S A} (o : outcome A) : M S A := λ s,
  match o with Ok a => Ok (a, s) | Abort e => Abort e end.
Definition assertO (b : bool) (site : string) : outcome () :=
  if b then Ok tt else Abort (AssertFail site).

Definition inrangeO (b : bool) (site : string) : outcome () :=
  if b then Ok tt else Abort (OutOfRange site).

(** ** Vectors indexed by [int]

    [std::vector::operator[]] with an index outside the vector is undefined
    behaviour; the model stops with [OutOfRange]. *)
Definition vget {A} (l : list A) (i : Z) : option A :=
  if 0 <=? i then l !! Z.to_nat i else None.
Definition vset {A} (l : list A) (i : Z) (a : A) : list A :=
  if 0 <=? i then <[Z.to_nat i := a]> l else l.
Definition vgetO {A} (l : list A) (i : Z) (site : string) : outcome A :=
  match vget l i with Some a => Ok a | None => Abort (OutOfRange site) end.
Definition vsize {A} (l : list A) : Z := Z.of_nat (length l).

(** Comparison of [std::string]s. *)
Notation "a =s b" := (String.eqb a b%string) (at level 70).

(** ** Loops

    [zrange lo hi] is the index sequence of [for (i = lo; i < hi; i++)].
    [for_each] is a loop without early exit; [loop] threads the loop-carried
    variables [v] and stops when the body returns [inr] ([break]/[return]). *)
Definition zrange (lo hi : Z) : list Z := seqZ lo (hi - lo).

Fixpoint for_each {S A} (xs : list A) (body : A → M S ()) : M S () :=
  match xs with
  | [] => mret tt
  | x :: xs => body x ;; for_each xs body
  end.

Fixpoint loop {S A V R} (xs : list A) (v : V) (body : A → V → M S (V + R))
    : M S (V + R) :=
  match xs with
  | [] => mret (inl v)
  | x :: xs =>
      r ← body x v;
      match r with
      | inl v' => loop xs v' body
      | inr res => mret (inr res)
      end
  end.

(** A loop with loop-carried variables and no early exit. *)
Fixpoint foldM {S A V} (xs : list A) (v : V) (body : A → V → M S V) : M S V :=
  match xs with
  | [] => mret v
  | x :: xs => v' ← body x v; foldM xs v' body
  end.

(** A [while] loop whose number of rounds depends on the state: [fuel] bounds
    the rounds, the body returns [inl] to go on and [inr] to leave.  A loop that
    uses up its bound stops with [Diverges]; that the bounds of the model are
    enough is part of the theorems that such a loop returns. *)
Fixpoint while_loop {S V R} (site : string) (fuel : nat) (v : V) (body : V → M S (V + R)) : M S R :=
  match fuel with
  | O => fail (Diverges site)
  | S fuel =>
      r ← body v;
      match r with inl v' => while_loop site fuel v' body | inr res => mret res end
  end.

(** ** Record fields

    [r <| p := v |>] is the C++ assignment [r.p = v].  A record type declares
    its eta expansion with [Eta]; [Setter p] is then derived. *)
Class Eta (R : Type) := eta : R → R.
Class Setter {R T : Type} (p : R → T) := set_field : (T → T) → R → R.
Arguments set_field {R T} p {_} f r /.

Ltac derive_setter :=
  lazymatch goal with
  | |- @Setter ?R ?T ?p =>
      let f := fresh "f" in let r := fresh "r" in
      intros f r;
      let t := eval cbv beta delta [eta] in (eta r) in
      let t := eval hnf in t in
      lazymatch eval pattern (p r) in t with
      | ?g _ => let u := eval cbv beta in (g (f (p r))) in exact u
      end
  end.
#[export] Hint Extern 1 (Setter _) => derive_setter : typeclass_instances.

Notation "r <| p := v |>" := (set_field p (λ _, v) r)
  (at level 1, p at level 200, left associativity, format "r  <|  p  :=  v  |>").
Notation "r <| p ::= f |>" := (set_field p f r)
  (at level 1, p at level 200, left associativity, format "r  <|  p  ::=  f  |>").

(** ** Running a computation

    [wp m Q s]: from [s], [m] returns (no failure) and its result satisfies
    [Q].  [preserves R m]: whenever [m] returns, the states before and after
    are related by [R] (a preorder such as "same flits" or "[I] is kept"). *)
Definition wp {S A} (m : M S A) (Q : A → S → Prop) (s : S) : Prop :=
  match m s with Ok (a, s') => Q a s' | Abort _ => False end.

Definition preserves {S A} (R : relation S) (m : M S A) : Prop :=
  ∀ s a s', m s = Ok (a, s') → R s s'.

Section RunLemmas.
Context {S : Type}.
Implicit Types s : S.

Lemma bind_Ok {A B} (m : M S A) (k : A → M S B) s b s' :
  (m ≫= k) s = Ok (b, s') ↔ ∃ a s1, m s = Ok (a, s1) ∧ k a s1 = Ok (b, s').
Proof.
  unfold mbind, M_bind. destruct (m s) as [[a s1]|e].
  - split; [eauto|]. by intros (?&?&[= <- <-]&?).
  - split; [done|]. by intros (?&?&?&?).
Qed.

Lemma bind_run {A B} (m : M S A) (k : A → M S B) s a s' :
  m s = Ok (a, s') → (m ≫= k) s = k a s'.
Proof. unfold mbind, M_bind. by intros ->. Qed.

Lemma bind_abort {A B} (m : M S A) (k : A → M S B) s f : m s = Abort f → (m ≫= k) s = Abort f.
Proof. intros E. unfold mbind, M_bind. by rewrite E. Qed.

Lemma wp_Ok {A} (m : M S A) Q s :
  wp m Q s ↔ ∃ a s', m s = Ok (a, s') ∧ Q a s'.
Proof.
  unfold wp. destruct (m s) as [[a s1]|e]; naive_solver.
Qed.

Lemma wp_run {A} (m : M S A) Q s a s' :
  m s = Ok (a, s') → Q a s' → wp m Q s.
Proof. unfold wp. by intros ->. Qed.

Lemma wp_bind {A B} (m : M S A) (k : A → M S B) Q s :
  wp (m ≫= k) Q s ↔ wp m (λ a s', wp (k a) Q s') s.
Proof. unfold wp, mbind, M_bind. by destruct (m s) as [[??]|]. Qed.

(** Reassociating a sequence. *)
Lemma wp_assoc {A B C} (m : M S A) (f : A → M S B) (k : B → M S C) Q s :
  wp (m ≫= f) (λ b s', wp (k b) Q s') s → wp (m ≫= λ a, f a ≫= k) Q s.
Proof.
  unfold wp, mbind, M_bind. destruct (m s) as [[a s1]|]; [|done]. by destruct (f a s1) as [[b s2]|].
Qed.

Lemma wp_mono {A} (m : M S A) (Q Q' : A → S → Prop) s :
  wp m Q s → (∀ a s', Q a s' → Q' a s') → wp m Q' s.
Proof. unfold wp. destruct (m s) as [[??]|]; eauto. Qed.

Lemma wp_and_preserves {A} (R : relation S) (m : M S A) Q s :
  wp m Q s → preserves R m → wp m (λ a s', Q a s' ∧ R s s') s.
Proof.
  unfold wp, preserves. intros HQ HR.
  destruct (m s) as [[??]|] eqn:E; eauto.
Qed.

Lemma preserves_mono {A} (R R' : relation S) (m : M S A) :
  preserves R m → (∀ s s', R s s' → R' s s') → preserves R' m.
Proof. unfold preserves. eauto. Qed.

Section Preorder.
Context (R : relation S) `{!PreOrder R}.

Lemma preserves_ret {A} (a : A) : preserves R (mret a).
Proof. intros s ?? [= <- <-]. reflexivity. Qed.
Lemma preserves_fail {A} e : preserves R (fail e : M S A).
Proof. intros s ?? [=]. Qed.
Lemma preserves_gets {A} (f : S → A) : preserves R (gets f).
Proof. intros s ?? [= <- <-]. reflexivity. Qed.
Lemma preserves_lift {A} (o : outcome A) : preserves R (lift o).
Proof. intros s ??. unfold lift. destruct o; naive_solver. Qed.
Lemma preserves_assertM b site : preserves R (assertM b site).
Proof. destruct b; [apply preserves_ret | apply preserves_fail]. Qed.
Lemma preserves_modify f : (∀ s, R s (f s)) → preserves R (modify f).
Proof. intros Hf s ?? [= <- <-]. apply Hf. Qed.
Lemma preserves_bind {A B} (m : M S A) (k : A → M S B) :
  preserves R m → (∀ a, preserves R (k a)) → preserves R (m ≫= k).
Proof.
  intros Hm Hk s b s' (a & s1 & H1 & H2)%bind_Ok.
  transitivity s1; [eapply Hm | eapply Hk]; eauto.
Qed.
Lemma preserves_for_each {A} (xs : list A) body :
  (∀ x, x ∈ xs → preserves R (body x)) → preserves R (for_each xs body).
Proof.
  induction xs as [|x xs IH]; intros Hb; simpl; [apply preserves_ret|].
  apply preserves_bind; [|intros _; apply IH]; set_solver.
Qed.
Lemma preserves_loop {A V T} (xs : list A) (v : V) (body : A → V → M S (V + T)) :
  (∀ x v, x ∈ xs → preserves R (body x v)) → preserves R (loop xs v body).
Proof.
  revert v. induction xs as [|x xs IH]; intros v Hb; simpl; [apply preserves_ret|].
  apply preserves_bind; [set_solver|].
  intros [v'|r]; [apply IH; set_solver | apply preserves_ret].
Qed.
Lemma preserves_foldM {A V} (xs : list A) (v : V) (body : A → V → M S V) :
  (∀ x v, x ∈ xs → preserves R (body x v)) → preserves R (foldM xs v body).
Proof.
  revert v. induction xs as [|x xs IH]; intros v Hb; simpl; [apply preserves_ret|].
  apply preserves_bind; [set_solver|]. intros v'. apply IH. set_solver.
Qed.
Lemma preserves_while_loop {V T} site fuel (v : V) (body : V → M S (V + T)) :
  (∀ v, preserves R (body v)) → preserves R (while_loop site fuel v body).
Proof.
  revert v. induction fuel as [|fuel IH]; intros v Hb; simpl; [apply preserves_fail|].
  apply preserves_bind; [done|]. intros [v'|r]; [by apply IH|apply preserves_ret].
Qed.
End Preorder.
End RunLemmas.

(** [wp_step] runs the leading primitive of a weakest-precondition goal. *)
Lemma wp_ret {S A} (a : A) Q (s : S) : Q a s → wp (mret a) Q s.
Proof. done. Qed.
Lemma wp_gets {S A} (f : S → A) Q s : Q (f s) s → wp (gets f) Q s.
Proof. done. Qed.
Lemma wp_modify {S} (f : S → S) Q s : Q tt (f s) → wp (modify f) Q s.
Proof. done. Qed.
Lemma wp_assertM {S} b site Q (s : S) : b = true → Q tt s → wp (assertM b site) Q s.
Proof. by intros ->. Qed.
Lemma wp_lift {S A} (o : outcome A) a Q (s : S) :
  o = Ok a → Q a s → wp (lift o) Q s.
Proof. by intros ->. Qed.

(** Invariants of loops: [I done v s] relates the elements already visited, the
    loop-carried variables and the state. *)
Lemma wp_foldM {S A V} (xs : list A) (v : V) (body : A → V → M S V)
    (I : list A → V → S → Prop) s :
  I [] v s →
  (∀ pre x v s, x ∈ xs → I pre v s → wp (body x v) (λ v' s', I (pre ++ [x]) v' s') s) →
  wp (foldM xs v body) (λ v' s', I xs v' s') s.
Proof.
  intros H0 HS. change xs with ([] ++ xs) at 2.
  assert (Hsub : ∀ x, x ∈ xs → x ∈ xs) by done. revert Hsub H0. generalize (@nil A) as pre.
  generalize xs at 1 3 4. intros ys. revert v s.
  induction ys as [|y ys IH]; intros v s pre Hsub H0; simpl.
  { apply wp_ret. by rewrite app_nil_r. }
  apply wp_bind. eapply wp_mono; [apply HS; [apply Hsub; set_solver|done]|].
  intros v' s' H'. rewrite cons_middle, app_assoc. apply IH; [set_solver|done].
Qed.

Lemma wp_loop {S A V R} (xs : list A) (v : V) (body : A → V → M S (V + R))
    (I : list A → V → S → Prop) (Q : R → S → Prop) s :
  I [] v s →
  (∀ pre x post v s, xs = pre ++ x :: post → I pre v s →
     wp (body x v) (λ r s', match r with inl v' => I (pre ++ [x]) v' s' | inr q => Q q s' end) s) →
  wp (loop xs v body) (λ r s', match r with inl v' => I xs v' s' | inr q => Q q s' end) s.
Proof.
  intros H0 HS. assert (E : xs = [] ++ xs) by done. revert E H0.
  generalize (@nil A) as pre. generalize xs at 2 3 as ys. intros ys. revert v s.
  induction ys as [|y ys IH]; intros v s pre E H0; simpl.
  { apply wp_ret. by rewrite E, app_nil_r. }
  apply wp_bind. eapply wp_mono; [by eapply HS|]. intros [v'|q] s' H'.
  - apply (IH v' s' (pre ++ [y])); [by rewrite <- app_assoc|done].
  - by apply wp_ret.
Qed.

Lemma wp_for_each {S A} (xs : list A) (body : A → M S ()) (I : list A → S → Prop) s :
  I [] s →
  (∀ pre x post s, xs = pre ++ x :: post → I pre s → wp (body x) (λ _ s', I (pre ++ [x]) s') s) →
  wp (for_each xs body) (λ _ s', I xs s') s.
Proof.
  intros H0 HS. assert (E : xs = [] ++ xs) by done. revert E H0.
  generalize (@nil A) as pre. generalize xs at 2 3 as ys. intros ys. revert s.
  induction ys as [|y ys IH]; intros s pre E H0; simpl.
  { apply wp_ret. by rewrite E, app_nil_r. }
  apply wp_bind. eapply wp_mono; [by eapply HS|]. intros [] s' H'.
  apply (IH s' (pre ++ [y])); [by rewrite <- app_assoc|done].
Qed.

(** A [while] loop with a measure: every round that does not leave decreases
    [measure], and keeps the invariant [I]. *)
Lemma wp_while_loop {S V R} site fuel (v : V) (body : V → M S (V + R))
    (I : V → S → Prop) (measure : V → S → nat) (Q : R → S → Prop) s :
  I v s → (measure v s < fuel)%nat →
  (∀ v s, I v s →
     wp (body v) (λ r s', match r with
                          | inl v' => I v' s' ∧ (measure v' s' < measure v s)%nat
                          | inr q => Q q s' end) s) →
  wp (while_loop site fuel v body) Q s.
Proof.
  revert v s. induction fuel as [|fuel IH]; intros v s H0 Hm HS; [lia|].
  simpl. apply wp_bind. eapply wp_mono; [by apply HS|]. intros [v'|q] s'; [|by intros; apply wp_ret].
  intros [H' Hm']. apply IH; [done|lia|done].
Qed.

(** The same for a loop with early exit that has returned: [I] while it runs,
    [Q] when it leaves early. *)
Lemma loop_returned {S A V R} (xs : list A) (v : V) (body : A → V → M S (V + R))
    (I : list A → V → S → Prop) (Q : R → S → Prop) s r s' :
  I [] v s →
  (∀ pre x v s r s', x ∈ xs → I pre v s → body x v s = Ok (r, s') →
     match r with inl v' => I (pre ++ [x]) v' s' | inr q => Q q s' end) →
  loop xs v body s = Ok (r, s') →
  match r with inl v' => I xs v' s' | inr q => Q q s' end.
Proof.
  intros H0 HS. change xs with ([] ++ xs) at 2.
  assert (Hsub : ∀ x, x ∈ xs → x ∈ xs) by done. revert Hsub H0. generalize (@nil A) as pre.
  generalize xs at 1 3 4. intros ys. revert v s.
  induction ys as [|y ys IH]; intros v s pre Hsub H0; simpl.
  { intros [= <- <-]. by rewrite app_nil_r. }
  intros (r1 & s1 & H1 & H2)%bind_Ok.
  pose proof (HS pre y v s r1 s1 ltac:(apply Hsub; set_solver) H0 H1) as H'.
  destruct r1 as [v1|q]; [|injection H2 as <- <-; done].
  rewrite cons_middle, app_assoc. apply (IH v1 s1); [set_solver|done|done].
Qed.

Lemma for_each_returned {S A} (xs : list A) (body : A → M S ()) (I : list A → S → Prop) s s' :
  I [] s →
  (∀ pre x post s s', xs = pre ++ x :: post → I pre s → body x s = Ok (tt, s') → I (pre ++ [x]) s') →
  for_each xs body s = Ok (tt, s') → I xs s'.
Proof.
  intros H0 HS. assert (E : xs = [] ++ xs) by done. revert E H0.
  generalize (@nil A) as pre. generalize xs at 2 3 as ys. intros ys. revert s.
  induction ys as [|y ys IH]; intros s pre E H0; simpl.
  { intros [= <-]. by rewrite E, app_nil_r. }
  intros ([] & s1 & H1 & H2)%bind_Ok.
  apply (IH s1 (pre ++ [y])); [by rewrite <- app_assoc| |done]. by eapply HS.
Qed.

(** Decompose "this monadic program returned" hypotheses. *)
Ltac run_inv1 H :=
  lazymatch type of H with
  | (_ ≫= _) _ = Ok _ =>
      let a := fresh "a" in let s := fresh "s" in
      let H1 := fresh "Hrun" in let H2 := fresh "Hrun" in
      apply bind_Ok in H as (a & s & H1 & H2); run_inv1 H1; run_inv1 H2
  | mret _ _ = Ok _ => injection H as ? ?; subst
  | gets _ _ = Ok _ => injection H as ? ?; subst
  | modify _ _ = Ok _ => injection H as ? ?; subst
  | fail _ _ = Ok _ => discriminate H
  | assertM ?b _ _ = Ok _ =>
      let E := fresh "Hassert" in
      destruct b eqn:E; [injection H as ? ?; subst | discriminate H]
  | _ => idtac
  end.
Tactic Notation "run_inv" hyp(H) := run_inv1 H.

(** The structural rules of [preserves], as a hint database. *)
Create HintDb preserve.
#[export] Hint Resolve preserves_ret preserves_fail preserves_gets preserves_lift
  preserves_assertM preserves_bind preserves_for_each preserves_loop
  preserves_foldM : preserve.

(** [pres by tac] proves a [preserves] goal by the structural rules; [tac]
    solves the goals about primitive operations, and any other operation that
    is called is unfolded. *)
Ltac head_of t := lazymatch t with ?f _ => head_of f | _ => t end.
Ltac pres_with tac :=
  cbv beta zeta;
  first
    [ solve [tac]
    | lazymatch goal with
      | |- preserves _ (mret _) => apply preserves_ret; exact _
      | |- preserves _ (fail _) => apply preserves_fail
      | |- preserves _ (gets _) => apply preserves_gets; exact _
      | |- preserves _ (lift _) => apply preserves_lift; exact _
      | |- preserves _ (assertM _ _) => apply preserves_assertM; exact _
      | |- preserves _ (_ ≫= _) =>
          apply preserves_bind; [exact _ | pres_with tac | intros ?; pres_with tac]
      | |- preserves _ (for_each _ _) =>
          apply preserves_for_each; [exact _ | intros ? _; pres_with tac]
      | |- preserves _ (loop _ _ _) =>
          apply preserves_loop; [exact _ | intros ? ? _; pres_with tac]
      | |- preserves _ (foldM _ _ _) =>
          apply preserves_foldM; [exact _ | intros ? ? _; pres_with tac]
      | |- preserves _ (while_loop _ _ _ _) =>
          apply preserves_while_loop; [exact _ | intros ?; pres_with tac]
      | |- preserves _ (match ?x with _ => _ end) => destruct x; pres_with tac
      | |- preserves _ ?m => let h := head_of m in unfold h; pres_with tac
      end ].
Tactic Notation "pres" "by" tactic3(tac) := pres_with tac.

(** ** Vector lemmas *)
Section Vectors.
Context {A : Type}.
Implicit Types l : list A.

Lemma vget_Some l i a :
  vget l i = Some a ↔ 0 ≤ i ∧ l !! Z.to_nat i = Some a.
Proof. unfold vget. destruct (Z.leb_spec 0 i); naive_solver lia. Qed.

Lemma vget_Some_lt l i a : vget l i = Some a → 0 ≤ i < vsize l.
Proof.
  intros [? ?%lookup_lt_Some]%vget_Some. unfold vsize. lia.
Qed.

Lemma vget_lookup l i : 0 ≤ i < vsize l → is_Some (vget l i).
Proof.
  intros ?. unfold vget, vsize in *. destruct (Z.leb_spec 0 i); [|lia].
  apply lookup_lt_is_Some. lia.
Qed.

Lemma vsize_vset l i a : vsize (vset l i a) = vsize l.
Proof. unfold vsize, vset. destruct (0 <=? i); [by rewrite length_insert|done]. Qed.

Lemma vget_vset_eq l i a : 0 ≤ i < vsize l → vget (vset l i a) i = Some a.
Proof.
  intros ?. unfold vget, vset, vsize in *. destruct (Z.leb_spec 0 i); [|lia].
  apply list_lookup_insert_eq. lia.
Qed.

Lemma vget_vset_ne l i j a : i ≠ j → vget (vset l i a) j = vget l j.
Proof.
  intros ?. unfold vget, vset. destruct (Z.leb_spec 0 i), (Z.leb_spec 0 j); try done.
  apply list_lookup_insert_ne. lia.
Qed.

Lemma vget_vset l i j a :
  vget (vset l i a) j =
    if decide (i = j ∧ 0 ≤ i < vsize l) then Some a else vget l j.
Proof.
  case_decide as H.
  - destruct H as [-> ?]. by apply vget_vset_eq.
  - destruct (decide (i = j)) as [->|]; [|by apply vget_vset_ne].
    unfold vget, vset, vsize in *. destruct (Z.leb_spec 0 j); [|done].
    rewrite list_insert_ge; [done|lia].
Qed.
End Vectors.

Lemma vget_fmap {A B} (f : A → B) l i : vget (f <$> l) i = f <$> vget l i.
Proof. unfold vget. case_match; [|done]. apply list_lookup_fmap. Qed.

Lemma forallb_elem {A} (f : A → bool) l x : forallb f l = true → x ∈ l → f x = true.
Proof. intros H Hx. rewrite forallb_forall in H. apply H. by apply list_elem_of_In. Qed.

Lemma elem_of_zrange x lo hi : x ∈ zrange lo hi ↔ lo ≤ x < hi.
Proof. unfold zrange. rewrite elem_of_seqZ. lia. Qed.

Lemma list_insert_perm {A} (l : list A) (i : nat) (x y : A) :
  l !! i = Some x → x :: <[i := y]> l ≡ₚ y :: l.
Proof.
  revert i. induction l as [|z l IH]; intros [|i]; simpl; try done.
  - intros [= ->]. apply Permutation_swap.
  - intros Hl. rewrite Permutation_swap, (IH i Hl). apply Permutation_swap.
Qed.

(** ** Searches

    A loop that returns at the first element satisfying [p], and only reads
    the state before it does. *)
Fixpoint first_such {A} (p : A → bool) (xs : list A) : option A :=
  match xs with
  | [] => None
  | x :: xs => if p x then Some x else first_such p xs
  end.

Lemma loop_search {S A R} (xs : list A) (body : A → () → M S (() + R)) p g h (s : S) :
  (∀ x, x ∈ xs → p x = false → body x tt s = Ok (inl tt, s)) →
  (∀ x, x ∈ xs → p x = true → body x tt s = Ok (inr (g x), h x)) →
  loop xs tt body s =
    match first_such p xs with
    | Some x => Ok (inr (g x), h x)
    | None => Ok (inl tt, s)
    end.
Proof.
  induction xs as [|x xs IH]; intros H0 H1; simpl; [done|].
  destruct (p x) eqn:Hp.
  - erewrite bind_run; [|apply H1; [set_solver|done]]. done.
  - erewrite bind_run; [|apply H0; [set_solver|done]]. apply IH; intros; [apply H0|apply H1]; set_solver.
Qed.

Lemma zrange_cons lo hi : lo < hi → zrange lo hi = lo :: zrange (lo + 1) hi.
Proof.
  intros. unfold zrange. rewrite seqZ_cons by lia. f_equal. f_equal; lia.
Qed.
Lemma zrange_nil lo hi : hi ≤ lo → zrange lo hi = [].
Proof. intros. unfold zrange. apply seqZ_nil. lia. Qed.

Lemma first_such_zrange p lo hi :
  match first_such p (zrange lo hi) with
  | Some x => lo ≤ x < hi ∧ p x = true ∧ ∀ y, lo ≤ y < x → p y = false
  | None => ∀ y, lo ≤ y < hi → p y = false
  end.
Proof.
  remember (Z.to_nat (hi - lo)) as n eqn:Hn. revert lo Hn. induction n as [|n IH]; intros lo Hn.
  { rewrite zrange_nil by lia. simpl. lia. }
  rewrite zrange_cons by lia. simpl. destruct (p lo) eqn:Hp; [split_and!; [lia..|done|lia]|].
  specialize (IH (lo + 1) ltac:(lia)). destruct (first_such p (zrange (lo + 1) hi)) as [x|].
  - destruct IH as (? & ? & Hy). split_and!; [lia..|done|]. intros y ?.
    destruct (decide (y = lo)) as [->|]; [done|apply Hy; lia].
  - intros y ?. destruct (decide (y = lo)) as [->|]; [done|apply IH; lia].
Qed.
