(* ===== verification/Refinement.v ===== *)
(** * Objects that refine a specification

    An object has a state, calls that may stop with an error, and an abstract
    state; its specification says when a call is enabled and what an enabled call
    answers and does.  [Refines] is the obligation for a single call in a state
    that satisfies the invariant; [refines_run] is what follows for any sequence
    of calls.  The theories of caches, timers, persistent requests and
    sequencers instantiate it. *)

From S2P Require Import Prelude.

Section Refinement.
Context {S A Op Ans : Type}.
Context (exec : Op → M S Ans) (sane : Op → Prop).
Context (enabled : A → Op → Prop) `{∀ a op, Decision (enabled a op)} (spec : A → Op → Ans → A → Prop).

(** Running a list of calls. *)
Fixpoint exec_all (ops : list Op) : M S (list Ans) :=
  match ops with
  | [] => mret []
  | op :: ops => a ← exec op; l ← exec_all ops; mret (a :: l)
  end.

(** The calls and answers that the specification allows. *)
Inductive spec_run : A → list Op → list Ans → A → Prop :=
  | spec_nil a : spec_run a [] [] a
  | spec_cons a op ans a1 ops answers a' :
      enabled a op → spec a op ans a1 → spec_run a1 ops answers a' →
      spec_run a (op :: ops) (ans :: answers) a'.

(** Every call answers as specified if it is enabled, and is refused otherwise. *)
Class Refines (inv : S → Prop) (abs : S → A) : Prop := {
  refines_enabled s op : inv s → sane op → enabled (abs s) op →
    ∃ ans s', exec op s = Ok (ans, s') ∧ inv s' ∧ spec (abs s) op ans (abs s');
  refines_refused s op : inv s → sane op → ¬ enabled (abs s) op → ∃ f, exec op s = Abort f;
}.

Lemma refines_step inv abs `{!Refines inv abs} s op ans s' :
  inv s → sane op → exec op s = Ok (ans, s') → enabled (abs s) op ∧ inv s' ∧ spec (abs s) op ans (abs s').
Proof.
  intros Hi Hop E. destruct (decide (enabled (abs s) op)) as [Hen|Hn].
  2:{ destruct (refines_refused s op Hi Hop Hn) as [f Hf]. congruence. }
  destruct (refines_enabled s op Hi Hop Hen) as (ans' & s1 & E' & Hi' & Hsp).
  rewrite E in E'. by injection E' as <- <-.
Qed.

Lemma refines_run inv abs `{!Refines inv abs} ops s answers s' :
  inv s → Forall sane ops → exec_all ops s = Ok (answers, s') →
  spec_run (abs s) ops answers (abs s') ∧ inv s'.
Proof.
  intros Hi Hs. revert s answers Hi. induction Hs as [|op ops Hop Hs IH]; intros s answers Hi E.
  { injection E as <- <-. split; [constructor|done]. }
  simpl in E. apply bind_Ok in E as (ans & s1 & E1 & E). apply bind_Ok in E as (l & s2 & E2 & E).
  injection E as <- <-. destruct (refines_step inv abs s op ans s1 Hi Hop E1) as (Hen & Hi1 & Hsp).
  destruct (IH s1 l Hi1 E2) as [Hrun Hi2].
  split; [|done]. by econstructor.
Qed.

Lemma exec_all_app ops1 ops2 s answers s' :
  exec_all (ops1 ++ ops2) s = Ok (answers, s') →
  ∃ l1 l2 s1, exec_all ops1 s = Ok (l1, s1) ∧ exec_all ops2 s1 = Ok (l2, s') ∧ answers = l1 ++ l2.
Proof.
  revert s answers. induction ops1 as [|op ops1 IH]; simpl; intros s answers E; [by exists [], answers, s|].
  apply bind_Ok in E as (ans & s1 & E1 & E). apply bind_Ok in E as (l & s2 & E2 & [= <- <-]).
  destruct (IH s1 l E2) as (l1 & l2 & s3 & E3 & E4 & ->). exists (ans :: l1), l2, s3.
  by rewrite (bind_run _ _ _ _ _ E1), (bind_run _ _ _ _ _ E3).
Qed.

(** The next call after a run, whatever it is. *)
Definition next_call_exact (abs : S → A) (s : S) : Prop :=
  ∀ op, sane op →
    if decide (enabled (abs s) op)
    then ∃ ans s', exec op s = Ok (ans, s') ∧ spec (abs s) op ans (abs s')
    else ∃ f, exec op s = Abort f.

Lemma refines_next inv abs `{!Refines inv abs} s : inv s → next_call_exact abs s.
Proof.
  intros Hi op Hop. case_decide as Hen; [|by apply refines_refused].
  destruct (refines_enabled s op Hi Hop Hen) as (ans & s' & E & _ & Hsp). eauto.
Qed.
End Refinement.
