(* ===== verification/BinaryHeap.v ===== *)
(** * Binary heaps in a vector

    [std::push_heap] and [std::pop_heap] of the C++ standard library, as the
    flit buffers and the message buffers use them: the vector is a heap for the
    comparison [gt] (the third argument of the C++ calls), so that its front is
    an element that is [gt] than no other one.  [push_heap] sifts the last
    element up; [pop_heap] moves the front to the back, the old back to the
    front, sinks it to a leaf along the preferred children and sifts it up
    again.  The file proves that both keep the elements (up to order) and the
    heap shape, and that the front of a heap is minimal. *)

From S2P Require Import Prelude.
#[local] Open Scope nat_scope.

Definition swap {A} (l : list A) (i j : nat) : list A :=
  match l !! i, l !! j with
  | Some x, Some y => <[i := y]> (<[j := x]> l)
  | _, _ => l
  end.

Definition parent (i : nat) : nat := (i - 1) / 2.

Section Heap.
Context {A : Type} (gt : A → A → bool).

(** Sift the element at [i] towards the root. *)
Fixpoint sift_up (fuel : nat) (l : list A) (i : nat) : list A :=
  match fuel with
  | 0 => l
  | S fuel =>
      if i =? 0 then l else
      match l !! parent i, l !! i with
      | Some p, Some x =>
          if gt p x then sift_up fuel (swap l i (parent i)) (parent i) else l
      | _, _ => l
      end
  end.

(** Sink the element at [i] to a leaf; returns where it ended up. *)
Fixpoint sink (fuel : nat) (l : list A) (i : nat) : list A * nat :=
  match fuel with
  | 0 => (l, i)
  | S fuel =>
      let second := 2 * (i + 1) in
      match l !! (second - 1), l !! second with
      | Some a, Some b =>
          let c := if gt b a then second - 1 else second in
          sink fuel (swap l i c) c
      | Some a, None => (swap l i (second - 1), second - 1)
      | None, _ => (l, i)
      end
  end.

Definition push_heap (l : list A) : list A :=
  sift_up (length l) l (length l - 1).

Definition adjust_heap (l : list A) : list A :=
  let '(l', i) := sink (length l) l 0 in sift_up (length l) l' i.

Definition pop_heap (l : list A) : list A :=
  match l with
  | [] => []
  | x :: tl =>
      match last tl with
      | None => [x]
      | Some y => adjust_heap (y :: removelast tl) ++ [x]
      end
  end.

(** [is_heap l]: no element is [gt] than a child. *)
Definition is_heap (l : list A) : Prop :=
  ∀ i p x, 0 < i → l !! parent i = Some p → l !! i = Some x → gt p x = false.
End Heap.

(** What the comparison must satisfy (the strict weak order that the C++
    standard requires of the comparison object). *)
Class StrictWeak {A} (gt : A → A → bool) : Prop := {
  gt_asym x y : gt x y = true → gt y x = false;
  gt_negtrans x y z : gt x y = false → gt y z = false → gt x z = false;
}.

(** ** Swapping *)
Section Swap.
Context {A : Type}.
Implicit Types l : list A.

Lemma length_swap l i j : length (swap l i j) = length l.
Proof. unfold swap. destruct (l !! i), (l !! j); rewrite ?length_insert; done. Qed.

Lemma swap_lookup l i j k :
  i < length l → j < length l →
  swap l i j !! k =
    if decide (k = i) then l !! j else if decide (k = j) then l !! i else l !! k.
Proof.
  intros [x Hx]%lookup_lt_is_Some [y Hy]%lookup_lt_is_Some.
  unfold swap. rewrite Hx, Hy.
  pose proof (lookup_lt_Some _ _ _ Hx). pose proof (lookup_lt_Some _ _ _ Hy).
  repeat case_decide; subst.
  - rewrite list_lookup_insert_eq; [done|]. by rewrite length_insert.
  - rewrite list_lookup_insert_ne, list_lookup_insert_eq by done. done.
  - by rewrite !list_lookup_insert_ne by done.
Qed.

Lemma swap_perm l i j : swap l i j ≡ₚ l.
Proof.
  unfold swap. destruct (l !! i) as [x|] eqn:Hx; [|done].
  destruct (l !! j) as [y|] eqn:Hy; [|done].
  destruct (decide (i = j)) as [->|Hne].
  { assert (x = y) as -> by congruence.
    by rewrite list_insert_insert_eq, list_insert_id. }
  pose proof (lookup_lt_Some _ _ _ Hx). pose proof (lookup_lt_Some _ _ _ Hy).
  apply (Permutation_cons_inv (a := x)).
  rewrite (list_insert_perm _ i x y) by (by rewrite list_lookup_insert_ne).
  by apply list_insert_perm.
Qed.
End Swap.

(** ** Elements are kept *)
Section Perm.
Context {A : Type} (gt : A → A → bool).
Implicit Types l : list A.

Lemma sift_up_perm fuel l i : sift_up gt fuel l i ≡ₚ l.
Proof.
  revert l i. induction fuel as [|fuel IH]; intros l i; simpl; [done|].
  destruct (i =? 0); [done|].
  destruct (l !! parent i), (l !! i); try done.
  destruct (gt _ _); [|done]. by rewrite IH, swap_perm.
Qed.

Lemma sink_perm fuel l i : (sink gt fuel l i).1 ≡ₚ l.
Proof.
  revert l i. induction fuel as [|fuel IH]; intros l i; cbn -[Nat.mul]; [done|].
  destruct (l !! (2 * (i + 1) - 1)), (l !! (2 * (i + 1))); simpl; try done.
  - by rewrite IH, swap_perm.
  - by rewrite swap_perm.
Qed.

Lemma adjust_heap_perm l : adjust_heap gt l ≡ₚ l.
Proof.
  unfold adjust_heap. pose proof (sink_perm (length l) l 0) as Hs.
  destruct (sink gt (length l) l 0) as [l' i]; simpl in *. by rewrite sift_up_perm.
Qed.

Lemma push_heap_perm l : push_heap gt l ≡ₚ l.
Proof. apply sift_up_perm. Qed.

Lemma removelast_last_eq l y : last l = Some y → l = removelast l ++ [y].
Proof.
  intros [l' ->]%last_Some. by rewrite removelast_last.
Qed.

Lemma pop_heap_perm l : pop_heap gt l ≡ₚ l.
Proof.
  destruct l as [|x tl]; [done|]. unfold pop_heap.
  destruct (last tl) as [y|] eqn:Hl.
  - rewrite (removelast_last_eq _ _ Hl) at 2. rewrite adjust_heap_perm.
    rewrite (Permutation_app_comm (y :: removelast tl)).
    rewrite (Permutation_app_comm (removelast tl)). done.
  - by apply last_None in Hl as ->.
Qed.

Lemma length_adjust_heap l : length (adjust_heap gt l) = length l.
Proof. by rewrite adjust_heap_perm. Qed.

(** The removed element is the front, and it sits at the back. *)
Lemma pop_heap_back x tl :
  ∃ l', pop_heap gt (x :: tl) = l' ++ [x] ∧ l' ≡ₚ tl.
Proof.
  unfold pop_heap. destruct (last tl) as [y|] eqn:Hl.
  - eexists; split; [done|]. rewrite adjust_heap_perm.
    rewrite (removelast_last_eq _ _ Hl) at 2.
    by rewrite Permutation_app_comm.
  - apply last_None in Hl as ->. by exists [].
Qed.
End Perm.

(** ** The heap shape is kept *)
Section Shape.
Context {A : Type} (gt : A → A → bool) `{!StrictWeak gt}.
Implicit Types l : list A.

Abbreviation le x y := (gt x y = false).

Lemma le_refl x : le x x.
Proof. destruct (gt x x) eqn:E; [|done]. by rewrite (gt_asym x x E) in E. Qed.

Lemma parent_lt i : 0 < i → parent i < i.
Proof. unfold parent. intros. pose proof (Nat.div_mod_eq (i - 1) 2). lia. Qed.

Lemma parent_child i j : 0 < j → parent j = i ↔ j = 2 * (i + 1) - 1 ∨ j = 2 * (i + 1).
Proof.
  unfold parent. intros. pose proof (Nat.div_mod_eq (j - 1) 2).
  pose proof (Nat.mod_upper_bound (j - 1) 2). lia.
Qed.

(** [hole_at l i]: the heap condition may fail only on the edges at [i], and
    the parent of [i] is still below the children of [i]. *)
Definition hole_at l i : Prop :=
  (∀ j p x, 0 < j → j ≠ i → parent j ≠ i →
     l !! parent j = Some p → l !! j = Some x → le p x) ∧
  (∀ j p x, 0 < j → parent j = i → 0 < i →
     l !! parent i = Some p → l !! j = Some x → le p x).

Definition below_children l i : Prop :=
  ∀ j p x, 0 < j → parent j = i → l !! i = Some p → l !! j = Some x → le p x.

Lemma sift_up_heap fuel l i :
  i ≤ fuel → i < length l → hole_at l i → below_children l i →
  is_heap gt (sift_up gt fuel l i).
Proof.
  revert l i. induction fuel as [|fuel IH]; intros l i Hf Hi [Ho Hg] Hb; simpl.
  { intros j p x Hj Hp Hx. assert (i = 0) as -> by lia.
    destruct (decide (parent j = 0)) as [E|]; [|by eapply (Ho j); eauto; lia].
    rewrite E in Hp. by eapply (Hb j). }
  destruct (Nat.eqb_spec i 0) as [->|Hi0].
  { intros j p x Hj Hp Hx. destruct (decide (parent j = 0)) as [E|].
    - rewrite E in Hp. by eapply (Hb j).
    - eapply (Ho j); eauto; lia. }
  pose proof (parent_lt i ltac:(lia)) as Hlt.
  destruct (lookup_lt_is_Some_2 l i Hi) as [x Hx].
  destruct (lookup_lt_is_Some_2 l (parent i) ltac:(lia)) as [p Hp].
  rewrite Hp, Hx. destruct (gt p x) eqn:Hgt.
  2: { intros j q y Hj Hq Hy. destruct (decide (j = i)) as [->|].
       { by simplify_eq. }
       destruct (decide (parent j = i)) as [E|]; [rewrite E in Hq; by eapply (Hb j)|].
       by eapply (Ho j). }
  apply gt_asym in Hgt.
  apply IH; [lia|rewrite length_swap; lia| |].
  - split.
    + intros j q y Hj Hj1 Hj2. rewrite !swap_lookup by lia.
      repeat case_decide; simplify_eq; try lia; try congruence; intros Hq Hy.
      * rewrite Hp in Hq. simplify_eq. eapply (Hg j); eauto; lia.
      * by eapply (Ho j).
    + intros j q y Hj Hjp Hp0. pose proof (parent_lt (parent i) Hp0).
      rewrite !swap_lookup by lia.
      repeat case_decide; simplify_eq; try lia; intros Hq Hy.
      * rewrite Hp in Hy. simplify_eq. eapply (Ho (parent i)); eauto; lia.
      * eapply gt_negtrans; [eapply (Ho (parent i)); eauto; lia|].
        rewrite <- Hjp in Hp. eapply (Ho j); eauto; lia.
  - intros j q y Hj Hjp. rewrite !swap_lookup by lia.
    repeat case_decide; simplify_eq; try lia; intros Hq Hy; simplify_eq.
    + done.
    + apply le_refl.
    + eapply gt_negtrans; [exact Hgt|].
      rewrite <- Hjp in Hp. eapply (Ho j); eauto; lia.
Qed.

Lemma sink_hole fuel l i :
  length l ≤ i + fuel → i < length l → hole_at l i →
  let '(l', i') := sink gt fuel l i in
  i' < length l' ∧ length l' = length l ∧ hole_at l' i' ∧ below_children l' i'.
Proof.
  revert l i. induction fuel as [|fuel IH]; intros l i Hf Hi [Ho Hg]; [lia|].
  cbn -[Nat.mul]. set (s := 2 * (i + 1)).
  assert (Hstep : ∀ c y, 0 < c → parent c = i → l !! c = Some y →
    (∀ j z, 0 < j → parent j = i → j ≠ c → l !! j = Some z → le y z) →
    hole_at (swap l i c) c).
  { intros c y Hc Hpc Hy Hpref. pose proof (parent_lt c Hc).
    pose proof (lookup_lt_Some _ _ _ Hy). split.
    - intros j p x Hj Hj1 Hj2. rewrite !swap_lookup by lia.
      repeat case_decide; simplify_eq; try lia; intros Hp Hx; simplify_eq.
      + apply le_refl.
      + eapply (Hpref j); eauto.
      + eapply (Hg c); eauto; lia.
      + by eapply (Ho j).
    - intros j p x Hj Hjc Hc0. pose proof (parent_lt j Hj). rewrite Hpc.
      rewrite !swap_lookup by lia.
      repeat case_decide; simplify_eq; try lia; intros Hp Hx; simplify_eq.
      eapply (Ho j); eauto; lia. }
  destruct (l !! (s - 1)) as [a|] eqn:Ha.
  2: { repeat split; eauto. intros j p x Hj Hji Hp Hx.
       apply parent_child in Hji; [|done]. apply lookup_ge_None in Ha.
       apply lookup_lt_Some in Hx. lia. }
  assert (parent (s - 1) = i) by (apply parent_child; lia).
  assert (parent s = i) by (apply parent_child; lia).
  destruct (l !! s) as [b|] eqn:Hb.
  - set (c := if gt b a then s - 1 else s).
    pose proof (lookup_lt_Some _ _ _ Hb). pose proof (lookup_lt_Some _ _ _ Ha).
    specialize (IH (swap l i c) c). rewrite length_swap in IH.
    apply IH; try (unfold c; destruct (gt b a); lia).
    unfold c. destruct (gt b a) eqn:Hgt.
    + eapply Hstep; eauto; [lia|]. intros j z Hj Hji Hne Hz.
      apply parent_child in Hji; [|done]. assert (j = s) as -> by lia.
      simplify_eq. by apply gt_asym.
    + eapply Hstep; eauto; [lia|]. intros j z Hj Hji Hne Hz.
      apply parent_child in Hji; [|done]. assert (j = s - 1) as -> by lia.
      by simplify_eq.
  - pose proof (lookup_lt_Some _ _ _ Ha). apply lookup_ge_None in Hb.
    rewrite !length_swap. repeat split; try lia; try eapply Hstep; eauto; try lia.
    + intros j z Hj Hji Hne Hz. apply parent_child in Hji; [|done].
      apply lookup_lt_Some in Hz. lia.
    + intros j z Hj Hji Hne Hz. apply parent_child in Hji; [|done].
      apply lookup_lt_Some in Hz. lia.
    + intros j p x Hj Hji Hp Hx. apply parent_child in Hji; [|done].
      apply lookup_lt_Some in Hx. rewrite length_swap in Hx. lia.
Qed.

Lemma adjust_heap_heap l : hole_at l 0 → is_heap gt (adjust_heap gt l).
Proof.
  intros Hh. unfold adjust_heap. destruct (decide (l = [])) as [->|Hne].
  { intros i p x ???. done. }
  assert (0 < length l) by (destruct l; simpl; [done|lia]).
  pose proof (sink_hole (length l) l 0 ltac:(lia) ltac:(lia) Hh) as Hs.
  destruct (sink gt (length l) l 0) as [l' i]. destruct Hs as (?&Hlen&?&?).
  apply sift_up_heap; auto. lia.
Qed.

Lemma is_heap_app_l l k : is_heap gt (l ++ k) → is_heap gt l.
Proof. intros Hh i p x Hi Hp Hx. eapply (Hh i); eauto using lookup_app_l_Some. Qed.

Lemma is_heap_nil : is_heap gt [].
Proof. by intros i p x ??. Qed.

Lemma push_heap_heap l x : is_heap gt l → is_heap gt (push_heap gt (l ++ [x])).
Proof.
  intros Hh. unfold push_heap. rewrite length_app. simpl.
  replace (length l + 1 - 1) with (length l) by lia.
  apply sift_up_heap; [lia|rewrite length_app; simpl; lia| |].
  - split.
    + intros j p y Hj Hjl Hjp Hp Hy.
      assert (j < length l).
      { apply lookup_lt_Some in Hy. rewrite length_app in Hy. simpl in Hy. lia. }
      pose proof (parent_lt j Hj).
      rewrite lookup_app_l in Hp, Hy by lia. by eapply (Hh j).
    + intros j p y Hj Hjp _ _ Hy%lookup_lt_Some.
      rewrite length_app in Hy. simpl in Hy. pose proof (parent_lt j Hj). lia.
  - intros j p y Hj Hjp _ Hy%lookup_lt_Some.
    rewrite length_app in Hy. simpl in Hy. pose proof (parent_lt j Hj). lia.
Qed.

Lemma hole_at_head x y tl : is_heap gt (x :: tl) → hole_at (y :: tl) 0.
Proof.
  intros Hh. split; [|lia].
  intros [|j] p z Hj _ Hjp Hp Hz; [lia|].
  destruct (parent (S j)) as [|k] eqn:E; [done|].
  eapply (Hh (S j)); eauto. by rewrite E.
Qed.

Lemma pop_heap_heap x tl :
  is_heap gt (x :: tl) → is_heap gt (removelast (pop_heap gt (x :: tl))).
Proof.
  intros Hh. unfold pop_heap. destruct (last tl) as [y|] eqn:Hl.
  - rewrite removelast_last. apply adjust_heap_heap.
    rewrite (removelast_last_eq _ _ Hl), app_comm_cons in Hh.
    eapply hole_at_head, is_heap_app_l, Hh.
  - apply is_heap_nil.
Qed.

(** The front of a heap is minimal. *)
Lemma heap_front_le x tl i y :
  is_heap gt (x :: tl) → (x :: tl) !! i = Some y → le x y.
Proof.
  intros Hh. revert y. induction i as [i IH] using lt_wf_ind. intros y Hy.
  destruct (decide (i = 0)) as [->|Hi].
  { simpl in Hy. simplify_eq. apply le_refl. }
  pose proof (parent_lt i ltac:(lia)).
  destruct (lookup_lt_is_Some_2 (x :: tl) (parent i)) as [p Hp].
  { apply lookup_lt_Some in Hy. lia. }
  eapply gt_negtrans; [by apply (IH (parent i))|]. eapply (Hh i); eauto. lia.
Qed.
End Shape.
