(* ===== verification/NetDestModel.v ===== *)
(** * Destination sets: [Set] and [NetDest]

    Models src/gem5/src/mem/ruby/common/Set.hh (a fixed-width bit set) and
    common/NetDest.hh, NetDest.cc (one [Set] per machine type).  The
    enumeration of machine types and the functions [MachineType_base_*] are
    generated by SLICC at build time; they are the class [MachineTypes], and
    what the generator (mem/slicc/symbols/Type.py) guarantees of them is
    [MachineTypesSpec]. *)

From S2P Require Import Prelude.

Class MachineTypes := {
  MachineType_NUM : Z;
  MachineType_base_level : Z → Z;
  MachineType_from_base_level : Z → Z;
  MachineType_base_number : Z → Z;
  MachineType_base_count : Z → Z;
}.

Class MachineTypesSpec (MT : MachineTypes) : Prop := {
  mt_num_pos : 0 < MachineType_NUM;
  mt_level m : 0 ≤ m ≤ MachineType_NUM → MachineType_base_level m = m;
  mt_from_level m : 0 ≤ m < MachineType_NUM → MachineType_from_base_level m = m;
  mt_number_0 : MachineType_base_number 0 = 0;
  mt_number_S m : 0 ≤ m < MachineType_NUM →
    MachineType_base_number (m + 1) = MachineType_base_number m + MachineType_base_count m;
  mt_count_nonneg m : 0 ≤ m < MachineType_NUM → 0 ≤ MachineType_base_count m;
}.

Record MachineID := mkMachineID { mid_type : Z; mid_num : Z }.

(** ** [Set] *)
Definition NUMBER_BITS_PER_SET : Z := 256.

Record BitSet := mkBitSet { set_m_nSize : Z; set_bits : Z }.
#[export] Instance eta_BitSet : Eta BitSet := λ s, mkBitSet (set_m_nSize s) (set_bits s).

Definition Set_empty : BitSet := mkBitSet 0 0.

(** [std::bitset::set], [reset] and [test] throw outside the set. *)
Definition bit_in_range (index : Z) : outcome () :=
  if (0 <=? index) && (index <? NUMBER_BITS_PER_SET) then Ok tt
  else Abort (Throw "std::out_of_range").

Definition Set_setSize (size : Z) (s : BitSet) : outcome BitSet :=
  if NUMBER_BITS_PER_SET <? size then Abort (Fatal "Increase the number of bits and recompile")
  else Ok (mkBitSet size 0).

Definition Set_add (index : Z) (s : BitSet) : outcome BitSet :=
  bit_in_range index ;; Ok (s <| set_bits ::= λ b, Z.setbit b index |>).

Definition Set_addSet (obj s : BitSet) : outcome BitSet :=
  assertO (set_m_nSize s =? set_m_nSize obj) "Set.hh:86" ;;
  Ok (s <| set_bits ::= λ b, Z.lor b (set_bits obj) |>).

Definition Set_remove (index : Z) (s : BitSet) : outcome BitSet :=
  bit_in_range index ;; Ok (s <| set_bits ::= λ b, Z.clearbit b index |>).

Definition Set_removeSet (obj s : BitSet) : outcome BitSet :=
  assertO (set_m_nSize s =? set_m_nSize obj) "Set.hh:105" ;;
  Ok (s <| set_bits ::= λ b, Z.ldiff b (set_bits obj) |>).

Definition Set_clear (s : BitSet) : BitSet := s <| set_bits := 0 |>.

Definition Set_broadcast (s : BitSet) : BitSet :=
  s <| set_bits := foldl Z.clearbit (Z.ones NUMBER_BITS_PER_SET)
                     (zrange (set_m_nSize s) NUMBER_BITS_PER_SET) |>.

Definition Set_count (s : BitSet) : Z :=
  vsize (filter (λ i, Z.testbit (set_bits s) i = true) (zrange 0 NUMBER_BITS_PER_SET)).

Definition Set_isEqual (obj s : BitSet) : outcome bool :=
  assertO (set_m_nSize s =? set_m_nSize obj) "Set.hh:133" ;;
  Ok (set_bits s =? set_bits obj).

Definition Set_OR (obj s : BitSet) : outcome BitSet :=
  assertO (set_m_nSize s =? set_m_nSize obj) "Set.hh:141" ;;
  Ok (mkBitSet (set_m_nSize s) (Z.lor (set_bits s) (set_bits obj))).

Definition Set_AND (obj s : BitSet) : outcome BitSet :=
  assertO (set_m_nSize s =? set_m_nSize obj) "Set.hh:151" ;;
  Ok (mkBitSet (set_m_nSize s) (Z.land (set_bits s) (set_bits obj))).

Definition Set_intersectionIsEmpty (obj s : BitSet) : bool :=
  Z.land (set_bits s) (set_bits obj) =? 0.

Definition Set_isSuperset (test s : BitSet) : outcome bool :=
  assertO (set_m_nSize s =? set_m_nSize test) "Set.hh:172" ;;
  Ok (Z.lor (set_bits s) (set_bits test) =? set_bits s).

Definition Set_isElement (element : Z) (s : BitSet) : outcome bool :=
  bit_in_range element ;; Ok (Z.testbit (set_bits s) element).

Definition Set_isBroadcast (s : BitSet) : bool := Set_count s =? set_m_nSize s.

Definition Set_isEmpty (s : BitSet) : bool := set_bits s =? 0.

(** First index of [xs] at which a boolean test that may stop holds. *)
Fixpoint find_first {A} (test : A → outcome bool) (xs : list A) : outcome (option A) :=
  match xs with
  | [] => Ok None
  | x :: xs => b ← test x; if (b : bool) then Ok (Some x) else find_first test xs
  end.

Definition Set_smallestElement (s : BitSet) : outcome Z :=
  r ← find_first (λ i, Set_isElement i s) (zrange 0 (set_m_nSize s));
  match r with
  | Some i => Ok i
  | None => Abort (Panic "No smallest element of an empty set.")
  end.

(** ** [NetDest] *)
Record NetDest := mkNetDest { nd_m_bits : list BitSet }.

Definition NetDest_getSize (d : NetDest) : Z := vsize (nd_m_bits d).

(** Apply a fallible update to one component of the vector. *)
Definition vupdO {A} (l : list A) (i : Z) (site : string) (f : A → outcome A)
    : outcome (list A) :=
  a ← vgetO l i site; b ← f a; Ok (vset l i b).

(** Componentwise operation on two destination sets of the same length. *)
Fixpoint zipO {A B C} (f : A → B → outcome C) (l : list A) (k : list B) : outcome (list C) :=
  match l, k with
  | a :: l, b :: k => c ← f a b; cs ← zipO f l k; Ok (c :: cs)
  | _, _ => Ok []
  end.

(** Conjunction with early exit over two vectors. *)
Fixpoint forall2O {A B} (f : A → B → outcome bool) (l : list A) (k : list B) : outcome bool :=
  match l, k with
  | a :: l, b :: k => c ← f a b; if (c : bool) then forall2O f l k else Ok false
  | _, _ => Ok true
  end.

Section NetDest.
Context `{MT : MachineTypes}.

(** [NetDest()] and [resize]. *)
Definition NetDest_resize : outcome NetDest :=
  let n := MachineType_base_level MachineType_NUM in
  assertO (n =? MachineType_NUM) "NetDest.cc:250" ;;
  l ← (fix go (xs : list Z) : outcome (list BitSet) :=
         match xs with
         | [] => Ok []
         | i :: xs =>
             s ← Set_setSize (MachineType_base_count i) Set_empty;
             k ← go xs; Ok (s :: k)
         end) (zrange 0 n);
  Ok (mkNetDest l).

Definition NetDest_vecIndex (m : MachineID) (d : NetDest) : outcome Z :=
  let vec_index := MachineType_base_level (mid_type m) in
  assertO (vec_index <? NetDest_getSize d) "NetDest.hh:102" ;; Ok vec_index.

Definition NetDest_add (m : MachineID) (d : NetDest) : outcome NetDest :=
  i ← NetDest_vecIndex m d;
  s ← vgetO (nd_m_bits d) i "NetDest::m_bits";
  assertO (mid_num m <? set_m_nSize s) "NetDest.cc:41" ;;
  l ← vupdO (nd_m_bits d) i "NetDest::m_bits" (Set_add (mid_num m));
  Ok (mkNetDest l).

Definition NetDest_addNetDest (netDest d : NetDest) : outcome NetDest :=
  assertO (NetDest_getSize d =? NetDest_getSize netDest) "NetDest.cc:48" ;;
  l ← zipO (λ s t, Set_addSet t s) (nd_m_bits d) (nd_m_bits netDest);
  Ok (mkNetDest l).

Definition NetDest_setNetDest (machine : Z) (set : BitSet) (d : NetDest) : outcome NetDest :=
  assertO (MachineType_base_level (machine + 1) - MachineType_base_level machine =? 1)
    "NetDest.cc:58" ;;
  l ← vupdO (nd_m_bits d) (MachineType_base_level machine) "NetDest::m_bits" (λ _, Ok set);
  Ok (mkNetDest l).

Definition NetDest_remove (m : MachineID) (d : NetDest) : outcome NetDest :=
  i ← NetDest_vecIndex m d;
  l ← vupdO (nd_m_bits d) i "NetDest::m_bits" (Set_remove (mid_num m));
  Ok (mkNetDest l).

Definition NetDest_removeNetDest (netDest d : NetDest) : outcome NetDest :=
  assertO (NetDest_getSize d =? NetDest_getSize netDest) "NetDest.cc:72" ;;
  l ← zipO (λ s t, Set_removeSet t s) (nd_m_bits d) (nd_m_bits netDest);
  Ok (mkNetDest l).

Definition NetDest_clear (d : NetDest) : NetDest :=
  mkNetDest (Set_clear <$> nd_m_bits d).

(** [broadcast(machineType)]: every node of one machine type. *)
Definition NetDest_broadcast_machine (machineType : Z) (d : NetDest) : outcome NetDest :=
  foldl (λ acc i, d ← acc; NetDest_add (mkMachineID machineType i) d)
    (Ok d) (zrange 0 (MachineType_base_count machineType)).

(** [broadcast()]: every machine type, from [MachineType_FIRST]. *)
Definition NetDest_broadcast (d : NetDest) : outcome NetDest :=
  foldl (λ acc m, d ← acc; NetDest_broadcast_machine m d)
    (Ok d) (zrange 0 MachineType_NUM).

(** The node numbers of one component of the vector. *)
Definition Set_allDest (base : Z) (s : BitSet) : outcome (list Z) :=
  foldl (λ acc j, dest ← acc; b ← Set_isElement j s;
           Ok (if (b : bool) then dest ++ [base + j] else dest))
    (Ok []) (zrange 0 (set_m_nSize s)).

Definition NetDest_getAllDest (d : NetDest) : outcome (list Z) :=
  foldl (λ acc i, dest ← acc;
           s ← vgetO (nd_m_bits d) i "NetDest::m_bits";
           ds ← Set_allDest (MachineType_base_number i) s;
           Ok (dest ++ ds))
    (Ok []) (zrange 0 (NetDest_getSize d)).

Definition NetDest_count (d : NetDest) : Z :=
  foldl (λ c s, c + Set_count s) 0 (nd_m_bits d).

Definition NetDest_elementAt (m : MachineID) (d : NetDest) : outcome bool :=
  i ← NetDest_vecIndex m d;
  s ← vgetO (nd_m_bits d) i "NetDest::m_bits";
  Ok (Z.testbit (set_bits s) (mid_num m)).

Definition NetDest_smallestElement (d : NetDest) : outcome MachineID :=
  assertO (0 <? NetDest_count d) "NetDest.cc:140" ;;
  (fix go (i : Z) (l : list BitSet) : outcome MachineID :=
     match l with
     | [] => Abort (Panic "No smallest element of an empty set.")
     | s :: l =>
         r ← find_first (λ j, Set_isElement j s) (zrange 0 (set_m_nSize s));
         match r with
         | Some j => Ok (mkMachineID (MachineType_from_base_level i) j)
         | None => go (i + 1) l
         end
     end) 0 (nd_m_bits d).

Definition NetDest_smallestElement_of (machine : Z) (d : NetDest) : outcome MachineID :=
  s ← vgetO (nd_m_bits d) (MachineType_base_level machine) "NetDest::m_bits";
  r ← find_first (λ j, Set_isElement j s) (zrange 0 (set_m_nSize s));
  match r with
  | Some j => Ok (mkMachineID machine j)
  | None => Abort (Panic "No smallest element of given MachineType.")
  end.

Definition NetDest_isBroadcast (d : NetDest) : bool :=
  forallb Set_isBroadcast (nd_m_bits d).

Definition NetDest_isEmpty (d : NetDest) : bool :=
  forallb Set_isEmpty (nd_m_bits d).

(** The result of [OR] and [AND] starts as a fresh, resized [NetDest]. *)
Definition NetDest_OR (orNetDest d : NetDest) : outcome NetDest :=
  assertO (NetDest_getSize d =? NetDest_getSize orNetDest) "NetDest.cc:194" ;;
  result ← NetDest_resize;
  l ← zipO (λ s t, Set_OR t s) (nd_m_bits d) (nd_m_bits orNetDest);
  inrangeO (NetDest_getSize d <=? NetDest_getSize result) "NetDest::m_bits" ;;
  Ok (mkNetDest (l ++ drop (length l) (nd_m_bits result))).

Definition NetDest_AND (andNetDest d : NetDest) : outcome NetDest :=
  assertO (NetDest_getSize d =? NetDest_getSize andNetDest) "NetDest.cc:206" ;;
  result ← NetDest_resize;
  l ← zipO (λ s t, Set_AND t s) (nd_m_bits d) (nd_m_bits andNetDest);
  inrangeO (NetDest_getSize d <=? NetDest_getSize result) "NetDest::m_bits" ;;
  Ok (mkNetDest (l ++ drop (length l) (nd_m_bits result))).

Definition NetDest_intersectionIsNotEmpty (other d : NetDest) : outcome bool :=
  assertO (NetDest_getSize d =? NetDest_getSize other) "NetDest.cc:218" ;;
  Ok (existsb (λ p, negb (Set_intersectionIsEmpty (snd p) (fst p)))
        (zip (nd_m_bits d) (nd_m_bits other))).

Definition NetDest_isSuperset (test d : NetDest) : outcome bool :=
  assertO (NetDest_getSize d =? NetDest_getSize test) "NetDest.cc:230" ;;
  forall2O (λ s t, Set_isSuperset t s) (nd_m_bits d) (nd_m_bits test).

Definition NetDest_isElement (m : MachineID) (d : NetDest) : outcome bool :=
  i ← NetDest_vecIndex m d;
  s ← vgetO (nd_m_bits d) i "NetDest::m_bits";
  Set_isElement (mid_num m) s.

Definition NetDest_isEqual (n d : NetDest) : outcome bool :=
  assertO (NetDest_getSize d =? NetDest_getSize n) "NetDest.cc:274" ;;
  forall2O (λ s t, Set_isEqual t s) (nd_m_bits d) (nd_m_bits n).
End NetDest.
