(* ===== verification/AddrRangeModel.v ===== *)
(** * Address ranges

    Models src/gem5/src/base/addr_range.hh (class [AddrRange]) with the bit
    field functions of base/bitfield.hh.  [Addr] is a 64-bit and the
    interleaving fields are 8-bit unsigned integers; the wrap-around is
    written out. *)

From S2P Require Import Prelude.

Definition u64 (x : Z) : Z := x mod 2 ^ 64.
Definition u32 (x : Z) : Z := x mod 2 ^ 32.
Definition u8 (x : Z) : Z := x mod 2 ^ 8.
Definition MaxAddr : Z := 2 ^ 64 - 1.

(** ** base/bitfield.hh *)
Definition mask (nbits : Z) : Z :=
  if nbits =? 64 then 2 ^ 64 - 1 else u64 (u64 (Z.shiftl 1 nbits) - 1).

Definition bits (val first last : Z) : Z :=
  let nbits := first - last + 1 in
  Z.land (Z.shiftr val last) (mask nbits).

Definition insertBits (val first last bit_val : Z) : Z :=
  let bmask := u64 (Z.shiftl (mask (first - last + 1)) last) in
  Z.lor (Z.land (u64 (Z.shiftl bit_val last)) bmask) (Z.land val (u64 (Z.lnot bmask))).

(** ** Class [AddrRange] *)
Record AddrRange := mkAddrRange {
  ar_start : Z;
  ar_end : Z;
  ar_intlvHighBit : Z;
  ar_xorHighBit : Z;
  ar_intlvBits : Z;
  ar_intlvMatch : Z;
}.

Definition AddrRange_default : AddrRange := mkAddrRange 1 0 0 0 0 0.
Definition AddrRange_plain (start end_ : Z) : AddrRange := mkAddrRange start end_ 0 0 0 0.

Definition AddrRange_ctor (start end_ intlv_high_bit xor_high_bit intlv_bits intlv_match : Z)
    : outcome AddrRange :=
  let r := mkAddrRange start end_ (u8 intlv_high_bit) (u8 xor_high_bit) (u8 intlv_bits)
             (u8 intlv_match) in
  if negb (ar_intlvBits r =? 0) && (Z.shiftl 1 (ar_intlvBits r) <=? ar_intlvMatch r) then
    Abort (Fatal "Match value does not fit in interleaving bits")
  else if negb (ar_intlvBits r =? 0) && negb (ar_xorHighBit r =? 0) then
    if ar_xorHighBit r =? ar_intlvHighBit r then
      Abort (Fatal "XOR and interleave high bit must be different")
    else if ar_intlvHighBit r <? ar_xorHighBit r then
      if ar_xorHighBit r - ar_intlvHighBit r <? ar_intlvBits r then
        Abort (Fatal "XOR and interleave high bit must be at least bits apart")
      else Ok r
    else if ar_intlvHighBit r - ar_xorHighBit r <? ar_intlvBits r then
      Abort (Fatal "Interleave and XOR high bit must be at least bits apart")
    else Ok r
  else Ok r.

Definition interleaved (r : AddrRange) : bool := negb (ar_intlvBits r =? 0).
Definition hashed (r : AddrRange) : bool := interleaved r && negb (ar_xorHighBit r =? 0).

Definition AddrRange_size (r : AddrRange) : Z :=
  Z.shiftr (u64 (ar_end r - ar_start r + 1)) (ar_intlvBits r).

Definition granularity (r : AddrRange) : Z :=
  if interleaved r then
    let intlv_low_bit := u8 (ar_intlvHighBit r - ar_intlvBits r + 1) in
    if hashed r then
      let xor_low_bit := u8 (ar_xorHighBit r - ar_intlvBits r + 1) in
      u64 (Z.shiftl 1 (Z.min intlv_low_bit xor_low_bit))
    else u64 (Z.shiftl 1 intlv_low_bit)
  else AddrRange_size r.

Definition stripes (r : AddrRange) : Z := u32 (u64 (Z.shiftl 1 (ar_intlvBits r))).

Definition AddrRange_valid (r : AddrRange) : bool := ar_start r <=? ar_end r.

Definition mergesWith (this r : AddrRange) : bool :=
  (ar_start r =? ar_start this) && (ar_end r =? ar_end this) &&
  (ar_intlvHighBit r =? ar_intlvHighBit this) && (ar_xorHighBit r =? ar_xorHighBit this) &&
  (ar_intlvBits r =? ar_intlvBits this).

(** The constructor that merges a collection of interleaved ranges: the loop
    checks that the match values count up from 0. *)
Fixpoint merge_check (this : AddrRange) (ranges : list AddrRange) (mtch : Z) : outcome () :=
  match ranges with
  | [] => Ok tt
  | r :: rest =>
      if negb (mergesWith this r) then
        Abort (Fatal "Can only merge ranges with the same start, end and interleaving bits")
      else if negb (ar_intlvMatch r =? mtch) then
        Abort (Fatal "Expected interleave match when merging")
      else merge_check this rest (u8 (mtch + 1))
  end.

Definition AddrRange_merge (ranges : list AddrRange) : outcome AddrRange :=
  match ranges with
  | [] => Ok AddrRange_default
  | front :: _ =>
      let this := mkAddrRange (ar_start front) (ar_end front) (ar_intlvHighBit front)
                    (ar_xorHighBit front) (ar_intlvBits front) 0 in
      if negb (Z.of_nat (length ranges) =? u64 (Z.shiftl 1 (ar_intlvBits this))) then
        Abort (Fatal "Got ranges spanning interleaving bits")
      else
        _ ← merge_check this ranges 0;
        Ok (mkAddrRange (ar_start this) (ar_end this) 0 0 0 0)
  end.

Definition contains (r : AddrRange) (a : Z) : bool :=
  let in_range := (ar_start r <=? a) && (a <=? ar_end r) in
  let low := ar_intlvHighBit r - ar_intlvBits r + 1 in
  if negb (interleaved r) then in_range
  else if in_range then
    if negb (hashed r) then bits a (ar_intlvHighBit r) low =? ar_intlvMatch r
    else
      Z.lxor (bits a (ar_intlvHighBit r) low)
             (bits a (ar_xorHighBit r) (ar_xorHighBit r - ar_intlvBits r + 1)) =? ar_intlvMatch r
  else false.

Definition intersects (this r : AddrRange) : outcome bool :=
  if (ar_end r <? ar_start this) || (ar_end this <? ar_start r) then Ok false
  else if negb (interleaved this) && negb (interleaved r) then Ok true
  else if AddrRange_size r =? 1 then Ok (contains this (ar_start r))
  else if mergesWith this r then Ok (ar_intlvMatch this =? ar_intlvMatch r)
  else Abort (Panic "Cannot test intersection").

Definition isSubset (this r : AddrRange) : outcome bool :=
  if interleaved this then Abort (Panic "Cannot test subset of interleaved range")
  else if interleaved r then
    Ok (contains r (ar_start this) && contains r (ar_end this) &&
        (AddrRange_size this <=? granularity r))
  else Ok ((ar_start r <=? ar_start this) && (ar_end this <=? ar_end r)).

Definition removeIntlvBits (r : AddrRange) (a : Z) : Z :=
  let intlv_low_bit := ar_intlvHighBit r - ar_intlvBits r + 1 in
  insertBits (Z.shiftr a (ar_intlvBits r)) (intlv_low_bit - 1) 0 a.

Definition getOffset (r : AddrRange) (a : Z) : Z :=
  let in_range := (ar_start r <=? a) && (a <=? ar_end r) in
  if negb in_range then MaxAddr
  else if interleaved r then u64 (removeIntlvBits r a - removeIntlvBits r (ar_start r))
  else u64 (a - ar_start r).

Definition AddrRange_lt (this r : AddrRange) : bool :=
  if negb (ar_start this =? ar_start r) then ar_start this <? ar_start r
  else ar_intlvMatch this <? ar_intlvMatch r.

Definition AddrRange_eq (this r : AddrRange) : bool :=
  if negb (ar_start this =? ar_start r) then false
  else if negb (ar_end this =? ar_end r) then false
  else if negb (ar_intlvBits this =? ar_intlvBits r) then false
  else if negb (ar_intlvBits this =? 0) then
    if negb (ar_intlvHighBit this =? ar_intlvHighBit r) then false
    else ar_intlvMatch this =? ar_intlvMatch r
  else true.

Definition RangeEx (start end_ : Z) : AddrRange := AddrRange_plain start (u64 (end_ - 1)).
Definition RangeIn (start end_ : Z) : AddrRange := AddrRange_plain start end_.
Definition RangeSize (start size : Z) : AddrRange := AddrRange_plain start (u64 (start + size - 1)).
