(* ===== verification/NetworkModel.v ===== *)
(** * The base class of the networks

    Models src/gem5/src/mem/ruby/network/Network.hh and Network.cc: the
    registration of the message buffers of the controllers, and the address
    map that turns the address of a request into the node that serves it
    ([AbstractController::mapAddressToMachine]). *)

From S2P Require Import Prelude NetDestModel AddrRangeModel.

(** [AddrMapNode] of Network.hh. *)
Record AddrMapNode := mkAddrMapNode { am_id : Z; am_ranges : list AddrRange }.

(** The data members of [Network] (the topology is in TopologyModel.v).
    [addrMap] is an unordered multimap: the list is the order in which it is
    iterated, of which nothing may be assumed.  A queue is the index of a
    message buffer, [None] the null pointer. *)
Record Network := mkNetwork {
  nw_m_nodes : Z;
  nw_m_virtual_networks : Z;
  nw_m_control_msg_size : Z;
  nw_m_data_msg_size : Z;
  nw_m_vnet_type_names : list string;
  nw_m_toNetQueues : list (list (option Z));
  nw_m_fromNetQueues : list (list (option Z));
  nw_m_ordered : list bool;
  nw_addrMap : list (Z * AddrMapNode);
}.
#[export] Instance eta_Network : Eta Network := λ x,
  mkNetwork (nw_m_nodes x) (nw_m_virtual_networks x) (nw_m_control_msg_size x)
    (nw_m_data_msg_size x) (nw_m_vnet_type_names x) (nw_m_toNetQueues x)
    (nw_m_fromNetQueues x) (nw_m_ordered x) (nw_addrMap x).

(** The entries that the constructor makes, in the order of the external
    links: one for each controller that serves addresses. *)
Definition addrMap_entries (cntrls : list (MachineID * list AddrRange)) : list (Z * AddrMapNode) :=
  omap (λ '(mid, ranges),
          match ranges with
          | [] => None
          | _ => Some (mid_type mid, mkAddrMapNode (mid_num mid) ranges)
          end) cntrls.

Section Network.
Context `{MT : MachineTypes}.

(** [Network::Network]; [order] is how the multimap iterates its entries. *)
Definition Network_ctor (number_of_virtual_networks control_msg_size : Z)
    (cntrls : list (MachineID * list AddrRange))
    (order : list (Z * AddrMapNode) → list (Z * AddrMapNode)) : outcome Network :=
  let nodes := MachineType_base_number MachineType_NUM in
  assertO (negb (nodes =? 0)) "Network.cc:61" ;;
  assertO (negb (number_of_virtual_networks =? 0)) "Network.cc:62" ;;
  let v := Z.to_nat number_of_virtual_networks in
  Ok (mkNetwork nodes number_of_virtual_networks control_msg_size 0 (replicate v ""%string)
        (replicate (Z.to_nat nodes) []) (replicate (Z.to_nat nodes) []) (replicate v false)
        (order (addrMap_entries cntrls))).

Definition Network_init (block_size_bytes : Z) (x : Network) : Network :=
  x <| nw_m_data_msg_size := u32 (block_size_bytes + nw_m_control_msg_size x) |>.

(** The comparison of the signed [network_num] with an unsigned member is
    unsigned. *)
Definition checkNetworkAllocation (id : Z) (ordered : bool) (network_num : Z) (vnet_type : string)
    (x : Network) : outcome Network :=
  if nw_m_nodes x <=? id then Abort (Fatal "Node ID is out of range")
  else if nw_m_virtual_networks x <=? u32 network_num then
    Abort (Fatal "Network id is out of range")
  else
    Ok ((if ordered then x <| nw_m_ordered ::= λ l, vset l network_num true |> else x)
          <| nw_m_vnet_type_names ::= λ l, vset l network_num vnet_type |>).

(** [while (v.size() <= n) v.push_back(nullptr);] *)
Definition grow_to (n : Z) (v : list (option Z)) : list (option Z) :=
  v ++ replicate (Z.to_nat (n + 1 - vsize v)) None.

Definition setToNetQueue (id : Z) (ordered : bool) (network_num : Z) (vnet_type : string) (b : Z)
    (x : Network) : outcome Network :=
  x ← checkNetworkAllocation id ordered network_num vnet_type x;
  q ← vgetO (nw_m_toNetQueues x) id "m_toNetQueues";
  Ok (x <| nw_m_toNetQueues ::=
             λ l, vset l id (vset (grow_to network_num q) network_num (Some b)) |>).

Definition setFromNetQueue (id : Z) (ordered : bool) (network_num : Z) (vnet_type : string) (b : Z)
    (x : Network) : outcome Network :=
  x ← checkNetworkAllocation id ordered network_num vnet_type x;
  q ← vgetO (nw_m_fromNetQueues x) id "m_fromNetQueues";
  Ok (x <| nw_m_fromNetQueues ::=
             λ l, vset l id (vset (grow_to network_num q) network_num (Some b)) |>).

(** The first entry of the type, in the order of iteration, one of whose ranges
    contains the address. *)
Fixpoint find_node (l : list (Z * AddrMapNode)) (addr mtype : Z) : option Z :=
  match l with
  | [] => None
  | (t, node) :: rest =>
      if (t =? mtype) && existsb (λ range, contains range addr) (am_ranges node)
      then Some (am_id node)
      else find_node rest addr mtype
  end.

Definition addressToNodeID (x : Network) (addr mtype : Z) : Z :=
  match find_node (nw_addrMap x) addr mtype with
  | Some id => id
  | None => MachineType_base_count mtype
  end.

Definition mapAddressToMachine (x : Network) (addr mtype : Z) : MachineID :=
  mkMachineID mtype (addressToNodeID x addr mtype).
End Network.
