(* ===== verification/CommonTypes.v ===== *)
(** * Types shared by the Garnet classes

    Models garnet2.0/CommonTypes.hh (enumerations, [RouteInfo]), flit.hh and
    flit.cc (the flit and its accessors), Credit.hh and Credit.cc, the part of
    slicc_interface/Message.hh that the network uses, and the difference of two
    cycle counts of base/types.hh.  Flits, messages
    and flit buffers are heap objects in the program; here they live in finite
    maps indexed by pointers of type [ptr]. *)

From S2P Require Import Prelude NetDestModel.

Abbreviation ptr := nat (only parsing).

(** [Cycles::operator-] throws when the result would be negative. *)
Definition cycles_sub (a b : Z) : outcome Z :=
  if b <=? a then Ok (a - b) else Abort (Throw "RHS cycle value larger than LHS").

(** Directions are strings ([typedef std::string PortDirection]). *)
Abbreviation PortDirection := string (only parsing).

Inductive flit_type := HEAD_ | BODY_ | TAIL_ | HEAD_TAIL_ | NUM_FLIT_TYPE_.
Inductive VC_state_type := IDLE_ | VC_AB_ | ACTIVE_ | NUM_VC_STATE_TYPE_.
Inductive VNET_type := CTRL_VNET_ | DATA_VNET_ | NULL_VNET_ | NUM_VNET_TYPE_.
Inductive flit_stage := I_ | VA_ | SA_ | ST_ | LT_ | NUM_FLIT_STAGE_.
Inductive link_type := EXT_IN_ | EXT_OUT_ | INT_ | NUM_LINK_TYPES_.

#[export] Instance flit_type_eq_dec : EqDecision flit_type.
Proof. solve_decision. Defined.
#[export] Instance VC_state_type_eq_dec : EqDecision VC_state_type.
Proof. solve_decision. Defined.
#[export] Instance VNET_type_eq_dec : EqDecision VNET_type.
Proof. solve_decision. Defined.
#[export] Instance flit_stage_eq_dec : EqDecision flit_stage.
Proof. solve_decision. Defined.
#[export] Instance link_type_eq_dec : EqDecision link_type.
Proof. solve_decision. Defined.

(** [enum RoutingAlgorithm]; the code casts the [int] parameter to it, so the
    enumerators are their integer values. *)
Definition TABLE_ : Z := 0.
Definition XY_ : Z := 1.
Definition RANDOM_ : Z := 2.
Definition ADAPT_RAND_ : Z := 3.
Definition WestFirst_ : Z := 4.
Definition ADAPT_WestFirst_ : Z := 5.
Definition DEFLECTION_ : Z := 6.
Definition CUSTOM_ : Z := 7.

(** [enum when_to_swap] and [enum which_to_swap], compared with [uint32_t]. *)
Definition TDM_ : Z := 1.
Definition _2_TDM_ : Z := 2.
Definition _4_TDM_ : Z := 3.
Definition _8_TDM_ : Z := 4.
Definition _16_TDM_ : Z := 5.
Definition _32_TDM_ : Z := 6.
Definition _64_TDM_ : Z := 7.
Definition _512_TDM_ : Z := 8.
Definition _1024_TDM_ : Z := 9.
Definition _2048_TDM_ : Z := 10.
Definition DISABLE_LOCAL_SWAP_ : Z := 1.
Definition ENABLE_LOCAL_SWAP_ : Z := 2.

Definition INFINITE_ : Z := 10000.

Record RouteInfo := mkRouteInfo {
  ri_vnet : Z;
  ri_net_dest : NetDest;
  ri_src_ni : Z;
  ri_src_router : Z;
  ri_dest_ni : Z;
  ri_dest_router : Z;
  ri_hops_traversed : Z;
}.
#[export] Instance eta_RouteInfo : Eta RouteInfo := λ r,
  mkRouteInfo (ri_vnet r) (ri_net_dest r) (ri_src_ni r) (ri_src_router r)
    (ri_dest_ni r) (ri_dest_router r) (ri_hops_traversed r).

(** ** [flit]

    [m_is_free_signal] is the member that the subclass [Credit] adds; it is
    [None] for a plain flit. *)
Record flit := mkFlit {
  fl_m_id : Z;
  fl_m_vnet : Z;
  fl_m_vc : Z;
  fl_m_outvc : Z;
  fl_routedSwap : bool;
  fl_m_route : RouteInfo;
  fl_m_size : Z;
  fl_m_enqueue_time : Z;
  fl_m_dequeue_time : Z;
  fl_m_time : Z;
  fl_m_type : flit_type;
  fl_m_msg_ptr : option ptr;
  fl_m_outport : Z;
  fl_m_outport_dir : PortDirection;
  fl_src_delay : Z;
  fl_m_stage : flit_stage * Z;
  fl_m_is_free_signal : option bool;
}.
#[export] Instance eta_flit : Eta flit := λ f,
  mkFlit (fl_m_id f) (fl_m_vnet f) (fl_m_vc f) (fl_m_outvc f) (fl_routedSwap f)
    (fl_m_route f) (fl_m_size f) (fl_m_enqueue_time f) (fl_m_dequeue_time f)
    (fl_m_time f) (fl_m_type f) (fl_m_msg_ptr f) (fl_m_outport f)
    (fl_m_outport_dir f) (fl_src_delay f) (fl_m_stage f) (fl_m_is_free_signal f).

(** [flit::flit]: members that the constructor leaves unset ([m_outport],
    [m_outport_dir], [src_delay]) are zero here. *)
Definition flit_ctor (id vc vnet : Z) (route : RouteInfo) (size : Z)
    (msg_ptr : option ptr) (curTime : Z) : flit :=
  mkFlit id vnet vc (-1) false route size curTime curTime curTime
    (if size =? 1 then HEAD_TAIL_
     else if id =? 0 then HEAD_
     else if id =? size - 1 then TAIL_
     else BODY_)
    msg_ptr 0 "" 0 (I_, curTime) None.

Definition flit_increment_hops (f : flit) : flit :=
  f <| fl_m_route ::= λ r, r <| ri_hops_traversed ::= Z.succ |> |>.

Definition flit_is_stage (stage : flit_stage) (time : Z) (f : flit) : bool :=
  bool_decide (stage = fst (fl_m_stage f)) && (snd (fl_m_stage f) <=? time).

Definition flit_advance_stage (t_stage : flit_stage) (newTime : Z) (f : flit) : flit :=
  f <| fl_m_stage := (t_stage, newTime) |>.

Definition flit_greater (n1 n2 : flit) : bool :=
  if fl_m_time n1 =? fl_m_time n2 then fl_m_id n2 <? fl_m_id n1
  else fl_m_time n2 <? fl_m_time n1.

(** [flit_type] of a flit that opens / closes a packet. *)
Definition is_head (f : flit) : bool :=
  bool_decide (fl_m_type f = HEAD_) || bool_decide (fl_m_type f = HEAD_TAIL_).
Definition is_tail (f : flit) : bool :=
  bool_decide (fl_m_type f = TAIL_) || bool_decide (fl_m_type f = HEAD_TAIL_).

(** ** [Credit]: a flit that carries only a VC number, a time and the free
    signal; the other members are left unset by the constructor. *)
Definition Credit_ctor (vc : Z) (is_free_signal : bool) (curTime : Z) : flit :=
  mkFlit 0 0 vc 0 false (mkRouteInfo 0 (mkNetDest []) 0 0 0 0 0) 0 0 0 curTime
    HEAD_ None 0 "" 0 (I_, 0) (Some is_free_signal).

Definition Credit_is_free_signal (c : flit) : bool :=
  match fl_m_is_free_signal c with Some b => b | None => false end.

(** ** [Message] *)
(** The enumerators that [Network::MessageSizeType_to_int] distinguishes
    ([mem/protocol/MessageSizeType.hh] is generated). *)
Inductive MessageSizeType :=
  | MessageSizeType_Control
  | MessageSizeType_Request_Control
  | MessageSizeType_Reissue_Control
  | MessageSizeType_Response_Control
  | MessageSizeType_Writeback_Control
  | MessageSizeType_Broadcast_Control
  | MessageSizeType_Multicast_Control
  | MessageSizeType_Forwarded_Control
  | MessageSizeType_Invalidate_Control
  | MessageSizeType_Unblock_Control
  | MessageSizeType_Persistent_Control
  | MessageSizeType_Completion_Control
  | MessageSizeType_Data
  | MessageSizeType_Response_Data
  | MessageSizeType_ResponseLocal_Data
  | MessageSizeType_ResponseL2hit_Data
  | MessageSizeType_Writeback_Data
  | MessageSizeType_NUM.

#[export] Instance MessageSizeType_eq_dec : EqDecision MessageSizeType.
Proof. solve_decision. Defined.

(** The size types, numbered to make them keys of a map. *)
Definition MessageSizeType_list : list MessageSizeType :=
  [MessageSizeType_Control; MessageSizeType_Request_Control; MessageSizeType_Reissue_Control;
   MessageSizeType_Response_Control; MessageSizeType_Writeback_Control;
   MessageSizeType_Broadcast_Control; MessageSizeType_Multicast_Control;
   MessageSizeType_Forwarded_Control; MessageSizeType_Invalidate_Control;
   MessageSizeType_Unblock_Control; MessageSizeType_Persistent_Control;
   MessageSizeType_Completion_Control; MessageSizeType_Data; MessageSizeType_Response_Data;
   MessageSizeType_ResponseLocal_Data; MessageSizeType_ResponseL2hit_Data;
   MessageSizeType_Writeback_Data].
#[export] Instance MessageSizeType_countable : Countable MessageSizeType.
Proof.
  refine (inj_countable' (λ t, default 17%nat (fst <$> list_find (t =.) MessageSizeType_list))
            (λ n, default MessageSizeType_NUM (MessageSizeType_list !! n)) _).
  by intros [].
Defined.

Record Message := mkMessage {
  msg_m_time : Z;
  msg_m_LastEnqueueTime : Z;
  msg_m_DelayedTicks : Z;
  msg_m_msg_counter : Z;
  msg_Destination : NetDest;
  msg_MessageSize : MessageSizeType;
  msg_payload : Z;
}.
#[export] Instance eta_Message : Eta Message := λ m,
  mkMessage (msg_m_time m) (msg_m_LastEnqueueTime m) (msg_m_DelayedTicks m)
    (msg_m_msg_counter m) (msg_Destination m) (msg_MessageSize m) (msg_payload m).

Definition Message_updateDelayedTicks (curTime : Z) (m : Message) : outcome Message :=
  assertO (msg_m_LastEnqueueTime m <=? curTime) "Message.hh:82" ;;
  Ok (m <| msg_m_DelayedTicks ::= λ d, d + (curTime - msg_m_LastEnqueueTime m) |>).

(** [operator>(MsgPtr, MsgPtr)]. *)
Definition Message_greater (l r : Message) : bool :=
  if msg_m_LastEnqueueTime l =? msg_m_LastEnqueueTime r
  then msg_m_msg_counter r <? msg_m_msg_counter l
  else msg_m_LastEnqueueTime r <? msg_m_LastEnqueueTime l.

(** ** Lemmas *)

Lemma flit_ctor_single id vc vnet route msg t :
  is_head (flit_ctor id vc vnet route 1 msg t) = true ∧
  is_tail (flit_ctor id vc vnet route 1 msg t) = true.
Proof. done. Qed.

Lemma flit_greater_asym x y : flit_greater x y = true → flit_greater y x = false.
Proof.
  unfold flit_greater.
  destruct (Z.eqb_spec (fl_m_time x) (fl_m_time y)), (Z.eqb_spec (fl_m_time y) (fl_m_time x)); lia.
Qed.

Lemma flit_greater_negtrans x y z :
  flit_greater x y = false → flit_greater y z = false → flit_greater x z = false.
Proof.
  unfold flit_greater.
  repeat match goal with |- context [?a =? ?b] => destruct (Z.eqb_spec a b) end; lia.
Qed.
