(* ===== verification/GarnetState.v ===== *)
(** * The state of the simulated network

    One record per class of garnet2.0 and of network/simple, with the class's
    data members, and the record [GNet] for the whole network ([GarnetNetwork]
    or [SimpleNetwork] together with the objects it reaches).  Routers, links and network interfaces are identified
    by their index in the vectors of [GarnetNetwork]; input and output units
    and virtual channels by their index in the owning object.  Flits, flit
    buffers and messages are shared by pointer in the program (an output
    unit's buffer is the source queue of a link, a flit is reachable from the
    buffer that holds it and from local variables), so they live in the maps
    [net_flits], [net_fbufs] and [net_msgs].

    Counters of type [double] and [Stats::Scalar] that only count events are
    integers.  [Cycles] and [Tick] are 64-bit counters of simulated time,
    modelled as integers. *)

From Stdlib Require Import Floats.SpecFloat.
From S2P Require Import Prelude NetDestModel CommonTypes.

(** flitBuffer.hh: a heap of flit pointers. *)
Record flitBuffer := mkFlitBuffer {
  fb_m_buffer : list ptr;
  fb_max_size : Z;
}.
#[export] Instance eta_flitBuffer : Eta flitBuffer := λ x,
  mkFlitBuffer (fb_m_buffer x) (fb_max_size x).

(** VirtualChannel.hh. *)
Record VirtualChannel := mkVirtualChannel {
  vc_m_id : Z;
  vc_m_input_buffer : ptr;
  vc_m_vc_state : VC_state_type * Z;
  vc_m_output_port : Z;
  vc_m_enqueue_time : Z;
  vc_m_output_vc : Z;
}.
#[export] Instance eta_VirtualChannel : Eta VirtualChannel := λ x,
  mkVirtualChannel (vc_m_id x) (vc_m_input_buffer x) (vc_m_vc_state x)
    (vc_m_output_port x) (vc_m_enqueue_time x) (vc_m_output_vc x).

(** OutVcState.hh. *)
Record OutVcState := mkOutVcState {
  ov_m_id : Z;
  ov_m_time : Z;
  ov_m_vc_state : VC_state_type;
  ov_m_credit_count : Z;
  ov_m_max_credit_count : Z;
}.
#[export] Instance eta_OutVcState : Eta OutVcState := λ x,
  mkOutVcState (ov_m_id x) (ov_m_time x) (ov_m_vc_state x) (ov_m_credit_count x)
    (ov_m_max_credit_count x).

(** InputUnit.hh.  Links are indices into [net_links]. *)
Record InputUnit := mkInputUnit {
  iu_m_vcs : list VirtualChannel;
  iu_m_id : Z;
  iu_m_direction : PortDirection;
  iu_m_num_vcs : Z;
  iu_m_vc_per_vnet : Z;
  iu_m_in_link : Z;
  iu_m_credit_link : Z;
  iu_creditQueue : ptr;
  iu_m_num_buffer_writes : list Z;
  iu_m_num_buffer_reads : list Z;
}.
#[export] Instance eta_InputUnit : Eta InputUnit := λ x,
  mkInputUnit (iu_m_vcs x) (iu_m_id x) (iu_m_direction x) (iu_m_num_vcs x)
    (iu_m_vc_per_vnet x) (iu_m_in_link x) (iu_m_credit_link x) (iu_creditQueue x)
    (iu_m_num_buffer_writes x) (iu_m_num_buffer_reads x).

(** OutputUnit.hh. *)
Record OutputUnit := mkOutputUnit {
  ou_m_out_link : Z;
  ou_m_outvc_state : list OutVcState;
  ou_m_id : Z;
  ou_m_direction : PortDirection;
  ou_m_num_vcs : Z;
  ou_m_vc_per_vnet : Z;
  ou_m_credit_link : Z;
  ou_m_out_buffer : ptr;
}.
#[export] Instance eta_OutputUnit : Eta OutputUnit := λ x,
  mkOutputUnit (ou_m_out_link x) (ou_m_outvc_state x) (ou_m_id x) (ou_m_direction x)
    (ou_m_num_vcs x) (ou_m_vc_per_vnet x) (ou_m_credit_link x) (ou_m_out_buffer x).

(** SwitchAllocator.hh; requests and winners are indexed [outport][inport]. *)
Record SwitchAllocator := mkSwitchAllocator {
  sa_m_num_inports : Z;
  sa_m_num_outports : Z;
  sa_m_num_vcs : Z;
  sa_m_vc_per_vnet : Z;
  sa_m_input_arbiter_activity : Z;
  sa_m_output_arbiter_activity : Z;
  sa_m_round_robin_invc : list Z;
  sa_m_round_robin_inport : list Z;
  sa_m_port_requests : list (list bool);
  sa_m_vc_winners : list (list Z);
}.
#[export] Instance eta_SwitchAllocator : Eta SwitchAllocator := λ x,
  mkSwitchAllocator (sa_m_num_inports x) (sa_m_num_outports x) (sa_m_num_vcs x)
    (sa_m_vc_per_vnet x) (sa_m_input_arbiter_activity x)
    (sa_m_output_arbiter_activity x) (sa_m_round_robin_invc x)
    (sa_m_round_robin_inport x) (sa_m_port_requests x) (sa_m_vc_winners x).

(** CrossbarSwitch.hh. *)
Record CrossbarSwitch := mkCrossbarSwitch {
  xb_m_num_vcs : Z;
  xb_m_num_inports : Z;
  xb_m_crossbar_activity : Z;
  xb_m_switch_buffer : list ptr;
}.
#[export] Instance eta_CrossbarSwitch : Eta CrossbarSwitch := λ x,
  mkCrossbarSwitch (xb_m_num_vcs x) (xb_m_num_inports x) (xb_m_crossbar_activity x)
    (xb_m_switch_buffer x).

(** RoutingUnit.hh: the direction maps are [std::map]s. *)
Record RoutingUnit := mkRoutingUnit {
  ru_m_inports_dirn2idx : gmap string Z;
  ru_m_inports_idx2dirn : gmap Z string;
  ru_m_outports_idx2dirn : gmap Z string;
  ru_m_outports_dirn2idx : gmap string Z;
  ru_m_routing_table : list NetDest;
  ru_m_weight_table : list Z;
}.
#[export] Instance eta_RoutingUnit : Eta RoutingUnit := λ x,
  mkRoutingUnit (ru_m_inports_dirn2idx x) (ru_m_inports_idx2dirn x)
    (ru_m_outports_idx2dirn x) (ru_m_outports_dirn2idx x) (ru_m_routing_table x)
    (ru_m_weight_table x).

(** The anonymous struct [swap_ptr] of Router.hh. *)
Record SwapPtr := mkSwapPtr {
  sp_valid : bool;
  sp_inport : Z;
  sp_vcid : Z;
  sp_vnet_id : Z;
  sp_inport_dirn : PortDirection;
}.
#[export] Instance eta_SwapPtr : Eta SwapPtr := λ x,
  mkSwapPtr (sp_valid x) (sp_inport x) (sp_vcid x) (sp_vnet_id x) (sp_inport_dirn x).

(** Router.hh. *)
Record Router := mkRouter {
  rt_m_id : Z;
  rt_m_latency : Z;
  rt_m_virtual_networks : Z;
  rt_m_num_vcs : Z;
  rt_m_vc_per_vnet : Z;
  rt_is_swap : bool;
  rt_swap_ptr : SwapPtr;
  rt_send_routedSwap : bool;
  rt_m_routing_unit : RoutingUnit;
  rt_m_input_unit : list InputUnit;
  rt_m_output_unit : list OutputUnit;
  rt_m_sw_alloc : SwitchAllocator;
  rt_m_switch : CrossbarSwitch;
  rt_m_buffer_reads : Z;
  rt_m_buffer_writes : Z;
  rt_m_sw_input_arbiter_activity : Z;
  rt_m_sw_output_arbiter_activity : Z;
  rt_m_crossbar_activity : Z;
}.
#[export] Instance eta_Router : Eta Router := λ x,
  mkRouter (rt_m_id x) (rt_m_latency x) (rt_m_virtual_networks x) (rt_m_num_vcs x)
    (rt_m_vc_per_vnet x) (rt_is_swap x) (rt_swap_ptr x) (rt_send_routedSwap x)
    (rt_m_routing_unit x) (rt_m_input_unit x) (rt_m_output_unit x) (rt_m_sw_alloc x)
    (rt_m_switch x) (rt_m_buffer_reads x) (rt_m_buffer_writes x)
    (rt_m_sw_input_arbiter_activity x) (rt_m_sw_output_arbiter_activity x)
    (rt_m_crossbar_activity x).

(** Objects that the event queue wakes up ([Consumer]): routers, links,
    network interfaces, the protocol controllers, and the parts of the switches
    of a simple network (the throttle of an output port is named by its switch
    and its number). *)
Inductive consumer :=
  | CRouter (r : Z)
  | CLink (l : Z)
  | CNI (n : Z)
  | CController (c : Z)
  | CPerfectSwitch (s : Z)
  | CThrottle (s t : Z).
#[export] Instance consumer_eq_dec : EqDecision consumer.
Proof. solve_decision. Defined.
#[export] Instance consumer_countable : Countable consumer.
Proof.
  refine (inj_countable'
    (λ c, match c with
          | CRouter r => (0%nat, r, 0) | CLink r => (1%nat, r, 0)
          | CNI r => (2%nat, r, 0) | CController r => (3%nat, r, 0)
          | CPerfectSwitch r => (4%nat, r, 0) | CThrottle r t => (5%nat, r, t) end)
    (λ p, match p with
          | (0%nat, r, _) => CRouter r | (1%nat, r, _) => CLink r
          | (2%nat, r, _) => CNI r | (3%nat, r, _) => CController r
          | (4%nat, r, _) => CPerfectSwitch r | (_, r, t) => CThrottle r t end) _).
  by intros [].
Defined.

(** NetworkLink.hh; [CreditLink] adds no member.  Both kinds are elements of
    [net_links]. *)
Record NetworkLink := mkNetworkLink {
  nl_linkBuffer : ptr;
  nl_m_id : Z;
  nl_m_type : link_type;
  nl_m_latency : Z;
  nl_link_consumer : option consumer;
  nl_link_srcQueue : option ptr;
  nl_m_link_utilized : Z;
  nl_m_vc_load : list Z;
}.
#[export] Instance eta_NetworkLink : Eta NetworkLink := λ x,
  mkNetworkLink (nl_linkBuffer x) (nl_m_id x) (nl_m_type x) (nl_m_latency x)
    (nl_link_consumer x) (nl_link_srcQueue x) (nl_m_link_utilized x) (nl_m_vc_load x).

(** MessageBuffer.hh.  The only dequeue callback that is ever registered is
    [NetworkInterface::dequeueCallback] of some interface. *)
Record MessageBuffer := mkMessageBuffer {
  mb_m_consumer : option consumer;
  mb_m_prio_heap : list ptr;
  mb_m_dequeue_callback : option Z;
  mb_m_stall_msg_map : gmap Z (list ptr);
  mb_m_stall_map_size : Z;
  mb_m_max_size : Z;
  mb_m_time_last_time_size_checked : Z;
  mb_m_size_last_time_size_checked : Z;
  mb_m_time_last_time_enqueue : Z;
  mb_m_time_last_time_pop : Z;
  mb_m_last_arrival_time : Z;
  mb_m_size_at_cycle_start : Z;
  mb_m_msgs_this_cycle : Z;
  mb_m_not_avail_count : Z;
  mb_m_msg_counter : Z;
  mb_m_strict_fifo : bool;
  mb_m_randomization : bool;
  mb_m_buf_msgs : Z;
  mb_m_stall_time : Z;
  mb_m_stall_count : Z;
  mb_m_input_link_id : Z;
  mb_m_vnet_id : Z;
}.
#[export] Instance eta_MessageBuffer : Eta MessageBuffer := λ x,
  mkMessageBuffer (mb_m_consumer x) (mb_m_prio_heap x) (mb_m_dequeue_callback x)
    (mb_m_stall_msg_map x) (mb_m_stall_map_size x) (mb_m_max_size x)
    (mb_m_time_last_time_size_checked x) (mb_m_size_last_time_size_checked x)
    (mb_m_time_last_time_enqueue x) (mb_m_time_last_time_pop x)
    (mb_m_last_arrival_time x) (mb_m_size_at_cycle_start x) (mb_m_msgs_this_cycle x)
    (mb_m_not_avail_count x) (mb_m_msg_counter x) (mb_m_strict_fifo x)
    (mb_m_randomization x) (mb_m_buf_msgs x) (mb_m_stall_time x) (mb_m_stall_count x)
    (mb_m_input_link_id x) (mb_m_vnet_id x).

(** NetworkInterface.hh.  [inNode_ptr] and [outNode_ptr] hold indices into
    [net_mbufs] ([None] for a null pointer). *)
Record NetworkInterface := mkNetworkInterface {
  ni_m_id : Z;
  ni_m_virtual_networks : Z;
  ni_m_vc_per_vnet : Z;
  ni_m_num_vcs : Z;
  ni_m_router_id : Z;
  ni_m_out_vc_state : list OutVcState;
  ni_m_vc_allocator : list Z;
  ni_m_vc_round_robin : Z;
  ni_outFlitQueue : ptr;
  ni_outCreditQueue : ptr;
  ni_m_deadlock_threshold : Z;
  ni_inNetLink : Z;
  ni_outNetLink : Z;
  ni_inCreditLink : Z;
  ni_outCreditLink : Z;
  ni_m_stall_queue : list ptr;
  ni_m_stall_count : list Z;
  ni_m_ni_out_vcs : list ptr;
  ni_m_ni_out_vcs_enqueue_time : list Z;
  ni_inNode_ptr : list (option Z);
  ni_outNode_ptr : list (option Z);
  ni_vc_busy_counter : list Z;
}.
#[export] Instance eta_NetworkInterface : Eta NetworkInterface := λ x,
  mkNetworkInterface (ni_m_id x) (ni_m_virtual_networks x) (ni_m_vc_per_vnet x)
    (ni_m_num_vcs x) (ni_m_router_id x) (ni_m_out_vc_state x) (ni_m_vc_allocator x)
    (ni_m_vc_round_robin x) (ni_outFlitQueue x) (ni_outCreditQueue x)
    (ni_m_deadlock_threshold x) (ni_inNetLink x) (ni_outNetLink x) (ni_inCreditLink x)
    (ni_outCreditLink x) (ni_m_stall_queue x) (ni_m_stall_count x) (ni_m_ni_out_vcs x)
    (ni_m_ni_out_vcs_enqueue_time x) (ni_inNode_ptr x) (ni_outNode_ptr x)
    (ni_vc_busy_counter x).

(** ** The simple network (network/simple)

    PerfectSwitch.hh.  Message buffers are indices into [net_mbufs]; the input
    queues of an end point may have null pointers. *)
Record LinkOrder := mkLinkOrder { lo_m_link : Z; lo_m_value : Z }.

Record PerfectSwitch := mkPerfectSwitch {
  ps_m_switch_id : Z;
  ps_m_in : list (list (option Z));
  ps_m_out : list (list Z);
  ps_m_routing_table : list NetDest;
  ps_m_link_order : list LinkOrder;
  ps_m_virtual_networks : Z;
  ps_m_round_robin_start : Z;
  ps_m_wakeups_wo_switch : Z;
  ps_m_pending_message_count : list Z;
}.
#[export] Instance eta_PerfectSwitch : Eta PerfectSwitch := λ x,
  mkPerfectSwitch (ps_m_switch_id x) (ps_m_in x) (ps_m_out x) (ps_m_routing_table x)
    (ps_m_link_order x) (ps_m_virtual_networks x) (ps_m_round_robin_start x)
    (ps_m_wakeups_wo_switch x) (ps_m_pending_message_count x).

(** Throttle.hh; the message counts are indexed by size type and virtual
    network, the utilisation is a [double].  The input queues are never null:
    [addLinks] dereferences them. *)
Record Throttle := mkThrottle {
  th_m_in : list Z;
  th_m_out : list (option Z);
  th_m_vnets : Z;
  th_m_units_remaining : list Z;
  th_m_switch_id : Z;
  th_m_node : Z;
  th_m_link_bandwidth_multiplier : Z;
  th_m_link_latency : Z;
  th_m_wakeups_wo_switch : Z;
  th_m_endpoint_bandwidth : Z;
  th_m_msg_counts : gmap (MessageSizeType * Z) Z;
  th_m_link_utilization_proxy : spec_float;
  th_m_link_utilization : spec_float;
}.
#[export] Instance eta_Throttle : Eta Throttle := λ x,
  mkThrottle (th_m_in x) (th_m_out x) (th_m_vnets x) (th_m_units_remaining x)
    (th_m_switch_id x) (th_m_node x) (th_m_link_bandwidth_multiplier x) (th_m_link_latency x)
    (th_m_wakeups_wo_switch x) (th_m_endpoint_bandwidth x) (th_m_msg_counts x)
    (th_m_link_utilization_proxy x) (th_m_link_utilization x).

(** Switch.hh. *)
Record Switch := mkSwitch {
  sw_m_id : Z;
  sw_m_perfect_switch : PerfectSwitch;
  sw_m_throttles : list Throttle;
  sw_m_port_buffers : list Z;
  sw_m_num_connected_buffers : Z;
}.
#[export] Instance eta_Switch : Eta Switch := λ x,
  mkSwitch (sw_m_id x) (sw_m_perfect_switch x) (sw_m_throttles x) (sw_m_port_buffers x)
    (sw_m_num_connected_buffers x).

(** The members that SimpleNetwork.hh adds to those of [Network]; the switches
    are [net_m_switches] below. *)
Record SimpleNetwork := mkSimpleNetwork {
  sn_m_int_link_buffers : list Z;
  sn_m_num_connected_buffers : Z;
  sn_m_buffer_size : Z;
  sn_m_endpoint_bandwidth : Z;
  sn_m_adaptive_routing : bool;
}.
#[export] Instance eta_SimpleNetwork : Eta SimpleNetwork := λ x,
  mkSimpleNetwork (sn_m_int_link_buffers x) (sn_m_num_connected_buffers x)
    (sn_m_buffer_size x) (sn_m_endpoint_bandwidth x) (sn_m_adaptive_routing x).

(** The statistics of GarnetNetwork.hh that the operations update. *)
Record NetStats := mkNetStats {
  st_m_total_swaps : Z;
  st_m_total_bailout : Z;
  st_m_total_routedSwaps : Z;
  st_m_total_initiated_swaps : Z;
  st_m_total_failed_swaps : Z;
  st_m_total_failed_downstream_empty : Z;
  st_m_total_failed_upstream_empty : Z;
  st_m_total_failed_downstream_localOutport : Z;
  st_m_total_failed_upstream_localOuport : Z;
  st_max_flit_latency : Z;
  st_max_flit_network_latency : Z;
  st_max_flit_queueing_latency : Z;
  st_min_flit_latency : Z;
  st_min_flit_network_latency : Z;
  st_min_flit_queueing_latency : Z;
  st_m_max_flit_latency : Z;
  st_m_max_flit_network_latency : Z;
  st_m_max_flit_queueing_latency : Z;
  st_m_min_flit_latency : Z;
  st_m_min_flit_network_latency : Z;
  st_m_min_flit_queueing_latency : Z;
  st_m_network_latency_histogram : list Z;
  st_m_packets_received : list Z;
  st_m_packets_injected : list Z;
  st_m_packet_network_latency : list Z;
  st_m_packet_queueing_latency : list Z;
  st_m_flits_received : list Z;
  st_m_flits_injected : list Z;
  st_m_flit_network_latency : list Z;
  st_m_flit_queueing_latency : list Z;
  st_m_total_hops : Z;
  st_m_total_ext_in_link_utilization : Z;
  st_m_total_ext_out_link_utilization : Z;
  st_m_total_int_link_utilization : Z;
  st_m_average_link_utilization : spec_float;
  st_m_average_vc_load : list spec_float;
}.
#[export] Instance eta_NetStats : Eta NetStats := λ x,
  mkNetStats (st_m_total_swaps x) (st_m_total_bailout x) (st_m_total_routedSwaps x)
    (st_m_total_initiated_swaps x) (st_m_total_failed_swaps x)
    (st_m_total_failed_downstream_empty x) (st_m_total_failed_upstream_empty x)
    (st_m_total_failed_downstream_localOutport x)
    (st_m_total_failed_upstream_localOuport x) (st_max_flit_latency x)
    (st_max_flit_network_latency x) (st_max_flit_queueing_latency x)
    (st_min_flit_latency x) (st_min_flit_network_latency x)
    (st_min_flit_queueing_latency x) (st_m_max_flit_latency x)
    (st_m_max_flit_network_latency x) (st_m_max_flit_queueing_latency x)
    (st_m_min_flit_latency x) (st_m_min_flit_network_latency x)
    (st_m_min_flit_queueing_latency x) (st_m_network_latency_histogram x)
    (st_m_packets_received x) (st_m_packets_injected x) (st_m_packet_network_latency x)
    (st_m_packet_queueing_latency x) (st_m_flits_received x) (st_m_flits_injected x)
    (st_m_flit_network_latency x) (st_m_flit_queueing_latency x) (st_m_total_hops x)
    (st_m_total_ext_in_link_utilization x) (st_m_total_ext_out_link_utilization x)
    (st_m_total_int_link_utilization x) (st_m_average_link_utilization x)
    (st_m_average_vc_load x).

(** The configuration members of Network and GarnetNetwork, fixed once the
    network is built, and the static flags of RubySystem that the buffers read. *)
Record NetConfig := mkNetConfig {
  cf_m_num_rows : Z;
  cf_m_num_cols : Z;
  cf_m_ni_flit_size : Z;
  cf_m_vcs_per_vnet : Z;
  cf_m_buffers_per_data_vc : Z;
  cf_m_buffers_per_ctrl_vc : Z;
  cf_m_routing_algorithm : Z;
  cf_m_virtual_networks : Z;
  cf_m_nodes : Z;
  cf_m_ordered : list bool;
  cf_m_vnet_type : list VNET_type;
  cf_m_control_msg_size : Z;
  cf_m_data_msg_size : Z;
  cf_m_interswap : bool;
  cf_m_policy : Z;
  cf_m_whenToSwap : Z;
  cf_m_whichToSwap : Z;
  cf_m_no_is_swap : Z;
  cf_m_occupancy_swap : Z;
  cf_m_inj_single_vnet : Z;
  cf_clockPeriod : Z;
  cf_block_size_bits : Z;
  cf_randomization : bool;
  cf_warmup_enabled : bool;
}.
#[export] Instance eta_NetConfig : Eta NetConfig := λ x,
  mkNetConfig (cf_m_num_rows x) (cf_m_num_cols x) (cf_m_ni_flit_size x)
    (cf_m_vcs_per_vnet x) (cf_m_buffers_per_data_vc x) (cf_m_buffers_per_ctrl_vc x)
    (cf_m_routing_algorithm x) (cf_m_virtual_networks x) (cf_m_nodes x) (cf_m_ordered x)
    (cf_m_vnet_type x) (cf_m_control_msg_size x) (cf_m_data_msg_size x)
    (cf_m_interswap x) (cf_m_policy x) (cf_m_whenToSwap x) (cf_m_whichToSwap x)
    (cf_m_no_is_swap x) (cf_m_occupancy_swap x) (cf_m_inj_single_vnet x)
    (cf_clockPeriod x) (cf_block_size_bits x) (cf_randomization x) (cf_warmup_enabled x).

(** The whole network.  [net_cycle] is the current cycle of the Ruby clock
    domain; [net_random] is the sequence of values that [random()], [rand()]
    and [random_mt] deliver and [net_rng] the number of values already drawn;
    [net_m_switches] and [net_simple] are the objects of a simple network
    ([net_m_routers], [net_links] and [net_m_nis] those of Garnet); [net_scheduled] is [m_scheduled_wakeups] of every consumer and
    [net_eventq] the events handed to the event queue, oldest first. *)
Record GNet := mkGNet {
  net_cycle : Z;
  net_flits : gmap ptr flit;
  net_fbufs : gmap ptr flitBuffer;
  net_msgs : gmap ptr Message;
  net_next : ptr;
  net_random : nat → N;
  net_rng : nat;
  net_m_routers : list Router;
  net_links : list NetworkLink;
  net_m_nis : list NetworkInterface;
  net_mbufs : list MessageBuffer;
  net_cfg : NetConfig;
  net_stats : NetStats;
  net_scheduled : gmap consumer (gset Z);
  net_eventq : list (Z * consumer);
  net_m_switches : list Switch;
  net_simple : SimpleNetwork;
  net_m_networklinks : list Z;
  net_m_creditlinks : list Z;
}.
#[export] Instance eta_GNet : Eta GNet := λ x,
  mkGNet (net_cycle x) (net_flits x) (net_fbufs x) (net_msgs x) (net_next x)
    (net_random x) (net_rng x) (net_m_routers x) (net_links x) (net_m_nis x)
    (net_mbufs x) (net_cfg x) (net_stats x) (net_scheduled x) (net_eventq x)
    (net_m_switches x) (net_simple x) (net_m_networklinks x) (net_m_creditlinks x).

(** ** Access to the state

    [G A] is an operation on the network.  The accessors below are the
    member accesses and vector subscripts of the program; following a null or
    dangling pointer, or an index outside a vector, stops the simulation. *)
Abbreviation G := (M GNet).

Definition optG {A} (o : option A) (e : failure) : G A :=
  match o with Some a => mret a | None => fail e end.

Definition curCycle : G Z := gets net_cycle.
Definition config {A} (p : NetConfig → A) : G A := gets (λ w, p (net_cfg w)).
Definition upd_stats (f : NetStats → NetStats) : G () := modify (λ w, w <| net_stats ::= f |>).

(** [clockEdge(Cycles n)] at a clock edge of the common clock domain. *)
Definition clockEdge (n : Z) : G Z :=
  c ← curCycle; p ← config cf_clockPeriod; mret ((c + n) * p).

(** One value of the random number generator. *)
Definition random : G N :=
  n ← gets net_rng;
  modify (λ w, w <| net_rng ::= S |>) ;;
  gets (λ w, net_random w n).

(** Flits. *)
Definition get_flit (p : ptr) : G flit :=
  o ← gets (λ w, net_flits w !! p); optG o (NullDeref "flit").
Definition upd_flit (p : ptr) (f : flit → flit) : G () :=
  x ← get_flit p; modify (λ w, w <| net_flits ::= <[p := f x]> |>).
Definition new_flit (f : flit) : G ptr :=
  p ← gets net_next;
  modify (λ w, w <| net_next := S p |> <| net_flits ::= <[p := f]> |>) ;;
  mret p.
Definition delete_flit (p : ptr) : G () :=
  _ ← get_flit p; modify (λ w, w <| net_flits ::= delete p |>).

(** Flit buffers. *)
Definition get_fb (b : ptr) : G flitBuffer :=
  o ← gets (λ w, net_fbufs w !! b); optG o (NullDeref "flitBuffer").
Definition upd_fb (b : ptr) (f : flitBuffer → flitBuffer) : G () :=
  x ← get_fb b; modify (λ w, w <| net_fbufs ::= <[b := f x]> |>).
Definition new_fb (x : flitBuffer) : G ptr :=
  p ← gets net_next;
  modify (λ w, w <| net_next := S p |> <| net_fbufs ::= <[p := x]> |>) ;;
  mret p.

(** Routers and their parts. *)
Definition get_router (r : Z) : G Router :=
  o ← gets (λ w, vget (net_m_routers w) r); optG o (OutOfRange "m_routers").
Definition put_router (r : Z) (x : Router) : G () :=
  modify (λ w, w <| net_m_routers ::= λ l, vset l r x |>).
Definition upd_router (r : Z) (f : Router → Router) : G () :=
  x ← get_router r; put_router r (f x).

Definition get_input (r i : Z) : G InputUnit :=
  x ← get_router r; optG (vget (rt_m_input_unit x) i) (OutOfRange "m_input_unit").
Definition upd_input (r i : Z) (f : InputUnit → InputUnit) : G () :=
  u ← get_input r i;
  upd_router r (λ x, x <| rt_m_input_unit ::= λ l, vset l i (f u) |>).

Definition get_vc (r i v : Z) : G VirtualChannel :=
  u ← get_input r i; optG (vget (iu_m_vcs u) v) (OutOfRange "m_vcs").
Definition upd_vc (r i v : Z) (f : VirtualChannel → VirtualChannel) : G () :=
  c ← get_vc r i v;
  upd_input r i (λ u, u <| iu_m_vcs ::= λ l, vset l v (f c) |>).

Definition get_output (r o : Z) : G OutputUnit :=
  x ← get_router r; optG (vget (rt_m_output_unit x) o) (OutOfRange "m_output_unit").
Definition upd_output (r o : Z) (f : OutputUnit → OutputUnit) : G () :=
  u ← get_output r o;
  upd_router r (λ x, x <| rt_m_output_unit ::= λ l, vset l o (f u) |>).

Definition get_outvc (r o v : Z) : G OutVcState :=
  u ← get_output r o; optG (vget (ou_m_outvc_state u) v) (OutOfRange "m_outvc_state").
Definition put_outvc (r o v : Z) (s : OutVcState) : G () :=
  upd_output r o (λ u, u <| ou_m_outvc_state ::= λ l, vset l v s |>).

(** Links, interfaces, message buffers, messages. *)
Definition get_link (l : Z) : G NetworkLink :=
  o ← gets (λ w, vget (net_links w) l); optG o (OutOfRange "links").
Definition upd_link (l : Z) (f : NetworkLink → NetworkLink) : G () :=
  x ← get_link l; modify (λ w, w <| net_links ::= λ k, vset k l (f x) |>).
Definition get_ni (n : Z) : G NetworkInterface :=
  o ← gets (λ w, vget (net_m_nis w) n); optG o (OutOfRange "m_nis").
Definition upd_ni (n : Z) (f : NetworkInterface → NetworkInterface) : G () :=
  x ← get_ni n; modify (λ w, w <| net_m_nis ::= λ k, vset k n (f x) |>).
Definition get_mbuf (b : Z) : G MessageBuffer :=
  o ← gets (λ w, vget (net_mbufs w) b); optG o (OutOfRange "MessageBuffer").
Definition upd_mbuf (b : Z) (f : MessageBuffer → MessageBuffer) : G () :=
  x ← get_mbuf b; modify (λ w, w <| net_mbufs ::= λ k, vset k b (f x) |>).
Definition get_msg (p : ptr) : G Message :=
  o ← gets (λ w, net_msgs w !! p); optG o (NullDeref "Message").
Definition put_msg (p : ptr) (m : Message) : G () :=
  modify (λ w, w <| net_msgs ::= <[p := m]> |>).
Definition new_msg (m : Message) : G ptr :=
  p ← gets net_next;
  modify (λ w, w <| net_next := S p |> <| net_msgs ::= <[p := m]> |>) ;;
  mret p.

(** Switches and their parts. *)
Definition get_switch (s : Z) : G Switch :=
  o ← gets (λ w, vget (net_m_switches w) s); optG o (OutOfRange "m_switches").
Definition upd_switch (s : Z) (f : Switch → Switch) : G () :=
  x ← get_switch s; modify (λ w, w <| net_m_switches ::= λ k, vset k s (f x) |>).
Definition get_pswitch (s : Z) : G PerfectSwitch := x ← get_switch s; mret (sw_m_perfect_switch x).
Definition upd_pswitch (s : Z) (f : PerfectSwitch → PerfectSwitch) : G () :=
  upd_switch s (λ x, x <| sw_m_perfect_switch ::= f |>).
Definition get_throttle (s t : Z) : G Throttle :=
  x ← get_switch s; optG (vget (sw_m_throttles x) t) (OutOfRange "m_throttles").
Definition upd_throttle (s t : Z) (f : Throttle → Throttle) : G () :=
  x ← get_throttle s t;
  upd_switch s (λ y, y <| sw_m_throttles ::= λ l, vset l t (f x) |>).

(** A subscript whose element is assigned. *)
Definition vgetG {A} (l : list A) (i : Z) (site : string) : G A :=
  optG (vget l i) (OutOfRange site).

(** ** [Consumer::scheduleEventAbsolute] (common/Consumer.cc)

    A wake-up that is already scheduled for the same tick is not scheduled
    again; wake-ups in the past are forgotten. *)
Definition alreadyScheduled (c : consumer) (time : Z) (w : GNet) : bool :=
  bool_decide (time ∈ (net_scheduled w !!! c : gset Z)).

Definition Consumer_scheduleEventAbsolute (c : consumer) (evt_time : Z) : G () :=
  b ← gets (alreadyScheduled c evt_time);
  (if (b : bool) then mret tt
   else modify (λ w, w <| net_eventq ::= λ q, q ++ [(evt_time, c)] |>
                       <| net_scheduled ::= <[c := {[evt_time]} ∪ (net_scheduled w !!! c)]> |>)) ;;
  t ← clockEdge 0;
  modify (λ w, w <| net_scheduled ::=
            <[c := filter (λ x, t ≤ x) (net_scheduled w !!! c : gset Z)]> |>).

Definition Consumer_scheduleEvent (c : consumer) (timeDelta : Z) : G () :=
  t ← clockEdge timeDelta; Consumer_scheduleEventAbsolute c t.

(** [storeEventInfo] is virtual: only [PerfectSwitch] overrides it, to count the
    messages that wait in its input queues. *)
Definition PerfectSwitch_storeEventInfo (s info : Z) : G () :=
  x ← get_pswitch s;
  n ← vgetG (ps_m_pending_message_count x) info "m_pending_message_count";
  upd_pswitch s (λ x, x <| ps_m_pending_message_count ::= λ l, vset l info (n + 1) |>).

Definition Consumer_storeEventInfo (c : consumer) (info : Z) : G () :=
  match c with
  | CPerfectSwitch s => PerfectSwitch_storeEventInfo s info
  | _ => mret tt
  end.

(** ** Which parts of the state the accessors leave alone

    [keeps p]: the projection [p] of the network is unchanged. *)
Definition keeps {T} (p : GNet → T) : relation GNet := λ w w', p w' = p w.
#[export] Instance keeps_preorder {T} (p : GNet → T) : PreOrder (keeps p).
Proof. split; [done|]. unfold keeps. congruence. Qed.
