(* ===== verification/FlitBuffer.v ===== *)
(** * Flit buffers

    Models garnet2.0/flitBuffer.hh and flitBuffer.cc: a vector of flit
    pointers kept as a binary heap for [flit::greater], so that the front is
    the flit with the smallest time, the flit number breaking ties.  The
    theorems state that the buffer is a priority queue and that no operation
    loses or duplicates a flit. *)

From Stdlib Require Import Sorting.Sorted.
From S2P Require Import Prelude BinaryHeap NetDestModel CommonTypes GarnetState.

(** [flitBuffer()] and [flitBuffer(int)]. *)
Definition flitBuffer_ctor : flitBuffer := mkFlitBuffer [] INFINITE_.
Definition flitBuffer_ctor_max (maximum_size : Z) : flitBuffer := mkFlitBuffer [] maximum_size.

(** The comparison of two flit pointers reads both flits.  (A dangling pointer
    compares like a zero flit; buffers of a well-formed network hold none.) *)
Definition flit_at (h : gmap ptr flit) (p : ptr) : flit :=
  default (Credit_ctor 0 false 0) (h !! p).
Definition ptr_greater (h : gmap ptr flit) (p q : ptr) : bool :=
  flit_greater (flit_at h p) (flit_at h q).

Definition flitBuffer_isEmpty (b : ptr) : G bool :=
  x ← get_fb b; mret (vsize (fb_m_buffer x) =? 0).

Definition flitBuffer_getSize (b : ptr) : G Z :=
  x ← get_fb b; mret (vsize (fb_m_buffer x)).

Definition flitBuffer_isFull (b : ptr) : G bool :=
  x ← get_fb b; mret (fb_max_size x <=? vsize (fb_m_buffer x)).

Definition flitBuffer_setMaxSize (b : ptr) (maximum : Z) : G () :=
  upd_fb b (λ x, x <| fb_max_size := maximum |>).

Definition flitBuffer_peekTopFlit (b : ptr) : G ptr :=
  x ← get_fb b;
  assertM (0 <? vsize (fb_m_buffer x)) "flitBuffer.hh:73" ;;
  vgetG (fb_m_buffer x) 0 "m_buffer.front()".

Definition flitBuffer_isReady (b : ptr) (curTime : Z) : G bool :=
  x ← get_fb b;
  if negb (vsize (fb_m_buffer x) =? 0) then
    p ← flitBuffer_peekTopFlit b;
    t_flit ← get_flit p;
    mret (fl_m_time t_flit <=? curTime)
  else mret false.

Definition flitBuffer_getTopFlit (b : ptr) : G ptr :=
  x ← get_fb b;
  f ← vgetG (fb_m_buffer x) 0 "m_buffer.front()";
  h ← gets net_flits;
  upd_fb b (λ x, x <| fb_m_buffer ::= λ l, removelast (pop_heap (ptr_greater h) l) |>) ;;
  mret f.

Definition flitBuffer_insert (b : ptr) (flt : ptr) : G () :=
  h ← gets net_flits;
  upd_fb b (λ x, x <| fb_m_buffer ::= λ l, push_heap (ptr_greater h) (l ++ [flt]) |>).

Definition flitBuffer_insertAtTop (b : ptr) (flt : ptr) : G () :=
  upd_fb b (λ x, x <| fb_m_buffer ::= cons flt |>).

(** ** The order on flits *)
#[export] Instance ptr_greater_strict h : StrictWeak (ptr_greater h).
Proof.
  split; unfold ptr_greater; eauto using flit_greater_asym, flit_greater_negtrans.
Qed.

(** [earlier h p q]: flit [p] is not after flit [q] (time first, then number). *)
Definition earlier (h : gmap ptr flit) (p q : ptr) : Prop :=
  fl_m_time (flit_at h p) < fl_m_time (flit_at h q) ∨
  (fl_m_time (flit_at h p) = fl_m_time (flit_at h q) ∧
   fl_m_id (flit_at h p) ≤ fl_m_id (flit_at h q)).

Lemma ptr_greater_false h p q : ptr_greater h p q = false ↔ earlier h p q.
Proof.
  unfold ptr_greater, flit_greater, earlier.
  destruct (Z.eqb_spec (fl_m_time (flit_at h p)) (fl_m_time (flit_at h q))); lia.
Qed.

(** ** Contents of a buffer *)
Definition contents (w : GNet) (b : ptr) : list ptr :=
  match net_fbufs w !! b with Some x => fb_m_buffer x | None => [] end.

(** [wf_fb w b]: [b] is a buffer, it is a heap, and it holds live flits. *)
Definition wf_fb (w : GNet) (b : ptr) : Prop :=
  is_Some (net_fbufs w !! b) ∧ is_heap (ptr_greater (net_flits w)) (contents w b) ∧
  Forall (λ p, is_Some (net_flits w !! p)) (contents w b).

(** The state after buffer [b] is given contents [l]. *)
Definition with_contents (b : ptr) (l : list ptr) (w : GNet) : GNet :=
  w <| net_fbufs ::= λ m, match m !! b with
                          | Some x => <[b := x <| fb_m_buffer := l |>]> m
                          | None => m end |>.

Lemma contents_with b l w b' :
  is_Some (net_fbufs w !! b) →
  contents (with_contents b l w) b' = if decide (b = b') then l else contents w b'.
Proof.
  intros [x Hx]. unfold contents, with_contents. simpl. rewrite Hx.
  rewrite lookup_insert. by case_decide.
Qed.

Section Ops.
Implicit Types (b p : ptr) (w : GNet).

Lemma run_get_fb b w x : net_fbufs w !! b = Some x → get_fb b w = Ok (x, w).
Proof. intros Hx. unfold get_fb, gets, mbind, M_bind, optG. by rewrite Hx. Qed.

Lemma run_upd_fb b f w x l :
  net_fbufs w !! b = Some x → f x = x <| fb_m_buffer := l |> →
  upd_fb b f w = Ok (tt, with_contents b l w).
Proof.
  intros Hx Hf. unfold upd_fb, mbind, M_bind. rewrite (run_get_fb _ _ _ Hx), Hf.
  unfold modify, with_contents. do 2 f_equal. simpl. by rewrite Hx.
Qed.

Lemma run_insert b p w :
  is_Some (net_fbufs w !! b) →
  flitBuffer_insert b p w =
    Ok (tt, with_contents b (push_heap (ptr_greater (net_flits w)) (contents w b ++ [p])) w).
Proof.
  intros [x Hx]. unfold flitBuffer_insert, gets, mbind, M_bind.
  erewrite run_upd_fb; eauto. unfold contents. by rewrite Hx.
Qed.

Lemma run_insertAtTop b p w :
  is_Some (net_fbufs w !! b) →
  flitBuffer_insertAtTop b p w = Ok (tt, with_contents b (p :: contents w b) w).
Proof.
  intros [x Hx]. unfold flitBuffer_insertAtTop.
  erewrite run_upd_fb; eauto. unfold contents. by rewrite Hx.
Qed.

Lemma run_getTopFlit b p l w :
  contents w b = p :: l →
  flitBuffer_getTopFlit b w =
    Ok (p, with_contents b (removelast (pop_heap (ptr_greater (net_flits w)) (p :: l))) w).
Proof.
  unfold contents. destruct (net_fbufs w !! b) as [x|] eqn:Hx; [|done]. intros Hc.
  unfold flitBuffer_getTopFlit, mbind, M_bind, gets. rewrite (run_get_fb _ _ _ Hx), Hc.
  simpl. erewrite run_upd_fb; eauto. simpl. by rewrite Hc.
Qed.

Lemma run_peekTopFlit b p l w :
  contents w b = p :: l → flitBuffer_peekTopFlit b w = Ok (p, w).
Proof.
  unfold contents. destruct (net_fbufs w !! b) as [x|] eqn:Hx; [|done]. intros Hc.
  unfold flitBuffer_peekTopFlit, mbind, M_bind. rewrite (run_get_fb _ _ _ Hx), Hc. done.
Qed.

Lemma run_isEmpty b w :
  is_Some (net_fbufs w !! b) →
  flitBuffer_isEmpty b w = Ok (bool_decide (contents w b = []), w).
Proof.
  intros [x Hx]. unfold flitBuffer_isEmpty, mbind, M_bind.
  rewrite (run_get_fb _ _ _ Hx). unfold contents. rewrite Hx.
  unfold mret, M_ret. do 2 f_equal. by destruct (fb_m_buffer x).
Qed.

(** What is left after the front is taken. *)
Lemma pop_contents_perm h p l : removelast (pop_heap (ptr_greater h) (p :: l)) ≡ₚ l.
Proof.
  destruct (pop_heap_back (ptr_greater h) p l) as (l' & -> & Hl).
  by rewrite removelast_last.
Qed.

Lemma wf_fb_with b l w :
  is_Some (net_fbufs w !! b) →
  is_heap (ptr_greater (net_flits w)) l →
  Forall (λ p, is_Some (net_flits w !! p)) l →
  wf_fb (with_contents b l w) b.
Proof.
  intros Hb Hh Hl. unfold wf_fb.
  rewrite contents_with, decide_True by done.
  split; [|done]. destruct Hb as [x Hx].
  unfold with_contents. simpl. rewrite Hx, lookup_insert_eq. eauto.
Qed.
End Ops.

(** ** The buffer is a priority queue *)

Lemma insert_wf b p w :
  wf_fb w b → is_Some (net_flits w !! p) →
  wp (flitBuffer_insert b p)
     (λ _ w', wf_fb w' b ∧ contents w' b ≡ₚ p :: contents w b ∧
              net_flits w' = net_flits w) w.
Proof.
  intros (Hb & Hh & Hl) Hp. eapply wp_run; [by apply run_insert|].
  split; [|split; [|done]].
  - apply wf_fb_with; [done|by apply push_heap_heap; first apply _|].
    rewrite push_heap_perm, Forall_app. auto.
  - rewrite contents_with, decide_True by done.
    rewrite push_heap_perm. by rewrite Permutation_app_comm.
Qed.

Lemma getTopFlit_wf b w :
  wf_fb w b → contents w b ≠ [] →
  wp (flitBuffer_getTopFlit b)
     (λ p w', wf_fb w' b ∧ contents w b ≡ₚ p :: contents w' b ∧
              net_flits w' = net_flits w ∧
              Forall (earlier (net_flits w) p) (contents w b)) w.
Proof.
  intros (Hb & Hh & Hl) Hne. destruct (contents w b) as [|p l] eqn:Hc; [done|].
  eapply wp_run; [by eapply run_getTopFlit|].
  rewrite contents_with, decide_True by done. split_and!.
  - apply wf_fb_with; [done|by apply pop_heap_heap; first apply _|].
    rewrite pop_contents_perm. by inversion Hl.
  - by rewrite pop_contents_perm.
  - done.
  - apply Forall_lookup. intros i q Hq. apply ptr_greater_false.
    eapply heap_front_le; eauto. apply _.
Qed.

(** Fill a buffer with a list of flits, then empty it. *)
Fixpoint drain (n : nat) (b : ptr) : G (list ptr) :=
  match n with
  | O => mret []
  | S n => p ← flitBuffer_getTopFlit b; ps ← drain n b; mret (p :: ps)
  end.

Lemma fill_wf b ps w :
  wf_fb w b → Forall (λ p, is_Some (net_flits w !! p)) ps →
  wp (for_each ps (flitBuffer_insert b))
     (λ _ w', wf_fb w' b ∧ contents w' b ≡ₚ ps ++ contents w b ∧
              net_flits w' = net_flits w) w.
Proof.
  revert w. induction ps as [|p ps IH]; intros w Hw Hps; simpl; [by apply wp_ret|].
  inversion Hps; subst. apply wp_bind. eapply wp_mono; [by apply insert_wf|].
  intros _ w1 (Hw1 & Hc1 & Hf1). eapply wp_mono; [apply IH; [done|by rewrite Hf1]|].
  intros _ w2 (Hw2 & Hc2 & Hf2). split_and!; [done| |congruence].
  by rewrite Hc2, Hc1, Permutation_middle.
Qed.

Lemma drain_sorted n b w :
  wf_fb w b → length (contents w b) = n →
  wp (drain n b)
     (λ out w', out ≡ₚ contents w b ∧ StronglySorted (earlier (net_flits w)) out ∧
                contents w' b = []) w.
Proof.
  revert w. induction n as [|n IH]; intros w Hw Hn; simpl.
  { apply nil_length_inv in Hn. apply wp_ret. split_and!; [by rewrite Hn|constructor|done]. }
  apply wp_bind. eapply wp_mono.
  { apply getTopFlit_wf; [done|]. intros E. by rewrite E in Hn. }
  intros p w1 (Hw1 & Hc1 & Hf1 & Hmin). apply wp_bind.
  assert (length (contents w1 b) = n) as Hn1.
  { rewrite Hc1 in Hn. simpl in Hn. lia. }
  eapply wp_mono; [by apply IH|].
  intros out w2 (Ho & Hs & Hc2). apply wp_ret. split_and!; [by rewrite Ho|..|done].
  constructor; [by rewrite <- Hf1|]. rewrite Ho. rewrite Hc1 in Hmin. by inversion Hmin.
Qed.
