(* ===== verification/Channels.v ===== *)
(** * Virtual channels, credit state and the port units

    Models garnet2.0/VirtualChannel.hh, VirtualChannel.cc, OutVcState.hh,
    OutVcState.cc, and the operations of InputUnit and OutputUnit that involve
    neither routing nor links. *)

From S2P Require Import Prelude BinaryHeap NetDestModel CommonTypes GarnetState FlitBuffer.

(** ** [VirtualChannel] *)
Definition VirtualChannel_ctor (id : Z) : G VirtualChannel :=
  b ← new_fb flitBuffer_ctor;
  mret (mkVirtualChannel id b (IDLE_, 0) (-1) INFINITE_ (-1)).

Definition VirtualChannel_set_idle (curTime : Z) (v : VirtualChannel) : VirtualChannel :=
  v <| vc_m_vc_state := (IDLE_, curTime) |> <| vc_m_enqueue_time := INFINITE_ |>
    <| vc_m_output_port := -1 |> <| vc_m_output_vc := -1 |>.

Definition VirtualChannel_set_active (curTime : Z) (v : VirtualChannel) : VirtualChannel :=
  v <| vc_m_vc_state := (ACTIVE_, curTime) |> <| vc_m_enqueue_time := curTime |>.

Definition VirtualChannel_get_state (v : VirtualChannel) : VC_state_type := fst (vc_m_vc_state v).

Definition VirtualChannel_need_stage (stage : flit_stage) (time : Z) (v : VirtualChannel) : G bool :=
  ready ← flitBuffer_isReady (vc_m_input_buffer v) time;
  if (ready : bool) then
    assertM (bool_decide (fst (vc_m_vc_state v) = ACTIVE_) && (snd (vc_m_vc_state v) <=? time))
      "VirtualChannel.cc:74" ;;
    p ← flitBuffer_peekTopFlit (vc_m_input_buffer v);
    t_flit ← get_flit p;
    mret (flit_is_stage stage time t_flit)
  else mret false.

(** ** [OutVcState] *)
Definition get_vnet_type (vc : Z) (c : NetConfig) : outcome VNET_type :=
  vgetO (cf_m_vnet_type c) (vc / cf_m_vcs_per_vnet c) "m_vnet_type".

Definition OutVcState_ctor (id : Z) (c : NetConfig) : outcome OutVcState :=
  t ← get_vnet_type id c;
  let max := if bool_decide (t = DATA_VNET_) then cf_m_buffers_per_data_vc c
             else cf_m_buffers_per_ctrl_vc c in
  assertO (1 <=? max) "OutVcState.cc:50" ;;
  Ok (mkOutVcState id 0 IDLE_ max max).

Definition OutVcState_has_credit (s : OutVcState) : bool := 0 <? ov_m_credit_count s.

Definition OutVcState_increment_credit (s : OutVcState) : outcome OutVcState :=
  let s := s <| ov_m_credit_count ::= Z.succ |> in
  assertO (ov_m_credit_count s <=? ov_m_max_credit_count s) "OutVcState.cc:57" ;; Ok s.

Definition OutVcState_decrement_credit (s : OutVcState) : outcome OutVcState :=
  let s := s <| ov_m_credit_count ::= Z.pred |> in
  assertO (0 <=? ov_m_credit_count s) "OutVcState.cc:64" ;; Ok s.

Definition OutVcState_isInState (state : VC_state_type) (request_time : Z) (s : OutVcState) : bool :=
  bool_decide (ov_m_vc_state s = state) && (ov_m_time s <=? request_time).

Definition OutVcState_setState (state : VC_state_type) (time : Z) (s : OutVcState) : OutVcState :=
  s <| ov_m_vc_state := state |> <| ov_m_time := time |>.

(** ** [InputUnit] *)
Definition InputUnit_set_vc_idle (r i vc curTime : Z) : G () :=
  upd_vc r i vc (VirtualChannel_set_idle curTime).
Definition InputUnit_set_vc_active (r i vc curTime : Z) : G () :=
  upd_vc r i vc (VirtualChannel_set_active curTime).
Definition InputUnit_get_outport (r i invc : Z) : G Z :=
  v ← get_vc r i invc; mret (vc_m_output_port v).
Definition InputUnit_get_outvc (r i invc : Z) : G Z :=
  v ← get_vc r i invc; mret (vc_m_output_vc v).
Definition InputUnit_get_enqueue_time (r i invc : Z) : G Z :=
  v ← get_vc r i invc; mret (vc_m_enqueue_time v).
Definition InputUnit_peekTopFlit (r i vc : Z) : G ptr :=
  v ← get_vc r i vc; flitBuffer_peekTopFlit (vc_m_input_buffer v).
Definition InputUnit_getTopFlit (r i vc : Z) : G ptr :=
  v ← get_vc r i vc; flitBuffer_getTopFlit (vc_m_input_buffer v).
Definition InputUnit_need_stage (r i vc : Z) (stage : flit_stage) (time : Z) : G bool :=
  v ← get_vc r i vc; VirtualChannel_need_stage stage time v.
Definition InputUnit_isReady (r i invc curTime : Z) : G bool :=
  v ← get_vc r i invc; flitBuffer_isReady (vc_m_input_buffer v) curTime.
Definition InputUnit_vc_isEmpty (r i invc : Z) : G bool :=
  v ← get_vc r i invc; flitBuffer_isEmpty (vc_m_input_buffer v).
Definition InputUnit_insertFlit (r i vc : Z) (t_flit : ptr) : G () :=
  v ← get_vc r i vc; flitBuffer_insert (vc_m_input_buffer v) t_flit.

(** [enqueue_flit] puts the flit at the front of the VC's vector. *)
Definition InputUnit_enqueue_flit (r i vc : Z) (flit_t : ptr) : G () :=
  v ← get_vc r i vc; flitBuffer_insertAtTop (vc_m_input_buffer v) flit_t.

(** Free VCs are counted in virtual network 0 only. *)
Definition InputUnit_get_numFreeVC (r i : Z) (dirn_ : PortDirection) : G Z :=
  u ← get_input r i;
  assertM (bool_decide (dirn_ = iu_m_direction u)) "InputUnit.hh:158" ;;
  foldM (zrange 0 (iu_m_vc_per_vnet u)) 0 (λ vc_ freeVC,
    e ← InputUnit_vc_isEmpty r i vc_;
    mret (if (e : bool) then freeVC + 1 else freeVC)).

(** Queue a credit for the upstream router and wake its credit link. *)
Definition InputUnit_increment_credit (r i in_vc : Z) (free_signal : bool) (curTime : Z) : G () :=
  u ← get_input r i;
  t_credit ← new_flit (Credit_ctor in_vc free_signal curTime);
  flitBuffer_insert (iu_creditQueue u) t_credit ;;
  t ← clockEdge 1;
  Consumer_scheduleEventAbsolute (CLink (iu_m_credit_link u)) t.

(** ** [OutputUnit] *)
Definition OutputUnit_decrement_credit (r o out_vc : Z) : G () :=
  s ← get_outvc r o out_vc; s' ← lift (OutVcState_decrement_credit s); put_outvc r o out_vc s'.
Definition OutputUnit_increment_credit (r o out_vc : Z) : G () :=
  s ← get_outvc r o out_vc; s' ← lift (OutVcState_increment_credit s); put_outvc r o out_vc s'.
Definition OutputUnit_set_vc_state (r o : Z) (state : VC_state_type) (vc curTime : Z) : G () :=
  s ← get_outvc r o vc; put_outvc r o vc (OutVcState_setState state curTime s).
Definition OutputUnit_is_vc_idle (r o vc curTime : Z) : G bool :=
  s ← get_outvc r o vc; mret (OutVcState_isInState IDLE_ curTime s).

Definition OutputUnit_has_credit (r o out_vc : Z) : G bool :=
  t ← curCycle;
  s ← get_outvc r o out_vc;
  assertM (OutVcState_isInState ACTIVE_ t s) "OutputUnit.cc:91" ;;
  mret (OutVcState_has_credit s).

Definition OutputUnit_has_free_vc (r o vnet : Z) : G bool :=
  u ← get_output r o;
  let vc_base := vnet * ou_m_vc_per_vnet u in
  res ← loop (zrange vc_base (vc_base + ou_m_vc_per_vnet u)) tt (λ vc _,
    t ← curCycle;
    idle ← OutputUnit_is_vc_idle r o vc t;
    mret (if (idle : bool) then inr true else inl tt));
  mret (match res with inr b => b | inl _ => false end).

Definition OutputUnit_select_free_vc (r o vnet : Z) : G Z :=
  u ← get_output r o;
  let vc_base := vnet * ou_m_vc_per_vnet u in
  res ← loop (zrange vc_base (vc_base + ou_m_vc_per_vnet u)) tt (λ vc _,
    t ← curCycle;
    idle ← OutputUnit_is_vc_idle r o vc t;
    if (idle : bool) then
      OutputUnit_set_vc_state r o ACTIVE_ vc t ;; mret (inr vc)
    else mret (inl tt));
  mret (match res with inr vc => vc | inl _ => -1 end).

(** Queue a flit for the output link and wake the link in the next cycle. *)
Definition OutputUnit_insert_flit (r o : Z) (t_flit : ptr) : G () :=
  u ← get_output r o;
  flitBuffer_insert (ou_m_out_buffer u) t_flit ;;
  t ← clockEdge 1;
  Consumer_scheduleEventAbsolute (CLink (ou_m_out_link u)) t.
