(* ===== verification/RoutingUnitModel.v ===== *)
(** * Route computation

    Models garnet2.0/RoutingUnit.hh and RoutingUnit.cc, together with the mesh
    arithmetic of GarnetNetwork.cc ([get_downstreamId], [get_downstreamDirn],
    [get_downstreamRouter], [get_upstreamId], [get_upstreamrouter]) and
    [Router::get_numFreeVC]. *)

From S2P Require Import Prelude BinaryHeap NetDestModel CommonTypes GarnetState FlitBuffer Channels.

(** [std::map::operator[]] inserts a zero (or an empty string) for a missing
    key and returns it. *)
Definition map_at {K V} `{Countable K} (m : gmap K V) (k : K) (zero : V) : V * gmap K V :=
  match m !! k with
  | Some v => (v, m)
  | None => (zero, <[k := zero]> m)
  end.

Definition upd_ru (r : Z) (f : RoutingUnit → RoutingUnit) : G () :=
  upd_router r (λ x, x <| rt_m_routing_unit ::= f |>).

Definition inports_dirn2idx (r : Z) (d : PortDirection) : G Z :=
  x ← get_router r;
  let '(i, m) := map_at (ru_m_inports_dirn2idx (rt_m_routing_unit x)) d 0 in
  upd_ru r (λ u, u <| ru_m_inports_dirn2idx := m |>) ;; mret i.
Definition outports_dirn2idx (r : Z) (d : PortDirection) : G Z :=
  x ← get_router r;
  let '(i, m) := map_at (ru_m_outports_dirn2idx (rt_m_routing_unit x)) d 0 in
  upd_ru r (λ u, u <| ru_m_outports_dirn2idx := m |>) ;; mret i.
Definition inports_idx2dirn (r : Z) (i : Z) : G PortDirection :=
  x ← get_router r;
  let '(d, m) := map_at (ru_m_inports_idx2dirn (rt_m_routing_unit x)) i ""%string in
  upd_ru r (λ u, u <| ru_m_inports_idx2dirn := m |>) ;; mret d.
Definition outports_idx2dirn (r : Z) (o : Z) : G PortDirection :=
  x ← get_router r;
  let '(d, m) := map_at (ru_m_outports_idx2dirn (rt_m_routing_unit x)) o ""%string in
  upd_ru r (λ u, u <| ru_m_outports_idx2dirn := m |>) ;; mret d.

(** ** Construction *)
Definition RoutingUnit_ctor : RoutingUnit := mkRoutingUnit ∅ ∅ ∅ ∅ [] [].
Definition RoutingUnit_addRoute (routing_table_entry : NetDest) (u : RoutingUnit) : RoutingUnit :=
  u <| ru_m_routing_table ::= λ l, l ++ [routing_table_entry] |>.
Definition RoutingUnit_addWeight (link_weight : Z) (u : RoutingUnit) : RoutingUnit :=
  u <| ru_m_weight_table ::= λ l, l ++ [link_weight] |>.
Definition RoutingUnit_addInDirection (inport_dirn : PortDirection) (inport_idx : Z)
    (u : RoutingUnit) : RoutingUnit :=
  u <| ru_m_inports_dirn2idx ::= <[inport_dirn := inport_idx]> |>
    <| ru_m_inports_idx2dirn ::= <[inport_idx := inport_dirn]> |>.
Definition RoutingUnit_addOutDirection (outport_dirn : PortDirection) (outport_idx : Z)
    (u : RoutingUnit) : RoutingUnit :=
  u <| ru_m_outports_dirn2idx ::= <[outport_dirn := outport_idx]> |>
    <| ru_m_outports_idx2dirn ::= <[outport_idx := outport_dirn]> |>.

(** ** Table-based routing *)
Definition isVNetOrdered (vnet : Z) : G bool :=
  l ← config cf_m_ordered; vgetG l vnet "m_ordered".

(** First pass: the minimum weight among the links that reach the
    destination. *)
Definition min_route_weight (u : RoutingUnit) (msg_destination : NetDest) : G Z :=
  foldM (zrange 0 (vsize (ru_m_routing_table u))) INFINITE_ (λ link min_weight,
    entry ← vgetG (ru_m_routing_table u) link "m_routing_table";
    hit ← lift (NetDest_intersectionIsNotEmpty entry msg_destination);
    if (hit : bool) then
      wt ← vgetG (ru_m_weight_table u) link "m_weight_table";
      mret (if wt <=? min_weight then wt else min_weight)
    else mret min_weight).

(** Second pass: the links of that weight. *)
Definition route_candidates (u : RoutingUnit) (msg_destination : NetDest) (min_weight : Z)
    : G (list Z) :=
  foldM (zrange 0 (vsize (ru_m_routing_table u))) [] (λ link candidates,
    entry ← vgetG (ru_m_routing_table u) link "m_routing_table";
    hit ← lift (NetDest_intersectionIsNotEmpty entry msg_destination);
    if (hit : bool) then
      wt ← vgetG (ru_m_weight_table u) link "m_weight_table";
      mret (if wt =? min_weight then candidates ++ [link] else candidates)
    else mret candidates).

Definition lookupRoutingTable (r vnet : Z) (msg_destination : NetDest) : G Z :=
  x ← get_router r;
  let u := rt_m_routing_unit x in
  min_weight ← min_route_weight u msg_destination;
  output_link_candidates ← route_candidates u msg_destination min_weight;
  let num_candidates := vsize output_link_candidates in
  if num_candidates =? 0 then
    fail (Fatal "Fatal Error:: No Route exists from this Router.")
  else
    ordered ← isVNetOrdered vnet;
    candidate ← (if (ordered : bool) then mret 0
                 else n ← random; mret (Z.of_N n `rem` num_candidates));
    optG (vget output_link_candidates candidate) (Throw "std::out_of_range").

(** ** Mesh arithmetic (GarnetNetwork.cc) *)
Definition get_downstreamId (num_cols : Z) (outport_dir : PortDirection) (upstream_id : Z)
    : outcome Z :=
  if outport_dir =s "East" then Ok (upstream_id + 1)
  else if outport_dir =s "West" then Ok (upstream_id - 1)
  else if outport_dir =s "North" then Ok (upstream_id + num_cols)
  else if outport_dir =s "South" then Ok (upstream_id - num_cols)
  else if outport_dir =s "Local" then Abort (AssertFail "GarnetNetwork.cc:421")
  else Abort (AssertFail "GarnetNetwork.cc:428").

Definition GarnetNetwork_get_downstreamId (outport_dir : PortDirection) (upstream_id : Z) : G Z :=
  num_cols ← config cf_m_num_cols; lift (get_downstreamId num_cols outport_dir upstream_id).

Definition getNumRouters : G Z := gets (λ w, vsize (net_m_routers w)).

(** A router pointer is the router's index; [None] is the null pointer. *)
Definition get_downstreamRouter (outport_dir : PortDirection) (upstream_id : Z) : G (option Z) :=
  router_id ← GarnetNetwork_get_downstreamId outport_dir upstream_id;
  n ← getNumRouters;
  mret (if (router_id <? 0) || (n <=? router_id) then None else Some router_id).

(** An unknown direction leaves the local string empty. *)
Definition get_downstreamDirn (outport_dir : PortDirection) : outcome PortDirection :=
  if outport_dir =s "East" then Ok "West"%string
  else if outport_dir =s "West" then Ok "East"%string
  else if outport_dir =s "North" then Ok "South"%string
  else if outport_dir =s "South" then Ok "North"%string
  else if outport_dir =s "Local" then Abort (AssertFail "GarnetNetwork.cc:464")
  else Ok ""%string.

Definition get_upstreamId (num_cols : Z) (inport_dir : PortDirection) (my_id : Z) : outcome Z :=
  if inport_dir =s "East" then Ok (my_id + 1)
  else if inport_dir =s "West" then Ok (my_id - 1)
  else if inport_dir =s "North" then Ok (my_id + num_cols)
  else if inport_dir =s "South" then Ok (my_id - num_cols)
  else if inport_dir =s "Local" then Ok my_id
  else Abort (AssertFail "GarnetNetwork.cc:909").

Definition get_upstreamrouter (inport_dir : PortDirection) (upstream_id : Z) : G (option Z) :=
  num_cols ← config cf_m_num_cols;
  router_id ← lift (get_upstreamId num_cols inport_dir upstream_id);
  n ← getNumRouters;
  mret (if (router_id <? 0) || (n <=? router_id) then None else Some router_id).

(** [Router::get_numFreeVC]; [router] may be the null pointer. *)
Definition Router_get_numFreeVC (router : option Z) (dirn_ : PortDirection) : G Z :=
  r ← optG router (NullDeref "Router");
  assertM (negb (dirn_ =s "Local")) "Router.cc:98" ;;
  inport_id ← inports_dirn2idx r dirn_;
  InputUnit_get_numFreeVC r inport_id dirn_.

(** ** Routing algorithms for a mesh

    The local variables that every algorithm computes first. *)
Record MeshPos := mkMeshPos {
  mp_x_hops : Z;
  mp_y_hops : Z;
  mp_x_dirn : bool;
  mp_y_dirn : bool;
}.

Definition mesh_pos (num_cols my_id dest_id : Z) : MeshPos :=
  let my_x := my_id `rem` num_cols in
  let my_y := my_id `quot` num_cols in
  let dest_x := dest_id `rem` num_cols in
  let dest_y := dest_id `quot` num_cols in
  mkMeshPos (Z.abs (dest_x - my_x)) (Z.abs (dest_y - my_y))
    (my_x <=? dest_x) (my_y <=? dest_y).

Definition mesh_prologue (r : Z) (route : RouteInfo) (site1 site2 : string) : G MeshPos :=
  num_rows ← config cf_m_num_rows;
  num_cols ← config cf_m_num_cols;
  assertM ((0 <? num_rows) && (0 <? num_cols)) site1 ;;
  x ← get_router r;
  let p := mesh_pos num_cols (rt_m_id x) (ri_dest_router route) in
  assertM (negb ((mp_x_hops p =? 0) && (mp_y_hops p =? 0))) site2 ;;
  mret p.

(** Direction chosen by XY routing; [None] is the impossible last branch. *)
Definition xy_dirn (p : MeshPos) : option PortDirection :=
  if 0 <? mp_x_hops p then Some (if mp_x_dirn p then "East" else "West")%string
  else if 0 <? mp_y_hops p then Some (if mp_y_dirn p then "North" else "South")%string
  else None.

Definition outportComputeXY (r : Z) (route : RouteInfo) (inport : Z)
    (inport_dirn : PortDirection) : G Z :=
  p ← mesh_prologue r route "RoutingUnit.cc:190" "RoutingUnit.cc:207";
  outport_dirn ← optG (xy_dirn p) (AssertFail "RoutingUnit.cc:231");
  outports_dirn2idx r outport_dirn.

(** A direction along one axis when the other one is done. *)
Definition straight_dirn (p : MeshPos) : option PortDirection :=
  if mp_x_hops p =? 0 then Some (if mp_y_dirn p then "North" else "South")%string
  else if mp_y_hops p =? 0 then Some (if mp_x_dirn p then "East" else "West")%string
  else None.

(** [random() % 2], used as a truth value. *)
Definition random_bit : G bool :=
  n ← random; mret (negb (Z.of_N n `rem` 2 =? 0)).

Definition random_dirn (p : MeshPos) (rand : bool) : PortDirection :=
  (if mp_x_dirn p && mp_y_dirn p then if rand then "East" else "North"
   else if negb (mp_x_dirn p) && mp_y_dirn p then if rand then "West" else "North"
   else if negb (mp_x_dirn p) && negb (mp_y_dirn p) then if rand then "West" else "South"
   else if rand then "East" else "South")%string.

Definition outportComputeRandom (r : Z) (route : RouteInfo) (inport : Z)
    (inport_dirn : PortDirection) : G Z :=
  p ← mesh_prologue r route "RoutingUnit.cc:247" "RoutingUnit.cc:264";
  outport_dirn ←
    (match straight_dirn p with
     | Some d => mret d
     | None => rand ← random_bit; mret (random_dirn p rand)
     end);
  outports_dirn2idx r outport_dirn.

(** Compare the free VCs of the downstream routers in directions [dx] (whose
    input port there is [ix]) and [dy] ([iy]); the random bit breaks ties. *)
Definition adaptive_pick (r : Z) (rand : bool) (dx ix dy iy : PortDirection) : G PortDirection :=
  x ← get_router r;
  router_x ← get_downstreamRouter dx (rt_m_id x);
  router_y ← get_downstreamRouter dy (rt_m_id x);
  freeVC_x ← Router_get_numFreeVC router_x ix;
  freeVC_y ← Router_get_numFreeVC router_y iy;
  mret (if freeVC_y <? freeVC_x then dx
        else if freeVC_x <? freeVC_y then dy
        else if rand then dx else dy).

Definition outportComputeAdaptRand (r : Z) (route : RouteInfo) (inport : Z)
    (inport_dirn : PortDirection) : G Z :=
  p ← mesh_prologue r route "RoutingUnit.cc:308" "RoutingUnit.cc:325";
  outport_dirn ←
    (match straight_dirn p with
     | Some d => mret d
     | None =>
         rand ← random_bit;
         if mp_x_dirn p && mp_y_dirn p then adaptive_pick r rand "East" "West" "North" "South"
         else if negb (mp_x_dirn p) && mp_y_dirn p then
           adaptive_pick r rand "West" "East" "North" "South"
         else if negb (mp_x_dirn p) && negb (mp_y_dirn p) then
           adaptive_pick r rand "West" "East" "South" "North"
         else adaptive_pick r rand "East" "West" "South" "North"
     end);
  outports_dirn2idx r outport_dirn.

Definition westfirst_dirn (p : MeshPos) (rand : bool) : PortDirection :=
  match straight_dirn p with
  | Some d => d
  | None =>
      (if negb (mp_x_dirn p) then "West"
       else if mp_y_dirn p then if rand then "East" else "North"
       else if rand then "East" else "South")%string
  end.

Definition outportComputeWestFirst (r : Z) (route : RouteInfo) (inport : Z)
    (inport_dirn : PortDirection) : G Z :=
  p ← mesh_prologue r route "RoutingUnit.cc:433" "RoutingUnit.cc:450";
  rand ← random_bit;
  outports_dirn2idx r (westfirst_dirn p rand).

Definition outportComputeAdaptWestFirst (r : Z) (route : RouteInfo) (inport : Z)
    (inport_dirn : PortDirection) : G Z :=
  p ← mesh_prologue r route "RoutingUnit.cc:496" "RoutingUnit.cc:513";
  rand ← random_bit;
  outport_dirn ←
    (match straight_dirn p with
     | Some d => mret d
     | None =>
         if negb (mp_x_dirn p) then mret "West"%string
         else if mp_y_dirn p then adaptive_pick r rand "East" "West" "North" "South"
         else adaptive_pick r rand "East" "West" "South" "North"
     end);
  outports_dirn2idx r outport_dirn.

(** [RoutingUnit::numFreeVC] (free VCs downstream of an output direction). *)
Definition RoutingUnit_numFreeVC (r : Z) (dirn_ : PortDirection) : G Z :=
  x ← get_router r;
  downstreamRouter ← get_downstreamRouter dirn_ (rt_m_id x);
  match downstreamRouter with
  | None => mret 0
  | Some _ =>
      if dirn_ =s "North" then Router_get_numFreeVC downstreamRouter "South"
      else if dirn_ =s "East" then Router_get_numFreeVC downstreamRouter "West"
      else if dirn_ =s "West" then Router_get_numFreeVC downstreamRouter "East"
      else if dirn_ =s "South" then Router_get_numFreeVC downstreamRouter "North"
      else fail (AssertFail "RoutingUnit.cc:596")
  end.

Definition outportComputeCustom (r : Z) (route : RouteInfo) (inport : Z)
    (inport_dirn : PortDirection) : G Z := fail (AssertFail "RoutingUnit.cc:607").

Definition outportCompute (r : Z) (route : RouteInfo) (inport : Z)
    (inport_dirn : PortDirection) : G Z :=
  x ← get_router r;
  if ri_dest_router route =? rt_m_id x then
    lookupRoutingTable r (ri_vnet route) (ri_net_dest route)
  else
    routing_algorithm ← config cf_m_routing_algorithm;
    outport ←
      (if routing_algorithm =? TABLE_ then
         lookupRoutingTable r (ri_vnet route) (ri_net_dest route)
       else if routing_algorithm =? XY_ then outportComputeXY r route inport inport_dirn
       else if routing_algorithm =? RANDOM_ then outportComputeRandom r route inport inport_dirn
       else if routing_algorithm =? ADAPT_RAND_ then
         outportComputeAdaptRand r route inport inport_dirn
       else if routing_algorithm =? WestFirst_ then
         outportComputeWestFirst r route inport inport_dirn
       else if routing_algorithm =? ADAPT_WestFirst_ then
         outportComputeAdaptWestFirst r route inport inport_dirn
       else if routing_algorithm =? CUSTOM_ then
         outportComputeCustom r route inport inport_dirn
       else lookupRoutingTable r (ri_vnet route) (ri_net_dest route));
    assertM (negb (outport =? -1)) "RoutingUnit.cc:173" ;;
    mret outport.

(** [Router::route_compute]. *)
Definition Router_route_compute (r : Z) (route : RouteInfo) (inport : Z)
    (inport_dirn : PortDirection) : G Z :=
  outportCompute r route inport inport_dirn.
