(* ===== verification/SwapModel.v ===== *)
(** * The SWAP mechanism

    Models the swap operations of garnet2.0/Router.hh and Router.cc
    ([is_myTurn], [checkSwapPtrValid], [makeSwapPtrValid], [movSwapPtr],
    [outportNotLocal], [doSwap], [doSwap_enqueue] and the swap phase of
    [wakeup]), of InputUnit.cc ([makeSwapPtrValid]) and of GarnetNetwork.cc
    ([chk_deadlck_symptm], [bail_out], [doSwap]). *)

From Stdlib Require Import Floats.SpecFloat.
From S2P Require Import Prelude BinaryHeap NetDestModel CommonTypes GarnetState FlitBuffer Channels RoutingUnitModel.

Definition upd_swap_ptr (r : Z) (f : SwapPtr → SwapPtr) : G () :=
  upd_router r (λ x, x <| rt_swap_ptr ::= f |>).

(** ** Time division: [Router::is_myTurn]

    The first [return] of the function makes the rest of its body dead code:
    the period is the enumerator of [whenToSwap] times the number of
    routers. *)
Definition is_myTurn_at (cycle tdm num_routers id : Z) : bool := cycle mod (tdm * num_routers) =? id.

Definition Router_is_myTurn (r : Z) : G bool :=
  enabled ← config cf_m_interswap;
  assertM enabled "Router.hh:172" ;;
  tdm_ ← config cf_m_whenToSwap;
  c ← curCycle;
  n ← getNumRouters;
  x ← get_router r;
  mret (is_myTurn_at c tdm_ n (rt_m_id x)).

(** ** The swap pointer *)
Definition Router_checkSwapPtrValid (r : Z) : G bool :=
  x ← get_router r; mret (sp_valid (rt_swap_ptr x)).

Definition Router_makeSwapPtrValid (r : Z) (dirn : PortDirection) (vc : Z) : G () :=
  x ← get_router r;
  assertM (negb (sp_valid (rt_swap_ptr x))) "Router.cc:652" ;;
  assertM (sp_vcid (rt_swap_ptr x) =? -1) "Router.cc:653" ;;
  upd_swap_ptr r (λ s, s <| sp_valid := true |> <| sp_inport_dirn := dirn |> <| sp_vcid := vc |>) ;;
  assertM (negb (dirn =s "Local")) "Router.cc:657" ;;
  inport ← inports_dirn2idx r dirn;
  upd_swap_ptr r (λ s, s <| sp_inport := inport |>).

(** The four mesh directions. *)
Definition is_mesh_dirn (d : PortDirection) : bool :=
  (d =s "North") || (d =s "East") || (d =s "West") || (d =s "South").

Definition InputUnit_makeSwapPtrValid (r i : Z) (t_flit : ptr) : G () :=
  valid ← Router_checkSwapPtrValid r;
  if (valid : bool) then mret tt
  else
    u ← get_input r i;
    f ← get_flit t_flit;
    if is_mesh_dirn (iu_m_direction u) && is_mesh_dirn (fl_m_outport_dir f) then
      Router_makeSwapPtrValid r (iu_m_direction u) (fl_m_vc f)
    else mret tt.

(** The scan of [movSwapPtr] over the VCs of one input port.  The loop variable
    [invc] is returned; [inr] means the jump to [jmp]. *)
Definition movSwapPtr_scan_vcs (r invc0 : Z) : G (Z + Z) :=
  x ← get_router r;
  loop (zrange 0 (rt_m_num_vcs x)) invc0 (λ _ _,
    x ← get_router r;
    let vcid := sp_vcid (rt_swap_ptr x) in
    upd_swap_ptr r (λ s, s <| sp_vcid := vcid + 1 |>) ;;
    let invc := if rt_m_num_vcs x <=? vcid then 0 else vcid in
    e ← InputUnit_vc_isEmpty r (sp_inport (rt_swap_ptr x)) invc;
    mret (if (e : bool) then inl invc else inr invc)).

(** The scan over the input ports, starting behind the current one. *)
Definition movSwapPtr_scan (r : Z) : G Z :=
  x ← get_router r;
  res ← loop (zrange 0 (vsize (rt_m_input_unit x))) (-1) (λ _ invc,
    x ← get_router r;
    let next := sp_inport (rt_swap_ptr x) + 1 in
    let next := if next =? vsize (rt_m_input_unit x) then 0 else next in
    upd_swap_ptr r (λ s, s <| sp_inport := next |>) ;;
    which ← config cf_m_whichToSwap;
    skip ← (if which =? DISABLE_LOCAL_SWAP_ then
              u ← get_input r next; mret (iu_m_direction u =s "Local")
            else mret false);
    if (skip : bool) then mret (inl invc)
    else movSwapPtr_scan_vcs r invc);
  mret (match res with inl invc => invc | inr invc => invc end).

Definition Router_movSwapPtr (r : Z) : G () :=
  invc ← movSwapPtr_scan r;
  x ← get_router r;
  let inport := sp_inport (rt_swap_ptr x) in
  e ← InputUnit_vc_isEmpty r inport invc;
  (if negb e then
     u ← get_input r inport;
     upd_swap_ptr r (λ s, s <| sp_inport_dirn := iu_m_direction u |>
                            <| sp_vcid := invc |> <| sp_valid := true |>)
   else
     upd_swap_ptr r (λ s, s <| sp_vcid := -1 |> <| sp_valid := false |>
                            <| sp_inport := -1 |>)) ;;
  x ← get_router r;
  let s := rt_swap_ptr x in
  if sp_valid s then
    assertM (0 <=? sp_vcid s) "Router.cc:427" ;;
    e ← InputUnit_vc_isEmpty r (sp_inport s) (sp_vcid s);
    assertM (negb e) "Router.cc:428" ;;
    d ← inports_idx2dirn r (sp_inport s);
    upd_swap_ptr r (λ s, s <| sp_inport_dirn := d |>) ;;
    assertM (negb (d =s "")) "Router.cc:433" ;;
    which ← config cf_m_whichToSwap;
    if which =? DISABLE_LOCAL_SWAP_ then assertM (negb (d =s "Local")) "Router.cc:436"
    else mret tt
  else
    upd_swap_ptr r (λ s, s <| sp_vcid := -1 |> <| sp_inport := -1 |>).

(** ** Occupancy threshold

    [(1.0 - (free_vc/(double)m_vc_per_vnet))*100 < (float)m_occupancy_swap] in
    IEEE-754 arithmetic: binary64 for the expression, binary32 for the
    conversion of the threshold (whose value binary64 represents exactly). *)
Definition f64_of_Z (n : Z) : spec_float := binary_normalize 53 1024 n 0 false.
Definition f32_of_Z (n : Z) : spec_float := binary_normalize 24 128 n 0 false.
Definition f64_of_f32 (x : spec_float) : spec_float :=
  match x with
  | S754_finite s m e => binary_normalize 53 1024 (cond_Zopp s (Zpos m)) e s
  | _ => x
  end.

Definition occupancy_ (free_vc vc_per_vnet : Z) : spec_float :=
  SFmul 53 1024
    (SFsub 53 1024 (f64_of_Z 1)
       (SFdiv 53 1024 (f64_of_Z free_vc) (f64_of_Z vc_per_vnet)))
    (f64_of_Z 100).

Definition occupancy_below (free_vc vc_per_vnet threshold : Z) : bool :=
  SFltb (occupancy_ free_vc vc_per_vnet) (f64_of_f32 (f32_of_Z threshold)).

(** ** The upstream router's check *)
Definition Router_outportNotLocal (r : Z) : G bool :=
  x ← get_router r;
  let inport := sp_inport (rt_swap_ptr x) in
  let vcid := sp_vcid (rt_swap_ptr x) in
  threshold ← config cf_m_occupancy_swap;
  below ←
    (if 0 <? threshold then
       u ← get_input r inport;
       free_vc ← InputUnit_get_numFreeVC r inport (iu_m_direction u);
       mret (occupancy_below free_vc (rt_m_vc_per_vnet x) threshold)
     else mret false);
  if (below : bool) then mret false
  else
    e ← InputUnit_vc_isEmpty r inport vcid;
    if (e : bool) then
      upd_stats (λ s, s <| st_m_total_failed_upstream_empty ::= Z.succ |>) ;; mret false
    else
      p ← InputUnit_peekTopFlit r inport vcid;
      f ← get_flit p;
      let outport_dir := fl_m_outport_dir f in
      assertM (negb (outport_dir =s "")) "Router.cc:521" ;;
      o ← get_output r (fl_m_outport f);
      assertM (ou_m_direction o =s outport_dir) "Router.cc:522" ;;
      if outport_dir =s "Local" then
        upd_stats (λ s, s <| st_m_total_failed_upstream_localOuport ::= Z.succ |>) ;; mret false
      else mret true.

(** ** The downstream router's part: [Router::doSwap]

    [None] is the null pointer.  The expression statements that name
    [m_total_failed_downstream_localOutport] have no effect. *)
Definition Router_doSwap_take (r inport vcid : Z) : G (option ptr) :=
  e ← InputUnit_vc_isEmpty r inport vcid;
  if (e : bool) then
    upd_stats (λ s, s <| st_m_total_failed_downstream_empty ::= Z.succ |>) ;; mret None
  else
    flit_t ← InputUnit_peekTopFlit r inport vcid;
    f ← get_flit flit_t;
    if fl_m_outport_dir f =s "Local" then mret None
    else _ ← InputUnit_getTopFlit r inport vcid; mret (Some flit_t).

Definition Router_doSwap (r : Z) (inport_dirn : PortDirection) (vcid : Z) : G (option ptr) :=
  assertM (negb (inport_dirn =s "Local")) "Router.cc:540" ;;
  inport ← inports_dirn2idx r inport_dirn;
  no_is_swap ← config cf_m_no_is_swap;
  if no_is_swap =? 0 then
    x ← get_router r;
    if rt_is_swap x then mret None else Router_doSwap_take r inport vcid
  else if no_is_swap =? 1 then Router_doSwap_take r inport vcid
  else fail (AssertFail "Router.cc:593").

Definition Router_doSwap_enqueue (r : Z) (flit_t : ptr) (inport_dirn : PortDirection)
    (inport_id vcid : Z) : G () :=
  which ← config cf_m_whichToSwap;
  (if which =? ENABLE_LOCAL_SWAP_ then
     if inport_id =? -1 then assertM (negb (inport_dirn =s "Local")) "Router.cc:604" else mret tt
   else assertM (negb (inport_dirn =s "Local")) "Router.cc:606") ;;
  f ← get_flit flit_t;
  idx ← inports_dirn2idx r inport_dirn;
  outport ← Router_route_compute r (fl_m_route f) idx inport_dirn;
  upd_flit flit_t (λ f, f <| fl_m_outport := outport |>) ;;
  dir ← outports_idx2dirn r outport;
  upd_flit flit_t (λ f, f <| fl_m_outport_dir := dir |>) ;;
  upd_flit flit_t (λ f, f <| fl_m_vc := vcid |>) ;;
  assertM (negb (vcid =? -1)) "Router.cc:618" ;;
  inport_id ←
    (if inport_id =? -1 then
       i ← inports_dirn2idx r inport_dirn;
       assertM (negb (i =? -1)) "Router.cc:623" ;; mret i
     else
       no_is_swap ← config cf_m_no_is_swap;
       (if no_is_swap =? 0 then
          f ← get_flit flit_t; assertM (negb (fl_routedSwap f)) "Router.cc:627"
        else mret tt) ;;
       d ← inports_idx2dirn r inport_id;
       assertM (d =s inport_dirn) "Router.cc:629" ;; mret inport_id);
  InputUnit_enqueue_flit r inport_id vcid flit_t.

(** ** The network's part *)

(** [chk_deadlck_symptm] returns from its first statement; the analysis of the
    downstream [is_swap] bits behind it is dead code. *)
Definition chk_deadlck_symptm (my_id vnet : Z) : G bool :=
  c ← curCycle; mret (c mod 1000 =? 0).

(** Clear the [routedSwap] bit of the head flits of virtual network 0. *)
Definition clear_routedSwap (r : Z) : G () :=
  x ← get_router r;
  m_vcs_per_vnet ← config cf_m_vcs_per_vnet;
  for_each (zrange 0 (vsize (rt_m_input_unit x))) (λ inport,
    for_each (zrange 0 m_vcs_per_vnet) (λ vc,
      e ← InputUnit_vc_isEmpty r inport vc;
      if (e : bool) then mret tt
      else
        p ← InputUnit_peekTopFlit r inport vc;
        f ← get_flit p;
        if fl_routedSwap f then upd_flit p (λ f, f <| fl_routedSwap := false |>)
        else mret tt)).

Definition GarnetNetwork_bail_out (my_id : Z) : G () :=
  x ← get_router my_id;
  let upstreamInport := sp_inport (rt_swap_ptr x) in
  let upstreamVcId := sp_vcid (rt_swap_ptr x) in
  let vcs_per_vnet := rt_m_vc_per_vnet x in
  assertM (negb (upstreamInport =? -1) && negb (upstreamVcId =? -1)) "GarnetNetwork.cc:630" ;;
  e ← InputUnit_vc_isEmpty my_id upstreamInport upstreamVcId;
  assertM (negb e) "GarnetNetwork.cc:631" ;;
  p ← InputUnit_peekTopFlit my_id upstreamInport upstreamVcId;
  flit_ ← get_flit p;
  let outport_dir := fl_m_outport_dir flit_ in
  downstream_id ← GarnetNetwork_get_downstreamId outport_dir my_id;
  y ← get_router downstream_id;
  assertM (vcs_per_vnet =? rt_m_vc_per_vnet y) "GarnetNetwork.cc:636" ;;
  inport_dirn ← lift (get_downstreamDirn outport_dir);
  assertM (negb (inport_dirn =s "Local")) "GarnetNetwork.cc:639" ;;
  downstream_inport_id ← inports_dirn2idx downstream_id inport_dirn;
  for_each (zrange 0 vcs_per_vnet) (λ in_vc,
    e ← InputUnit_vc_isEmpty downstream_id downstream_inport_id in_vc;
    assertM (negb e) "GarnetNetwork.cc:646") ;;
  upd_router my_id (λ x, x <| rt_is_swap := false |>) ;;
  upd_router downstream_id (λ x, x <| rt_is_swap := false |>) ;;
  clear_routedSwap my_id ;;
  clear_routedSwap downstream_id.

(** The exchange itself, once the downstream router is willing: fetch the
    downstream flit and put the upstream flit in its place. *)
Definition GarnetNetwork_doSwap_with (flit_t : ptr) (upstream_id downstream_id : Z)
    (inport_dirn : PortDirection) (set_is_swap : bool) : G (option ptr) :=
  x ← get_router upstream_id;
  let vcid := sp_vcid (rt_swap_ptr x) in
  f ← get_flit flit_t;
  assertM (vcid =? fl_m_vc f)
    (if set_is_swap then "GarnetNetwork.cc:719" else "GarnetNetwork.cc:759") ;;
  flit1_t ← Router_doSwap downstream_id inport_dirn vcid;
  match flit1_t with
  | None => mret None
  | Some p =>
      (if set_is_swap then upd_router downstream_id (λ y, y <| rt_is_swap := true |>)
       else mret tt) ;;
      upd_flit flit_t (λ f, f <| fl_routedSwap := true |>) ;;
      Router_doSwap_enqueue downstream_id flit_t inport_dirn (-1) vcid ;;
      mret (Some p)
  end.

Definition GarnetNetwork_doSwap (flit_t : ptr) (upstream_id : Z) : G (option ptr) :=
  f ← get_flit flit_t;
  let outport_dir := fl_m_outport_dir f in
  downstream_id ← GarnetNetwork_get_downstreamId outport_dir upstream_id;
  inport_dirn ← lift (get_downstreamDirn outport_dir);
  no_is_swap ← config cf_m_no_is_swap;
  if no_is_swap =? 0 then
    y ← get_router downstream_id;
    if negb (rt_is_swap y) && sp_valid (rt_swap_ptr y) then
      GarnetNetwork_doSwap_with flit_t upstream_id downstream_id inport_dirn true
    else mret None
  else if no_is_swap =? 1 then
    y ← get_router downstream_id;
    if sp_valid (rt_swap_ptr y) then
      GarnetNetwork_doSwap_with flit_t upstream_id downstream_id inport_dirn false
    else mret None
  else fail (AssertFail "GarnetNetwork.cc:805").

(** ** The swap phase of [Router::wakeup] *)

(** Look for a flit that can make the swap pointer valid: the first VC of each
    virtual network, at every input port that is not local. *)
Definition Router_validate_swap_ptr (r : Z) : G () :=
  x ← get_router r;
  res ← loop (zrange 0 (vsize (rt_m_input_unit x))) tt (λ inport_itr _,
    u ← get_input r inport_itr;
    if iu_m_direction u =s "Local" then mret (inl tt)
    else
      loop (zrange 0 (rt_m_virtual_networks x)) tt (λ vnet _,
        let invc := vnet * rt_m_vc_per_vnet x in
        e ← InputUnit_vc_isEmpty r inport_itr invc;
        if negb e then
          t_flit ← InputUnit_peekTopFlit r inport_itr invc;
          InputUnit_makeSwapPtrValid r inport_itr t_flit ;;
          mret (inr tt)
        else mret (inl tt)));
  match res with inl _ => mret tt | inr tt => mret tt end.

(** What the upstream router does with a flit that the swap brought back. *)
Definition Router_complete_swap (r : Z) (flit_t : ptr) : G () :=
  x ← get_router r;
  let s := rt_swap_ptr x in
  _ ← InputUnit_getTopFlit r (sp_inport s) (sp_vcid s);
  u ← get_input r (sp_inport s);
  Router_doSwap_enqueue r flit_t (iu_m_direction u) (sp_inport s) (sp_vcid s) ;;
  upd_stats (λ s, s <| st_m_total_swaps ::= Z.succ |>) ;;
  x ← get_router r;
  if rt_send_routedSwap x then
    no_is_swap ← config cf_m_no_is_swap;
    (if no_is_swap =? 0 then assertM (rt_is_swap x) "Router.cc:303" else mret tt) ;;
    upd_router r (λ x, x <| rt_send_routedSwap := false |>) ;;
    upd_router r (λ x, x <| rt_is_swap := false |>) ;;
    upd_stats (λ s, s <| st_m_total_routedSwaps ::= Z.succ |>)
  else mret tt.

Definition Router_refuse_swap (r : Z) : G () :=
  x ← get_router r;
  (if rt_send_routedSwap x then
     no_is_swap ← config cf_m_no_is_swap;
     (if no_is_swap =? 0 then assertM (rt_is_swap x) "Router.cc:324" else mret tt) ;;
     upd_router r (λ x, x <| rt_send_routedSwap := false |>)
   else mret tt) ;;
  upd_stats (λ s, s <| st_m_total_failed_swaps ::= Z.succ |>).

Definition Router_initiate_swap (r : Z) : G () :=
  upd_stats (λ s, s <| st_m_total_initiated_swaps ::= Z.succ |>) ;;
  x ← get_router r;
  no_is_swap ← config cf_m_no_is_swap;
  (if no_is_swap =? 0 then
     deadlck_symtm ← chk_deadlck_symptm (rt_m_id x) 0;
     if (deadlck_symtm : bool) then
       GarnetNetwork_bail_out (rt_m_id x) ;;
       upd_stats (λ s, s <| st_m_total_bailout ::= Z.succ |>)
     else mret tt
   else assertM (no_is_swap =? 1) "Router.cc:238") ;;
  x ← get_router r;
  let s := rt_swap_ptr x in
  p ← InputUnit_peekTopFlit r (sp_inport s) (sp_vcid s);
  f ← get_flit p;
  (if fl_routedSwap f then
     (if no_is_swap =? 0 then assertM (rt_is_swap x) "Router.cc:265" else mret tt) ;;
     upd_router r (λ x, x <| rt_send_routedSwap := true |>)
   else mret tt) ;;
  flit_t ← GarnetNetwork_doSwap p (rt_m_id x);
  match flit_t with
  | Some q => Router_complete_swap r q
  | None => Router_refuse_swap r
  end.

Definition Router_swap_phase (r : Z) : G () :=
  x ← get_router r;
  (if negb (sp_valid (rt_swap_ptr x)) then Router_validate_swap_ptr r else mret tt) ;;
  turn ← Router_is_myTurn r;
  x ← get_router r;
  let s := rt_swap_ptr x in
  if turn && sp_valid s then
    u ← get_input r (sp_inport s);
    assertM (sp_inport_dirn s =s iu_m_direction u) "Router.cc:198" ;;
    assertM (negb (sp_inport s =? -1) && negb (sp_vcid s =? -1)) "Router.cc:201" ;;
    go ← Router_outportNotLocal r;
    (if (go : bool) then Router_initiate_swap r else mret tt) ;;
    Router_movSwapPtr r
  else mret tt.
