(* ===== verification/UnitsModel.v ===== *)
(** * Links, port units and the crossbar at work

    Models NetworkLink.cc / NetworkLink.hh, the [wakeup] functions of
    InputUnit.cc and OutputUnit.cc, and CrossbarSwitch.cc / CrossbarSwitch.hh
    of garnet2.0. *)

From S2P Require Import Prelude BinaryHeap NetDestModel CommonTypes GarnetState FlitBuffer Channels RoutingUnitModel SwapModel.

(** [v[i]++] on a vector of counters. *)
Definition vincr (l : list Z) (i : Z) (site : string) : G (list Z) :=
  n ← vgetG l i site; mret (vset l i (n + 1)).

(** ** [NetworkLink] *)
Definition NetworkLink_isReady (l curTime : Z) : G bool :=
  x ← get_link l; flitBuffer_isReady (nl_linkBuffer x) curTime.
Definition NetworkLink_peekLink (l : Z) : G ptr :=
  x ← get_link l; flitBuffer_peekTopFlit (nl_linkBuffer x).
Definition NetworkLink_consumeLink (l : Z) : G ptr :=
  x ← get_link l; flitBuffer_getTopFlit (nl_linkBuffer x).

(** [NetworkLink::NetworkLink]. *)
Definition NetworkLink_ctor (link_id link_latency vcs_per_vnet virt_nets : Z) : G NetworkLink :=
  b ← new_fb flitBuffer_ctor;
  mret (mkNetworkLink b link_id NUM_LINK_TYPES_ link_latency None None 0
          (replicate (Z.to_nat (vcs_per_vnet * virt_nets)) 0)).

Definition NetworkLink_setLinkConsumer (l : Z) (c : consumer) : G () :=
  upd_link l (λ x, x <| nl_link_consumer := Some c |>).
Definition NetworkLink_setSourceQueue (l : Z) (srcQueue : ptr) : G () :=
  upd_link l (λ x, x <| nl_link_srcQueue := Some srcQueue |>).
Definition NetworkLink_setType (l : Z) (type : link_type) : G () :=
  upd_link l (λ x, x <| nl_m_type := type |>).

Definition NetworkLink_wakeup (l : Z) : G () :=
  x ← get_link l;
  t ← curCycle;
  src ← optG (nl_link_srcQueue x) (NullDeref "link_srcQueue");
  ready ← flitBuffer_isReady src t;
  if (ready : bool) then
    t_flit ← flitBuffer_getTopFlit src;
    upd_flit t_flit (λ f, f <| fl_m_time := t + nl_m_latency x |>) ;;
    flitBuffer_insert (nl_linkBuffer x) t_flit ;;
    c ← optG (nl_link_consumer x) (NullDeref "link_consumer");
    when ← clockEdge (nl_m_latency x);
    Consumer_scheduleEventAbsolute c when ;;
    upd_link l (λ x, x <| nl_m_link_utilized ::= Z.succ |>) ;;
    f ← get_flit t_flit;
    load ← vincr (nl_m_vc_load x) (fl_m_vc f) "m_vc_load";
    upd_link l (λ x, x <| nl_m_vc_load := load |>)
  else mret tt.

Definition NetworkLink_resetStats (l : Z) : G () :=
  upd_link l (λ x, x <| nl_m_vc_load ::= fmap (λ _, 0) |> <| nl_m_link_utilized := 0 |>).

(** ** [InputUnit::wakeup] *)

(** Route computation for the VC of a head flit. *)
Definition InputUnit_route_head (r i vc : Z) (t_flit : ptr) : G () :=
  t ← curCycle;
  u ← get_input r i;
  v ← get_vc r i vc;
  assertM (bool_decide (VirtualChannel_get_state v = IDLE_)) "InputUnit.cc:111" ;;
  InputUnit_set_vc_active r i vc t ;;
  f ← get_flit t_flit;
  outport ← Router_route_compute r (fl_m_route f) (iu_m_id u) (iu_m_direction u);
  upd_flit t_flit (λ f, f <| fl_m_outport := outport |>) ;;
  outdir1 ← outports_idx2dirn r outport;
  o ← get_output r outport;
  let outdir2 := ou_m_direction o in
  assertM (outdir1 =s outdir2) "InputUnit.cc:129" ;;
  upd_flit t_flit (λ f, f <| fl_m_outport_dir := outdir2 |>) ;;
  InputUnit_makeSwapPtrValid r i t_flit.

(** Pipeline delay of a buffered flit. *)
Definition InputUnit_schedule_SA (r : Z) (t_flit : ptr) : G () :=
  t ← curCycle;
  x ← get_router r;
  let pipe_stages := rt_m_latency x in
  if pipe_stages =? 1 then upd_flit t_flit (flit_advance_stage SA_ t)
  else
    assertM (1 <? pipe_stages) "InputUnit.cc:163" ;;
    let wait_time := pipe_stages - 1 in
    upd_flit t_flit (flit_advance_stage SA_ (t + wait_time)) ;;
    Consumer_scheduleEvent (CRouter r) wait_time.

Definition InputUnit_wakeup (r i : Z) : G () :=
  u ← get_input r i;
  t ← curCycle;
  ready ← NetworkLink_isReady (iu_m_in_link u) t;
  if (ready : bool) then
    t_flit ← NetworkLink_consumeLink (iu_m_in_link u);
    f ← get_flit t_flit;
    let vc := fl_m_vc f in
    upd_flit t_flit flit_increment_hops ;;
    (if is_head f then InputUnit_route_head r i vc t_flit
     else fail (AssertFail "InputUnit.cc:143")) ;;
    InputUnit_insertFlit r i vc t_flit ;;
    u ← get_input r i;
    let vnet := vc `quot` iu_m_vc_per_vnet u in
    writes ← vincr (iu_m_num_buffer_writes u) vnet "m_num_buffer_writes";
    reads ← vincr (iu_m_num_buffer_reads u) vnet "m_num_buffer_reads";
    upd_input r i (λ u, u <| iu_m_num_buffer_writes := writes |>
                          <| iu_m_num_buffer_reads := reads |>) ;;
    InputUnit_schedule_SA r t_flit
  else mret tt.

Definition InputUnit_resetStats (r i : Z) : G () :=
  upd_input r i (λ u, u <| iu_m_num_buffer_reads ::= fmap (λ _, 0) |>
                        <| iu_m_num_buffer_writes ::= fmap (λ _, 0) |>).

(** ** [OutputUnit::wakeup] *)
Definition OutputUnit_wakeup (r o : Z) : G () :=
  u ← get_output r o;
  t ← curCycle;
  ready ← NetworkLink_isReady (ou_m_credit_link u) t;
  if (ready : bool) then
    t_credit ← NetworkLink_consumeLink (ou_m_credit_link u);
    c ← get_flit t_credit;
    OutputUnit_increment_credit r o (fl_m_vc c) ;;
    (if Credit_is_free_signal c then OutputUnit_set_vc_state r o IDLE_ (fl_m_vc c) t
     else mret tt) ;;
    delete_flit t_credit
  else mret tt.

(** ** [CrossbarSwitch] *)
Definition upd_crossbar (r : Z) (f : CrossbarSwitch → CrossbarSwitch) : G () :=
  upd_router r (λ x, x <| rt_m_switch ::= f |>).

Definition CrossbarSwitch_ctor (num_vcs : Z) : CrossbarSwitch := mkCrossbarSwitch num_vcs 0 0 [].

Definition CrossbarSwitch_init (r : Z) : G () :=
  x ← get_router r;
  let n := vsize (rt_m_input_unit x) in
  bufs ← foldM (zrange 0 n) [] (λ _ bufs, b ← new_fb flitBuffer_ctor; mret (bufs ++ [b]));
  upd_crossbar r (λ s, s <| xb_m_num_inports := n |> <| xb_m_switch_buffer := bufs |>).

(** [update_sw_winner], called through [Router::grant_switch]. *)
Definition CrossbarSwitch_update_sw_winner (r inport : Z) (t_flit : ptr) : G () :=
  x ← get_router r;
  b ← vgetG (xb_m_switch_buffer (rt_m_switch x)) inport "m_switch_buffer";
  flitBuffer_insert b t_flit.

Definition CrossbarSwitch_traverse (r inport : Z) : G () :=
  x ← get_router r;
  t ← curCycle;
  b ← vgetG (xb_m_switch_buffer (rt_m_switch x)) inport "m_switch_buffer";
  ready ← flitBuffer_isReady b t;
  if negb ready then mret tt
  else
    t_flit ← flitBuffer_peekTopFlit b;
    f ← get_flit t_flit;
    if flit_is_stage ST_ t f then
      let outport := fl_m_outport f in
      upd_flit t_flit (flit_advance_stage LT_ (t + 1)) ;;
      upd_flit t_flit (λ f, f <| fl_m_time := t + 1 |>) ;;
      OutputUnit_insert_flit r outport t_flit ;;
      _ ← flitBuffer_getTopFlit b;
      upd_crossbar r (λ s, s <| xb_m_crossbar_activity ::= Z.succ |>)
    else mret tt.

Definition CrossbarSwitch_wakeup (r : Z) : G () :=
  x ← get_router r;
  for_each (zrange 0 (xb_m_num_inports (rt_m_switch x))) (CrossbarSwitch_traverse r).

Definition CrossbarSwitch_resetStats (r : Z) : G () :=
  upd_crossbar r (λ s, s <| xb_m_crossbar_activity := 0 |>).
