(* ===== verification/SwitchAllocatorModel.v ===== *)
(** * The switch allocator

    Models garnet2.0/SwitchAllocator.hh and SwitchAllocator.cc: a two-stage
    separable allocator with round-robin pointers.  [m_input_unit] and
    [m_output_unit] of the class are the router's own units. *)

From S2P Require Import Prelude BinaryHeap NetDestModel CommonTypes GarnetState FlitBuffer Channels RoutingUnitModel SwapModel UnitsModel.

Definition get_sa (r : Z) : G SwitchAllocator := x ← get_router r; mret (rt_m_sw_alloc x).
Definition upd_sa (r : Z) (f : SwitchAllocator → SwitchAllocator) : G () :=
  upd_router r (λ x, x <| rt_m_sw_alloc ::= f |>).

(** [v[o][i]] and [v[o][i] = a]. *)
Definition mget {A} (m : list (list A)) (o i : Z) (site : string) : G A :=
  row ← vgetG m o site; vgetG row i site.
Definition mset {A} (m : list (list A)) (o i : Z) (a : A) : list (list A) :=
  match vget m o with Some row => vset m o (vset row i a) | None => m end.

Definition SwitchAllocator_ctor (num_vcs vc_per_vnet : Z) : SwitchAllocator :=
  mkSwitchAllocator 0 0 num_vcs vc_per_vnet 0 0 [] [] [] [].

Definition SwitchAllocator_init (r : Z) : G () :=
  x ← get_router r;
  let ni := length (rt_m_input_unit x) in
  let no := length (rt_m_output_unit x) in
  upd_sa r (λ s, s
    <| sa_m_num_inports := Z.of_nat ni |> <| sa_m_num_outports := Z.of_nat no |>
    <| sa_m_round_robin_inport := replicate no 0 |>
    <| sa_m_round_robin_invc := replicate ni 0 |>
    <| sa_m_port_requests := replicate no (replicate ni false) |>
    <| sa_m_vc_winners := replicate no (replicate ni 0) |>).

Definition SwitchAllocator_get_vnet (r invc : Z) : G Z :=
  s ← get_sa r;
  x ← get_router r;
  let vnet := invc `quot` sa_m_vc_per_vnet s in
  assertM (vnet <? rt_m_virtual_networks x) "SwitchAllocator.cc:434" ;;
  mret vnet.

(** ** Permission to request an output port *)

(** The point-to-point ordering check within an ordered virtual network. *)
Definition SwitchAllocator_ordering_ok (r inport invc outport vnet : Z) : G bool :=
  s ← get_sa r;
  t_enqueue_time ← InputUnit_get_enqueue_time r inport invc;
  let vc_base := vnet * sa_m_vc_per_vnet s in
  res ← loop (zrange 0 (sa_m_vc_per_vnet s)) tt (λ vc_offset _,
    let temp_vc := vc_base + vc_offset in
    t ← curCycle;
    need ← InputUnit_need_stage r inport temp_vc SA_ t;
    if (need : bool) then
      o ← InputUnit_get_outport r inport temp_vc;
      if o =? outport then
        e ← InputUnit_get_enqueue_time r inport temp_vc;
        mret (if e <? t_enqueue_time then inr tt else inl tt)
      else mret (inl tt)
    else mret (inl tt));
  mret (match res with inl _ => true | inr _ => false end).

Definition SwitchAllocator_send_allowed (r inport invc outport outvc : Z) : G bool :=
  assertM (outvc =? -1) "SwitchAllocator.cc:347" ;;
  vnet ← SwitchAllocator_get_vnet r invc;
  has ←
    (if outvc =? -1 then
       free ← OutputUnit_has_free_vc r outport vnet;
       mret (if (free : bool) then (true, true) else (false, false))
     else c ← OutputUnit_has_credit r outport outvc; mret (true, c));
  let '(has_outvc, has_credit) := has in
  if negb has_outvc || negb has_credit then mret false
  else
    ordered ← isVNetOrdered vnet;
    if (ordered : bool) then SwitchAllocator_ordering_ok r inport invc outport vnet
    else mret true.

(** ** First stage: one VC per input port *)

(** The winner of SA-I: place the request and advance the round-robin pointer. *)
Definition SwitchAllocator_request (r inport invc outport : Z) : G () :=
  s ← get_sa r;
  _ ← mget (sa_m_port_requests s) outport inport "m_port_requests";
  _ ← mget (sa_m_vc_winners s) outport inport "m_vc_winners";
  rr ← vgetG (sa_m_round_robin_invc s) inport "m_round_robin_invc";
  let rr := if sa_m_num_vcs s <=? rr + 1 then 0 else rr + 1 in
  upd_sa r (λ s, s
    <| sa_m_input_arbiter_activity ::= Z.succ |>
    <| sa_m_port_requests ::= λ m, mset m outport inport true |>
    <| sa_m_vc_winners ::= λ m, mset m outport inport invc |>
    <| sa_m_round_robin_invc ::= λ l, vset l inport rr |>).

Definition SwitchAllocator_arbitrate_inport (r inport : Z) : G () :=
  s ← get_sa r;
  invc0 ← vgetG (sa_m_round_robin_invc s) inport "m_round_robin_invc";
  res ← loop (zrange 0 (sa_m_num_vcs s)) invc0 (λ _ invc,
    t ← curCycle;
    need ← InputUnit_need_stage r inport invc SA_ t;
    make_request ←
      (if (need : bool) then
         p ← InputUnit_peekTopFlit r inport invc;
         f ← get_flit p;
         let outport := fl_m_outport f in
         ok ← SwitchAllocator_send_allowed r inport invc outport (-1);
         mret (if (ok : bool) then Some outport else None)
       else mret None);
    match make_request with
    | Some outport => SwitchAllocator_request r inport invc outport ;; mret (inr tt)
    | None => mret (inl (if sa_m_num_vcs s <=? invc + 1 then 0 else invc + 1))
    end);
  match res with inl _ => mret tt | inr tt => mret tt end.

Definition SwitchAllocator_arbitrate_inports (r : Z) : G () :=
  s ← get_sa r;
  for_each (zrange 0 (sa_m_num_inports s)) (SwitchAllocator_arbitrate_inport r).

(** ** Second stage: one input port per output port *)
Definition SwitchAllocator_vc_allocate (r outport inport invc : Z) : G Z :=
  vnet ← SwitchAllocator_get_vnet r invc;
  outvc ← OutputUnit_select_free_vc r outport vnet;
  assertM (negb (outvc =? -1)) "SwitchAllocator.cc:406" ;;
  mret outvc.

(** A flit that reached this router by a swap leaves it through the switch:
    clear its [routedSwap] bit and the router's [is_swap] bit. *)
Definition SwitchAllocator_clear_swap_bits (r inport invc : Z) : G () :=
  interswap ← config cf_m_interswap;
  if (interswap : bool) then
    p ← InputUnit_peekTopFlit r inport invc;
    f ← get_flit p;
    if fl_routedSwap f then
      no_is_swap ← config cf_m_no_is_swap;
      x ← get_router r;
      (if no_is_swap =? 0 then assertM (rt_is_swap x) "SwitchAllocator.cc:217" else mret tt) ;;
      upd_flit p (λ f, f <| fl_routedSwap := false |>) ;;
      upd_router r (λ x, x <| rt_is_swap := false |>) ;;
      x ← get_router r;
      assertM (negb (rt_send_routedSwap x)) "SwitchAllocator.cc:233"
    else mret tt
  else mret tt.

(** Move the swap pointer off a VC whose flit has left. *)
Definition SwitchAllocator_release_swap_ptr (r inport invc : Z) : G () :=
  interswap ← config cf_m_interswap;
  if (interswap : bool) then
    x ← get_router r;
    if (inport =? sp_inport (rt_swap_ptr x)) && (invc =? sp_vcid (rt_swap_ptr x)) then
      Router_movSwapPtr r
    else mret tt
  else mret tt.

(** Free the input VC and return the credit upstream. *)
Definition SwitchAllocator_return_credit (r inport invc : Z) (t_flit : ptr) : G () :=
  t ← curCycle;
  f ← get_flit t_flit;
  if is_tail f then
    ready ← InputUnit_isReady r inport invc t;
    assertM (negb ready) "SwitchAllocator.cc:292" ;;
    InputUnit_set_vc_idle r inport invc t ;;
    InputUnit_increment_credit r inport invc true t
  else InputUnit_increment_credit r inport invc false t.

(** Remove the served request and advance the round-robin pointer. *)
Definition SwitchAllocator_grant_done (r outport inport : Z) : G () :=
  s ← get_sa r;
  rr ← vgetG (sa_m_round_robin_inport s) outport "m_round_robin_inport";
  let rr := if sa_m_num_inports s <=? rr + 1 then 0 else rr + 1 in
  upd_sa r (λ s, s
    <| sa_m_port_requests ::= λ m, mset m outport inport false |>
    <| sa_m_round_robin_inport ::= λ l, vset l outport rr |>).

(** Grant [outport] to the request of [inport]. *)
Definition SwitchAllocator_grant (r outport inport : Z) : G () :=
  s ← get_sa r;
  invc ← mget (sa_m_vc_winners s) outport inport "m_vc_winners";
  outvc ← InputUnit_get_outvc r inport invc;
  assertM (outvc =? -1) "SwitchAllocator.cc:206" ;;
  outvc ← SwitchAllocator_vc_allocate r outport inport invc;
  SwitchAllocator_clear_swap_bits r inport invc ;;
  t_flit ← InputUnit_getTopFlit r inport invc;
  SwitchAllocator_release_swap_ptr r inport invc ;;
  upd_flit t_flit (λ f, f <| fl_m_outport := outport |>) ;;
  o ← get_output r outport;
  upd_flit t_flit (λ f, f <| fl_m_outport_dir := ou_m_direction o |>) ;;
  upd_flit t_flit (λ f, f <| fl_m_vc := outvc |>) ;;
  OutputUnit_decrement_credit r outport outvc ;;
  t ← curCycle;
  upd_flit t_flit (flit_advance_stage ST_ t) ;;
  CrossbarSwitch_update_sw_winner r inport t_flit ;;
  upd_sa r (λ s, s <| sa_m_output_arbiter_activity ::= Z.succ |>) ;;
  SwitchAllocator_return_credit r inport invc t_flit ;;
  SwitchAllocator_grant_done r outport inport.

Definition SwitchAllocator_arbitrate_outport (r outport : Z) : G () :=
  s ← get_sa r;
  inport0 ← vgetG (sa_m_round_robin_inport s) outport "m_round_robin_inport";
  res ← loop (zrange 0 (sa_m_num_inports s)) inport0 (λ _ inport,
    s ← get_sa r;
    req ← mget (sa_m_port_requests s) outport inport "m_port_requests";
    if (req : bool) then SwitchAllocator_grant r outport inport ;; mret (inr tt)
    else mret (inl (if sa_m_num_inports s <=? inport + 1 then 0 else inport + 1)));
  match res with inl _ => mret tt | inr tt => mret tt end.

Definition SwitchAllocator_arbitrate_outports (r : Z) : G () :=
  s ← get_sa r;
  for_each (zrange 0 (sa_m_num_outports s)) (SwitchAllocator_arbitrate_outport r).

(** ** End of the cycle *)
Definition SwitchAllocator_clear_request_vector (r : Z) : G () :=
  s ← get_sa r;
  for_each (zrange 0 (sa_m_num_outports s)) (λ i,
    for_each (zrange 0 (sa_m_num_inports s)) (λ j,
      s ← get_sa r;
      _ ← mget (sa_m_port_requests s) i j "m_port_requests";
      upd_sa r (λ s, s <| sa_m_port_requests ::= λ m, mset m i j false |>))).

Definition SwitchAllocator_check_for_wakeup (r : Z) : G () :=
  s ← get_sa r;
  t ← curCycle;
  res ← loop (zrange 0 (sa_m_num_inports s)) tt (λ i _,
    loop (zrange 0 (sa_m_num_vcs s)) tt (λ j _,
      need ← InputUnit_need_stage r i j SA_ (t + 1);
      if (need : bool) then Consumer_scheduleEvent (CRouter r) 1 ;; mret (inr tt)
      else mret (inl tt)));
  match res with inl _ => mret tt | inr tt => mret tt end.

Definition SwitchAllocator_wakeup (r : Z) : G () :=
  SwitchAllocator_arbitrate_inports r ;;
  SwitchAllocator_arbitrate_outports r ;;
  SwitchAllocator_clear_request_vector r ;;
  SwitchAllocator_check_for_wakeup r.

Definition SwitchAllocator_resetStats (r : Z) : G () :=
  upd_sa r (λ s, s <| sa_m_input_arbiter_activity := 0 |> <| sa_m_output_arbiter_activity := 0 |>).

(** * The router

    [Router::wakeup]: swap phase, incoming flits, incoming credits, switch
    allocation, switch traversal. *)
Definition Router_wakeup (r : Z) : G () :=
  interswap ← config cf_m_interswap;
  (if (interswap : bool) then Router_swap_phase r else mret tt) ;;
  x ← get_router r;
  for_each (zrange 0 (vsize (rt_m_input_unit x))) (InputUnit_wakeup r) ;;
  for_each (zrange 0 (vsize (rt_m_output_unit x))) (OutputUnit_wakeup r) ;;
  SwitchAllocator_wakeup r ;;
  CrossbarSwitch_wakeup r.

Definition Router_init (r : Z) : G () := SwitchAllocator_init r ;; CrossbarSwitch_init r.

(** [Router::resetStats]: the input units once per virtual network. *)
Definition Router_resetStats (r : Z) : G () :=
  x ← get_router r;
  for_each (zrange 0 (rt_m_virtual_networks x)) (λ _,
    for_each (zrange 0 (vsize (rt_m_input_unit x))) (InputUnit_resetStats r)) ;;
  CrossbarSwitch_resetStats r ;;
  SwitchAllocator_resetStats r.
