(* ===== verification/MessageBufferModel.v ===== *)
(** * Message buffers

    Models src/gem5/src/mem/ruby/network/MessageBuffer.hh and
    MessageBuffer.cc: the queues between the protocol controllers and the
    network interfaces.  A buffer is a heap ordered by arrival tick and
    message counter, with a stall map and, for finite buffers, a size that
    pops of the current tick do not shrink. *)

From stdpp Require Import sorting.
From S2P Require Import Prelude BinaryHeap NetDestModel CommonTypes GarnetState FlitBuffer.

(** [greater<MsgPtr>] on message pointers. *)
Definition null_msg : Message := mkMessage 0 0 0 0 (mkNetDest []) MessageSizeType_NUM 0.
Definition msg_at (h : gmap ptr Message) (p : ptr) : Message := default null_msg (h !! p).
Definition msgptr_greater (h : gmap ptr Message) (p q : ptr) : bool :=
  Message_greater (msg_at h p) (msg_at h q).

Definition MessageBuffer_ctor (buffer_size : Z) (ordered randomization : bool) : MessageBuffer :=
  mkMessageBuffer None [] None ∅ 0 buffer_size 0 0 0 0 0 0 0 0 0 ordered randomization 0 0 0 0 0.

Definition MessageBuffer_setConsumer (b : Z) (c : consumer) : G () :=
  x ← get_mbuf b;
  match mb_m_consumer x with
  | Some _ => fail (Fatal "MessageBuffer already connected")
  | None => upd_mbuf b (λ x, x <| mb_m_consumer := Some c |>)
  end.

Definition MessageBuffer_setIncomingLink (b link_id : Z) : G () :=
  upd_mbuf b (λ x, x <| mb_m_input_link_id := link_id |>).
Definition MessageBuffer_setVnet (b net : Z) : G () :=
  upd_mbuf b (λ x, x <| mb_m_vnet_id := net |>).

Definition MessageBuffer_getSize (b curTime : Z) : G Z :=
  x ← get_mbuf b;
  (if negb (mb_m_time_last_time_size_checked x =? curTime) then
     upd_mbuf b (λ x, x <| mb_m_time_last_time_size_checked := curTime |>
                        <| mb_m_size_last_time_size_checked := vsize (mb_m_prio_heap x) |>)
   else mret tt) ;;
  x ← get_mbuf b; mret (mb_m_size_last_time_size_checked x).

(** The size the network sees in the current tick. *)
Definition MessageBuffer_visible_size (current_time : Z) (x : MessageBuffer) : Z :=
  if mb_m_time_last_time_pop x <? current_time then vsize (mb_m_prio_heap x)
  else if mb_m_time_last_time_enqueue x <? current_time then mb_m_size_at_cycle_start x
  else mb_m_size_at_cycle_start x + mb_m_msgs_this_cycle x.

Definition MessageBuffer_areNSlotsAvailable (b n current_time : Z) : G bool :=
  x ← get_mbuf b;
  if mb_m_max_size x =? 0 then mret true
  else if MessageBuffer_visible_size current_time x + mb_m_stall_map_size x + n
            <=? mb_m_max_size x then mret true
  else upd_mbuf b (λ x, x <| mb_m_not_avail_count ::= Z.succ |>) ;; mret false.

Definition MessageBuffer_peekMsgPtr (b : Z) : G ptr :=
  x ← get_mbuf b; vgetG (mb_m_prio_heap x) 0 "m_prio_heap.front()".

Definition MessageBuffer_isReady (b current_time : Z) : G bool :=
  x ← get_mbuf b;
  match mb_m_prio_heap x with
  | [] => mret false
  | p :: _ => m ← get_msg p; mret (msg_m_LastEnqueueTime m <=? current_time)
  end.

(** [random_mt.random(lo, hi)]: a value of the closed interval. *)
Definition random_between (lo hi : Z) : G Z :=
  n ← random; mret (lo + Z.of_N n mod (hi - lo + 1)).

Definition random_time : G Z :=
  d ← random_between 0 3;
  k ← random_between 0 7;
  if k =? 0 then e ← random_between 1 15; mret (1 + d + (100 + e)) else mret (1 + d).

(** [std::push_heap] after [push_back], and [std::pop_heap] before [pop_back]. *)
Definition MessageBuffer_push (b : Z) (p : ptr) : G () :=
  h ← gets net_msgs;
  upd_mbuf b (λ x, x <| mb_m_prio_heap ::= λ l, push_heap (msgptr_greater h) (l ++ [p]) |>).
Definition MessageBuffer_pop (b : Z) : G () :=
  h ← gets net_msgs;
  upd_mbuf b (λ x, x <| mb_m_prio_heap ::= λ l, removelast (pop_heap (msgptr_greater h) l) |>).

(** The tick at which a message may be dequeued. *)
Definition MessageBuffer_arrival_time (b current_time delta : Z) : G Z :=
  x ← get_mbuf b;
  rnd ← config cf_randomization;
  if negb rnd && negb (mb_m_randomization x) then mret (current_time + delta)
  else if mb_m_strict_fifo x then
    (if mb_m_last_arrival_time x <? current_time then
       upd_mbuf b (λ x, x <| mb_m_last_arrival_time := current_time |>) else mret tt) ;;
    x ← get_mbuf b; t ← random_time; mret (mb_m_last_arrival_time x + t)
  else t ← random_time; mret (current_time + t).

Definition MessageBuffer_enqueue (b : Z) (message : ptr) (current_time delta : Z) : G () :=
  x ← get_mbuf b;
  (if mb_m_time_last_time_enqueue x <? current_time then
     upd_mbuf b (λ x, x <| mb_m_msgs_this_cycle := 0 |>
                        <| mb_m_time_last_time_enqueue := current_time |>)
   else mret tt) ;;
  upd_mbuf b (λ x, x <| mb_m_msg_counter ::= Z.succ |> <| mb_m_msgs_this_cycle ::= Z.succ |>) ;;
  assertM (0 <? delta) "MessageBuffer.cc:156" ;;
  arrival_time ← MessageBuffer_arrival_time b current_time delta;
  assertM (current_time <? arrival_time) "MessageBuffer.cc:177" ;;
  x ← get_mbuf b;
  (if mb_m_strict_fifo x && (arrival_time <? mb_m_last_arrival_time x) then
     fail (Panic "FIFO ordering violated") else mret tt) ;;
  warmup ← config cf_warmup_enabled;
  (if (warmup : bool) then mret tt
   else upd_mbuf b (λ x, x <| mb_m_last_arrival_time := arrival_time |>)) ;;
  m ← get_msg message;
  assertM (msg_m_LastEnqueueTime m <=? current_time) "MessageBuffer.cc:196" ;;
  m ← lift (Message_updateDelayedTicks current_time m);
  put_msg message (m <| msg_m_LastEnqueueTime := arrival_time |>
                     <| msg_m_msg_counter := mb_m_msg_counter x |>) ;;
  MessageBuffer_push b message ;;
  upd_mbuf b (λ x, x <| mb_m_buf_msgs ::= Z.succ |>) ;;
  c ← optG (mb_m_consumer x) (AssertFail "MessageBuffer.cc:213");
  Consumer_scheduleEventAbsolute c arrival_time ;;
  Consumer_storeEventInfo c (mb_m_vnet_id x).

(** [NetworkInterface::dequeueCallback], the only callback registered. *)
Definition NetworkInterface_dequeueCallback (n : Z) : G () :=
  t ← clockEdge 1; Consumer_scheduleEventAbsolute (CNI n) t.

Definition MessageBuffer_dequeue (b current_time : Z) (decrement_messages : bool) : G Z :=
  ready ← MessageBuffer_isReady b current_time;
  assertM ready "MessageBuffer.cc:222" ;;
  message ← MessageBuffer_peekMsgPtr b;
  m ← get_msg message;
  m ← lift (Message_updateDelayedTicks current_time m);
  put_msg message m ;;
  tick ← clockEdge 0;
  x ← get_mbuf b;
  upd_mbuf b (λ x, x <| mb_m_stall_time := tick - msg_m_time m |>) ;;
  (if mb_m_time_last_time_pop x <? current_time then
     upd_mbuf b (λ x, x <| mb_m_size_at_cycle_start := vsize (mb_m_prio_heap x) |>
                        <| mb_m_time_last_time_pop := current_time |>)
   else mret tt) ;;
  MessageBuffer_pop b ;;
  (if decrement_messages then upd_mbuf b (λ x, x <| mb_m_buf_msgs ::= Z.pred |>) else mret tt) ;;
  (match mb_m_dequeue_callback x with
   | Some n => NetworkInterface_dequeueCallback n
   | None => mret tt
   end) ;;
  mret (msg_m_DelayedTicks m).

Definition MessageBuffer_registerDequeueCallback (b n : Z) : G () :=
  upd_mbuf b (λ x, x <| mb_m_dequeue_callback := Some n |>).
Definition MessageBuffer_unregisterDequeueCallback (b : Z) : G () :=
  upd_mbuf b (λ x, x <| mb_m_dequeue_callback := None |>).

Definition MessageBuffer_clear (b : Z) : G () :=
  upd_mbuf b (λ x, x <| mb_m_prio_heap := [] |> <| mb_m_msg_counter := 0 |>
    <| mb_m_time_last_time_enqueue := 0 |> <| mb_m_time_last_time_pop := 0 |>
    <| mb_m_size_at_cycle_start := 0 |> <| mb_m_msgs_this_cycle := 0 |>).

(** The recycled message takes the place that [pop_heap] freed at the back. *)
Definition MessageBuffer_recycle (b current_time recycle_latency : Z) : G () :=
  ready ← MessageBuffer_isReady b current_time;
  assertM ready "MessageBuffer.cc:284" ;;
  node ← MessageBuffer_peekMsgPtr b;
  MessageBuffer_pop b ;;
  let future_time := current_time + recycle_latency in
  m ← get_msg node;
  put_msg node (m <| msg_m_LastEnqueueTime := future_time |>) ;;
  MessageBuffer_push b node ;;
  x ← get_mbuf b;
  c ← optG (mb_m_consumer x) (NullDeref "m_consumer");
  Consumer_scheduleEventAbsolute c future_time.

Definition MessageBuffer_reanalyzeList (b : Z) (lt : list ptr) (schdTick : Z) : G () :=
  for_each lt (λ p,
    upd_mbuf b (λ x, x <| mb_m_msg_counter ::= Z.succ |>) ;;
    x ← get_mbuf b;
    m ← get_msg p;
    put_msg p (m <| msg_m_LastEnqueueTime := schdTick |>
                 <| msg_m_msg_counter := mb_m_msg_counter x |>) ;;
    MessageBuffer_push b p ;;
    c ← optG (mb_m_consumer x) (NullDeref "m_consumer");
    Consumer_scheduleEventAbsolute c schdTick).

Definition MessageBuffer_reanalyzeMessages (b addr current_time : Z) : G () :=
  x ← get_mbuf b;
  lt ← optG (mb_m_stall_msg_map x !! addr) (AssertFail "MessageBuffer.cc:318");
  upd_mbuf b (λ x, x <| mb_m_stall_map_size ::= λ n, n - vsize lt |>) ;;
  x ← get_mbuf b;
  assertM (0 <=? mb_m_stall_map_size x) "MessageBuffer.cc:327" ;;
  MessageBuffer_reanalyzeList b lt current_time ;;
  upd_mbuf b (λ x, x <| mb_m_stall_msg_map ::= delete addr |>).

(** The stall map is visited in the order of its addresses. *)
Definition addr_le (p q : Z * list ptr) : Prop := fst p ≤ fst q.
#[export] Instance addr_le_dec p q : Decision (addr_le p q) := Z_le_dec _ _.
Definition stall_map_entries (m : gmap Z (list ptr)) : list (Z * list ptr) :=
  merge_sort addr_le (map_to_list m).

Definition MessageBuffer_reanalyzeAllMessages (b current_time : Z) : G () :=
  x ← get_mbuf b;
  for_each (stall_map_entries (mb_m_stall_msg_map x)) (λ e,
    upd_mbuf b (λ x, x <| mb_m_stall_map_size ::= λ n, n - vsize (snd e) |>) ;;
    x ← get_mbuf b;
    assertM (0 <=? mb_m_stall_map_size x) "MessageBuffer.cc:346" ;;
    MessageBuffer_reanalyzeList b (snd e) current_time) ;;
  upd_mbuf b (λ x, x <| mb_m_stall_msg_map := ∅ |>).

Definition MessageBuffer_stallMessage (b addr current_time : Z) : G () :=
  ready ← MessageBuffer_isReady b current_time;
  assertM ready "MessageBuffer.cc:356" ;;
  bits ← config cf_block_size_bits;
  assertM (addr mod 2 ^ bits =? 0) "MessageBuffer.cc:357" ;;
  message ← MessageBuffer_peekMsgPtr b;
  _ ← MessageBuffer_dequeue b current_time false;
  upd_mbuf b (λ x, x
    <| mb_m_stall_msg_map ::= λ m, <[addr := default [] (m !! addr) ++ [message]]> m |>
    <| mb_m_stall_map_size ::= Z.succ |> <| mb_m_stall_count ::= Z.succ |>).

Definition MessageBuffer_delayHead (b current_time delta : Z) : G () :=
  m ← MessageBuffer_peekMsgPtr b;
  MessageBuffer_pop b ;;
  MessageBuffer_enqueue b m current_time delta.
