(* ===== verification/NetworkInterfaceModel.v ===== *)
(** * Network interfaces

    Models garnet2.0/NetworkInterface.hh and NetworkInterface.cc, the counters
    of GarnetNetwork.hh that the interface updates, and
    [Network::MessageSizeType_to_int]. *)

From S2P Require Import Prelude BinaryHeap NetDestModel CommonTypes GarnetState FlitBuffer Channels UnitsModel MessageBufferModel.

(** [ticksToCycles]: [divCeil] by the clock period. *)
Definition ticksToCycles (t : Z) : G Z :=
  p ← config cf_clockPeriod; mret ((t + p - 1) `quot` p).

Definition MessageSizeType_to_int (size_type : MessageSizeType) : G Z :=
  match size_type with
  | MessageSizeType_Control
  | MessageSizeType_Request_Control
  | MessageSizeType_Reissue_Control
  | MessageSizeType_Response_Control
  | MessageSizeType_Writeback_Control
  | MessageSizeType_Broadcast_Control
  | MessageSizeType_Multicast_Control
  | MessageSizeType_Forwarded_Control
  | MessageSizeType_Invalidate_Control
  | MessageSizeType_Unblock_Control
  | MessageSizeType_Persistent_Control
  | MessageSizeType_Completion_Control => config cf_m_control_msg_size
  | MessageSizeType_Data
  | MessageSizeType_Response_Data
  | MessageSizeType_ResponseLocal_Data
  | MessageSizeType_ResponseL2hit_Data
  | MessageSizeType_Writeback_Data => config cf_m_data_msg_size
  | MessageSizeType_NUM => fail (Panic "Invalid range for type MessageSizeType")
  end.

(** ** Statistics *)

(** [v[vnet] += n] on a statistics vector. *)
Definition stat_add (p : NetStats → list Z) (vnet n : Z) (set : list Z → NetStats → NetStats)
    : G () :=
  s ← gets net_stats;
  k ← vgetG (p s) vnet "Stats::Vector";
  upd_stats (set (vset (p s) vnet (k + n))).

Definition increment_injected_packets (vnet : Z) : G () :=
  stat_add st_m_packets_injected vnet 1 (λ l s, s <| st_m_packets_injected := l |>).
Definition increment_injected_flits (vnet : Z) : G () :=
  stat_add st_m_flits_injected vnet 1 (λ l s, s <| st_m_flits_injected := l |>).
Definition increment_received_packets (vnet : Z) : G () :=
  stat_add st_m_packets_received vnet 1 (λ l s, s <| st_m_packets_received := l |>).
Definition increment_packet_network_latency (latency vnet : Z) : G () :=
  stat_add st_m_packet_network_latency vnet latency (λ l s, s <| st_m_packet_network_latency := l |>).
Definition increment_packet_queueing_latency (latency vnet : Z) : G () :=
  stat_add st_m_packet_queueing_latency vnet latency (λ l s, s <| st_m_packet_queueing_latency := l |>).
Definition increment_flit_network_latency (latency vnet : Z) : G () :=
  stat_add st_m_flit_network_latency vnet latency (λ l s, s <| st_m_flit_network_latency := l |>).
Definition increment_flit_queueing_latency (latency vnet : Z) : G () :=
  stat_add st_m_flit_queueing_latency vnet latency (λ l s, s <| st_m_flit_queueing_latency := l |>).
Definition increment_total_hops (hops : Z) : G () :=
  upd_stats (λ s, s <| st_m_total_hops ::= Z.add hops |>).

(** [increment_received_flits] also copies the running extrema into the
    reported statistics. *)
Definition increment_received_flits (vnet : Z) : G () :=
  stat_add st_m_flits_received vnet 1 (λ l s, s <| st_m_flits_received := l |>) ;;
  upd_stats (λ s, s
    <| st_m_max_flit_latency := st_max_flit_latency s |>
    <| st_m_max_flit_network_latency := st_max_flit_network_latency s |>
    <| st_m_max_flit_queueing_latency := st_max_flit_queueing_latency s |>
    <| st_m_min_flit_latency := st_min_flit_latency s |>
    <| st_m_min_flit_network_latency := st_min_flit_network_latency s |>
    <| st_m_min_flit_queueing_latency := st_min_flit_queueing_latency s |>).

(** The [Stats::Histogram] samples of these functions are not modelled. *)
Definition update_flit_latency_histogram (latency : Z) : G () :=
  upd_stats (λ s, s <| st_max_flit_latency ::= λ m, if m <? latency then latency else m |>
                    <| st_min_flit_latency ::= λ m, if latency <? m then latency else m |>).
Definition update_flit_network_latency_histogram (latency : Z) : G () :=
  upd_stats (λ s, s <| st_max_flit_network_latency ::= λ m, if m <? latency then latency else m |>
                    <| st_min_flit_network_latency ::= λ m, if latency <? m then latency else m |>).
Definition update_flit_queueing_latency_histogram (latency : Z) : G () :=
  upd_stats (λ s, s <| st_max_flit_queueing_latency ::= λ m, if m <? latency then latency else m |>
                    <| st_min_flit_queueing_latency ::= λ m, if latency <? m then latency else m |>).
Definition update_network_latency_histogram (latency : Z) : G () :=
  let index := latency `quot` 5 in
  stat_add st_m_network_latency_histogram (if index <? 20 then index else 20) 1
    (λ l s, s <| st_m_network_latency_histogram := l |>).

Definition NetworkInterface_incrementStats (t_flit : ptr) : G () :=
  f ← get_flit t_flit;
  let vnet := fl_m_vnet f in
  increment_received_flits vnet ;;
  d ← lift (cycles_sub (fl_m_dequeue_time f) (fl_m_enqueue_time f));
  network_delay ← lift (cycles_sub d 1);
  let src_queueing_delay := fl_src_delay f in
  t ← curCycle;
  dest_queueing_delay ← lift (cycles_sub t (fl_m_dequeue_time f));
  let queueing_delay := src_queueing_delay + dest_queueing_delay in
  let total_delay := queueing_delay + network_delay in
  increment_flit_network_latency network_delay vnet ;;
  increment_flit_queueing_latency queueing_delay vnet ;;
  update_flit_latency_histogram total_delay ;;
  update_flit_network_latency_histogram network_delay ;;
  update_flit_queueing_latency_histogram queueing_delay ;;
  update_network_latency_histogram network_delay ;;
  (if is_tail f then
     increment_received_packets vnet ;;
     increment_packet_network_latency network_delay vnet ;;
     increment_packet_queueing_latency queueing_delay vnet
   else mret tt) ;;
  increment_total_hops (ri_hops_traversed (fl_m_route f)).

(** ** Output virtual channels *)
Definition NetworkInterface_get_vnet (n vc : Z) : G Z :=
  x ← get_ni n;
  res ← loop (zrange 0 (ni_m_virtual_networks x)) tt (λ i _,
    mret (if (i * ni_m_vc_per_vnet x <=? vc) && (vc <? (i + 1) * ni_m_vc_per_vnet x)
          then inr i else inl tt));
  match res with
  | inr i => mret i
  | inl _ => fail (Fatal "Could not determine vc")
  end.

Definition ni_get_outvc (n vc : Z) : G OutVcState :=
  x ← get_ni n; vgetG (ni_m_out_vc_state x) vc "m_out_vc_state".
Definition ni_put_outvc (n vc : Z) (s : OutVcState) : G () :=
  upd_ni n (λ x, x <| ni_m_out_vc_state ::= λ l, vset l vc s |>).

(** One probe of the round-robin allocator of a virtual network. *)
Definition calculateVC_probe (n vnet : Z) : G (() + Z) :=
  x ← get_ni n;
  delta ← vgetG (ni_m_vc_allocator x) vnet "m_vc_allocator";
  let next := if delta + 1 =? ni_m_vc_per_vnet x then 0 else delta + 1 in
  upd_ni n (λ x, x <| ni_m_vc_allocator ::= λ l, vset l vnet next |>) ;;
  t ← curCycle;
  let vc := vnet * ni_m_vc_per_vnet x + delta in
  s ← ni_get_outvc n vc;
  if OutVcState_isInState IDLE_ t s then
    _ ← vgetG (ni_vc_busy_counter x) vnet "vc_busy_counter";
    upd_ni n (λ x, x <| ni_vc_busy_counter ::= λ l, vset l vnet 0 |>) ;;
    mret (inr vc)
  else mret (inl tt).

Definition NetworkInterface_calculateVC (n vnet : Z) : G Z :=
  x ← get_ni n;
  res ← loop (zrange 0 (ni_m_vc_per_vnet x)) tt (λ _ _, calculateVC_probe n vnet);
  match res with
  | inr vc => mret vc
  | inl _ =>
      x ← get_ni n;
      busy ← vgetG (ni_vc_busy_counter x) vnet "vc_busy_counter";
      upd_ni n (λ x, x <| ni_vc_busy_counter ::= λ l, vset l vnet (busy + 1) |>) ;;
      if ni_m_deadlock_threshold x <? busy + 1 then
        fail (Panic "Possible network deadlock")
      else mret (-1)
  end.

(** ** Flits into the network *)
Section Flitisize.
Context `{MT : MachineTypes}.

(** The destination set that contains only node [destID]. *)
Definition personal_dest (destID : Z) : outcome (option NetDest) :=
  empty ← NetDest_resize;
  m ← find_first (λ m, Ok ((MachineType_base_number m <=? destID) &&
                           (destID <? MachineType_base_number (m + 1))))
        (zrange 0 MachineType_NUM);
  match m with
  | None => Ok None
  | Some m =>
      d ← NetDest_add (mkMachineID m (destID - MachineType_base_number m)) (NetDest_clear empty);
      Ok (Some d)
  end.

(** Split the destination of the cloned message off the original one. *)
Definition split_destination (msg new_msg : ptr) (destID : Z) : G () :=
  p ← lift (personal_dest destID);
  d ← (match p with
       | Some d =>
           k ← get_msg new_msg; put_msg new_msg (k <| msg_Destination := d |>) ;; mret d
       | None => lift NetDest_resize
       end);
  m ← get_msg msg;
  rest ← lift (NetDest_removeNetDest d (msg_Destination m));
  put_msg msg (m <| msg_Destination := rest |>).

(** Build the single flit of a packet and queue it in [vc]. *)
Definition flitisize_packet (n vc vnet destID : Z) (msg new_msg : ptr) : G () :=
  x ← get_ni n;
  k ← get_msg new_msg;
  dst ← get_ni destID;
  let route := mkRouteInfo vnet (msg_Destination k) (ni_m_id x) (ni_m_router_id x)
                 destID (ni_m_router_id dst) (-1) in
  increment_injected_packets vnet ;;
  t ← curCycle;
  m ← get_msg msg;
  created ← ticksToCycles (msg_m_time m);
  delay ← lift (cycles_sub t created);
  fl ← new_flit (flit_ctor 0 vc vnet route 1 (Some new_msg) t);
  upd_flit fl (λ f, f <| fl_src_delay := delay |>) ;;
  b ← vgetG (ni_m_ni_out_vcs x) vc "m_ni_out_vcs";
  flitBuffer_insert b fl ;;
  bytes ← MessageSizeType_to_int (msg_MessageSize m);
  flit_size ← config cf_m_ni_flit_size;
  let packet_size := (bytes + flit_size - 1) `quot` flit_size in
  for_each (zrange 0 packet_size) (λ _, increment_injected_flits vnet) ;;
  upd_ni n (λ x, x <| ni_m_ni_out_vcs_enqueue_time ::= λ l, vset l vc t |>) ;;
  s ← ni_get_outvc n vc;
  ni_put_outvc n vc (OutVcState_setState ACTIVE_ t s).

(** [flitisizeMessage]: every packet is a single flit ([num_flits = 1]). *)
Definition NetworkInterface_flitisizeMessage (n : Z) (msg_ptr : ptr) (vnet : Z) : G bool :=
  m ← get_msg msg_ptr;
  dest_nodes ← lift (NetDest_getAllDest (msg_Destination m));
  _ ← MessageSizeType_to_int (msg_MessageSize m);
  res ← loop dest_nodes tt (λ destID _,
    single ← config cf_m_inj_single_vnet;
    vc ← (if single =? 0 then NetworkInterface_calculateVC n vnet
          else
            vc ← NetworkInterface_calculateVC n 0;
            assertM (single =? 1) "NetworkInterface.cc:360" ;; mret vc);
    if vc =? -1 then mret (inr false)
    else
      m ← get_msg msg_ptr;
      new_msg_ptr ← new_msg m;
      (if 1 <? vsize dest_nodes then split_destination msg_ptr new_msg_ptr destID
       else mret tt) ;;
      flitisize_packet n vc vnet destID msg_ptr new_msg_ptr ;;
      mret (inl tt));
  mret (match res with inl _ => true | inr b => b end).
End Flitisize.

(** Within an ordered virtual network an older packet goes first. *)
Definition scheduleOutputLink_candidate (n vc : Z) : G bool :=
  x ← get_ni n;
  t ← curCycle;
  t_vnet ← NetworkInterface_get_vnet n vc;
  ordered ← (l ← config cf_m_ordered; vgetG l t_vnet "m_ordered");
  if (ordered : bool) then
    mine ← vgetG (ni_m_ni_out_vcs_enqueue_time x) vc "m_ni_out_vcs_enqueue_time";
    res ← loop (zrange 0 (ni_m_vc_per_vnet x)) tt (λ vc_offset _,
      let t_vc := t_vnet * ni_m_vc_per_vnet x + vc_offset in
      b ← vgetG (ni_m_ni_out_vcs x) t_vc "m_ni_out_vcs";
      ready ← flitBuffer_isReady b t;
      if (ready : bool) then
        other ← vgetG (ni_m_ni_out_vcs_enqueue_time x) t_vc "m_ni_out_vcs_enqueue_time";
        mret (if other <? mine then inr tt else inl tt)
      else mret (inl tt));
    mret (match res with inl _ => true | inr _ => false end)
  else mret true.

(** Send the head flit of [vc] to the output link. *)
Definition scheduleOutputLink_send (n vc : Z) : G () :=
  x ← get_ni n;
  t ← curCycle;
  s ← ni_get_outvc n vc;
  s' ← lift (OutVcState_decrement_credit s);
  ni_put_outvc n vc s' ;;
  b ← vgetG (ni_m_ni_out_vcs x) vc "m_ni_out_vcs";
  t_flit ← flitBuffer_getTopFlit b;
  upd_flit t_flit (λ f, f <| fl_m_time := t + 1 |>) ;;
  flitBuffer_insert (ni_outFlitQueue x) t_flit ;;
  when ← clockEdge 1;
  Consumer_scheduleEventAbsolute (CLink (ni_outNetLink x)) when ;;
  f ← get_flit t_flit;
  if is_tail f then
    upd_ni n (λ x, x <| ni_m_ni_out_vcs_enqueue_time ::= λ l, vset l vc INFINITE_ |>)
  else mret tt.

Definition NetworkInterface_scheduleOutputLink (n : Z) : G () :=
  x ← get_ni n;
  let vc0 := ni_m_vc_round_robin x in
  let next := if vc0 + 1 =? ni_m_num_vcs x then 0 else vc0 + 1 in
  upd_ni n (λ x, x <| ni_m_vc_round_robin := next |>) ;;
  res ← loop (zrange 0 (ni_m_num_vcs x)) vc0 (λ _ vc,
    let vc := if vc + 1 =? ni_m_num_vcs x then 0 else vc + 1 in
    t ← curCycle;
    b ← vgetG (ni_m_ni_out_vcs x) vc "m_ni_out_vcs";
    ready ← flitBuffer_isReady b t;
    credit ← (if (ready : bool) then s ← ni_get_outvc n vc; mret (OutVcState_has_credit s)
              else mret false);
    if (credit : bool) then
      cand ← scheduleOutputLink_candidate n vc;
      if (cand : bool) then scheduleOutputLink_send n vc ;; mret (inr tt)
      else mret (inl vc)
    else mret (inl vc));
  match res with inl _ => mret tt | inr tt => mret tt end.

Definition NetworkInterface_checkReschedule (n : Z) : G () :=
  x ← get_ni n;
  tick ← clockEdge 0;
  t ← curCycle;
  res ← loop (ni_inNode_ptr x) tt (λ it _,
    match it with
    | None => mret (inl tt)
    | Some b =>
        ready ← MessageBuffer_isReady b tick;
        if (ready : bool) then Consumer_scheduleEvent (CNI n) 1 ;; mret (inr tt)
        else mret (inl tt)
    end);
  match res with
  | inr tt => mret tt
  | inl _ =>
      res ← loop (zrange 0 (ni_m_num_vcs x)) tt (λ vc _,
        b ← vgetG (ni_m_ni_out_vcs x) vc "m_ni_out_vcs";
        ready ← flitBuffer_isReady b (t + 1);
        if (ready : bool) then Consumer_scheduleEvent (CNI n) 1 ;; mret (inr tt)
        else mret (inl tt));
      match res with inl _ => mret tt | inr tt => mret tt end
  end.

(** ** Flits out of the network *)
Definition NetworkInterface_sendCredit (n : Z) (t_flit : ptr) (is_free : bool) : G () :=
  x ← get_ni n;
  t ← curCycle;
  f ← get_flit t_flit;
  c ← new_flit (Credit_ctor (fl_m_vc f) is_free t);
  flitBuffer_insert (ni_outCreditQueue x) c.

(** The protocol buffer of a virtual network; a null pointer is followed. *)
Definition ni_outNode (n vnet : Z) : G Z :=
  x ← get_ni n;
  o ← vgetG (ni_outNode_ptr x) vnet "outNode_ptr";
  optG o (NullDeref "outNode_ptr").

(** Hand a message to the protocol, return the credit, delete the flit. *)
Definition eject_flit (n : Z) (t_flit : ptr) : G () :=
  f ← get_flit t_flit;
  b ← ni_outNode n (fl_m_vnet f);
  tick ← clockEdge 0;
  one ← config cf_clockPeriod;
  msg ← optG (fl_m_msg_ptr f) (AssertFail "MessageBuffer.cc:194");
  MessageBuffer_enqueue b msg tick one ;;
  NetworkInterface_sendCredit n t_flit true ;;
  NetworkInterface_incrementStats t_flit ;;
  delete_flit t_flit.

Definition NetworkInterface_checkStallQueue (n : Z) : G bool :=
  x ← get_ni n;
  tick ← clockEdge 0;
  res ← loop (zrange 0 (vsize (ni_m_stall_queue x))) tt (λ k _,
    stallFlit ← vgetG (ni_m_stall_queue x) k "m_stall_queue";
    f ← get_flit stallFlit;
    let vnet := fl_m_vnet f in
    b ← ni_outNode n vnet;
    avail ← MessageBuffer_areNSlotsAvailable b 1 tick;
    if (avail : bool) then
      eject_flit n stallFlit ;;
      count ← vgetG (ni_m_stall_count x) vnet "m_stall_count";
      upd_ni n (λ x, x <| ni_m_stall_queue ::= λ q, take (Z.to_nat k) q ++ drop (S (Z.to_nat k)) q |>
                       <| ni_m_stall_count ::= λ l, vset l vnet (count - 1) |>) ;;
      (if count - 1 =? 0 then MessageBuffer_unregisterDequeueCallback b else mret tt) ;;
      mret (inr true)
    else mret (inl tt));
  mret (match res with inl _ => false | inr b => b end).

(** A flit has arrived on the link from the router. *)
Definition NetworkInterface_receive_flit (n : Z) (messageEnqueuedThisCycle : bool) : G () :=
  x ← get_ni n;
  t ← curCycle;
  ready ← NetworkLink_isReady (ni_inNetLink x) t;
  if (ready : bool) then
    t_flit ← NetworkLink_consumeLink (ni_inNetLink x);
    f ← get_flit t_flit;
    let vnet := fl_m_vnet f in
    upd_flit t_flit (λ f, f <| fl_m_dequeue_time := t |>) ;;
    if is_tail f then
      tick ← clockEdge 0;
      avail ← (if negb messageEnqueuedThisCycle then
                 b ← ni_outNode n vnet; MessageBuffer_areNSlotsAvailable b 1 tick
               else mret false);
      if (avail : bool) then eject_flit n t_flit
      else
        count ← vgetG (ni_m_stall_count x) vnet "m_stall_count";
        upd_ni n (λ x, x <| ni_m_stall_queue ::= λ q, q ++ [t_flit] |>
                         <| ni_m_stall_count ::= λ l, vset l vnet (count + 1) |>) ;;
        b ← ni_outNode n vnet;
        MessageBuffer_registerDequeueCallback b n
    else
      NetworkInterface_sendCredit n t_flit false ;;
      NetworkInterface_incrementStats t_flit ;;
      delete_flit t_flit
  else mret tt.

(** A credit has arrived from the router. *)
Definition NetworkInterface_receive_credit (n : Z) : G () :=
  x ← get_ni n;
  t ← curCycle;
  ready ← NetworkLink_isReady (ni_inCreditLink x) t;
  if (ready : bool) then
    t_credit ← NetworkLink_consumeLink (ni_inCreditLink x);
    c ← get_flit t_credit;
    s ← ni_get_outvc n (fl_m_vc c);
    s' ← lift (OutVcState_increment_credit s);
    ni_put_outvc n (fl_m_vc c)
      (if Credit_is_free_signal c then OutVcState_setState IDLE_ t s' else s') ;;
    delete_flit t_credit
  else mret tt.

Section Wakeup.
Context `{MT : MachineTypes}.

(** Pick up one message per virtual network from the protocol. *)
Definition NetworkInterface_inject (n : Z) : G () :=
  x ← get_ni n;
  tick ← clockEdge 0;
  for_each (zrange 0 (vsize (ni_inNode_ptr x))) (λ vnet,
    o ← vgetG (ni_inNode_ptr x) vnet "inNode_ptr";
    match o with
    | None => mret tt
    | Some b =>
        ready ← MessageBuffer_isReady b tick;
        if (ready : bool) then
          msg_ptr ← MessageBuffer_peekMsgPtr b;
          done ← NetworkInterface_flitisizeMessage n msg_ptr vnet;
          if (done : bool) then _ ← MessageBuffer_dequeue b tick true; mret tt else mret tt
        else mret tt
    end).

Definition NetworkInterface_wakeup (n : Z) : G () :=
  NetworkInterface_inject n ;;
  NetworkInterface_scheduleOutputLink n ;;
  NetworkInterface_checkReschedule n ;;
  messageEnqueuedThisCycle ← NetworkInterface_checkStallQueue n;
  NetworkInterface_receive_flit n messageEnqueuedThisCycle ;;
  NetworkInterface_receive_credit n ;;
  x ← get_ni n;
  pending ← flitBuffer_getSize (ni_outCreditQueue x);
  if 0 <? pending then
    when ← clockEdge 1; Consumer_scheduleEventAbsolute (CLink (ni_outCreditLink x)) when
  else mret tt.
End Wakeup.
