(* ===== verification/BuildModel.v ===== *)
(** * Construction of the network

    Models the constructors and set-up functions: [Router::Router],
    [addInPort], [addOutPort]; [InputUnit::InputUnit],
    [OutputUnit::OutputUnit]; [NetworkInterface::NetworkInterface], [init],
    [addInPort], [addOutPort], [addNode]; [GarnetNetwork::GarnetNetwork],
    [init], [makeExtInLink], [makeExtOutLink], [makeInternalLink]. *)

From S2P Require Import Prelude BinaryHeap NetDestModel CommonTypes GarnetState FlitBuffer Channels RoutingUnitModel SwapModel UnitsModel SwitchAllocatorModel MessageBufferModel NetworkInterfaceModel.

(** ** Port units *)

(** [InputUnit::InputUnit]; the links are set afterwards ([-1] until then). *)
Definition InputUnit_ctor (id : Z) (direction : PortDirection) (num_vcs vc_per_vnet : Z)
    : G InputUnit :=
  let nv := Z.to_nat (num_vcs `quot` vc_per_vnet) in
  creditQueue ← new_fb flitBuffer_ctor;
  vcs ← foldM (zrange 0 num_vcs) [] (λ i vcs, v ← VirtualChannel_ctor i; mret (vcs ++ [v]));
  mret (mkInputUnit vcs id direction num_vcs vc_per_vnet (-1) (-1) creditQueue
          (replicate nv 0) (replicate nv 0)).

Definition OutputUnit_ctor (id : Z) (direction : PortDirection) (num_vcs vc_per_vnet : Z)
    : G OutputUnit :=
  b ← new_fb flitBuffer_ctor;
  c ← gets net_cfg;
  states ← foldM (zrange 0 num_vcs) [] (λ i l, s ← lift (OutVcState_ctor i c); mret (l ++ [s]));
  mret (mkOutputUnit (-1) states id direction num_vcs vc_per_vnet (-1) b).

(** ** [Router] *)
Definition Router_ctor (id latency virt_nets vcs_per_vnet : Z) : Router :=
  let num_vcs := virt_nets * vcs_per_vnet in
  mkRouter id latency virt_nets num_vcs vcs_per_vnet false
    (mkSwapPtr false (-1) (-1) (-1) "Unknown") false
    RoutingUnit_ctor [] [] (SwitchAllocator_ctor num_vcs vcs_per_vnet)
    (CrossbarSwitch_ctor num_vcs) 0 0 0 0 0.

Definition Router_addInPort (r : Z) (inport_dirn : PortDirection) (in_link credit_link : Z) : G () :=
  x ← get_router r;
  let port_num := vsize (rt_m_input_unit x) in
  u ← InputUnit_ctor port_num inport_dirn (rt_m_num_vcs x) (rt_m_vc_per_vnet x);
  let u := u <| iu_m_in_link := in_link |> <| iu_m_credit_link := credit_link |> in
  NetworkLink_setLinkConsumer in_link (CRouter r) ;;
  NetworkLink_setSourceQueue credit_link (iu_creditQueue u) ;;
  upd_router r (λ x, x <| rt_m_input_unit ::= λ l, l ++ [u] |>) ;;
  upd_ru r (RoutingUnit_addInDirection inport_dirn port_num).

Definition Router_addOutPort (r : Z) (outport_dirn : PortDirection) (out_link : Z)
    (routing_table_entry : NetDest) (link_weight credit_link : Z) : G () :=
  x ← get_router r;
  let port_num := vsize (rt_m_output_unit x) in
  u ← OutputUnit_ctor port_num outport_dirn (rt_m_num_vcs x) (rt_m_vc_per_vnet x);
  let u := u <| ou_m_out_link := out_link |> <| ou_m_credit_link := credit_link |> in
  NetworkLink_setLinkConsumer credit_link (CRouter r) ;;
  NetworkLink_setSourceQueue out_link (ou_m_out_buffer u) ;;
  upd_router r (λ x, x <| rt_m_output_unit ::= λ l, l ++ [u] |>) ;;
  upd_ru r (RoutingUnit_addRoute routing_table_entry) ;;
  upd_ru r (RoutingUnit_addWeight link_weight) ;;
  upd_ru r (RoutingUnit_addOutDirection outport_dirn port_num).

(** ** [NetworkInterface] *)
Definition NetworkInterface_ctor (id virt_nets vcs_per_vnet deadlock_threshold : Z)
    : G NetworkInterface :=
  let num_vcs := vcs_per_vnet * virt_nets in
  let nv := Z.to_nat virt_nets in
  outCreditQueue ← new_fb flitBuffer_ctor;
  bufs ← foldM (zrange 0 num_vcs) [] (λ _ l, b ← new_fb flitBuffer_ctor; mret (l ++ [b]));
  mret (mkNetworkInterface id virt_nets vcs_per_vnet num_vcs (-1) [] (replicate nv 0) 0
          outCreditQueue outCreditQueue deadlock_threshold (-1) (-1) (-1) (-1) [] (replicate nv 0)
          bufs (replicate (Z.to_nat num_vcs) INFINITE_) [] [] (replicate nv 0)).

Definition NetworkInterface_init (n : Z) : G () :=
  x ← get_ni n;
  c ← gets net_cfg;
  for_each (zrange 0 (ni_m_num_vcs x)) (λ i,
    s ← lift (OutVcState_ctor i c);
    upd_ni n (λ x, x <| ni_m_out_vc_state ::= λ l, l ++ [s] |>)).

Definition NetworkInterface_addInPort (n in_link credit_link : Z) : G () :=
  x ← get_ni n;
  upd_ni n (λ x, x <| ni_inNetLink := in_link |> <| ni_outCreditLink := credit_link |>) ;;
  NetworkLink_setLinkConsumer in_link (CNI n) ;;
  NetworkLink_setSourceQueue credit_link (ni_outCreditQueue x).

Definition NetworkInterface_addOutPort (n out_link credit_link router_id : Z) : G () :=
  b ← new_fb flitBuffer_ctor;
  upd_ni n (λ x, x <| ni_inCreditLink := credit_link |> <| ni_outNetLink := out_link |>
                   <| ni_outFlitQueue := b |> <| ni_m_router_id := router_id |>) ;;
  NetworkLink_setLinkConsumer credit_link (CNI n) ;;
  NetworkLink_setSourceQueue out_link b.

Definition NetworkInterface_addNode (n : Z) (inb outb : list (option Z)) : G () :=
  upd_ni n (λ x, x <| ni_inNode_ptr := inb |> <| ni_outNode_ptr := outb |>) ;;
  for_each inb (λ it,
    match it with Some b => MessageBuffer_setConsumer b (CNI n) | None => mret tt end).

(** ** [GarnetNetwork] *)

(** The parameters of GarnetNetwork.py and Network.py that the constructor
    reads. *)
Record NetParams := mkNetParams {
  p_num_rows : Z;
  p_ni_flit_size : Z;
  p_vcs_per_vnet : Z;
  p_buffers_per_data_vc : Z;
  p_buffers_per_ctrl_vc : Z;
  p_routing_algorithm : Z;
  p_interswap : bool;
  p_policy : Z;
  p_whenToSwap : Z;
  p_whichToSwap : Z;
  p_no_is_swap : Z;
  p_occupancy_swap : Z;
  p_inj_single_vnet : Z;
  p_number_of_virtual_networks : Z;
  p_control_msg_size : Z;
  p_vnet_type_names : list string;
  p_ordered : list bool;
}.

(** [GarnetNetwork::GarnetNetwork]: the swap parameters are checked, and
    injection into several virtual networks turns the [is_swap] bit off.  The
    members that [Network] and [RubySystem] provide are arguments. *)
Definition GarnetNetwork_ctor (p : NetParams) (nodes clockPeriod block_size_bits : Z)
    : outcome NetConfig :=
  let no_is_swap := if p_inj_single_vnet p =? 0 then 1 else p_no_is_swap p in
  (if p_interswap p then
     assertO (p_policy p =? 0) "GarnetNetwork.cc:102" ;;
     assertO (negb (p_whenToSwap p =? 0)) "GarnetNetwork.cc:105" ;;
     assertO (negb (p_whichToSwap p =? 0)) "GarnetNetwork.cc:106" ;;
     if (p_whichToSwap p =? DISABLE_LOCAL_SWAP_) || (p_whichToSwap p =? ENABLE_LOCAL_SWAP_)
     then Ok tt else Abort (AssertFail "GarnetNetwork.cc:195")
   else
     assertO (p_whenToSwap p =? 0) "GarnetNetwork.cc:203" ;;
     assertO (p_whichToSwap p =? 0) "GarnetNetwork.cc:204" ;;
     assertO (p_policy p =? 0) "GarnetNetwork.cc:205") ;;
  Ok (mkNetConfig (p_num_rows p) 0 (p_ni_flit_size p) (p_vcs_per_vnet p)
        (p_buffers_per_data_vc p) (p_buffers_per_ctrl_vc p) (p_routing_algorithm p)
        (p_number_of_virtual_networks p) nodes (p_ordered p)
        ((λ name, if name =s "response" then DATA_VNET_ else CTRL_VNET_)
           <$> p_vnet_type_names p)
        (p_control_msg_size p) (2 ^ block_size_bits + p_control_msg_size p)
        (p_interswap p) (p_policy p) (p_whenToSwap p) (p_whichToSwap p) no_is_swap
        (p_occupancy_swap p) (p_inj_single_vnet p) clockPeriod block_size_bits false false).

(** The topology parameters that [GarnetNetwork::init] derives. *)
Definition GarnetNetwork_init_mesh : G () :=
  rows ← config cf_m_num_rows;
  n ← getNumRouters;
  if 0 <? rows then
    let cols := n `quot` rows in
    assertM (rows * cols =? n) "GarnetNetwork.cc:264" ;;
    modify (λ w, w <| net_cfg ::= λ c, c <| cf_m_num_cols := cols |> |>)
  else modify (λ w, w <| net_cfg ::= λ c, c <| cf_m_num_rows := -1 |>
                                            <| cf_m_num_cols := -1 |> |>).

(** [GarnetNetwork::init]: attach the protocol buffers, create the links (the
    argument stands for [Topology::createLinks]) and set the mesh shape. *)
Definition GarnetNetwork_init (toNet fromNet : list (list (option Z))) (createLinks : G ())
    : G () :=
  nodes ← config cf_m_nodes;
  for_each (zrange 0 nodes) (λ i,
    inb ← vgetG toNet i "m_toNetQueues";
    outb ← vgetG fromNet i "m_fromNetQueues";
    NetworkInterface_addNode i inb outb) ;;
  createLinks ;;
  GarnetNetwork_init_mesh.

(** [m_networklinks.push_back] and [m_creditlinks.push_back]. *)
Definition push_links (net_link credit_link : Z) : G () :=
  modify (λ w, w <| net_m_networklinks ::= λ l, l ++ [net_link] |>
                 <| net_m_creditlinks ::= λ l, l ++ [credit_link] |>).

Definition makeExtInLink (src dest net_link credit_link : Z) : G () :=
  nodes ← config cf_m_nodes;
  assertM (src <? nodes) "GarnetNetwork.cc:310" ;;
  NetworkLink_setType net_link EXT_IN_ ;;
  push_links net_link credit_link ;;
  Router_addInPort dest "Local" net_link credit_link ;;
  NetworkInterface_addOutPort src net_link credit_link dest.

Definition makeExtOutLink (src dest net_link credit_link weight : Z)
    (routing_table_entry : NetDest) : G () :=
  nodes ← config cf_m_nodes;
  assertM (dest <? nodes) "GarnetNetwork.cc:337" ;;
  n ← getNumRouters;
  assertM (src <? n) "GarnetNetwork.cc:338" ;;
  NetworkLink_setType net_link EXT_OUT_ ;;
  push_links net_link credit_link ;;
  Router_addOutPort src "Local" net_link routing_table_entry weight credit_link ;;
  NetworkInterface_addInPort dest net_link credit_link.

Definition makeInternalLink (src dest net_link credit_link weight : Z)
    (routing_table_entry : NetDest) (src_outport_dirn dst_inport_dirn : PortDirection) : G () :=
  NetworkLink_setType net_link INT_ ;;
  push_links net_link credit_link ;;
  Router_addInPort dest dst_inport_dirn net_link credit_link ;;
  Router_addOutPort src src_outport_dirn net_link routing_table_entry weight credit_link.

(** ** A concrete mesh

    A [rows] x [cols] mesh with one network interface per router, built by the
    functions above in the order in which [Topology::createLinks] calls them:
    used as the concrete network of the examples. *)
Section Mesh.
Context (rows cols : Z).

(** Destination set of a single node, with one machine type. *)
Definition one_dest (n : Z) : NetDest := mkNetDest [mkBitSet (rows * cols) (Z.setbit 0 n)].
(** The nodes that satisfy [p]. *)
Definition nodes_where (p : Z → bool) : NetDest :=
  mkNetDest [mkBitSet (rows * cols)
    (foldr (λ n bits, if p n then Z.setbit bits n else bits) 0 (zrange 0 (rows * cols)))].

Definition new_link : G Z :=
  v ← config cf_m_vcs_per_vnet;
  k ← config cf_m_virtual_networks;
  n ← gets (λ w, vsize (net_links w));
  l ← NetworkLink_ctor n 1 v k;
  modify (λ w, w <| net_links ::= λ ls, ls ++ [l] |>) ;;
  mret n.

Definition mesh_local (i : Z) : G () :=
  a ← new_link; b ← new_link; makeExtInLink i i a b ;;
  c ← new_link; d ← new_link; makeExtOutLink i i c d 1 (one_dest i).

(** The table entry of a link holds the nodes for which it starts a shortest
    path, as [Topology::createLinks] computes it. *)
Definition mesh_edge (src dest : Z) (dout din : PortDirection) (beyond : Z → bool) : G () :=
  a ← new_link; b ← new_link;
  makeInternalLink src dest a b 1 (nodes_where beyond) dout din.

Definition mesh_edges (i : Z) : G () :=
  (if i mod cols + 1 <? cols then
     mesh_edge i (i + 1) "East" "West" (λ n, i mod cols <? n mod cols) ;;
     mesh_edge (i + 1) i "West" "East" (λ n, n mod cols <=? i mod cols)
   else mret tt) ;;
  (if i + cols <? rows * cols then
     mesh_edge i (i + cols) "North" "South" (λ n, i / cols <? n / cols) ;;
     mesh_edge (i + cols) i "South" "North" (λ n, n / cols <=? i / cols)
   else mret tt).

Definition mesh_links : G () :=
  for_each (zrange 0 (rows * cols)) mesh_local ;;
  for_each (zrange 0 (rows * cols)) mesh_edges.

Definition empty_stats (v vcs : nat) : NetStats :=
  mkNetStats 0 0 0 0 0 0 0 0 0 0 0 0 999999 999999 999999 0 0 0 0 0 0
    (replicate 21 0) (replicate v 0) (replicate v 0) (replicate v 0) (replicate v 0)
    (replicate v 0) (replicate v 0) (replicate v 0) (replicate v 0) 0 0 0 0
    (f64_of_Z 0) (replicate vcs (f64_of_Z 0)).

Definition empty_net (c : NetConfig) (rnd : nat → N) : GNet :=
  mkGNet 0 ∅ ∅ ∅ 0%nat rnd 0%nat [] [] [] [] c
    (empty_stats (length (cf_m_vnet_type c)) (Z.to_nat (cf_m_virtual_networks c * cf_m_vcs_per_vnet c)))
    ∅ [] [] (mkSimpleNetwork [] 0 0 0 false) [] [].

(** Routers, interfaces and their message buffers, then the links. *)
Definition mesh_build : G () :=
  v ← config cf_m_vcs_per_vnet;
  k ← config cf_m_virtual_networks;
  for_each (zrange 0 (rows * cols)) (λ i,
    ni ← NetworkInterface_ctor i k v 50000;
    modify (λ w, w <| net_m_routers ::= λ l, l ++ [Router_ctor i 1 k v] |>
                   <| net_m_nis ::= λ l, l ++ [ni] |>) ;;
    for_each (zrange 0 (2 * k)) (λ _,
      modify (λ w, w <| net_mbufs ::= λ l,
        l ++ [(MessageBuffer_ctor 0 false false) <| mb_m_consumer := None |>] |>)) ;;
    NetworkInterface_init i) ;;
  let q base := (λ i, (λ v, Some (2 * k * i + base + v)) <$> zrange 0 k) <$> zrange 0 (rows * cols) in
  GarnetNetwork_init (q 0) (q k) mesh_links ;;
  for_each (zrange 0 (rows * cols)) (λ i,
    for_each (zrange 0 k) (λ v, MessageBuffer_setConsumer (2 * k * i + k + v) (CController i))) ;;
  for_each (zrange 0 (rows * cols)) Router_init.
End Mesh.

(** The sample command of swap_wiki.txt at reduced size: one virtual network,
    adaptive random routing, swaps every TDM turn, no local swaps. *)
Definition sample_params (rows vcs alg no_is_swap : Z) : NetParams :=
  mkNetParams rows 16 vcs 4 1 alg true 0 TDM_ DISABLE_LOCAL_SWAP_ no_is_swap 0 1 1 8
    ["request"%string] [false].

Definition sample_net (rows cols vcs alg no_is_swap : Z) : outcome GNet :=
  c ← GarnetNetwork_ctor (sample_params rows vcs alg no_is_swap) (rows * cols) 1 6;
  r ← mesh_build rows cols (empty_net c (λ n, N.of_nat n));
  Ok (snd r).

(** The network itself (a network without routers if the build were to fail). *)
Definition sample_mesh (rows cols vcs alg no_is_swap : Z) : GNet :=
  match sample_net rows cols vcs alg no_is_swap with
  | Ok w => w
  | Abort _ => empty_net (mkNetConfig 0 0 0 0 0 0 0 0 0 [] [] 0 0 false 0 0 0 0 0 0 0 0 false false)
                 (λ _, 0%N)
  end.
