(* ===== verification/TopologyModel.v ===== *)
(** * Topology: from link lists to routing tables

    Models src/gem5/src/mem/ruby/network/Topology.hh and Topology.cc, with the
    link parameters of BasicLink.hh and garnet2.0/GarnetLink.cc.  Switch
    numbers are those of the source: [0 .. m_nodes-1] are the links into the
    network, [m_nodes .. 2*m_nodes-1] the links out of it, and router [r] is
    switch [r + 2*m_nodes].  The network under construction is known to
    [Topology] only through the three virtual functions of class [Network]:
    they are the class [LinkMaker]. *)

From S2P Require Import Prelude BinaryHeap NetDestModel CommonTypes GarnetState FlitBuffer Channels RoutingUnitModel SwapModel UnitsModel SwitchAllocatorModel MessageBufferModel NetworkInterfaceModel BuildModel.

(** ** Links *)

(** The classes derived from [BasicLink].  A Garnet link has one pair of a
    network link and a credit link for an internal link, one pair per direction
    for an external one; a link of the simple network has a bandwidth
    multiplier. *)
Inductive DerivedLink :=
  | GarnetIntLink (network_link credit_link : Z)
  | GarnetExtLink (network_link_in credit_link_in network_link_out credit_link_out : Z)
  | SimpleIntLink (bw_multiplier : Z)
  | SimpleExtLink (bw_multiplier : Z).

Record BasicLink := mkBasicLink { bl_m_latency : Z; bl_m_weight : Z; bl_derived : DerivedLink }.

(** The parameters of external and internal links that the constructor reads. *)
Record ExtLink := mkExtLink {
  el_link : BasicLink;
  el_machine : MachineID;
  el_router : Z;
}.
Record IntLink := mkIntLink {
  il_link : BasicLink;
  il_src_node : Z;
  il_dst_node : Z;
  il_src_outport : PortDirection;
  il_dst_inport : PortDirection;
}.

Record LinkEntry := mkLinkEntry {
  le_link : BasicLink;
  le_src_outport_dirn : PortDirection;
  le_dst_inport_dirn : PortDirection;
}.

Record Topology := mkTopology {
  tp_m_nodes : Z;
  tp_m_number_of_switches : Z;
  tp_m_ext_link_vector : list ExtLink;
  tp_m_int_link_vector : list IntLink;
  tp_m_link_map : gmap (Z * Z) LinkEntry;
}.
#[export] Instance eta_Topology : Eta Topology := λ x,
  mkTopology (tp_m_nodes x) (tp_m_number_of_switches x) (tp_m_ext_link_vector x)
    (tp_m_int_link_vector x) (tp_m_link_map x).

Definition Topology_addLink (src dest : Z) (link : BasicLink)
    (src_outport_dirn dst_inport_dirn : PortDirection) : M Topology () :=
  tp ← gets id;
  let bound := tp_m_number_of_switches tp + tp_m_nodes tp + tp_m_nodes tp in
  assertM (src <=? bound) "Topology.cc:166" ;;
  assertM (dest <=? bound) "Topology.cc:167" ;;
  modify (λ tp, tp <| tp_m_link_map ::=
    <[(src, dest) := mkLinkEntry link src_outport_dirn dst_inport_dirn]> |>).

(** ** Matrices *)
Abbreviation Matrix := (list (list Z)).

Definition Matrix_get (m : Matrix) (i j : Z) : outcome Z :=
  row ← vgetO m i "Matrix"; vgetO row j "Matrix".
Definition Matrix_set (m : Matrix) (i j v : Z) : Matrix :=
  match vget m i with Some row => vset m i (vset row j v) | None => m end.
Definition Matrix_const (n v : Z) : Matrix := replicate (Z.to_nat n) (replicate (Z.to_nat n) v).

Definition INFINITE_LATENCY : Z := 10000.

(** ** All-pairs shortest paths

    The three matrices that [extend_shortest_path] updates in place. *)
Record PathState := mkPathState { ps_dist : Matrix; ps_lat : Matrix; ps_inter : Matrix }.
#[export] Instance eta_PathState : Eta PathState := λ x,
  mkPathState (ps_dist x) (ps_lat x) (ps_inter x).

Definition distP (i j : Z) : M PathState Z := s ← gets id; lift (Matrix_get (ps_dist s) i j).
Definition interP (i j : Z) : M PathState Z := s ← gets id; lift (Matrix_get (ps_inter s) i j).
Definition latP (i j : Z) : M PathState Z := s ← gets id; lift (Matrix_get (ps_lat s) i j).

(** One iteration of the loop over [k]; the loop carries [minimum] (equal to
    [previous_minimum] between iterations) and [intermediate_switch]. *)
Definition extend_via (i j k : Z) (v : Z * Z) : M PathState (Z * Z) :=
  let '(previous_minimum, intermediate_switch) := v in
  a ← distP i k;
  b ← distP k j;
  let minimum := Z.min previous_minimum (a + b) in
  if negb (previous_minimum =? minimum) then
    c ← interP i k;
    d ← interP k j;
    _ ← interP i j;
    modify (λ s, s <| ps_inter ::= λ m, Matrix_set m i j (c + d + 1) |>) ;;
    mret (minimum, k)
  else mret (minimum, intermediate_switch).

(** The body of the loops over [i] and [j]; the result is the new [change]. *)
Definition extend_pair (nodes i j : Z) (change : bool) : M PathState bool :=
  minimum ← distP i j;
  r ← foldM (zrange 0 nodes) (minimum, -1) (extend_via i j);
  let '(minimum, intermediate_switch) := r in
  d ← distP i j;
  if negb (d =? minimum) then
    modify (λ s, s <| ps_dist ::= λ m, Matrix_set m i j minimum |>) ;;
    assertM (0 <=? intermediate_switch) "Topology.cc:248" ;;
    s ← gets id;
    row ← lift (vgetO (ps_lat s) i "Matrix");
    assertM (intermediate_switch <? vsize row) "Topology.cc:249" ;;
    a ← latP i intermediate_switch;
    b ← latP intermediate_switch j;
    modify (λ s, s <| ps_lat ::= λ m, Matrix_set m i j (a + b) |>) ;;
    mret true
  else mret change.

(** One run of the body of [while (change)]. *)
Definition extend_pass (nodes : Z) : M PathState bool :=
  foldM (zrange 0 nodes) false (λ i change,
    foldM (zrange 0 nodes) change (λ j change, extend_pair nodes i j change)).

(** The [while] loop, for at most [fuel] passes; the result tells whether the
    loop has ended. *)
Fixpoint extend_loop (fuel : nat) (nodes : Z) : M PathState bool :=
  match fuel with
  | O => mret false
  | S fuel =>
      change ← extend_pass nodes;
      if (change : bool) then extend_loop fuel nodes else mret true
  end.

Definition extend_shortest_path (fuel : nat) : M PathState bool :=
  s ← gets id; extend_loop fuel (vsize (ps_dist s)).

(** Passes after which the loop has ended: one more than the sum of the
    weights. *)
Definition Matrix_sum (m : Matrix) : Z := foldr (λ row a, foldr Z.add 0 row + a) 0 m.
Definition path_fuel (weights : Matrix) : nat := S (Z.to_nat (Matrix_sum weights)).

(** [None]: the loop has not ended within the fuel. *)
Definition shortest_path (fuel : nat) (weights latencies inter_switches : Matrix)
    : outcome (option Matrix) :=
  match extend_shortest_path fuel (mkPathState weights latencies inter_switches) with
  | Ok (ended, s) => Ok (if (ended : bool) then Some (ps_dist s) else None)
  | Abort e => Abort e
  end.

Definition link_is_shortest_path_to_node (src next final : Z) (weights dist : Matrix)
    : outcome bool :=
  w ← Matrix_get weights src next;
  d ← Matrix_get dist next final;
  d' ← Matrix_get dist src final;
  Ok (w + d =? d').

(** ** Construction and link creation *)
Section Build.
Context `{MT : MachineTypes}.

(** The machines for which [next] is on a shortest path from [src]; [d] counts
    the nodes. *)
Definition shortest_path_to_node (src next : Z) (weights dist : Matrix) : outcome NetDest :=
  result ← NetDest_resize;
  let max_machines := MachineType_base_number MachineType_NUM in
  r ← foldl (λ acc m,
        foldl (λ acc i,
          '(d, result) ← acc;
          on_path ← link_is_shortest_path_to_node src next (d + max_machines) weights dist;
          result ← (if (on_path : bool) then NetDest_add (mkMachineID m i) result else Ok result);
          Ok (d + 1, result))
        acc (zrange 0 (MachineType_base_count m)))
      (Ok (0, result)) (zrange 0 MachineType_NUM);
  Ok (snd r).

(** [Topology::Topology]: an external link is added in both directions. *)
Definition Topology_addExtLink (l : ExtLink) : M Topology () :=
  tp ← gets id;
  let m := el_machine l in
  let ext_idx1 := MachineType_base_number (mid_type m) + mid_num m in
  let ext_idx2 := ext_idx1 + tp_m_nodes tp in
  let int_idx := el_router l + 2 * tp_m_nodes tp in
  Topology_addLink ext_idx1 int_idx (el_link l) "" "" ;;
  Topology_addLink int_idx ext_idx2 (el_link l) "" "".

Definition Topology_addIntLink (l : IntLink) : M Topology () :=
  modify (λ tp, tp <| tp_m_int_link_vector ::= λ v, v ++ [l] |>) ;;
  tp ← gets id;
  Topology_addLink (il_src_node l + 2 * tp_m_nodes tp) (il_dst_node l + 2 * tp_m_nodes tp)
    (il_link l) (il_src_outport l) (il_dst_inport l).

Definition Topology_ctor (num_routers : Z) (ext_links : list ExtLink) (int_links : list IntLink)
    : outcome Topology :=
  let m_nodes := MachineType_base_number MachineType_NUM in
  assertO (1 <? m_nodes) "Topology.cc:59" ;;
  match (for_each ext_links Topology_addExtLink ;; for_each int_links Topology_addIntLink)
          (mkTopology m_nodes num_routers ext_links int_links ∅) with
  | Ok (_, tp) => Ok tp
  | Abort e => Abort e
  end.

(** The interface of [Network] that [Topology] uses. *)
Class LinkMaker (S : Type) := {
  net_makeExtInLink : Z → Z → BasicLink → NetDest → M S ();
  net_makeExtOutLink : Z → Z → BasicLink → NetDest → M S ();
  net_makeInternalLink : Z → Z → BasicLink → NetDest → PortDirection → PortDirection → M S ();
}.

Context {S : Type} `{LM : LinkMaker S}.

(** [m_link_map[src_dest]] of a missing pair is an entry with a null link. *)
Definition link_entry (tp : Topology) (src dest : Z) : outcome LinkEntry :=
  match tp_m_link_map tp !! (src, dest) with
  | Some e => Ok e
  | None => Abort (NullDeref "BasicLink")
  end.

Definition Topology_makeLink (tp : Topology) (src dest : Z) (routing_table_entry : NetDest)
    : M S () :=
  let n := tp_m_nodes tp in
  assertM ((2 * n <=? src) || (2 * n <=? dest)) "Topology.cc:186" ;;
  if src <? n then
    e ← lift (link_entry tp src dest);
    net_makeExtInLink src (dest - 2 * n) (le_link e) routing_table_entry
  else if dest <? 2 * n then
    assertM (n <=? dest) "Topology.cc:198" ;;
    e ← lift (link_entry tp src dest);
    net_makeExtOutLink (src - 2 * n) (dest - n) (le_link e) routing_table_entry
  else
    assertM ((2 * n <=? src) && (2 * n <=? dest)) "Topology.cc:206" ;;
    e ← lift (link_entry tp src dest);
    net_makeInternalLink (src - 2 * n) (dest - 2 * n) (le_link e) routing_table_entry
      (le_src_outport_dirn e) (le_dst_inport_dirn e).

(** The matrices that [createLinks] fills from the link map. *)
Definition max_switch_id (tp : Topology) : Z :=
  foldr (λ e a, Z.max (Z.max a (fst (fst e))) (snd (fst e))) 0 (map_to_list (tp_m_link_map tp)).

Definition fill (f : BasicLink → Z) (tp : Topology) (m : Matrix) : Matrix :=
  foldr (λ e m, Matrix_set m (fst (fst e)) (snd (fst e)) (f (le_link (snd e)))) m
    (map_to_list (tp_m_link_map tp)).

Definition topology_weights (tp : Topology) : Matrix :=
  let n := max_switch_id tp + 1 in
  fill bl_m_weight tp
    (foldr (λ i m, Matrix_set m i i 0) (Matrix_const n INFINITE_LATENCY) (zrange 0 n)).

Definition component_latencies (tp : Topology) : Matrix :=
  fill bl_m_latency tp (Matrix_const (max_switch_id tp + 1) (-1)).

(** [createLinks]; a loop over [i] and [j] makes every link of the weight
    matrix. *)
Definition createLinks (tp : Topology) : M S () :=
  let weights := topology_weights tp in
  dist ← lift (shortest_path (path_fuel weights) weights (component_latencies tp)
                 (Matrix_const (max_switch_id tp + 1) 0));
  match dist with
  | None => fail (Panic "extend_shortest_path does not end")
  | Some dist =>
      for_each (zrange 0 (vsize weights)) (λ i,
        row ← lift (vgetO weights i "Matrix");
        for_each (zrange 0 (vsize row)) (λ j,
          weight ← lift (Matrix_get weights i j);
          if (0 <? weight) && negb (weight =? INFINITE_LATENCY) then
            destination_set ← lift (shortest_path_to_node i j weights dist);
            Topology_makeLink tp i j destination_set
          else mret tt))
  end.
End Build.

(** ** Garnet as the network of a topology *)
#[export] Instance Garnet_LinkMaker : LinkMaker GNet := {|
  net_makeExtInLink src dest link entry :=
    match bl_derived link with
    | GarnetExtLink nin cin _ _ => makeExtInLink src dest nin cin
    | _ => fail (AssertFail "safe_cast<GarnetExtLink*>")
    end;
  net_makeExtOutLink src dest link entry :=
    match bl_derived link with
    | GarnetExtLink _ _ nout cout => makeExtOutLink src dest nout cout (bl_m_weight link) entry
    | _ => fail (AssertFail "safe_cast<GarnetExtLink*>")
    end;
  net_makeInternalLink src dest link entry src_outport_dirn dst_inport_dirn :=
    match bl_derived link with
    | GarnetIntLink net credit =>
        makeInternalLink src dest net credit (bl_m_weight link) entry src_outport_dirn
          dst_inport_dirn
    | _ => fail (AssertFail "safe_cast<GarnetIntLink*>")
    end;
|}.

(** ** The mesh as a topology

    A mesh with one controller per router and the link weights of
    configs/topologies/Mesh_XY.py (1 in every direction), as a concrete topology.  External link [i] owns the network and credit links
    [4 i .. 4 i + 3], internal link [k] the two links behind the external ones
    at [2 k]. *)
Section MeshTopology.
Context (rows cols : Z).

Definition mesh_ext_links : list ExtLink :=
  (λ i, mkExtLink (mkBasicLink 1 1 (GarnetExtLink (4 * i) (4 * i + 1) (4 * i + 2) (4 * i + 3)))
          (mkMachineID 0 i) i) <$> zrange 0 (rows * cols).

(** The edges out of router [i]: east, west, north and south. *)
Definition mesh_neighbours : list (Z * Z * (PortDirection * PortDirection)) :=
  zrange 0 (rows * cols) ≫= λ i,
    (if i mod cols + 1 <? cols
     then [(i, i + 1, ("East"%string, "West"%string)); (i + 1, i, ("West"%string, "East"%string))]
     else []) ++
    (if i + cols <? rows * cols
     then [(i, i + cols, ("North"%string, "South"%string));
           (i + cols, i, ("South"%string, "North"%string))]
     else []).

Definition mesh_int_links : list IntLink :=
  imap (λ k e, let '(src, dst, (dout, din)) := e in
          let l := 4 * (rows * cols) + 2 * Z.of_nat k in
          mkIntLink (mkBasicLink 1 1 (GarnetIntLink l (l + 1))) src dst dout din) mesh_neighbours.

Context `{MT : MachineTypes}.

Definition mesh_topology : outcome Topology :=
  Topology_ctor (rows * cols) mesh_ext_links mesh_int_links.

(** Routers, interfaces, message buffers and links, then [GarnetNetwork::init]
    with [Topology::createLinks]. *)
Definition topology_build : G () :=
  v ← config cf_m_vcs_per_vnet;
  k ← config cf_m_virtual_networks;
  for_each (zrange 0 (rows * cols)) (λ i,
    ni ← NetworkInterface_ctor i k v 50000;
    modify (λ w, w <| net_m_routers ::= λ l, l ++ [Router_ctor i 1 k v] |>
                   <| net_m_nis ::= λ l, l ++ [ni] |>) ;;
    for_each (zrange 0 (2 * k)) (λ _,
      modify (λ w, w <| net_mbufs ::= λ l, l ++ [MessageBuffer_ctor 0 false false] |>)) ;;
    NetworkInterface_init i) ;;
  for_each (zrange 0 (4 * (rows * cols) + 2 * vsize mesh_neighbours)) (λ _, _ ← new_link; mret tt) ;;
  let q base := (λ i, (λ v, Some (2 * k * i + base + v)) <$> zrange 0 k) <$> zrange 0 (rows * cols) in
  tp ← lift mesh_topology;
  GarnetNetwork_init (q 0) (q k) (createLinks tp) ;;
  for_each (zrange 0 (rows * cols)) (λ i,
    for_each (zrange 0 k) (λ v, MessageBuffer_setConsumer (2 * k * i + k + v) (CController i))) ;;
  for_each (zrange 0 (rows * cols)) Router_init.

Definition topology_net (vcs alg no_is_swap : Z) : outcome GNet :=
  c ← GarnetNetwork_ctor (sample_params rows vcs alg no_is_swap) (rows * cols) 1 6;
  r ← topology_build (empty_net c (λ n, N.of_nat n));
  Ok (snd r).
End MeshTopology.
