(* ===== verification/SimpleNetworkModel.v ===== *)
(** * The simple network

    Models src/gem5/src/mem/ruby/network/simple: [PerfectSwitch] routes the
    messages of its input queues to the intermediate queues of its output ports,
    splitting a multicast message by output link; a [Throttle] per output port
    moves messages from there to the next switch or end point at the bandwidth
    of the link; [Switch] holds both; [SimpleNetwork] makes the switches' ports
    from the links of a topology.

    Queue lengths and message sizes in bytes are far below the range of [int],
    in which the code computes. *)

From Stdlib Require Import Floats.SpecFloat.
From stdpp Require Import sorting.
From S2P Require Import Prelude BinaryHeap NetDestModel AddrRangeModel NetworkModel CommonTypes GarnetState FlitBuffer Channels RoutingUnitModel SwapModel UnitsModel SwitchAllocatorModel MessageBufferModel NetworkInterfaceModel BuildModel TopologyModel.

Definition PRIORITY_SWITCH_LIMIT : Z := 128.

(** [std::sort] with [operator<] of [LinkOrder]; which of the sorted orders it
    produces is not specified when values are equal. *)
Definition LinkOrder_lt (l1 l2 : LinkOrder) : bool := lo_m_value l1 <? lo_m_value l2.
Class LinkSort := sort_links : list LinkOrder → list LinkOrder.
Class LinkSortSpec (LS : LinkSort) : Prop := {
  sort_links_perm l : sort_links l ≡ₚ l;
  sort_links_sorted l i j a b : (i < j)%nat →
    sort_links l !! i = Some a → sort_links l !! j = Some b → LinkOrder_lt b a = false;
}.

(** One of them: equal values in the order of the input. *)
Definition link_le (a b : LinkOrder) : Prop := lo_m_value a ≤ lo_m_value b.
#[export] Instance link_le_dec a b : Decision (link_le a b) := Z_le_dec _ _.
Definition stable_sort : LinkSort := merge_sort link_le.

#[export] Instance stable_sort_spec : LinkSortSpec stable_sort.
Proof.
  assert (Ht : Transitive link_le) by (intros a b c; unfold link_le; lia).
  assert (Htot : Total link_le) by (intros a b; unfold link_le; lia).
  split; [intros l; apply merge_sort_Permutation|].
  intros l i j a b Hij Ha Hb. unfold LinkOrder_lt. apply Z.ltb_ge.
  change (sort_links l) with (merge_sort link_le l) in Ha, Hb.
  rewrite <- (take_drop_middle _ _ _ Ha) in Hb. rewrite lookup_app_r in Hb by (rewrite length_take; lia).
  pose proof (StronglySorted_merge_sort link_le l) as Hs.
  rewrite <- (take_drop_middle _ _ _ Ha) in Hs. apply StronglySorted_app_1_r, StronglySorted_cons in Hs as [Hs _].
  rewrite Forall_lookup in Hs. destruct (j - _)%nat as [|k] eqn:E.
  { rewrite length_take in E. apply lookup_lt_Some in Ha. lia. }
  by eapply Hs.
Qed.

(** [cyclesToTicks]. *)
Definition cyclesToTicks (c : Z) : G Z := p ← config cf_clockPeriod; mret (c * p).

(** [msg_ptr->clone()]: a private copy of the message. *)
Definition Message_clone (p : ptr) : G ptr := m ← get_msg p; new_msg m.

Definition PerfectSwitch_ctor (sid virt_nets : Z) : PerfectSwitch :=
  mkPerfectSwitch sid [] [] [] [] virt_nets 0 0 [].

Definition PerfectSwitch_init (x : PerfectSwitch) : PerfectSwitch :=
  x <| ps_m_pending_message_count ::=
         λ l, l ++ replicate (Z.to_nat (ps_m_virtual_networks x)) 0 |>.

Definition PerfectSwitch_addInPort (s : Z) (ins : list (option Z)) : G () :=
  x ← get_pswitch s;
  let port := vsize (ps_m_in x) in
  upd_pswitch s (λ x, x <| ps_m_in ::= λ l, l ++ [ins] |>) ;;
  for_each (zrange 0 (vsize ins)) (λ i,
    b ← vgetG ins i "in";
    match b with
    | Some b =>
        MessageBuffer_setConsumer b (CPerfectSwitch s) ;;
        MessageBuffer_setIncomingLink b port ;;
        MessageBuffer_setVnet b i
    | None => mret tt
    end).

Definition PerfectSwitch_addOutPort (s : Z) (out : list Z) (routing_table_entry : NetDest) : G () :=
  upd_pswitch s (λ x, x
    <| ps_m_link_order ::= λ l, l ++ [mkLinkOrder (vsize (ps_m_out x)) 0] |>
    <| ps_m_out ::= λ l, l ++ [out] |>
    <| ps_m_routing_table ::= λ l, l ++ [routing_table_entry] |>).

Section PerfectSwitch.
Context `{MT : MachineTypes} `{LS : LinkSort}.

(** The length of the queues of one output port, with a random tie break. *)
Definition PerfectSwitch_link_value (x : PerfectSwitch) (out current_time : Z) : G Z :=
  out_queue_length ← foldM (zrange 0 (ps_m_virtual_networks x)) 0 (λ v len,
    queues ← vgetG (ps_m_out x) out "m_out";
    b ← vgetG queues v "m_out";
    n ← MessageBuffer_getSize b current_time;
    mret (len + n));
  r ← random_between 0 255;
  mret (Z.lor (Z.shiftl out_queue_length 8) r).

(** The order in which the output links are considered. *)
Definition PerfectSwitch_order_links (s vnet current_time : Z) : G () :=
  adaptive ← gets (λ w, sn_m_adaptive_routing (net_simple w));
  if (adaptive : bool) then
    x ← get_pswitch s;
    l ← config cf_m_ordered;
    ordered ← vgetG l vnet "m_ordered";
    if (ordered : bool) then
      for_each (zrange 0 (vsize (ps_m_out x))) (λ out,
        upd_pswitch s (λ x, x <| ps_m_link_order ::= λ l, vset l out (mkLinkOrder out 0) |>))
    else
      for_each (zrange 0 (vsize (ps_m_out x))) (λ out,
        value ← PerfectSwitch_link_value x out current_time;
        upd_pswitch s (λ x, x <| ps_m_link_order ::= λ l, vset l out (mkLinkOrder out value) |>)) ;;
      upd_pswitch s (λ x, x <| ps_m_link_order ::= sort_links |>)
  else mret tt.

(** The routing loop: the links that get the message, the destinations that
    each of them is responsible for, and the destinations that are left. *)
Fixpoint split_links (table : list NetDest) (order : list LinkOrder) (rounds : list Z)
    (output_links : list Z) (output_link_destinations : list NetDest) (msg_dsts : NetDest)
    : outcome (list Z * list NetDest * NetDest) :=
  match rounds with
  | [] => Ok (output_links, output_link_destinations, msg_dsts)
  | i :: rounds =>
      l ← vgetO order i "m_link_order";
      let link := lo_m_link l in
      dst ← vgetO table link "m_routing_table";
      b ← NetDest_intersectionIsNotEmpty dst msg_dsts;
      if (b : bool) then
        d ← NetDest_AND dst msg_dsts;
        rest ← NetDest_removeNetDest dst msg_dsts;
        split_links table order rounds (output_links ++ [link])
          (output_link_destinations ++ [d]) rest
      else split_links table order rounds output_links output_link_destinations msg_dsts
  end.

(** The queue of virtual network [vnet] at output port [outgoing]. *)
Definition PerfectSwitch_out_queue (s outgoing vnet : Z) : G Z :=
  x ← get_pswitch s;
  queues ← vgetG (ps_m_out x) outgoing "m_out"; vgetG queues vnet "m_out".

Definition PerfectSwitch_enough (s vnet current_time : Z) (output_links : list Z) : G bool :=
  foldM output_links true (λ outgoing enough,
    b ← PerfectSwitch_out_queue s outgoing vnet;
    a ← MessageBuffer_areNSlotsAvailable b 1 current_time;
    mret (if (a : bool) then enough else false)).

(** One copy per output link; the first is the message itself. *)
Definition PerfectSwitch_send (s vnet current_time : Z) (msg_ptr : ptr) (unmodified : option ptr)
    (output_links : list Z) (output_link_destinations : list NetDest) : G () :=
  for_each (zrange 0 (vsize output_links)) (λ i,
    outgoing ← vgetG output_links i "output_links";
    p ← (if 0 <? i then u ← optG unmodified (NullDeref "unmodified_msg_ptr"); Message_clone u
         else mret msg_ptr);
    d ← vgetG output_link_destinations i "output_link_destinations";
    m ← get_msg p;
    put_msg p (m <| msg_Destination := d |>) ;;
    b ← PerfectSwitch_out_queue s outgoing vnet;
    delta ← cyclesToTicks 1;
    MessageBuffer_enqueue b p current_time delta).

(** The message leaves its input queue. *)
Definition PerfectSwitch_dequeue (s buffer vnet current_time : Z) : G () :=
  _ ← MessageBuffer_dequeue buffer current_time true;
  x ← get_pswitch s;
  n ← vgetG (ps_m_pending_message_count x) vnet "m_pending_message_count";
  upd_pswitch s (λ x, x <| ps_m_pending_message_count ::= λ l, vset l vnet (n - 1) |>).

(** One round of the loop over the messages that are ready. *)
Definition PerfectSwitch_route_message (s buffer vnet current_time : Z) : G (() + ()) :=
  ready ← MessageBuffer_isReady buffer current_time;
  if negb ready then mret (inr tt) else
  msg_ptr ← MessageBuffer_peekMsgPtr buffer;
  m ← get_msg msg_ptr;
  x ← get_pswitch s;
  assertM (vsize (ps_m_link_order x) =? vsize (ps_m_routing_table x)) "PerfectSwitch.cc:166" ;;
  assertM (vsize (ps_m_link_order x) =? vsize (ps_m_out x)) "PerfectSwitch.cc:167" ;;
  PerfectSwitch_order_links s vnet current_time ;;
  x ← get_pswitch s;
  r ← lift (split_links (ps_m_routing_table x) (ps_m_link_order x)
              (zrange 0 (vsize (ps_m_routing_table x))) [] [] (msg_Destination m));
  let '(output_links, output_link_destinations, msg_dsts) := r in
  assertM (NetDest_count msg_dsts =? 0) "PerfectSwitch.cc:218" ;;
  enough ← PerfectSwitch_enough s vnet current_time output_links;
  if negb enough then Consumer_scheduleEvent (CPerfectSwitch s) 1 ;; mret (inr tt) else
  unmodified ← (if 1 <? vsize output_links then p ← Message_clone msg_ptr; mret (Some p)
                else mret None);
  PerfectSwitch_dequeue s buffer vnet current_time ;;
  PerfectSwitch_send s vnet current_time msg_ptr unmodified output_links output_link_destinations ;;
  mret (inl tt).

(** The loop leaves at the latest when every message that was queued on entry
    is routed: what is enqueued now arrives later. *)
Definition PerfectSwitch_operateMessageBuffer (s buffer vnet : Z) : G () :=
  current_time ← clockEdge 0;
  x ← get_mbuf buffer;
  while_loop "PerfectSwitch.cc:150" (S (length (mb_m_prio_heap x))) tt
    (λ _, PerfectSwitch_route_message s buffer vnet current_time).

Definition next_incoming (n incoming : Z) : Z := if n <=? incoming + 1 then 0 else incoming + 1.

(** The loop over the [n] input ports, which starts behind [incoming]. *)
Definition PerfectSwitch_scan (s vnet n incoming : Z) : G () :=
  _ ← foldM (zrange 0 n) incoming (λ _ incoming,
    let incoming := next_incoming n incoming in
    x ← get_pswitch s;
    queues ← vgetG (ps_m_in x) incoming "m_in";
    (if vsize queues <=? vnet then mret tt
     else
       b ← vgetG queues vnet "m_in";
       match b with
       | Some buffer => PerfectSwitch_operateMessageBuffer s buffer vnet
       | None => mret tt
       end) ;;
    mret incoming);
  mret tt.

Definition PerfectSwitch_operateVnet (s vnet : Z) : G () :=
  x ← get_pswitch s;
  let incoming := ps_m_round_robin_start x in
  let n := vsize (ps_m_in x) in
  upd_pswitch s (λ x, x <| ps_m_round_robin_start := next_incoming n incoming |>) ;;
  pending ← vgetG (ps_m_pending_message_count x) vnet "m_pending_message_count";
  if 0 <? pending then PerfectSwitch_scan s vnet n incoming else mret tt.

Definition PerfectSwitch_wakeup (s : Z) : G () :=
  x ← get_pswitch s;
  let count := ps_m_wakeups_wo_switch x + 1 in
  let invert := PRIORITY_SWITCH_LIMIT <? count in
  upd_pswitch s (λ x, x <| ps_m_wakeups_wo_switch := if invert then 0 else count |>) ;;
  let vnets := zrange 0 (ps_m_virtual_networks x) in
  for_each (if invert then vnets else rev vnets) (PerfectSwitch_operateVnet s).
End PerfectSwitch.

(** ** [Throttle] *)
Definition MESSAGE_SIZE_MULTIPLIER : Z := 1000.
Definition BROADCAST_SCALING : Z := 1.

Definition Throttle_ctor (sID node link_latency link_bandwidth_multiplier endpoint_bandwidth : Z)
    : outcome Throttle :=
  assertO (0 <? link_bandwidth_multiplier) "Throttle.cc:59" ;;
  Ok (mkThrottle [] [] 0 [] sID node link_bandwidth_multiplier link_latency 0 endpoint_bandwidth ∅
        (f64_of_Z 0) (f64_of_Z 0)).

Definition Throttle_getLinkBandwidth (x : Throttle) : Z :=
  th_m_endpoint_bandwidth x * th_m_link_bandwidth_multiplier x.

Definition Throttle_addLinks (s t : Z) (in_vec : list Z) (out_vec : list (option Z)) : G () :=
  assertM (vsize in_vec =? vsize out_vec) "Throttle.cc:73" ;;
  for_each (zrange 0 (vsize in_vec)) (λ vnet,
    in_ptr ← vgetG in_vec vnet "in_vec";
    out_ptr ← vgetG out_vec vnet "out_vec";
    upd_throttle s t (λ x, x <| th_m_vnets ::= Z.succ |>
                             <| th_m_units_remaining ::= λ l, l ++ [0] |>
                             <| th_m_in ::= λ l, l ++ [in_ptr] |>
                             <| th_m_out ::= λ l, l ++ [out_ptr] |>) ;;
    MessageBuffer_setConsumer in_ptr (CThrottle s t)).

Definition network_message_to_size (m : Message) : G Z :=
  bytes ← MessageSizeType_to_int (msg_MessageSize m);
  let size := bytes * MESSAGE_SIZE_MULTIPLIER in
  mret (if (1 <? BROADCAST_SCALING) && NetDest_isBroadcast (msg_Destination m)
        then size * BROADCAST_SCALING else size).

Definition Throttle_units (s t vnet : Z) : G Z :=
  x ← get_throttle s t; vgetG (th_m_units_remaining x) vnet "m_units_remaining".

(** The message at the front of [inq] starts its transfer. *)
Definition Throttle_move (s t vnet current_time inq outq : Z) : G () :=
  msg_ptr ← MessageBuffer_peekMsgPtr inq;
  m ← get_msg msg_ptr;
  size ← network_message_to_size m;
  upd_throttle s t (λ x, x <| th_m_units_remaining ::=
    λ l, vset l vnet (default 0 (vget l vnet) + size) |>) ;;
  _ ← MessageBuffer_dequeue inq current_time true;
  x ← get_throttle s t;
  delta ← cyclesToTicks (th_m_link_latency x);
  MessageBuffer_enqueue outq msg_ptr current_time delta ;;
  upd_throttle s t (λ x, x <| th_m_msg_counts ::=
    λ c, <[(msg_MessageSize m, vnet) := default 0 (c !! (msg_MessageSize m, vnet)) + 1]> c |>).

(** [bw_remaining > 0 && (in->isReady(now) || m_units_remaining[vnet] > 0)] *)
Definition Throttle_has_work (s t vnet current_time inq bw_remaining : Z) : G bool :=
  if 0 <? bw_remaining then
    ready ← MessageBuffer_isReady inq current_time;
    if (ready : bool) then mret true else units ← Throttle_units s t vnet; mret (0 <? units)
  else mret false.

Definition Throttle_round (s t vnet current_time inq outq bw_remaining : Z) : G (Z + Z) :=
  work ← Throttle_has_work s t vnet current_time inq bw_remaining;
  go ← (if (work : bool) then MessageBuffer_areNSlotsAvailable outq 1 current_time else mret false);
  if (go : bool) then
    units ← Throttle_units s t vnet;
    ready ← (if units =? 0 then MessageBuffer_isReady inq current_time else mret false);
    (if (ready : bool) then Throttle_move s t vnet current_time inq outq else mret tt) ;;
    units ← Throttle_units s t vnet;
    let diff := units - bw_remaining in
    upd_throttle s t (λ x, x <| th_m_units_remaining ::= λ l, vset l vnet (Z.max 0 diff) |>) ;;
    mret (inl (Z.max 0 (- diff)))
  else mret (inr bw_remaining).

(** The loop ends because every round but the first and the last starts a
    message that was queued on entry. *)
Definition Throttle_operateVnet (s t vnet bw_remaining : Z) (schedule_wakeup : bool) (inq : Z)
    (out : option Z) : G (Z * bool) :=
  match out with
  | None => mret (bw_remaining, schedule_wakeup)
  | Some outq =>
      units ← Throttle_units s t vnet;
      assertM (0 <=? units) "Throttle.cc:99" ;;
      current_time ← clockEdge 0;
      x ← get_mbuf inq;
      bw_remaining ← while_loop "Throttle.cc:102" (S (S (length (mb_m_prio_heap x)))) bw_remaining
        (Throttle_round s t vnet current_time inq outq);
      work ← Throttle_has_work s t vnet current_time inq bw_remaining;
      if (work : bool) then
        a ← MessageBuffer_areNSlotsAvailable outq 1 current_time;
        mret (bw_remaining, if (a : bool) then schedule_wakeup else true)
      else mret (bw_remaining, schedule_wakeup)
  end.

(** The virtual networks in the order [vnets], with the bandwidth of one cycle. *)
Definition Throttle_operate (s t : Z) (x : Throttle) (vnets : list Z) (bandwidth : Z) : G (Z * bool) :=
  foldM vnets (bandwidth, false) (λ vnet r,
    inq ← vgetG (th_m_in x) vnet "m_in";
    out ← vgetG (th_m_out x) vnet "m_out";
    Throttle_operateVnet s t vnet (fst r) (snd r) inq out).

Definition Throttle_wakeup (s t : Z) : G () :=
  x ← get_throttle s t;
  let bandwidth := Throttle_getLinkBandwidth x in
  assertM (0 <? bandwidth) "Throttle.cc:150" ;;
  let count := th_m_wakeups_wo_switch x + 1 in
  let iteration_direction := PRIORITY_SWITCH_LIMIT <? count in
  upd_throttle s t (λ x, x <| th_m_wakeups_wo_switch := if iteration_direction then 0 else count |>) ;;
  let vnets := zrange 0 (th_m_vnets x) in
  r ← Throttle_operate s t x (if iteration_direction then vnets else rev vnets) bandwidth;
  let '(bw_remaining, schedule_wakeup) := r in
  let ratio := SFsub 53 1024 (f64_of_Z 1)
                 (SFdiv 53 1024 (f64_of_Z bw_remaining) (f64_of_Z bandwidth)) in
  upd_throttle s t (λ x, x <| th_m_link_utilization_proxy ::= λ u, SFadd 53 1024 u ratio |>) ;;
  if (0 <? bw_remaining) && negb schedule_wakeup then mret tt
  else Consumer_scheduleEvent (CThrottle s t) 1.

Definition Throttle_clearStats (x : Throttle) : Throttle :=
  x <| th_m_link_utilization_proxy := f64_of_Z 0 |>.

Definition Throttle_collateStats (curCycle startCycle : Z) (x : Throttle) : Throttle :=
  x <| th_m_link_utilization :=
         SFdiv 53 1024 (SFmul 53 1024 (f64_of_Z 100) (th_m_link_utilization_proxy x))
           (f64_of_Z (curCycle - startCycle)) |>.

(** ** [Switch] *)
Definition Switch_ctor (id virt_nets : Z) (port_buffers : list Z) : Switch :=
  mkSwitch id (PerfectSwitch_ctor id virt_nets) [] port_buffers 0.

Definition Switch_init (s : Z) : G () := upd_pswitch s PerfectSwitch_init.

Definition Switch_addInPort (s : Z) (ins : list (option Z)) : G () := PerfectSwitch_addInPort s ins.

Definition Switch_addOutPort (s : Z) (out : list (option Z)) (routing_table_entry : NetDest)
    (link_latency bw_multiplier : Z) : G () :=
  x ← get_switch s;
  endpoint_bandwidth ← gets (λ w, sn_m_endpoint_bandwidth (net_simple w));
  let t := vsize (sw_m_throttles x) in
  throttle ← lift (Throttle_ctor (sw_m_id x) t link_latency bw_multiplier endpoint_bandwidth);
  upd_switch s (λ x, x <| sw_m_throttles ::= λ l, l ++ [throttle] |>) ;;
  intermediateBuffers ← foldM (zrange 0 (vsize out)) [] (λ _ l,
    x ← get_switch s;
    assertM (sw_m_num_connected_buffers x <? vsize (sw_m_port_buffers x)) "Switch.cc:93" ;;
    b ← vgetG (sw_m_port_buffers x) (sw_m_num_connected_buffers x) "m_port_buffers";
    upd_switch s (λ x, x <| sw_m_num_connected_buffers ::= Z.succ |>) ;;
    mret (l ++ [b]));
  PerfectSwitch_addOutPort s intermediateBuffers routing_table_entry ;;
  Throttle_addLinks s t intermediateBuffers out.

Definition Switch_resetStats (s : Z) : G () :=
  upd_switch s (λ x, x <| sw_m_throttles ::= fmap Throttle_clearStats |>).

Definition Switch_collateStats (s startCycle : Z) : G () :=
  c ← curCycle; upd_switch s (λ x, x <| sw_m_throttles ::= fmap (Throttle_collateStats c startCycle) |>).

(** ** [SimpleNetwork] *)
Definition SimpleNetwork_ctor (buffer_size endpoint_bandwidth : Z) (adaptive_routing : bool)
    (routers : list Switch) (int_link_buffers : list Z) : G () :=
  modify (λ w, w <| net_m_switches := routers |>
                 <| net_simple := mkSimpleNetwork int_link_buffers 0 buffer_size endpoint_bandwidth
                                    adaptive_routing |>).

Section SimpleNetwork.
Context (nw : Network).

Definition SimpleNetwork_makeExtOutLink (src dest latency bw_multiplier : Z)
    (routing_table_entry : NetDest) : G () :=
  assertM (dest <? nw_m_nodes nw) "SimpleNetwork.cc:85" ;;
  n ← gets (λ w, vsize (net_m_switches w));
  assertM (src <? n) "SimpleNetwork.cc:86" ;;
  q ← vgetG (nw_m_fromNetQueues nw) dest "m_fromNetQueues";
  Switch_addOutPort src q routing_table_entry latency bw_multiplier.

Definition SimpleNetwork_makeExtInLink (src dest : Z) : G () :=
  assertM (src <? nw_m_nodes nw) "SimpleNetwork.cc:101" ;;
  q ← vgetG (nw_m_toNetQueues nw) src "m_toNetQueues";
  Switch_addInPort dest q.

(** One new queue per virtual network, shared by the two switches. *)
Definition SimpleNetwork_makeInternalLink (src dest latency bw_multiplier : Z)
    (routing_table_entry : NetDest) : G () :=
  queues ← foldM (zrange 0 (nw_m_virtual_networks nw)) [] (λ _ l,
    x ← gets net_simple;
    assertM (sn_m_num_connected_buffers x <? vsize (sn_m_int_link_buffers x)) "SimpleNetwork.cc:117" ;;
    b ← vgetG (sn_m_int_link_buffers x) (sn_m_num_connected_buffers x) "m_int_link_buffers";
    modify (λ w, w <| net_simple ::= λ x, x <| sn_m_num_connected_buffers ::= Z.succ |> |>) ;;
    mret (l ++ [Some b]));
  Switch_addInPort dest queues ;;
  Switch_addOutPort src queues routing_table_entry latency bw_multiplier.

Definition Simple_LinkMaker : LinkMaker GNet := {|
  net_makeExtInLink src dest link entry := SimpleNetwork_makeExtInLink src dest;
  net_makeExtOutLink src dest link entry :=
    match bl_derived link with
    | SimpleExtLink bw => SimpleNetwork_makeExtOutLink src dest (bl_m_latency link) bw entry
    | _ => fail (AssertFail "safe_cast<SimpleExtLink*>")
    end;
  net_makeInternalLink src dest link entry src_outport dst_inport :=
    match bl_derived link with
    | SimpleIntLink bw => SimpleNetwork_makeInternalLink src dest (bl_m_latency link) bw entry
    | _ => fail (AssertFail "safe_cast<SimpleIntLink*>")
    end;
|}.

Definition SimpleNetwork_init `{MT : MachineTypes} (tp : Topology) : G () :=
  @createLinks _ _ Simple_LinkMaker tp.

Definition SimpleNetwork_collateStats (startCycle : Z) : G () :=
  n ← gets (λ w, vsize (net_m_switches w));
  for_each (zrange 0 n) (λ s, Switch_collateStats s startCycle).
End SimpleNetwork.
