(* ===== verification/FunctionalModel.v ===== *)
(** * Functional accesses and statistics of the networks

    Models the [functionalWrite] family (flit.cc, flitBuffer.cc,
    VirtualChannel.cc, InputUnit.cc, OutputUnit.cc, CrossbarSwitch.cc,
    NetworkLink.cc, NetworkInterface.cc, Router.cc, GarnetNetwork.cc,
    MessageBuffer.cc, simple/Switch.cc, simple/SimpleNetwork.cc): a debugger or a
    functional simulation writes a packet to every message that is on its way.
    Also [collateStats] of Router.cc and GarnetNetwork.cc. *)

From Stdlib Require Import Floats.SpecFloat.
From S2P Require Import Prelude BinaryHeap NetDestModel AddrRangeModel CommonTypes GarnetState FlitBuffer Channels RoutingUnitModel SwapModel UnitsModel SwitchAllocatorModel MessageBufferModel NetworkInterfaceModel BuildModel.

(** [Message::functionalWrite(pkt)] is pure virtual and implemented by the message
    classes of a protocol; the packet is fixed.  It answers whether the address
    of the packet matches that of the message (Message.hh), and then writes the
    data. *)
Class FunctionalMessage := Message_functionalWrite : Message → bool * Message.

(** Writing again finds the same address and changes nothing. *)
Class FunctionalMessageSpec (FW : FunctionalMessage) : Prop :=
  functionalWrite_again m :
    Message_functionalWrite (snd (Message_functionalWrite m)) = Message_functionalWrite m.

Section FunctionalWrite.
Context `{FW : FunctionalMessage}.

(** The write to the object that a [MsgPtr] owns. *)
Definition MsgPtr_functionalWrite (q : ptr) : G bool :=
  m ← get_msg q;
  put_msg q (snd (Message_functionalWrite m)) ;;
  mret (fst (Message_functionalWrite m)).

Definition flit_functionalWrite (p : ptr) : G bool :=
  f ← get_flit p;
  q ← optG (fl_m_msg_ptr f) (NullDeref "m_msg_ptr");
  MsgPtr_functionalWrite q.

(** [if (write(x)) num_functional_writes++], for every [x] of a container; the
    counters are [uint32_t]. *)
Definition count_writes {A} (l : list A) (write : A → G bool) : G Z :=
  foldM l 0 (λ x n, r ← write x; mret (if (r : bool) then u32 (n + 1) else n)).
(** [num_functional_writes += write(x)]. *)
Definition add_writes {A} (l : list A) (n : Z) (write : A → G Z) : G Z :=
  foldM l n (λ x n, k ← write x; mret (u32 (n + k))).

Definition flitBuffer_functionalWrite (b : ptr) : G Z :=
  x ← get_fb b; count_writes (fb_m_buffer x) flit_functionalWrite.

Definition VirtualChannel_functionalWrite (v : VirtualChannel) : G Z :=
  flitBuffer_functionalWrite (vc_m_input_buffer v).

Definition InputUnit_functionalWrite (u : InputUnit) : G Z :=
  add_writes (zrange 0 (iu_m_num_vcs u)) 0 (λ i,
    v ← vgetG (iu_m_vcs u) i "m_vcs"; VirtualChannel_functionalWrite v).

Definition OutputUnit_functionalWrite (u : OutputUnit) : G Z :=
  flitBuffer_functionalWrite (ou_m_out_buffer u).

Definition CrossbarSwitch_functionalWrite (x : CrossbarSwitch) : G Z :=
  add_writes (xb_m_switch_buffer x) 0 flitBuffer_functionalWrite.

Definition NetworkLink_functionalWrite (l : Z) : G Z :=
  x ← get_link l; flitBuffer_functionalWrite (nl_linkBuffer x).

Definition NetworkInterface_functionalWrite (x : NetworkInterface) : G Z :=
  n ← add_writes (zrange 0 (ni_m_num_vcs x)) 0 (λ i,
    b ← vgetG (ni_m_ni_out_vcs x) i "m_ni_out_vcs"; flitBuffer_functionalWrite b);
  k ← flitBuffer_functionalWrite (ni_outFlitQueue x);
  mret (u32 (n + k)).

Definition Router_functionalWrite (x : Router) : G Z :=
  n ← CrossbarSwitch_functionalWrite (rt_m_switch x);
  n ← add_writes (rt_m_input_unit x) n InputUnit_functionalWrite;
  add_writes (rt_m_output_unit x) n OutputUnit_functionalWrite.

Definition GarnetNetwork_functionalWrite : G Z :=
  routers ← gets net_m_routers;
  n ← add_writes routers 0 Router_functionalWrite;
  nis ← gets net_m_nis;
  n ← add_writes nis n NetworkInterface_functionalWrite;
  links ← gets net_m_networklinks;
  add_writes links n NetworkLink_functionalWrite.

(** The queue first, then the stalled messages in the order of their addresses. *)
Definition MessageBuffer_functionalWrite (b : Z) : G Z :=
  x ← get_mbuf b;
  n ← count_writes (mb_m_prio_heap x) MsgPtr_functionalWrite;
  foldM (stall_map_entries (mb_m_stall_msg_map x)) n (λ e n,
    foldM (snd e) n (λ q n, r ← MsgPtr_functionalWrite q; mret (if (r : bool) then u32 (n + 1) else n))).

(** [Switch::functionalRead] and [SimpleNetwork::functionalRead]. *)
Definition Switch_functionalRead (x : Switch) : bool := false.
Definition SimpleNetwork_functionalRead (w : GNet) : bool :=
  existsb Switch_functionalRead (net_m_switches w).

Definition Switch_functionalWrite (x : Switch) : G Z :=
  add_writes (sw_m_port_buffers x) 0 MessageBuffer_functionalWrite.

Definition SimpleNetwork_functionalWrite : G Z :=
  switches ← gets net_m_switches;
  n ← add_writes switches 0 Switch_functionalWrite;
  sn ← gets net_simple;
  add_writes (sn_m_int_link_buffers sn) n MessageBuffer_functionalWrite.
End FunctionalWrite.

(** ** [collateStats] *)
Definition Router_collateStats (r : Z) : G () :=
  x ← get_router r;
  for_each (zrange 0 (rt_m_virtual_networks x)) (λ j,
    for_each (zrange 0 (vsize (rt_m_input_unit x))) (λ i,
      u ← get_input r i;
      reads ← vgetG (iu_m_num_buffer_reads u) j "m_num_buffer_reads";
      writes ← vgetG (iu_m_num_buffer_writes u) j "m_num_buffer_writes";
      upd_router r (λ x, x <| rt_m_buffer_reads ::= Z.add reads |>
                           <| rt_m_buffer_writes ::= Z.add writes |>))) ;;
  upd_router r (λ x, x
    <| rt_m_sw_input_arbiter_activity := sa_m_input_arbiter_activity (rt_m_sw_alloc x) |>
    <| rt_m_sw_output_arbiter_activity := sa_m_output_arbiter_activity (rt_m_sw_alloc x) |>
    <| rt_m_crossbar_activity := xb_m_crossbar_activity (rt_m_switch x) |>).

(** [double(n) / time_delta]. *)
Definition per_cycle (n : Z) (time_delta : spec_float) : spec_float :=
  SFdiv 53 1024 (f64_of_Z n) time_delta.

Definition GarnetNetwork_collate_link (time_delta : spec_float) (l : Z) : G () :=
  x ← get_link l;
  let activity := nl_m_link_utilized x in
  upd_stats (λ s, match nl_m_type x with
    | EXT_IN_ => s <| st_m_total_ext_in_link_utilization ::= Z.add activity |>
    | EXT_OUT_ => s <| st_m_total_ext_out_link_utilization ::= Z.add activity |>
    | INT_ => s <| st_m_total_int_link_utilization ::= Z.add activity |>
    | _ => s
    end) ;;
  upd_stats (λ s, s <| st_m_average_link_utilization ::=
    λ a, SFadd 53 1024 a (per_cycle activity time_delta) |>) ;;
  for_each (zrange 0 (vsize (nl_m_vc_load x))) (λ j,
    load ← vgetG (nl_m_vc_load x) j "vc_load";
    s ← gets net_stats;
    a ← vgetG (st_m_average_vc_load s) j "m_average_vc_load";
    upd_stats (λ s, s <| st_m_average_vc_load ::=
      λ v, vset v j (SFadd 53 1024 a (per_cycle load time_delta)) |>)).

Definition GarnetNetwork_collateStats (startCycle : Z) : G () :=
  c ← curCycle;
  links ← gets net_m_networklinks;
  for_each links (GarnetNetwork_collate_link (f64_of_Z (c - startCycle))) ;;
  n ← gets (λ w, vsize (net_m_routers w));
  for_each (zrange 0 n) Router_collateStats.
