(* ===== verification/Scenarios.v ===== *)
(** * Concrete networks

    Small networks in known states, on which the operations of the model are
    evaluated. *)

From S2P Require Import Prelude BinaryHeap NetDestModel CommonTypes GarnetState FlitBuffer Channels RoutingUnitModel SwapModel UnitsModel SwitchAllocatorModel MessageBufferModel NetworkInterfaceModel BuildModel.

(** A route of the 2 x 2 mesh to router [d]. *)
Definition sample_route (d : Z) : RouteInfo := mkRouteInfo 0 (one_dest 2 2 d) 0 0 d d 0.

(** A flit for router [dest] arrives in VC [vc] of port [dirn] of router [r], as
    in [InputUnit::wakeup]. *)
Definition place_flit (r : Z) (dirn : PortDirection) (vc dest : Z) : G ptr :=
  i ← inports_dirn2idx r dirn;
  t ← curCycle;
  p ← new_flit (flit_ctor 0 vc 0 (sample_route dest) 1 None t);
  InputUnit_route_head r i vc p ;;
  InputUnit_insertFlit r i vc p ;;
  InputUnit_schedule_SA r p ;;
  mret p.

(** The state after running [m] (the state before, if [m] stops). *)
Definition after {A} (m : G A) (w : GNet) : GNet :=
  match m w with Ok (_, w') => w' | Abort _ => w end.

(** A 2 x 2 mesh with one VC per port in which the flit at the east port of
    router 0 wants to go north, into the VC of router 2 that a flit bound for
    the east occupies. *)
Definition swap_scene (no_is_swap : Z) : GNet :=
  after (_ ← place_flit 0 "East" 0 2; place_flit 2 "South" 0 3) (sample_mesh 2 2 1 XY_ no_is_swap).

(** Two VCs per port: both VCs of the east port of router 0 hold a flit, the
    swap pointer names the first, and its flit leaves. *)
Definition two_vc_scene : GNet :=
  after (_ ← place_flit 0 "East" 0 2; _ ← place_flit 0 "East" 1 2;
         i ← inports_dirn2idx 0 "East"; InputUnit_getTopFlit 0 i 0)
    (sample_mesh 2 2 2 XY_ 1).

Definition returns {A} (o : outcome A) : bool := match o with Ok _ => true | Abort _ => false end.
