(* ===== verification/SystemModel.v ===== *)
(** * The network as a transition system

    The event queue wakes up consumers at the tick for which they asked
    (common/Consumer.cc hands [wakeup] to the queue).  One transition is the
    wake-up of a consumer whose event is due, the advance of the clock when
    no event is due, or an action of a protocol controller, which is
    generated code and meets the network only in its message buffers: it
    enqueues a new message or dequeues one.  Events of one tick may run in any
    order. *)

From S2P Require Import Prelude BinaryHeap NetDestModel CommonTypes GarnetState FlitBuffer Channels RoutingUnitModel SwapModel UnitsModel SwitchAllocatorModel MessageBufferModel NetworkInterfaceModel BuildModel TopologyModel SimpleNetworkModel Scenarios.

Section System.
Context `{MT : MachineTypes} `{LS : LinkSort}.

(** [wakeup] of the consumer of an event. *)
Definition wakeup_consumer (c : consumer) : G () :=
  match c with
  | CRouter r => Router_wakeup r
  | CLink l => NetworkLink_wakeup l
  | CNI n => NetworkInterface_wakeup n
  | CController _ => mret tt
  | CPerfectSwitch s => PerfectSwitch_wakeup s
  | CThrottle s t => Throttle_wakeup s t
  end.

Definition now (w : GNet) : Z := net_cycle w * cf_clockPeriod (net_cfg w).
Definition tick (w : GNet) : GNet := w <| net_cycle ::= Z.succ |>.
Definition remove_event (i : nat) (w : GNet) : GNet :=
  w <| net_eventq ::= λ q, take i q ++ drop (S i) q |>.

(** A controller creates a message and enqueues it. *)
Definition controller_enqueue (b : Z) (m : Message) (delta : Z) : G () :=
  t ← clockEdge 0; p ← new_msg m; MessageBuffer_enqueue b p t delta.
Definition controller_dequeue (b : Z) : G () :=
  t ← clockEdge 0; _ ← MessageBuffer_dequeue b t true; mret tt.

Inductive step (w : GNet) : GNet → Prop :=
  | step_event i c w' :
      net_eventq w !! i = Some (now w, c) →
      wakeup_consumer c (remove_event i w) = Ok (tt, w') → step w w'
  | step_tick :
      Forall (λ e, now w < fst e) (net_eventq w) → step w (tick w)
  | step_enqueue b m delta w' :
      controller_enqueue b m delta w = Ok (tt, w') → step w w'
  | step_dequeue b w' :
      controller_dequeue b w = Ok (tt, w') → step w w'.

Inductive reachable (w : GNet) : GNet → Prop :=
  | reach_refl : reachable w w
  | reach_step w1 w2 : reachable w w1 → step w1 w2 → reachable w w2.

(** An executable schedule: the oldest due event first. *)
Fixpoint due_at (t : Z) (i : nat) (q : list (Z * consumer)) : option (nat * consumer) :=
  match q with
  | [] => None
  | (t', c) :: q => if t' =? t then Some (i, c) else due_at t (S i) q
  end.
Definition first_due (w : GNet) : option (nat * consumer) := due_at (now w) O (net_eventq w).

Definition exec_step (w : GNet) : outcome GNet :=
  match first_due w with
  | Some (i, c) =>
      match wakeup_consumer c (remove_event i w) with
      | Ok (_, w') => Ok w'
      | Abort e => Abort e
      end
  | None =>
      if forallb (λ e, now w <? fst e) (net_eventq w) then Ok (tick w)
      else Abort (AssertFail "an event in the past")
  end.

Fixpoint exec (fuel : nat) (w : GNet) : outcome GNet :=
  match fuel with
  | O => Ok w
  | S fuel => w' ← exec_step w; exec fuel w'
  end.
End System.

(** ** A packet through the sample mesh

    One machine type with a controller per router. *)
Definition sample_types (n : Z) : MachineTypes :=
  {| MachineType_NUM := 1;
     MachineType_base_level := λ m, m;
     MachineType_from_base_level := λ m, m;
     MachineType_base_number := λ m, m * n;
     MachineType_base_count := λ _, n |}.

Definition sample_message (dest : Z) : Message :=
  mkMessage 0 0 0 0 (one_dest 2 2 dest) MessageSizeType_Control 7.

(** Node [src] sends a message to node [dest]. *)
Definition packet_scene (alg src dest : Z) : GNet :=
  after (controller_enqueue (2 * src) (sample_message dest) 1) (sample_mesh 2 2 1 alg 1).
