(* ===== verification/TrafficModel.v ===== *)
(** * The synthetic traffic generator

    Models src/gem5/src/cpu/testers/garnet_synthetic_traffic
    (GarnetSyntheticTraffic.hh and GarnetSyntheticTraffic.cc): the tester that
    feeds the network with packets.  Each cycle it decides whether to send,
    computes the destination from a traffic pattern and embeds it in the
    address of a memory request.  The port to the memory system is the class
    [PacketPort] and the generator of random numbers (base/random.hh, a
    Mersenne twister behind [std::uniform_int_distribution]) the class
    [RandomMt], of which [RandomMtSpec] is the documented range. *)

From Stdlib Require Import Floats.SpecFloat.
From S2P Require Import Prelude NetDestModel CommonTypes GarnetState FlitBuffer Channels RoutingUnitModel SwapModel AddrRangeModel.

(** ** Traffic patterns *)
Definition BIT_COMPLEMENT_ : Z := 0.
Definition BIT_REVERSE_ : Z := 1.
Definition BIT_ROTATION_ : Z := 2.
Definition NEIGHBOR_ : Z := 3.
Definition SHUFFLE_ : Z := 4.
Definition TORNADO_ : Z := 5.
Definition TRANSPOSE_ : Z := 6.
Definition UNIFORM_RANDOM_ : Z := 7.

Definition trafficStringToEnum : gmap string Z := list_to_map [
  ("bit_complement"%string, BIT_COMPLEMENT_); ("bit_reverse"%string, BIT_REVERSE_);
  ("bit_rotation"%string, BIT_ROTATION_); ("neighbor"%string, NEIGHBOR_);
  ("shuffle"%string, SHUFFLE_); ("tornado"%string, TORNADO_);
  ("transpose"%string, TRANSPOSE_); ("uniform_random"%string, UNIFORM_RANDOM_)].

(** ** Requests *)
Inductive MemCmd := MemCmd_ReadReq | MemCmd_WriteReq.

(** The fields of the request and the packet that the tester sets. *)
Record Packet := mkPacket {
  pk_cmd : MemCmd;
  pk_INST_FETCH : bool;
  pk_paddr : Z;
  pk_size : Z;
  pk_contextId : Z;
  pk_masterId : Z;
}.

(** The memory system behind the port: whether it takes a packet now. *)
Class PacketPort := {
  port_state : Type;
  sendTimingReq : Packet → port_state → bool * port_state;
}.

Class RandomMt := { random_mt : nat → Z → Z → Z }.
Class RandomMtSpec (R : RandomMt) : Prop :=
  random_mt_range n lo hi : lo ≤ hi → lo ≤ random_mt n lo hi ≤ hi.

(** ** State *)
Record TesterParams := mkTesterParams {
  tp_block_offset : Z; tp_num_dest : Z; tp_sim_cycles : Z; tp_num_packets_max : Z;
  tp_single_sender : Z; tp_single_dest : Z; tp_sim_type : Z; tp_traffic_type : string;
  tp_inj_rate : spec_float; tp_inj_vnet : Z; tp_precision : Z; tp_response_limit : Z;
  tp_masterId : Z;
}.

Record Tester := mkTester {
  ts_id : Z;
  ts_retryPkt : option Packet;
  ts_blockSizeBits : Z;
  ts_noResponseCycles : Z;
  ts_numDestinations : Z;
  ts_simCycles : Z;
  ts_numPacketsMax : Z;
  ts_numPacketsSent : Z;
  ts_singleSender : Z;
  ts_singleDest : Z;
  ts_sim_type : Z;
  ts_traffic : Z;
  ts_injRate : spec_float;
  ts_injVnet : Z;
  ts_precision : Z;
  ts_responseLimit : Z;
  ts_masterId : Z;
}.
#[export] Instance eta_Tester : Eta Tester := λ x,
  mkTester (ts_id x) (ts_retryPkt x) (ts_blockSizeBits x) (ts_noResponseCycles x)
    (ts_numDestinations x) (ts_simCycles x) (ts_numPacketsMax x) (ts_numPacketsSent x)
    (ts_singleSender x) (ts_singleDest x) (ts_sim_type x) (ts_traffic x) (ts_injRate x)
    (ts_injVnet x) (ts_precision x) (ts_responseLimit x) (ts_masterId x).

Section Tester.
Context `{P : PacketPort} `{R : RandomMt}.

(** The tester with its surroundings: the port, the number of random numbers
    drawn, the tick, for when the tick event is scheduled, and whether the
    simulation loop has been told to exit. *)
Record TWorld := mkTWorld {
  tw_tester : Tester;
  tw_port : port_state;
  tw_draws : nat;
  tw_curTick : Z;
  tw_period : Z;
  tw_tickEvent : option Z;
  tw_exit : bool;
}.
#[export] Instance eta_TWorld : Eta TWorld := λ x,
  mkTWorld (tw_tester x) (tw_port x) (tw_draws x) (tw_curTick x) (tw_period x) (tw_tickEvent x)
    (tw_exit x).

Definition T := M TWorld.
Definition tester {A} (f : Tester → A) : T A := gets (λ w, f (tw_tester w)).
Definition upd_tester (f : Tester → Tester) : T () := modify (λ w, w <| tw_tester ::= f |>).

Definition tester_random (lo hi : Z) : T Z :=
  n ← gets tw_draws;
  modify (λ w, w <| tw_draws ::= S |>) ;;
  mret (random_mt n lo hi).

(** [clockEdge(Cycles(c))] of the tester's clock domain. *)
Definition tester_clockEdge (c : Z) : T Z :=
  gets (λ w, (tw_curTick w + tw_period w - 1) / tw_period w * tw_period w + c * tw_period w).

(** ** Construction

    [TESTER_NETWORK] is a global counter: the constructor takes its value and
    the counter is incremented. *)
Definition GarnetSyntheticTraffic_ctor (p : TesterParams) (TESTER_NETWORK : Z)
    : outcome (Tester * Z) :=
  match trafficStringToEnum !! tp_traffic_type p with
  | None => Abort (Fatal "Unknown Traffic Type")
  | Some traffic =>
      Ok (mkTester TESTER_NETWORK None (tp_block_offset p) 0 (tp_num_dest p) (tp_sim_cycles p)
            (tp_num_packets_max p) 0 (tp_single_sender p) (tp_single_dest p) (tp_sim_type p)
            traffic (tp_inj_rate p) (tp_inj_vnet p) (tp_precision p) (tp_response_limit p)
            (tp_masterId p), TESTER_NETWORK + 1)
  end.

Definition GarnetSyntheticTraffic_init : T () :=
  upd_tester (λ x, x <| ts_numPacketsSent := 0 |>).

(** ** Sending *)
Definition port_send (pkt : Packet) : T bool :=
  s ← gets tw_port;
  let '(ok, s') := sendTimingReq pkt s in
  modify (λ w, w <| tw_port := s' |>) ;; mret ok.

Definition sendPkt (pkt : Packet) : T () :=
  ok ← port_send pkt;
  (if negb ok then upd_tester (λ x, x <| ts_retryPkt := Some pkt |>) else mret tt) ;;
  upd_tester (λ x, x <| ts_numPacketsSent ::= Z.succ |>).

(** [recvReqRetry] of the port. *)
Definition doRetry : T () :=
  o ← tester ts_retryPkt;
  match o with
  | None => fail (NullDeref "retryPkt")
  | Some pkt =>
      ok ← port_send pkt;
      if (ok : bool) then upd_tester (λ x, x <| ts_retryPkt := None |>) else mret tt
  end.

(** [recvTimingResp] of the port. *)
Definition completeRequest (isResponse : bool) : T () :=
  assertM isResponse "GarnetSyntheticTraffic.cc:138" ;;
  upd_tester (λ x, x <| ts_noResponseCycles := 0 |>).

(** ** Destinations

    [(int) sqrt(n)] and [(int) log2(n)] are the integer functions: [sqrt] of
    binary64 is correctly rounded (checked below against its specification for
    every network of up to 1024 nodes), and [log2] of the C library is exact
    on powers of two, where the result matters. *)
Definition radix_of (num_destinations : Z) : Z := Z.sqrt num_destinations.

(** [BIT_REVERSE_]: the loop runs for [i] from 1 below [num_bits]. *)
Fixpoint reverse_loop (k : nat) (straight reverse : Z) : Z :=
  match k with
  | O => reverse
  | S k =>
      let reverse := u32 (Z.shiftl reverse 1) in
      let straight := Z.shiftr straight 1 in
      reverse_loop k straight (Z.lor reverse (Z.land straight 1))
  end.
Definition bit_reverse (num_destinations source : Z) : Z :=
  let num_bits := Z.log2 num_destinations in
  reverse_loop (Z.to_nat (num_bits - 1)) (u32 source) (Z.land (u32 source) 1).

Definition bit_rotation (num_destinations source : Z) : Z :=
  if source `rem` 2 =? 0 then source `quot` 2
  else source `quot` 2 + num_destinations `quot` 2.

Definition shuffle (num_destinations source : Z) : Z :=
  if source <? num_destinations `quot` 2 then source * 2
  else source * 2 - num_destinations + 1.

(** The patterns that are functions of the source; [None] for an unknown one. *)
Definition pattern (traffic num_destinations source : Z) : option Z :=
  let radix := radix_of num_destinations in
  let src_x := source `rem` radix in
  let src_y := source `quot` radix in
  if traffic =? BIT_COMPLEMENT_ then
    Some ((radix - src_y - 1) * radix + (radix - src_x - 1))
  else if traffic =? BIT_REVERSE_ then Some (bit_reverse num_destinations source)
  else if traffic =? BIT_ROTATION_ then Some (bit_rotation num_destinations source)
  else if traffic =? NEIGHBOR_ then Some (src_y * radix + (src_x + 1) `rem` radix)
  else if traffic =? SHUFFLE_ then Some (shuffle num_destinations source)
  else if traffic =? TRANSPOSE_ then Some (src_x * radix + src_y)
  else if traffic =? TORNADO_ then
    Some (src_y * radix + (src_x + radix `quot` 2 - 1) `rem` radix)
  else None.

(** The [unsigned destination]; the remainder by a zero [radix] traps. *)
Definition choose_destination : T Z :=
  x ← tester id;
  (if radix_of (ts_numDestinations x) =? 0 then fail (Panic "division by zero") else mret tt) ;;
  if 0 <=? ts_singleDest x then mret (u32 (ts_singleDest x))
  else if ts_traffic x =? UNIFORM_RANDOM_ then tester_random 0 (u32 (ts_numDestinations x - 1))
  else
    match pattern (ts_traffic x) (ts_numDestinations x) (ts_id x) with
    | Some d => mret (u32 d)
    | None => fail (Fatal "Unknown Traffic Type")
    end.

Definition generatePkt : T () :=
  x ← tester id;
  destination ← choose_destination;
  let paddr := u64 (Z.shiftl destination (ts_blockSizeBits x)) in
  injReqType ←
    (if (ts_injVnet x <? 0) || (2 <? ts_injVnet x) then tester_random 0 2
     else mret (ts_injVnet x));
  let pkt :=
    if injReqType =? 0 then mkPacket MemCmd_ReadReq false paddr 1 (ts_id x) (ts_masterId x)
    else if injReqType =? 1 then mkPacket MemCmd_ReadReq true paddr 1 (ts_id x) (ts_masterId x)
    else mkPacket MemCmd_WriteReq false paddr 1 (ts_id x) (ts_masterId x) in
  sendPkt pkt.

(** ** One cycle

    [pow(10, precision)] is exact for the precisions from 0 to 9 that the
    conversion to [int] admits. *)
Definition send_allowed (injRate : spec_float) (precision trySending : Z) : bool :=
  SFltb (f64_of_Z trySending) (SFmul 53 1024 injRate (f64_of_Z (10 ^ precision))).

(** Make a new request, as the injection rate and the limits allow. *)
Definition tick_send (x : Tester) : T () :=
  trySending ← tester_random 0 (10 ^ ts_precision x);
  if send_allowed (ts_injRate x) (ts_precision x) trySending then
    let senderEnable :=
      negb ((0 <=? ts_numPacketsMax x) && (ts_numPacketsMax x <=? ts_numPacketsSent x)) &&
      negb ((0 <=? ts_singleSender x) && negb (ts_id x =? ts_singleSender x)) in
    if senderEnable then generatePkt else mret tt
  else mret tt.

(** Schedule the next wake-up.  The tick event is running, so it is not
    scheduled. *)
Definition tick_schedule (x : Tester) : T () :=
  if ts_sim_type x =? 1 then
    now ← gets tw_curTick;
    if ts_simCycles x <=? now then modify (λ w, w <| tw_exit := true |>)
    else t ← tester_clockEdge 1; modify (λ w, w <| tw_tickEvent := Some t |>)
  else if ts_sim_type x =? 2 then
    t ← tester_clockEdge 1; modify (λ w, w <| tw_tickEvent := Some t |>)
  else fail (Fatal "unknown 'sim_type' option given").

Definition GarnetSyntheticTraffic_tick : T () :=
  modify (λ w, w <| tw_tickEvent := None |>) ;;
  upd_tester (λ x, x <| ts_noResponseCycles ::= Z.succ |>) ;;
  x ← tester id;
  tick_send x ;;
  tick_schedule x.
End Tester.

(** [(int) sqrt(n)] in binary64 is the integer square root. *)
Definition f64_trunc (x : spec_float) : Z :=
  match x with
  | S754_finite s m e =>
      let a := if 0 <=? e then Zpos m * 2 ^ e else Zpos m / 2 ^ (- e) in if s then - a else a
  | _ => 0
  end.

Lemma radix_of_binary64 :
  forallb (λ n, f64_trunc (SFsqrt 53 1024 (f64_of_Z n)) =? radix_of n) (zrange 0 1025) = true.
Proof. vm_compute. reflexivity. Qed.
