(* ===== verification/AddressModel.v ===== *)
(** * Cache-line addresses

    Models src/gem5/src/mem/ruby/common/Address.cc, the logarithm of
    src/gem5/src/base/intmath.hh, and the block size that the constructor of
    [RubySystem] (mem/ruby/system/RubySystem.cc) computes.  [Addr] is a 64-bit
    unsigned integer; [~0] and the shifts to the left wrap as in the source.  The
    positions are unsigned integers below 64, so that no shift is by the width. *)

From S2P Require Import Prelude AddrRangeModel.

Definition ADDRESS_WIDTH : Z := 64.

(** [(Addr)~0]. *)
Definition all_ones : Z := u64 (Z.lnot 0).

Definition bitSelect (addr small big : Z) : outcome Z :=
  assertO (small <=? big) "Address.cc:36" ;;
  if ADDRESS_WIDTH - 1 <=? big then Ok (Z.shiftr addr small)
  else
    let mask := u64 (Z.lnot (u64 (Z.shiftl all_ones (big + 1)))) in
    let partial := Z.land addr mask in
    Ok (Z.shiftr partial small).

Definition bitRemove (addr small big : Z) : outcome Z :=
  assertO (small <=? big) "Address.cc:51" ;;
  if ADDRESS_WIDTH - 1 <=? small then Ok addr
  else if ADDRESS_WIDTH - 1 <=? big then
    let mask := Z.shiftr all_ones small in
    Ok (Z.land addr mask)
  else if small =? 0 then
    let mask := u64 (Z.shiftl all_ones big) in
    Ok (Z.land addr mask)
  else
    let mask := u64 (Z.lnot (u64 (Z.shiftl all_ones small))) in
    let lower_bits := Z.land addr mask in
    let mask := u64 (Z.shiftl all_ones (big + 1)) in
    let higher_bits := Z.land addr mask in
    let higher_bits := Z.shiftr higher_bits (big - small + 1) in
    Ok (Z.lor higher_bits lower_bits).

Definition maskLowOrderBits (addr number : Z) : Z :=
  let mask := if ADDRESS_WIDTH - 1 <=? number then all_ones else u64 (Z.shiftl all_ones number) in
  Z.land addr mask.

Definition maskHighOrderBits (addr number : Z) : Z :=
  let mask := if ADDRESS_WIDTH - 1 <=? number then all_ones else Z.shiftr all_ones number in
  Z.land addr mask.

Definition shiftLowOrderBits (addr number : Z) : Z := Z.shiftr addr number.

(** ** base/intmath.hh *)
Definition isPowerOf2 (n : Z) : bool :=
  negb (n =? 0) && (Z.land n (u32 (Z.lnot (u32 (n - 1)))) =? n).

(** One test of the cascade: if a bit of [mask] is set, [x] is shifted by [k] and
    [k] is added to the result. *)
Definition log_test (mask k : Z) (v : Z * Z) : Z * Z :=
  let '(x, y) := v in
  if Z.land x mask =? 0 then (x, y) else (Z.shiftr x k, y + k).

Definition floorLog2 (x : Z) : outcome Z :=
  assertO (0 <? x) "intmath.hh:102" ;;
  let v := log_test 0xffff0000 16 (x, 0) in
  let v := log_test 0x0000ff00 8 v in
  let v := log_test 0x000000f0 4 v in
  let v := log_test 0x0000000c 2 v in
  let '(x, y) := v in
  Ok (if Z.land x 0x00000002 =? 0 then y else y + 1).

(** ** The block size

    [m_block_size_bytes] and [m_block_size_bits] are static members of
    [RubySystem], which its constructor sets. *)
Class BlockSize := mkBlockSize { m_block_size_bytes : Z; m_block_size_bits : Z }.

Definition RubySystem_ctor (block_size_bytes : Z) : outcome BlockSize :=
  assertO (isPowerOf2 block_size_bytes) "RubySystem.cc:66" ;;
  bits ← floorLog2 block_size_bytes;
  Ok (mkBlockSize block_size_bytes bits).

Section Lines.
Context {BS : BlockSize}.

Definition Address_getOffset (addr : Z) : outcome Z :=
  bitSelect addr 0 (u32 (m_block_size_bits - 1)).

Definition makeLineAddress (addr : Z) : Z := maskLowOrderBits addr m_block_size_bits.

(** The stride is an [int]: the product with the unsigned block size wraps at 32
    bits before it is added to the 64-bit address. *)
Definition makeNextStrideAddress (addr stride : Z) : Z :=
  u64 (maskLowOrderBits addr m_block_size_bits + u32 (m_block_size_bytes * u32 stride)).
End Lines.
