(* ===== verification/ReplacementModel.v ===== *)
(** * Replacement policies

    Models src/gem5/src/mem/ruby/structures/AbstractReplacementPolicy.cc,
    LRUPolicy.cc, PseudoLRUPolicy.cc and mem/ruby/system/WeightedLRUPolicy.cc.
    The virtual functions by which a cache uses its policy are the class
    [ReplacementPolicy]; the three policies are its instances. *)

From S2P Require Import Prelude AddrRangeModel.

Definition divide_by_zero {A} : outcome A := Abort (Throw "division by zero").

(** ** Class [AbstractReplacementPolicy] *)
Record PolicyBase := mkPolicyBase {
  rp_m_num_sets : Z;
  rp_m_assoc : Z;
  rp_m_last_ref_ptr : list (list Z);
}.
#[export] Instance eta_PolicyBase : Eta PolicyBase := λ x,
  mkPolicyBase (rp_m_num_sets x) (rp_m_assoc x) (rp_m_last_ref_ptr x).

Definition grid {A} (rows cols : Z) (a : A) : list (list A) :=
  replicate (Z.to_nat rows) (replicate (Z.to_nat cols) a).

Definition AbstractReplacementPolicy_ctor (size block_size assoc : Z) : outcome PolicyBase :=
  if (block_size =? 0) || (assoc =? 0) then divide_by_zero else
  let num_sets := u32 (size / block_size / assoc) in
  Ok (mkPolicyBase num_sets (u32 assoc) (grid num_sets (u32 assoc) 0)).

(** [m[set][way]] of the tables that the policies keep. *)
Definition cell {A} (m : list (list A)) (set way : Z) (site : string) : outcome A :=
  row ← vgetO m set site; vgetO row way site.
Definition set_cell {A} (m : list (list A)) (set way : Z) (a : A) : list (list A) :=
  match vget m set with Some row => vset m set (vset row way a) | None => m end.

Definition AbstractReplacementPolicy_getLastAccess (set way : Z) (p : PolicyBase) : outcome Z :=
  cell (rp_m_last_ref_ptr p) set way "AbstractReplacementPolicy.cc:73".

(** The two assertions with which every [touch] begins. *)
Definition touch_checks (set index : Z) (p : PolicyBase) (site : string) : outcome () :=
  assertO ((0 <=? index) && (index <? rp_m_assoc p)) site ;;
  assertO ((0 <=? set) && (set <? rp_m_num_sets p)) site.

(** ** The interface of a policy

    [touch_occupancy] is the member that [WeightedLRUPolicy] has in addition; a
    policy has it exactly if its [useOccupancy()] is true. *)
Class ReplacementPolicy (P : Type) := {
  policy_base : P → PolicyBase;
  touch : Z → Z → Z → P → outcome P;
  touch_occupancy : option (Z → Z → Z → Z → P → outcome P);
  getVictim : Z → P → outcome Z;
}.

(** ** Class [LRUPolicy] *)
Record LRUPolicy := mkLRUPolicy { lru_base : PolicyBase }.
#[export] Instance eta_LRUPolicy : Eta LRUPolicy := λ x, mkLRUPolicy (lru_base x).

Definition LRUPolicy_ctor (size block_size assoc : Z) : outcome LRUPolicy :=
  b ← AbstractReplacementPolicy_ctor size block_size assoc; Ok (mkLRUPolicy b).

Definition LRUPolicy_touch (set index time : Z) (p : LRUPolicy) : outcome LRUPolicy :=
  touch_checks set index (lru_base p) "LRUPolicy.cc:53" ;;
  Ok (p <| lru_base ::= λ b, b <| rp_m_last_ref_ptr ::= λ m, set_cell m set index time |> |>).

Definition LRUPolicy_getVictim (set : Z) (p : LRUPolicy) : outcome Z :=
  let m := rp_m_last_ref_ptr (lru_base p) in
  smallest_time ← cell m set 0 "LRUPolicy.cc:64";
  '(_, smallest_index) ←
    foldl (λ acc i,
        '(smallest_time, smallest_index) ← acc;
        time ← cell m set i "LRUPolicy.cc:67";
        Ok (if time <? smallest_time then (time, i) else (smallest_time, smallest_index)))
      (Ok (smallest_time, 0)) (zrange 0 (rp_m_assoc (lru_base p)));
  Ok smallest_index.

#[export] Instance lru_policy : ReplacementPolicy LRUPolicy := {
  policy_base := lru_base;
  touch := LRUPolicy_touch;
  touch_occupancy := None;
  getVictim := LRUPolicy_getVictim;
}.

(** ** Class [PseudoLRUPolicy] *)
Record PseudoLRUPolicy := mkPseudoLRUPolicy {
  pl_base : PolicyBase;
  pl_m_effective_assoc : Z;
  pl_m_num_levels : Z;
  pl_m_trees : list Z;
}.
#[export] Instance eta_PseudoLRUPolicy : Eta PseudoLRUPolicy := λ x,
  mkPseudoLRUPolicy (pl_base x) (pl_m_effective_assoc x) (pl_m_num_levels x) (pl_m_trees x).

(** The two [while] loops of the constructor: the least power of two that is not
    below the associativity, and its logarithm.  With the associativity at most
    32, as asserted before, seven rounds are enough for both. *)
Fixpoint effective_assoc (fuel : nat) (e assoc : Z) : outcome Z :=
  match fuel with
  | O => Abort (Diverges "PseudoLRUPolicy.cc:45")
  | S fuel => if e <? assoc then effective_assoc fuel (u32 (Z.shiftl e 1)) assoc else Ok e
  end.
Fixpoint num_levels (fuel : nat) (tmp_assoc n : Z) : outcome Z :=
  match fuel with
  | O => Abort (Diverges "PseudoLRUPolicy.cc:50")
  | S fuel =>
      let tmp_assoc := Z.quot tmp_assoc 2 in
      if tmp_assoc =? 0 then Ok n else num_levels fuel tmp_assoc (n + 1)
  end.

Definition PseudoLRUPolicy_ctor (size block_size assoc : Z) : outcome PseudoLRUPolicy :=
  b ← AbstractReplacementPolicy_ctor size block_size assoc;
  assertO ((0 <? rp_m_num_sets b) && (1 <? rp_m_assoc b) && (rp_m_assoc b <=? 32))
    "PseudoLRUPolicy.cc:37" ;;
  e ← effective_assoc 7 1 (rp_m_assoc b);
  n ← num_levels 7 e 0;
  assertO (n <? 16) "PseudoLRUPolicy.cc:55" ;;
  Ok (mkPseudoLRUPolicy b e n (replicate (Z.to_nat (rp_m_num_sets b)) 0)).

(** One level of [touch]: the node [tree_index] is made to point to the half of
    the tree that [index] is in. *)
Definition touch_level (index i : Z) (v : Z * Z) : Z * Z :=
  let '(tree, tree_index) := v in
  let node_val := Z.land (Z.shiftr index i) 1 in
  let tree := if node_val =? 0 then Z.land tree (u64 (Z.lnot (Z.shiftl 1 tree_index)))
              else Z.lor tree (Z.shiftl node_val tree_index) in
  (tree, if node_val =? 0 then tree_index * 2 + 1 else tree_index * 2 + 2).

(** The levels are visited from [m_num_levels - 1] down to 0. *)
Definition touch_tree (levels index tree : Z) : Z :=
  fst (foldl (λ v i, touch_level index i v) (tree, 0) (reverse (zrange 0 levels))).

Definition PseudoLRUPolicy_touch (set index time : Z) (p : PseudoLRUPolicy) : outcome PseudoLRUPolicy :=
  touch_checks set index (pl_base p) "PseudoLRUPolicy.cc:78" ;;
  tree ← vgetO (pl_m_trees p) set "PseudoLRUPolicy.cc:86";
  Ok (p <| pl_m_trees ::= λ l, vset l set (touch_tree (pl_m_num_levels p) index tree) |>
        <| pl_base ::= λ b, b <| rp_m_last_ref_ptr ::= λ m, set_cell m set index time |> |>).

(** One level of [getVictim]: the half that the node does not point to. *)
Definition victim_level (tree effective_assoc i : Z) (v : Z * Z) : Z * Z :=
  let '(index, tree_index) := v in
  let node_val := Z.land (Z.shiftr tree tree_index) 1 in
  (index + (if node_val =? 0 then Z.shiftr effective_assoc (i + 1) else 0),
   if node_val =? 0 then tree_index * 2 + 2 else tree_index * 2 + 1).

Definition victim_leaf (levels effective_assoc tree : Z) : Z :=
  fst (foldl (λ v i, victim_level tree effective_assoc i v) (0, 0) (zrange 0 levels)).

Definition PseudoLRUPolicy_getVictim (set : Z) (p : PseudoLRUPolicy) : outcome Z :=
  tree ← vgetO (pl_m_trees p) set "PseudoLRUPolicy.cc:102";
  let index := victim_leaf (pl_m_num_levels p) (pl_m_effective_assoc p) tree in
  assertO ((0 <=? index) && (index <? pl_m_effective_assoc p)) "PseudoLRUPolicy.cc:106" ;;
  Ok (if rp_m_assoc (pl_base p) - 1 <? index then rp_m_assoc (pl_base p) - 1 else index).

#[export] Instance pseudo_lru_policy : ReplacementPolicy PseudoLRUPolicy := {
  policy_base := pl_base;
  touch := PseudoLRUPolicy_touch;
  touch_occupancy := None;
  getVictim := PseudoLRUPolicy_getVictim;
}.

(** ** Class [WeightedLRUPolicy] *)
Record WeightedLRUPolicy := mkWeightedLRUPolicy {
  wl_base : PolicyBase;
  wl_m_last_occ_ptr : list (list Z);
}.
#[export] Instance eta_WeightedLRUPolicy : Eta WeightedLRUPolicy := λ x,
  mkWeightedLRUPolicy (wl_base x) (wl_m_last_occ_ptr x).

Definition WeightedLRUPolicy_ctor (size block_size assoc : Z) : outcome WeightedLRUPolicy :=
  b ← AbstractReplacementPolicy_ctor size block_size assoc;
  Ok (mkWeightedLRUPolicy b (grid (rp_m_num_sets b) (rp_m_assoc b) 0)).

Definition WeightedLRUPolicy_touch (set index time : Z) (p : WeightedLRUPolicy) : outcome WeightedLRUPolicy :=
  touch_checks set index (wl_base p) "WeightedLRUPolicy.cc:71" ;;
  Ok (p <| wl_base ::= λ b, b <| rp_m_last_ref_ptr ::= λ m, set_cell m set index time |> |>).

Definition WeightedLRUPolicy_touch_occupancy (set index time occupancy : Z) (p : WeightedLRUPolicy)
    : outcome WeightedLRUPolicy :=
  touch_checks set index (wl_base p) "WeightedLRUPolicy.cc:80" ;;
  Ok (p <| wl_base ::= λ b, b <| rp_m_last_ref_ptr ::= λ m, set_cell m set index time |> |>
        <| wl_m_last_occ_ptr ::= λ m, set_cell m set index occupancy |>).

Definition WeightedLRUPolicy_getVictim (set : Z) (p : WeightedLRUPolicy) : outcome Z :=
  let m := rp_m_last_ref_ptr (wl_base p) in
  smallest_time ← cell m set 0 "WeightedLRUPolicy.cc:94";
  smallest_weight ← cell (wl_m_last_occ_ptr p) set 0 "WeightedLRUPolicy.cc:95";
  '(_, _, smallest_index) ←
    foldl (λ acc i,
        '(smallest_weight, smallest_time, smallest_index) ← acc;
        weight ← cell (wl_m_last_occ_ptr p) set i "WeightedLRUPolicy.cc:99";
        if weight <? smallest_weight then
          time ← cell m set i "WeightedLRUPolicy.cc:103";
          Ok (weight, time, i)
        else if weight =? smallest_weight then
          time ← cell m set i "WeightedLRUPolicy.cc:105";
          Ok (smallest_weight, if time <? smallest_time then time else smallest_time,
              if time <? smallest_time then i else smallest_index)
        else Ok (smallest_weight, smallest_time, smallest_index))
      (Ok (smallest_weight, smallest_time, 0)) (zrange 1 (rp_m_assoc (wl_base p)));
  Ok smallest_index.

#[export] Instance weighted_lru_policy : ReplacementPolicy WeightedLRUPolicy := {
  policy_base := wl_base;
  touch := WeightedLRUPolicy_touch;
  touch_occupancy := Some WeightedLRUPolicy_touch_occupancy;
  getVictim := WeightedLRUPolicy_getVictim;
}.
