(* ===== verification/CacheMemoryModel.v ===== *)
(** * Cache memories

    Models src/gem5/src/mem/ruby/structures/CacheMemory.hh, CacheMemory.cc and
    BankedArray.cc, and the entries of a cache, mem/ruby/slicc_interface/
    AbstractEntry.cc and AbstractCacheEntry.cc, with the enumerations of
    RubySlicc_Exports.sm that they use.  Entries are allocated by the protocol
    and shared with it by pointer, so they are kept in a finite map; a cache
    holds pointers.  The policy is any instance of [ReplacementPolicy].

    Not modelled: printing and [regStats].  [recordCacheContents] is modelled up
    to the list of records that it hands to the recorder. *)

From S2P Require Import Prelude NetDestModel AddrRangeModel CommonTypes AddressModel ReplacementModel.

(** ** Enumerations *)
Inductive AccessPermission :=
  | Read_Only | Read_Write | Maybe_Stale | Backing_Store | Invalid | NotPresent | Busy.
#[export] Instance AccessPermission_eq_dec : EqDecision AccessPermission.
Proof. solve_decision. Defined.

Inductive RubyRequestType :=
  | LD | ST | ATOMIC | ATOMIC_RETURN | ATOMIC_NO_RETURN | IFETCH | IO | REPLACEMENT | Load_Linked
  | Store_Conditional | RMW_Read | RMW_Write | Locked_RMW_Read | Locked_RMW_Write | COMMIT
  | RubyRequestType_NULL | FLUSH | Release | Acquire | AcquireRelease.
#[export] Instance RubyRequestType_eq_dec : EqDecision RubyRequestType.
Proof. solve_decision. Defined.

Inductive CacheRequestType := DataArrayRead | DataArrayWrite | TagArrayRead | TagArrayWrite.
Inductive CacheResourceType := DataArray | TagArray.

(** An [int] holds 32 bits. *)
Definition s32 (x : Z) : Z := (x + 2 ^ 31) mod 2 ^ 32 - 2 ^ 31.

(** ** Entries

    [ce_DataBlk] is the data of the entry, [None] for an entry class of a
    protocol without data, for which [getDataBlk] panics. *)
Record AbstractCacheEntry := mkCacheEntry {
  ce_m_Permission : AccessPermission;
  ce_m_Address : Z;
  ce_m_locked : Z;
  ce_m_set_index : Z;
  ce_m_way_index : Z;
  ce_validBlocks : Z;
  ce_DataBlk : option (list Z);
}.
#[export] Instance eta_CacheEntry : Eta AbstractCacheEntry := λ x,
  mkCacheEntry (ce_m_Permission x) (ce_m_Address x) (ce_m_locked x) (ce_m_set_index x)
    (ce_m_way_index x) (ce_validBlocks x) (ce_DataBlk x).

(** The members that the constructor does not set have arbitrary values. *)
Definition AbstractCacheEntry_ctor (set way valid : Z) (data : option (list Z)) : AbstractCacheEntry :=
  mkCacheEntry NotPresent 0 (-1) set way valid data.

Definition AbstractCacheEntry_changePermission (new_perm : AccessPermission) (e : AbstractCacheEntry)
    : AbstractCacheEntry :=
  let e := e <| ce_m_Permission := new_perm |> in
  if bool_decide (new_perm = Invalid) || bool_decide (new_perm = NotPresent)
  then e <| ce_m_locked := -1 |> else e.

Definition AbstractCacheEntry_setLocked (context : Z) (e : AbstractCacheEntry) : AbstractCacheEntry :=
  e <| ce_m_locked := context |>.
Definition AbstractCacheEntry_clearLocked (e : AbstractCacheEntry) : AbstractCacheEntry :=
  e <| ce_m_locked := -1 |>.
Definition AbstractCacheEntry_isLocked (context : Z) (e : AbstractCacheEntry) : bool :=
  ce_m_locked e =? context.

(** ** Class [BankedArray] *)
Record AccessRecord := mkAccessRecord { acc_idx : Z; acc_startAccess : Z; acc_endAccess : Z }.

Record BankedArray := mkBankedArray {
  ba_banks : Z;
  ba_accessLatency : Z;
  ba_bankBits : option Z;
  ba_startIndexBit : Z;
  ba_clockPeriod : Z;
  ba_busyBanks : list AccessRecord;
}.
#[export] Instance eta_BankedArray : Eta BankedArray := λ x,
  mkBankedArray (ba_banks x) (ba_accessLatency x) (ba_bankBits x) (ba_startIndexBit x)
    (ba_clockPeriod x) (ba_busyBanks x).

(** [bankBits] is left unset when there are no banks. *)
Definition BankedArray_ctor (banks accessLatency startIndexBit clockPeriod : Z) : outcome BankedArray :=
  bits ← (if banks =? 0 then Ok None else b ← floorLog2 banks; Ok (Some b));
  Ok (mkBankedArray banks accessLatency bits startIndexBit clockPeriod
        (replicate (Z.to_nat banks) (mkAccessRecord 0 0 0))).

Definition BankedArray_mapIndexToBank (idx : Z) (a : BankedArray) : outcome Z :=
  if ba_banks a =? 1 then Ok 0
  else if ba_banks a =? 0 then divide_by_zero
  else Ok (u32 (Z.rem idx (ba_banks a))).

Definition BankedArray_tryAccess (idx curTick : Z) (a : BankedArray) : outcome bool :=
  if ba_accessLatency a =? 0 then Ok true else
  bank ← BankedArray_mapIndexToBank idx a;
  assertO (bank <? ba_banks a) "BankedArray.cc:59" ;;
  b ← vgetO (ba_busyBanks a) bank "BankedArray.cc:61";
  Ok (negb (curTick <=? acc_endAccess b)).

Definition BankedArray_reserve (idx curTick : Z) (a : BankedArray) : outcome BankedArray :=
  if ba_accessLatency a =? 0 then Ok a else
  bank ← BankedArray_mapIndexToBank idx a;
  assertO (bank <? ba_banks a) "BankedArray.cc:75" ;;
  b ← vgetO (ba_busyBanks a) bank "BankedArray.cc:77";
  if (curTick <=? acc_endAccess b) then
    if (acc_startAccess b =? curTick) && (acc_idx b =? idx) then Ok a
    else Abort (Panic "BankedArray reservation error")
  else
    Ok (a <| ba_busyBanks ::= λ l, vset l bank
             (mkAccessRecord idx curTick (curTick + (ba_accessLatency a - 1) * ba_clockPeriod a)) |>).

(** ** Class [CacheMemory] *)
Record CacheParams (P : Type) := mkCacheParams {
  cp_size : Z; cp_assoc : Z; cp_replacement_policy : P; cp_start_index_bit : Z; cp_is_icache : bool;
  cp_resourceStalls : bool; cp_block_size : Z; cp_dataArrayBanks : Z; cp_dataAccessLatency : Z;
  cp_tagArrayBanks : Z; cp_tagAccessLatency : Z;
}.
Arguments mkCacheParams {P} _ _ _ _ _ _ _ _ _ _ _.
Arguments cp_size {P} _.
Arguments cp_assoc {P} _.
Arguments cp_replacement_policy {P} _.
Arguments cp_start_index_bit {P} _.
Arguments cp_is_icache {P} _.
Arguments cp_resourceStalls {P} _.
Arguments cp_block_size {P} _.
Arguments cp_dataArrayBanks {P} _.
Arguments cp_dataAccessLatency {P} _.
Arguments cp_tagArrayBanks {P} _.
Arguments cp_tagAccessLatency {P} _.

Record CacheStats := mkCacheStats {
  numDataArrayReads : Z; numDataArrayWrites : Z; numTagArrayReads : Z; numTagArrayWrites : Z;
  numTagArrayStalls : Z; numDataArrayStalls : Z;
}.
#[export] Instance eta_CacheStats : Eta CacheStats := λ x,
  mkCacheStats (numDataArrayReads x) (numDataArrayWrites x) (numTagArrayReads x) (numTagArrayWrites x)
    (numTagArrayStalls x) (numDataArrayStalls x).

Record CacheMemory (P : Type) := mkCacheMemory {
  cm_m_is_instruction_only_cache : bool;
  cm_m_tag_index : gmap Z Z;
  cm_m_cache : list (list (option ptr));
  cm_policy : P;
  cm_dataArray : BankedArray;
  cm_tagArray : BankedArray;
  cm_m_cache_size : Z;
  cm_m_cache_num_sets : Z;
  cm_m_cache_num_set_bits : Z;
  cm_m_cache_assoc : Z;
  cm_m_start_index_bit : Z;
  cm_m_resource_stalls : bool;
  cm_m_block_size : Z;
  cm_stats : CacheStats;
}.
Arguments mkCacheMemory {P} _ _ _ _ _ _ _ _ _ _ _ _ _ _.
Arguments cm_m_is_instruction_only_cache {P} _.
Arguments cm_m_tag_index {P} _.
Arguments cm_m_cache {P} _.
Arguments cm_policy {P} _.
Arguments cm_dataArray {P} _.
Arguments cm_tagArray {P} _.
Arguments cm_m_cache_size {P} _.
Arguments cm_m_cache_num_sets {P} _.
Arguments cm_m_cache_num_set_bits {P} _.
Arguments cm_m_cache_assoc {P} _.
Arguments cm_m_start_index_bit {P} _.
Arguments cm_m_resource_stalls {P} _.
Arguments cm_m_block_size {P} _.
Arguments cm_stats {P} _.
#[export] Instance eta_CacheMemory {P} : Eta (CacheMemory P) := λ x,
  mkCacheMemory (cm_m_is_instruction_only_cache x) (cm_m_tag_index x) (cm_m_cache x) (cm_policy x)
    (cm_dataArray x) (cm_tagArray x) (cm_m_cache_size x) (cm_m_cache_num_sets x)
    (cm_m_cache_num_set_bits x) (cm_m_cache_assoc x) (cm_m_start_index_bit x)
    (cm_m_resource_stalls x) (cm_m_block_size x) (cm_stats x).

(** A cache with its surroundings: the entries that exist, and the tick. *)
Record CWorld (P : Type) := mkCWorld {
  cw_cache : CacheMemory P;
  cw_entries : gmap ptr AbstractCacheEntry;
  cw_curTick : Z;
}.
Arguments mkCWorld {P} _ _ _.
Arguments cw_cache {P} _.
Arguments cw_entries {P} _.
Arguments cw_curTick {P} _.
#[export] Instance eta_CWorld {P} : Eta (CWorld P) := λ x,
  mkCWorld (cw_cache x) (cw_entries x) (cw_curTick x).

Section CacheMemory.
Context {P : Type} `{RP : ReplacementPolicy P} {BS : BlockSize}.

#[local] Abbreviation C := (M (CWorld P)).
Definition cache {A} (f : CacheMemory P → A) : C A := gets (λ w, f (cw_cache w)).
Definition upd_cache (f : CacheMemory P → CacheMemory P) : C () := modify (λ w, w <| cw_cache ::= f |>).
Definition upd_stat (f : CacheStats → CacheStats) : C () := upd_cache (λ x, x <| cm_stats ::= f |>).

(** Following a pointer to an entry; [None] is the null pointer. *)
Definition get_entry (p : option ptr) (site : string) : C AbstractCacheEntry :=
  h ← gets cw_entries;
  match p ≫= λ p, h !! p with Some e => mret e | None => fail (NullDeref site) end.
Definition upd_entry (p : option ptr) (f : AbstractCacheEntry → AbstractCacheEntry) (site : string) : C () :=
  e ← get_entry p site;
  modify (λ w, w <| cw_entries ::= match p with Some p => <[p := f e]> | None => id end |>).

(** [m_cache[cacheSet][way]]. *)
Definition slot (cacheSet way : Z) (site : string) : C (option ptr) :=
  m ← cache cm_m_cache; lift (cell m cacheSet way site).

(** The calls of the policy. *)
Definition policy_touch (set way : Z) : C () :=
  p ← cache cm_policy;
  t ← gets cw_curTick;
  p' ← lift (touch set way t p);
  upd_cache (λ x, x <| cm_policy := p' |>).

Definition CacheMemory_ctor (p : CacheParams P) (clockPeriod : Z) : outcome (CacheMemory P) :=
  data ← BankedArray_ctor (u32 (cp_dataArrayBanks p)) (cp_dataAccessLatency p)
           (u32 (cp_start_index_bit p)) clockPeriod;
  tag ← BankedArray_ctor (u32 (cp_tagArrayBanks p)) (cp_tagAccessLatency p)
           (u32 (cp_start_index_bit p)) clockPeriod;
  Ok (mkCacheMemory (cp_is_icache p) ∅ [] (cp_replacement_policy p) data tag (s32 (cp_size p)) 0 0
        (cp_assoc p) (cp_start_index_bit p) (cp_resourceStalls p) (s32 (cp_block_size p))
        (mkCacheStats 0 0 0 0 0 0)).

Definition CacheMemory_init (x : CacheMemory P) : outcome (CacheMemory P) :=
  let block_size := if cm_m_block_size x =? 0 then s32 m_block_size_bytes else cm_m_block_size x in
  if (cm_m_cache_assoc x =? 0) || (block_size =? 0) then divide_by_zero else
  let num_sets := Z.quot (Z.quot (cm_m_cache_size x) (cm_m_cache_assoc x)) block_size in
  assertO (1 <? num_sets) "CacheMemory.cc:81" ;;
  bits ← floorLog2 num_sets;
  assertO (0 <? bits) "CacheMemory.cc:83" ;;
  Ok (x <| cm_m_block_size := block_size |> <| cm_m_cache_num_sets := num_sets |>
        <| cm_m_cache_num_set_bits := bits |>
        <| cm_m_cache := grid num_sets (cm_m_cache_assoc x) None |>).

Definition CacheMemory_addressToCacheSet (address : Z) : C Z :=
  assertM (address =? makeLineAddress address) "CacheMemory.cc:104" ;;
  start ← cache cm_m_start_index_bit;
  nbits ← cache cm_m_cache_num_set_bits;
  lift (bitSelect address start (start + nbits - 1)).

(** The way, or -1. *)
Definition CacheMemory_findTagInSet (cacheSet tag : Z) : C Z :=
  assertM (tag =? makeLineAddress tag) "CacheMemory.cc:114" ;;
  idx ← cache cm_m_tag_index;
  match idx !! tag with
  | Some way =>
      s ← slot cacheSet way "CacheMemory.cc:118";
      e ← get_entry s "CacheMemory.cc:118";
      mret (if decide (ce_m_Permission e = NotPresent) then -1 else way)
  | None => mret (-1)
  end.

Definition CacheMemory_findTagInSetIgnorePermissions (cacheSet tag : Z) : C Z :=
  assertM (tag =? makeLineAddress tag) "CacheMemory.cc:130" ;;
  idx ← cache cm_m_tag_index;
  mret (default (-1) (idx !! tag)).

Definition CacheMemory_getAddressAtIdx (idx : Z) : C Z :=
  assoc ← cache cm_m_cache_assoc;
  sets ← cache cm_m_cache_num_sets;
  _ ← (if assoc =? 0 then lift divide_by_zero else mret tt : C ());
  let set := Z.quot idx assoc in
  assertM (set <? sets) "CacheMemory.cc:146" ;;
  let way := idx - set * assoc in
  assertM (way <? assoc) "CacheMemory.cc:149" ;;
  s ← slot set way "CacheMemory.cc:151";
  match s with
  | None => mret 0
  | Some p =>
      e ← get_entry (Some p) "CacheMemory.cc:153";
      mret (if decide (ce_m_Permission e = Invalid ∨ ce_m_Permission e = NotPresent) then 0
            else ce_m_Address e)
  end.

(** The access functions return whether they hit and the data pointer, that is,
    the entry whose block it points to. *)
Definition getDataBlk (e : AbstractCacheEntry) : C () :=
  match ce_DataBlk e with Some _ => mret tt | None => fail (Panic "getDataBlk() not implemented!") end.

Definition CacheMemory_tryCacheAccess (address : Z) (type : RubyRequestType) : C (bool * option ptr) :=
  assertM (address =? makeLineAddress address) "CacheMemory.cc:165" ;;
  cacheSet ← CacheMemory_addressToCacheSet address;
  loc ← CacheMemory_findTagInSet cacheSet address;
  if negb (loc =? -1) then
    p ← slot cacheSet loc "CacheMemory.cc:171";
    policy_touch cacheSet loc ;;
    e ← get_entry p "CacheMemory.cc:173";
    getDataBlk e ;;
    if decide (ce_m_Permission e = Read_Write) then mret (true, p)
    else if decide (ce_m_Permission e = Read_Only ∧ (type = LD ∨ type = IFETCH)) then mret (true, p)
    else mret (false, None)
  else mret (false, None).

Definition CacheMemory_testCacheAccess (address : Z) (type : RubyRequestType) : C (bool * option ptr) :=
  assertM (address =? makeLineAddress address) "CacheMemory.cc:192" ;;
  cacheSet ← CacheMemory_addressToCacheSet address;
  loc ← CacheMemory_findTagInSet cacheSet address;
  if negb (loc =? -1) then
    p ← slot cacheSet loc "CacheMemory.cc:199";
    policy_touch cacheSet loc ;;
    e ← get_entry p "CacheMemory.cc:201";
    getDataBlk e ;;
    mret (negb (bool_decide (ce_m_Permission e = NotPresent)), p)
  else mret (false, None).

Definition CacheMemory_isTagPresent (address : Z) : C bool :=
  assertM (address =? makeLineAddress address) "CacheMemory.cc:215" ;;
  cacheSet ← CacheMemory_addressToCacheSet address;
  loc ← CacheMemory_findTagInSet cacheSet address;
  mret (negb (loc =? -1)).

Definition CacheMemory_cacheAvail (address : Z) : C bool :=
  assertM (address =? makeLineAddress address) "CacheMemory.cc:234" ;;
  cacheSet ← CacheMemory_addressToCacheSet address;
  assoc ← cache cm_m_cache_assoc;
  r ← loop (zrange 0 assoc) tt (λ i _,
        s ← slot cacheSet i "CacheMemory.cc:239";
        match s with
        | Some p =>
            e ← get_entry (Some p) "CacheMemory.cc:241";
            mret (if (ce_m_Address e =? address) || bool_decide (ce_m_Permission e = NotPresent)
                  then inr true else inl tt)
        | None => mret (inr true)
        end);
  mret (match r with inr b => b | inl _ => false end).

(** The assignments of [allocate] to the slot it has found. *)
Definition allocate_at (address cacheSet i : Z) (entry : option ptr) (touch : bool) : C () :=
  upd_cache (λ x, x <| cm_m_cache ::= λ m, set_cell m cacheSet i entry |>) ;;
  upd_entry entry (λ e, e <| ce_m_Address := address |> <| ce_m_Permission := Invalid |>
                          <| ce_m_locked := -1 |>) "CacheMemory.cc:275" ;;
  upd_cache (λ x, x <| cm_m_tag_index ::= <[address := i]> |>) ;;
  upd_entry entry (λ e, e <| ce_m_set_index := u32 cacheSet |> <| ce_m_way_index := u32 i |>)
    "CacheMemory.cc:281" ;;
  if touch then policy_touch cacheSet i else mret tt.

Definition CacheMemory_allocate (address : Z) (entry : option ptr) (touch : bool) : C (option ptr) :=
  assertM (address =? makeLineAddress address) "CacheMemory.cc:256" ;;
  present ← CacheMemory_isTagPresent address;
  assertM (negb present) "CacheMemory.cc:257" ;;
  avail ← CacheMemory_cacheAvail address;
  assertM avail "CacheMemory.cc:258" ;;
  cacheSet ← CacheMemory_addressToCacheSet address;
  assoc ← cache cm_m_cache_assoc;
  r ← loop (zrange 0 assoc) tt (λ i _,
        s ← slot cacheSet i "CacheMemory.cc:265";
        open ← match s with
               | Some p =>
                   e ← get_entry (Some p) "CacheMemory.cc:265";
                   mret (bool_decide (ce_m_Permission e = NotPresent))
               | None => mret true
               end;
        if (open : bool) then allocate_at address cacheSet i entry touch ;; mret (inr entry)
        else mret (inl tt));
  match r with
  | inr p => mret p
  | inl _ => fail (Panic "Allocate didn't find an available entry")
  end.

Definition CacheMemory_deallocate (address : Z) : C () :=
  assertM (address =? makeLineAddress address) "CacheMemory.cc:296" ;;
  present ← CacheMemory_isTagPresent address;
  assertM present "CacheMemory.cc:297" ;;
  cacheSet ← CacheMemory_addressToCacheSet address;
  loc ← CacheMemory_findTagInSet cacheSet address;
  if negb (loc =? -1) then
    s ← slot cacheSet loc "CacheMemory.cc:302";
    modify (λ w, w <| cw_entries ::= match s with Some p => delete p | None => id end |>) ;;
    upd_cache (λ x, x <| cm_m_cache ::= λ m, set_cell m cacheSet loc None |>
                      <| cm_m_tag_index ::= delete address |>)
  else mret tt.

Definition CacheMemory_cacheProbe (address : Z) : C Z :=
  assertM (address =? makeLineAddress address) "CacheMemory.cc:312" ;;
  avail ← CacheMemory_cacheAvail address;
  assertM (negb avail) "CacheMemory.cc:313" ;;
  cacheSet ← CacheMemory_addressToCacheSet address;
  p ← cache cm_policy;
  victim ← lift (getVictim cacheSet p);
  s ← slot cacheSet victim "CacheMemory.cc:316";
  e ← get_entry s "CacheMemory.cc:316";
  mret (ce_m_Address e).

Definition CacheMemory_lookup (address : Z) : C (option ptr) :=
  assertM (address =? makeLineAddress address) "CacheMemory.cc:324" ;;
  cacheSet ← CacheMemory_addressToCacheSet address;
  loc ← CacheMemory_findTagInSet cacheSet address;
  if loc =? -1 then mret None else slot cacheSet loc "CacheMemory.cc:328".

Definition CacheMemory_setMRU (address : Z) : C () :=
  cacheSet ← CacheMemory_addressToCacheSet address;
  loc ← CacheMemory_findTagInSet cacheSet address;
  if negb (loc =? -1) then policy_touch cacheSet loc else mret tt.

Definition CacheMemory_setMRU_entry (e : option ptr) : C () :=
  x ← get_entry e "CacheMemory.cc:356";
  policy_touch (ce_m_set_index x) (ce_m_way_index x).

Definition CacheMemory_setMRU_occupancy (address occupancy : Z) : C () :=
  cacheSet ← CacheMemory_addressToCacheSet address;
  loc ← CacheMemory_findTagInSet cacheSet address;
  if negb (loc =? -1) then
    match touch_occupancy with
    | Some touch_occ =>
        p ← cache cm_policy;
        t ← gets cw_curTick;
        p' ← lift (touch_occ cacheSet loc t occupancy p);
        upd_cache (λ x, x <| cm_policy := p' |>)
    | None => policy_touch cacheSet loc
    end
  else mret tt.

Definition CacheMemory_getReplacementWeight (set loc : Z) : C Z :=
  sets ← cache cm_m_cache_num_sets;
  assertM (set <? sets) "CacheMemory.cc:381" ;;
  assoc ← cache cm_m_cache_assoc;
  assertM (loc <? assoc) "CacheMemory.cc:382" ;;
  s ← slot set loc "CacheMemory.cc:384";
  match s with
  | Some p =>
      e ← get_entry (Some p) "CacheMemory.cc:385";
      assertM (0 <=? ce_validBlocks e) "CacheMemory.cc:386" ;;
      mret (ce_validBlocks e)
  | None => mret 0
  end.

(** The request that makes a block of a permission present again, if any. *)
Definition warmup_request (icache : bool) (perm : AccessPermission) : RubyRequestType :=
  match perm with
  | Read_Only => if icache then IFETCH else LD
  | Read_Write => ST
  | _ => RubyRequestType_NULL
  end.

(** The records that are added to the recorder, in order: address, type, time of
    the last access and data. *)
Definition CacheMemory_recordCacheContents : C (list (Z * RubyRequestType * Z * list Z)) :=
  sets ← cache cm_m_cache_num_sets;
  assoc ← cache cm_m_cache_assoc;
  icache ← cache cm_m_is_instruction_only_cache;
  foldM (zrange 0 sets) [] (λ i out,
    foldM (zrange 0 assoc) out (λ j out,
      s ← slot i j "CacheMemory.cc:401";
      match s with
      | None => mret out
      | Some p =>
          e ← get_entry (Some p) "CacheMemory.cc:402";
          let type := warmup_request icache (ce_m_Permission e) in
          if decide (type = RubyRequestType_NULL) then mret out
          else
            pol ← cache cm_policy;
            t ← lift (AbstractReplacementPolicy_getLastAccess i j (policy_base pol));
            getDataBlk e ;;
            mret (out ++ [(ce_m_Address e, type, t, default [] (ce_DataBlk e))])
      end)).

(** The entry of an address that must be present. *)
Definition locked_slot (address : Z) (site : string) : C (option ptr) :=
  assertM (address =? makeLineAddress address) site ;;
  cacheSet ← CacheMemory_addressToCacheSet address;
  loc ← CacheMemory_findTagInSet cacheSet address;
  assertM (negb (loc =? -1)) site ;;
  slot cacheSet loc site.

Definition CacheMemory_setLocked (address context : Z) : C () :=
  p ← locked_slot address "CacheMemory.cc:459";
  upd_entry p (AbstractCacheEntry_setLocked context) "CacheMemory.cc:463".

Definition CacheMemory_clearLocked (address : Z) : C () :=
  p ← locked_slot address "CacheMemory.cc:470";
  upd_entry p AbstractCacheEntry_clearLocked "CacheMemory.cc:474".

Definition CacheMemory_isLocked (address context : Z) : C bool :=
  p ← locked_slot address "CacheMemory.cc:480";
  e ← get_entry p "CacheMemory.cc:486";
  mret (AbstractCacheEntry_isLocked context e).

(** [dataArray.reserve(...)] and [tagArray.reserve(...)]. *)
Definition reserve_data (addr : Z) : C () :=
  set ← CacheMemory_addressToCacheSet addr;
  a ← cache cm_dataArray;
  t ← gets cw_curTick;
  a' ← lift (BankedArray_reserve set t a);
  upd_cache (λ x, x <| cm_dataArray := a' |>).
Definition reserve_tag (addr : Z) : C () :=
  set ← CacheMemory_addressToCacheSet addr;
  a ← cache cm_tagArray;
  t ← gets cw_curTick;
  a' ← lift (BankedArray_reserve set t a);
  upd_cache (λ x, x <| cm_tagArray := a' |>).

Definition CacheMemory_recordRequestType (requestType : CacheRequestType) (addr : Z) : C () :=
  stalls ← cache cm_m_resource_stalls;
  match requestType with
  | DataArrayRead =>
      (if stalls : bool then reserve_data addr else mret tt) ;;
      upd_stat (λ s, s <| numDataArrayReads ::= Z.succ |>)
  | DataArrayWrite =>
      (if stalls : bool then reserve_data addr else mret tt) ;;
      upd_stat (λ s, s <| numDataArrayWrites ::= Z.succ |>)
  | TagArrayRead =>
      (if stalls : bool then reserve_tag addr else mret tt) ;;
      upd_stat (λ s, s <| numTagArrayReads ::= Z.succ |>)
  | TagArrayWrite =>
      (if stalls : bool then reserve_tag addr else mret tt) ;;
      upd_stat (λ s, s <| numTagArrayWrites ::= Z.succ |>)
  end.

Definition CacheMemory_checkResourceAvailable (res : CacheResourceType) (addr : Z) : C bool :=
  stalls ← cache cm_m_resource_stalls;
  if negb stalls then mret true else
  t ← gets cw_curTick;
  set ← CacheMemory_addressToCacheSet addr;
  match res with
  | TagArray =>
      a ← cache cm_tagArray;
      ok ← lift (BankedArray_tryAccess set t a);
      if (ok : bool) then mret true
      else upd_stat (λ s, s <| numTagArrayStalls ::= Z.succ |>) ;; mret false
  | DataArray =>
      a ← cache cm_dataArray;
      ok ← lift (BankedArray_tryAccess set t a);
      if (ok : bool) then mret true
      else upd_stat (λ s, s <| numDataArrayStalls ::= Z.succ |>) ;; mret false
  end.

Definition CacheMemory_isBlockInvalid (cache_set loc : Z) : C bool :=
  s ← slot cache_set loc "CacheMemory.cc:648";
  e ← get_entry s "CacheMemory.cc:648";
  mret (bool_decide (ce_m_Permission e = Invalid)).

Definition CacheMemory_isBlockNotBusy (cache_set loc : Z) : C bool :=
  s ← slot cache_set loc "CacheMemory.cc:654";
  e ← get_entry s "CacheMemory.cc:654";
  mret (negb (bool_decide (ce_m_Permission e = Busy))).

(** ** The protocol's operations on entries

    A protocol makes an entry with [new] and changes the permission of an entry
    that it looks up. *)
Definition new_entry (e : AbstractCacheEntry) : C ptr :=
  h ← gets cw_entries;
  let p := fresh (dom h) in
  modify (λ w, w <| cw_entries ::= <[p := e]> |>) ;; mret p.
Definition changePermission (p : ptr) (new_perm : AccessPermission) : C () :=
  upd_entry (Some p) (AbstractCacheEntry_changePermission new_perm) "AbstractEntry.cc:48".
End CacheMemory.
