(* ===== verification/TablesModel.v ===== *)
(** * Tables of a controller

    Models src/gem5/src/mem/ruby/structures/TBETable.hh, TimerTable.cc,
    PersistentTable.cc and PerfectCacheMemory.hh: the tables in which a protocol
    controller keeps its transactions, its timers, the persistent requests of the
    token protocol, and an unbounded cache.  An [std::unordered_map] is a finite
    map; an [std::map], whose order of iteration matters, is the list of its
    elements in the order of the keys.

    Not modelled: printing, and of PerfectCacheMemory the const versions of
    [lookup] and [getPermission], which use [operator[]] of a const map and so
    cannot be instantiated. *)

From S2P Require Import Prelude NetDestModel AddrRangeModel AddressModel CacheMemoryModel.

(** ** TBETable

    [m_number_of_TBEs] is an [int] and the size of the map a [size_t], so that
    their difference and the comparisons are those of 64-bit numbers. *)
Record TBETable (ENTRY : Type) := mkTBETable { tbe_m_map : gmap Z ENTRY; tbe_m_number_of_TBEs : Z }.
Arguments mkTBETable {ENTRY} _ _.
Arguments tbe_m_map {ENTRY} _.
Arguments tbe_m_number_of_TBEs {ENTRY} _.
#[export] Instance eta_TBETable {ENTRY} : Eta (TBETable ENTRY) := λ x,
  mkTBETable (tbe_m_map x) (tbe_m_number_of_TBEs x).

Section TBETable.
Context {ENTRY : Type} (ENTRY_ctor : ENTRY) {BS : BlockSize}.
Implicit Types t : TBETable ENTRY.

Definition TBETable_ctor (number_of_TBEs : Z) : TBETable ENTRY := mkTBETable ∅ number_of_TBEs.

Definition tbe_size t : Z := Z.of_nat (size (tbe_m_map t)).

Definition TBETable_isPresent (address : Z) t : outcome bool :=
  assertO (address =? makeLineAddress address) "TBETable.hh:85" ;;
  assertO (tbe_size t <=? u64 (tbe_m_number_of_TBEs t)) "TBETable.hh:86" ;;
  Ok (bool_decide (is_Some (tbe_m_map t !! address))).

Definition TBETable_allocate (address : Z) t : outcome (TBETable ENTRY) :=
  p ← TBETable_isPresent address t;
  assertO (negb p) "TBETable.hh:94" ;;
  assertO (tbe_size t <? u64 (tbe_m_number_of_TBEs t)) "TBETable.hh:95" ;;
  Ok (t <| tbe_m_map ::= <[address := ENTRY_ctor]> |>).

Definition TBETable_deallocate (address : Z) t : outcome (TBETable ENTRY) :=
  p ← TBETable_isPresent address t;
  assertO p "TBETable.hh:103" ;;
  assertO (0 <? tbe_size t) "TBETable.hh:104" ;;
  Ok (t <| tbe_m_map ::= delete address |>).

Definition TBETable_areNSlotsAvailable (n current_time : Z) t : bool :=
  u64 n <=? u64 (tbe_m_number_of_TBEs t - tbe_size t).

Definition TBETable_lookup (address : Z) t : option ENTRY := tbe_m_map t !! address.
End TBETable.

(** ** [std::map] *)
Fixpoint smap_insert {A} (k : Z) (v : A) (l : list (Z * A)) : list (Z * A) :=
  match l with
  | [] => [(k, v)]
  | (k', v') :: l' => if k <? k' then (k, v) :: l else if k =? k' then (k, v) :: l' else (k', v') :: smap_insert k v l'
  end.
Fixpoint smap_find {A} (k : Z) (l : list (Z * A)) : option A :=
  match l with [] => None | (k', v) :: l => if k =? k' then Some v else smap_find k l end.
Definition smap_count {A} (k : Z) (l : list (Z * A)) : bool := bool_decide (is_Some (smap_find k l)).
Definition smap_erase {A} (k : Z) (l : list (Z * A)) : list (Z * A) := filter (λ x, x.1 ≠ k) l.

(** ** TimerTable

    The members that cache the next timer are mutable, so that the const
    functions change them too.  [ti_scheduled] are the ticks at which the
    consumer has been scheduled, the latest first. *)
Record TimerTable := mkTimerTable {
  ti_m_map : list (Z * Z);
  ti_m_next_valid : bool;
  ti_m_next_time : Z;
  ti_m_next_address : Z;
  ti_m_consumer_ptr : option nat;
  ti_m_name : string;
  ti_scheduled : list Z;
}.
#[export] Instance eta_TimerTable : Eta TimerTable := λ x,
  mkTimerTable (ti_m_map x) (ti_m_next_valid x) (ti_m_next_time x) (ti_m_next_address x)
    (ti_m_consumer_ptr x) (ti_m_name x) (ti_scheduled x).

Section TimerTable.
Context {BS : BlockSize}.
#[local] Abbreviation T := (M TimerTable).

Definition TimerTable_ctor : TimerTable := mkTimerTable [] false 0 0 None "" [].

Definition TimerTable_setConsumer (consumer_ptr : option nat) : T () :=
  c ← gets ti_m_consumer_ptr;
  assertM (bool_decide (c = None)) "TimerTable.hh:48" ;;
  modify (λ x, x <| ti_m_consumer_ptr := consumer_ptr |>).

Definition TimerTable_setDescription (name : string) : T () :=
  modify (λ x, x <| ti_m_name := name |>).

(** The loop of [updateNext] over the elements after the first. *)
Definition next_timer (first : Z * Z) (rest : list (Z * Z)) : Z * Z :=
  foldl (λ next i, if i.2 <? next.2 then i else next) first rest.

Definition TimerTable_updateNext : T () :=
  m ← gets ti_m_map;
  match m with
  | [] => valid ← gets ti_m_next_valid; assertM (negb valid) "TimerTable.cc:103"
  | first :: rest =>
      let next := next_timer first rest in
      modify (λ x, x <| ti_m_next_address := next.1 |> <| ti_m_next_time := next.2 |>
                     <| ti_m_next_valid := true |>)
  end.

(** [if (!m_next_valid) updateNext(); assert(m_next_valid);] *)
Definition TimerTable_refresh (site : string) : T () :=
  valid ← gets ti_m_next_valid;
  (if negb valid then TimerTable_updateNext else mret tt) ;;
  valid ← gets ti_m_next_valid;
  assertM valid site.

Definition TimerTable_isReady (curTime : Z) : T bool :=
  m ← gets ti_m_map;
  match m with
  | [] => mret false
  | _ =>
      TimerTable_refresh "TimerTable.cc:50" ;;
      t ← gets ti_m_next_time;
      mret (t <=? curTime)
  end.

Definition TimerTable_nextAddress : T Z :=
  TimerTable_refresh "TimerTable.cc:60" ;;
  gets ti_m_next_address.

Definition TimerTable_isSet (address : Z) : T bool := gets (λ x, smap_count address (ti_m_map x)).

Definition TimerTable_set (address ready_time : Z) : T () :=
  assertM (address =? makeLineAddress address) "TimerTable.cc:67" ;;
  m ← gets ti_m_map;
  assertM (negb (smap_count address m)) "TimerTable.cc:68" ;;
  modify (λ x, x <| ti_m_map ::= smap_insert address ready_time |>) ;;
  c ← gets ti_m_consumer_ptr;
  assertM (negb (bool_decide (c = None))) "TimerTable.cc:71" ;;
  modify (λ x, x <| ti_scheduled ::= cons ready_time |> <| ti_m_next_valid := false |>) ;;
  modify (λ x, if ready_time <=? ti_m_next_time x then x <| ti_m_next_valid := false |> else x).

Definition TimerTable_unset (address : Z) : T () :=
  assertM (address =? makeLineAddress address) "TimerTable.cc:84" ;;
  m ← gets ti_m_map;
  assertM (smap_count address m) "TimerTable.cc:85" ;;
  modify (λ x, x <| ti_m_map ::= smap_erase address |>) ;;
  modify (λ x, if address =? ti_m_next_address x then x <| ti_m_next_valid := false |> else x).
End TimerTable.

(** ** PersistentTable *)
Inductive AccessType := AccessType_Read | AccessType_Write.

Record PersistentTableEntry := mkPersistentTableEntry {
  pe_m_starving : NetDest;
  pe_m_marked : NetDest;
  pe_m_request_to_write : NetDest;
}.
#[export] Instance eta_PersistentTableEntry : Eta PersistentTableEntry := λ x,
  mkPersistentTableEntry (pe_m_starving x) (pe_m_marked x) (pe_m_request_to_write x).

Section PersistentTable.
Context `{MT : MachineTypes} {BS : BlockSize}.
#[local] Abbreviation T := (M (gmap Z PersistentTableEntry)).

Definition PersistentTableEntry_ctor : outcome PersistentTableEntry :=
  s ← NetDest_resize; m ← NetDest_resize; r ← NetDest_resize; Ok (mkPersistentTableEntry s m r).

(** [isSubset] of NetDest.hh. *)
Definition NetDest_isSubset (test d : NetDest) : outcome bool := NetDest_isSuperset d test.

Definition PersistentTable_persistentRequestLock (address : Z) (locker : MachineID) (type : AccessType) : T () :=
  assertM (address =? makeLineAddress address) "PersistentTable.cc:47" ;;
  m ← gets id;
  let present := bool_decide (is_Some (m !! address)) in
  entry ← lift (match m !! address with Some e => Ok e | None => PersistentTableEntry_ctor end);
  (if present then
     b ← lift (NetDest_isElement locker (pe_m_starving entry));
     assertM (negb b) "PersistentTable.cc:58"
   else mret tt) ;;
  starving ← lift (NetDest_add locker (pe_m_starving entry));
  write ← lift (match type with
                | AccessType_Write => NetDest_add locker (pe_m_request_to_write entry)
                | AccessType_Read => Ok (pe_m_request_to_write entry)
                end);
  let entry := entry <| pe_m_starving := starving |> <| pe_m_request_to_write := write |> in
  modify <[address := entry]> ;;
  if present then
    b ← lift (NetDest_isSubset (pe_m_starving entry) (pe_m_marked entry));
    assertM b "PersistentTable.cc:66"
  else mret tt.

Definition PersistentTable_persistentRequestUnlock (address : Z) (unlocker : MachineID) : T () :=
  assertM (address =? makeLineAddress address) "PersistentTable.cc:73" ;;
  m ← gets id;
  match m !! address with
  | None => fail (AssertFail "PersistentTable.cc:74")
  | Some entry =>
      b ← lift (NetDest_isElement unlocker (pe_m_starving entry));
      assertM b "PersistentTable.cc:80" ;;
      b ← lift (NetDest_isSubset (pe_m_starving entry) (pe_m_marked entry));
      assertM b "PersistentTable.cc:81" ;;
      starving ← lift (NetDest_remove unlocker (pe_m_starving entry));
      marked ← lift (NetDest_remove unlocker (pe_m_marked entry));
      write ← lift (NetDest_remove unlocker (pe_m_request_to_write entry));
      b ← lift (NetDest_isSubset starving marked);
      assertM b "PersistentTable.cc:85" ;;
      if NetDest_isEmpty starving then
        assertM (NetDest_isEmpty marked) "PersistentTable.cc:89" ;;
        modify (delete address)
      else modify <[address := mkPersistentTableEntry starving marked write]>
  end.

Definition PersistentTable_okToIssueStarving (address : Z) (machId : MachineID) : T bool :=
  assertM (address =? makeLineAddress address) "PersistentTable.cc:98" ;;
  m ← gets id;
  match m !! address with
  | None => mret true
  | Some entry =>
      b ← lift (NetDest_isElement machId (pe_m_starving entry));
      mret (if (b : bool) then false else NetDest_isEmpty (pe_m_marked entry))
  end.

Definition PersistentTable_findSmallest (address : Z) : T MachineID :=
  assertM (address =? makeLineAddress address) "PersistentTable.cc:120" ;;
  m ← gets id;
  match m !! address with
  | None => fail (AssertFail "PersistentTable.cc:122")
  | Some entry => lift (NetDest_smallestElement (pe_m_starving entry))
  end.

Definition PersistentTable_typeOfSmallest (address : Z) : T AccessType :=
  assertM (address =? makeLineAddress address) "PersistentTable.cc:130" ;;
  m ← gets id;
  match m !! address with
  | None => fail (AssertFail "PersistentTable.cc:132")
  | Some entry =>
      s ← lift (NetDest_smallestElement (pe_m_starving entry));
      b ← lift (NetDest_isElement s (pe_m_request_to_write entry));
      mret (if (b : bool) then AccessType_Write else AccessType_Read)
  end.

Definition PersistentTable_markEntries (address : Z) : T () :=
  assertM (address =? makeLineAddress address) "PersistentTable.cc:145" ;;
  m ← gets id;
  match m !! address with
  | None => mret tt
  | Some entry =>
      assertM (NetDest_isEmpty (pe_m_marked entry)) "PersistentTable.cc:153" ;;
      modify <[address := entry <| pe_m_marked := pe_m_starving entry |>]>
  end.

Definition PersistentTable_isLocked (address : Z) : T bool :=
  assertM (address =? makeLineAddress address) "PersistentTable.cc:162" ;;
  m ← gets id;
  mret (bool_decide (is_Some (m !! address))).

Definition PersistentTable_countStarvingForAddress (address : Z) : T Z :=
  assertM (address =? makeLineAddress address) "PersistentTable.cc:171" ;;
  m ← gets id;
  mret (match m !! address with None => 0 | Some entry => NetDest_count (pe_m_starving entry) end).

Definition PersistentTable_countReadStarvingForAddress (address : Z) : T Z :=
  assertM (address =? makeLineAddress address) "PersistentTable.cc:183" ;;
  m ← gets id;
  mret (match m !! address with
        | None => 0
        | Some entry => NetDest_count (pe_m_starving entry) - NetDest_count (pe_m_request_to_write entry)
        end).
End PersistentTable.

(** ** PerfectCacheMemory

    [operator[]] of the map inserts a default line, whose permission is
    [AccessPermission_NUM] (here [None]), when the address is absent. *)
Record PerfectCacheLineState (ENTRY : Type) := mkPerfectLine {
  pc_m_permission : option AccessPermission;
  pc_m_entry : ENTRY;
}.
Arguments mkPerfectLine {ENTRY} _ _.
Arguments pc_m_permission {ENTRY} _.
Arguments pc_m_entry {ENTRY} _.

Section PerfectCacheMemory.
Context {ENTRY : Type} (ENTRY_ctor : ENTRY) {BS : BlockSize}.
#[local] Abbreviation T := (M (gmap Z (PerfectCacheLineState ENTRY))).

Definition perfect_line (address : Z) : T (PerfectCacheLineState ENTRY) :=
  m ← gets id;
  match m !! makeLineAddress address with
  | Some l => mret l
  | None =>
      let l := mkPerfectLine None ENTRY_ctor in
      modify <[makeLineAddress address := l]> ;; mret l
  end.

Definition PerfectCacheMemory_isTagPresent (address : Z) : T bool :=
  gets (λ m, bool_decide (is_Some (m !! makeLineAddress address))).
Definition PerfectCacheMemory_cacheAvail (address : Z) : T bool := mret true.
Definition PerfectCacheMemory_allocate (address : Z) : T () :=
  modify <[makeLineAddress address := mkPerfectLine (Some Invalid) ENTRY_ctor]>.
Definition PerfectCacheMemory_deallocate (address : Z) : T () := modify (delete (makeLineAddress address)).
Definition PerfectCacheMemory_cacheProbe (newAddress : Z) : T Z :=
  fail (Panic "cacheProbe called in perfect cache").
Definition PerfectCacheMemory_lookup (address : Z) : T ENTRY :=
  l ← perfect_line address; mret (pc_m_entry l).
Definition PerfectCacheMemory_changePermission (address : Z) (new_perm : AccessPermission) : T () :=
  l ← perfect_line address;
  modify <[makeLineAddress address := mkPerfectLine (Some new_perm) (pc_m_entry l)]>.
End PerfectCacheMemory.
