(* ===== verification/DataBlockModel.v ===== *)
(** * Data of a cache line

    Models src/gem5/src/mem/ruby/common/DataBlock.hh, DataBlock.cc, WriteMask.hh
    and SubBlock.hh, SubBlock.cc: the bytes of a line, the mask of the bytes that
    have been written, and the piece of a line that a tester keeps.  A byte is a
    number; an [AtomicOpFunctor] is a function on the bytes from its offset on.

    Not modelled: printing, and who owns the bytes ([m_alloc], [assign]), which
    matters for deletion only. *)

From S2P Require Import Prelude NetDestModel AddrRangeModel AddressModel.

(** ** Bytes *)

(** [memcpy] of [len] bytes of [src] over [dst] from [offset] on. *)
Definition memcpy (dst : list Z) (offset : Z) (src : list Z) (len : Z) (site : string) : outcome (list Z) :=
  inrangeO ((0 <=? offset) && (0 <=? len) && (len <=? vsize src) && (offset + len <=? vsize dst)) site ;;
  Ok (take (Z.to_nat offset) dst ++ take (Z.to_nat len) src ++ drop (Z.to_nat (offset + len)) dst).

(** ** DataBlock *)
Section DataBlock.
Context {BS : BlockSize}.

Definition DataBlock_clear : list Z := replicate (Z.to_nat m_block_size_bytes) 0.
Definition DataBlock_equal (obj b : list Z) : bool := bool_decide (b = obj).
Definition DataBlock_getByte (whichByte : Z) (b : list Z) : outcome Z := vgetO b whichByte "DataBlock.hh:92".
Definition DataBlock_setByte (whichByte data : Z) (b : list Z) : outcome (list Z) :=
  inrangeO ((0 <=? whichByte) && (whichByte <? vsize b)) "DataBlock.hh:98" ;; Ok (vset b whichByte data).

(** The sum of two [int]s is compared with an unsigned number. *)
Definition fits_block (offset len : Z) (site : string) : outcome () :=
  assertO (u32 (offset + len) <=? m_block_size_bytes) site.

(** The bytes from [offset] on, to which the pointer leads. *)
Definition DataBlock_getData (offset len : Z) (b : list Z) : outcome (list Z) :=
  fits_block offset len "DataBlock.cc:97" ;; Ok (drop (Z.to_nat offset) b).
Definition DataBlock_setData (data : list Z) (offset len : Z) (b : list Z) : outcome (list Z) :=
  fits_block offset len "DataBlock.cc:110" ;; memcpy b offset data len "DataBlock.cc:111".
Definition DataBlock_copyPartial (dblk : list Z) (offset len : Z) (b : list Z) : outcome (list Z) :=
  DataBlock_setData (drop (Z.to_nat offset) dblk) offset len b.
End DataBlock.

(** ** WriteMask *)
Record WriteMask := mkWriteMask {
  wm_mSize : Z;
  wm_mMask : list bool;
  wm_mAtomic : bool;
  wm_mAtomicOp : list (Z * (list Z → list Z));
}.
#[export] Instance eta_WriteMask : Eta WriteMask := λ x,
  mkWriteMask (wm_mSize x) (wm_mMask x) (wm_mAtomic x) (wm_mAtomicOp x).

Definition WriteMask_ctor (size : Z) : WriteMask := mkWriteMask size (replicate (Z.to_nat size) false) false [].
Definition WriteMask_ctor_mask (size : Z) (mask : list bool) : WriteMask := mkWriteMask size mask false [].
Definition WriteMask_ctor_atomic (size : Z) (mask : list bool) (atomicOp : list (Z * (list Z → list Z))) : WriteMask :=
  mkWriteMask size mask true atomicOp.

Definition WriteMask_clear (x : WriteMask) : WriteMask :=
  x <| wm_mMask := replicate (Z.to_nat (wm_mSize x)) false |>.

Definition WriteMask_test (offset : Z) (x : WriteMask) : outcome bool :=
  assertO (offset <? wm_mSize x) "WriteMask.hh:73" ;; vgetO (wm_mMask x) offset "WriteMask.hh:74".

(** The bits from [lo] below [hi] are set. *)
Definition set_bits_between (lo hi : Z) (m : list bool) (site : string) : outcome (list bool) :=
  foldl (λ acc i, m ← acc; inrangeO ((0 <=? i) && (i <? vsize m)) site ;; Ok (vset m i true)) (Ok m) (zrange lo hi).

Definition WriteMask_setMask (offset len : Z) (x : WriteMask) : outcome WriteMask :=
  assertO (offset + len <=? wm_mSize x) "WriteMask.hh:80" ;;
  m ← set_bits_between offset (offset + len) (wm_mMask x) "WriteMask.hh:82";
  Ok (x <| wm_mMask := m |>).

Definition WriteMask_fillMask (x : WriteMask) : outcome WriteMask :=
  m ← set_bits_between 0 (wm_mSize x) (wm_mMask x) "WriteMask.hh:89";
  Ok (x <| wm_mMask := m |>).

(** A loop over the bits of an index range that accumulates a boolean. *)
Definition fold_mask (f : bool → Z → outcome bool) (tmp : bool) (lo hi : Z) : outcome bool :=
  foldl (λ acc i, tmp ← acc; f tmp i) (Ok tmp) (zrange lo hi).

Definition WriteMask_getMask (offset len : Z) (x : WriteMask) : outcome bool :=
  assertO (offset + len <=? wm_mSize x) "WriteMask.hh:97" ;;
  fold_mask (λ tmp i, b ← vgetO (wm_mMask x) i "WriteMask.hh:99"; Ok (tmp && b)) true offset (offset + len).

Definition WriteMask_isOverlap (readMask x : WriteMask) : outcome bool :=
  assertO (wm_mSize x =? wm_mSize readMask) "WriteMask.hh:108" ;;
  fold_mask (λ tmp i,
    r ← vgetO (wm_mMask readMask) i "WriteMask.hh:110";
    if (r : bool) then b ← vgetO (wm_mMask x) i "WriteMask.hh:111"; Ok (tmp || b) else Ok tmp)
    false 0 (wm_mSize x).

Definition WriteMask_cmpMask (readMask x : WriteMask) : outcome bool :=
  assertO (wm_mSize x =? wm_mSize readMask) "WriteMask.hh:121" ;;
  fold_mask (λ tmp i,
    r ← vgetO (wm_mMask readMask) i "WriteMask.hh:123";
    if (r : bool) then b ← vgetO (wm_mMask x) i "WriteMask.hh:124"; Ok (tmp && b) else Ok tmp)
    true 0 (wm_mSize x).

Definition WriteMask_isEmpty (x : WriteMask) : outcome bool :=
  r ← find_first (λ i, vgetO (wm_mMask x) i "WriteMask.hh:133") (zrange 0 (wm_mSize x));
  Ok (bool_decide (r = None)).

Definition WriteMask_isFull (x : WriteMask) : outcome bool :=
  r ← find_first (λ i, b ← vgetO (wm_mMask x) i "WriteMask.hh:144"; Ok (negb b)) (zrange 0 (wm_mSize x));
  Ok (bool_decide (r = None)).

Definition WriteMask_orMask (writeMask x : WriteMask) : outcome WriteMask :=
  assertO (wm_mSize x =? wm_mSize writeMask) "WriteMask.hh:154" ;;
  m ← foldl (λ acc i, m ← acc;
              a ← vgetO m i "WriteMask.hh:156";
              b ← vgetO (wm_mMask writeMask) i "WriteMask.hh:156";
              Ok (vset m i (a || b))) (Ok (wm_mMask x)) (zrange 0 (wm_mSize x));
  let x := x <| wm_mMask := m |> in
  Ok (if wm_mAtomic writeMask then x <| wm_mAtomic := true |> <| wm_mAtomicOp := wm_mAtomicOp writeMask |> else x).

(** Each functor changes the bytes from its offset on. *)
Definition WriteMask_performAtomic (x : WriteMask) (p : list Z) : outcome (list Z) :=
  foldl (λ acc (op : Z * (list Z → list Z)), p ← acc;
    inrangeO ((0 <=? op.1) && (op.1 <? vsize p)) "WriteMask.hh:173" ;;
    Ok (take (Z.to_nat op.1) p ++ op.2 (drop (Z.to_nat op.1) p))) (Ok p) (wm_mAtomicOp x).

(** ** The operations of [DataBlock] that use a mask *)
Section Masked.
Context {BS : BlockSize}.

Definition DataBlock_copyPartial_mask (dblk : list Z) (mask : WriteMask) (b : list Z) : outcome (list Z) :=
  foldl (λ acc i, b ← acc;
    m ← WriteMask_getMask i 1 mask;
    if (m : bool) then x ← DataBlock_getByte i dblk; DataBlock_setByte i x b else Ok b)
    (Ok b) (zrange 0 m_block_size_bytes).

Definition DataBlock_atomicPartial (dblk : list Z) (mask : WriteMask) (b : list Z) : outcome (list Z) :=
  b ← foldl (λ acc i, b ← acc; x ← DataBlock_getByte i dblk; DataBlock_setByte i x b)
        (Ok b) (zrange 0 m_block_size_bytes);
  WriteMask_performAtomic mask b.
End Masked.

(** ** SubBlock *)
Record SubBlock := mkSubBlock { sb_m_address : Z; sb_m_data : list Z }.
#[export] Instance eta_SubBlock : Eta SubBlock := λ x, mkSubBlock (sb_m_address x) (sb_m_data x).

Section SubBlock.
Context {BS : BlockSize}.
Definition SubBlock_ctor (addr size : Z) : SubBlock := mkSubBlock addr (replicate (Z.to_nat size) 0).
Definition SubBlock_getSize (x : SubBlock) : Z := vsize (sb_m_data x).

Definition SubBlock_mergeFrom (data : list Z) (x : SubBlock) : outcome SubBlock :=
  assertO (0 <? SubBlock_getSize x) "SubBlock.cc:48" ;;
  offset ← Address_getOffset (sb_m_address x);
  foldl (λ acc i, x ← acc;
    b ← DataBlock_getByte (offset + i) data;
    Ok (x <| sb_m_data ::= λ l, vset l i b |>)) (Ok x) (zrange 0 (SubBlock_getSize x)).

Definition SubBlock_mergeTo (data : list Z) (x : SubBlock) : outcome (list Z) :=
  assertO (0 <? SubBlock_getSize x) "SubBlock.cc:59" ;;
  offset ← Address_getOffset (sb_m_address x);
  foldl (λ acc i, data ← acc;
    b ← vgetO (sb_m_data x) i "SubBlock.hh:50";
    DataBlock_setByte (offset + i) b data) (Ok data) (zrange 0 (SubBlock_getSize x)).
End SubBlock.
