(* ===== verification/SequencerModel.v ===== *)
(** * The sequencer

    Models src/gem5/src/mem/ruby/system/Sequencer.hh, Sequencer.cc: the port by
    which a processor uses the memory system.  It keeps at most one request per
    line, puts requests into the queue of the first-level controller, carries the
    data of the answers to the packets, implements load-linked and
    store-conditional with the locks of the cache lines, and watches for requests
    that wait too long (this repository has it print the state of the network).
    Of RubyPort.cc the members that the sequencer's state depends on are modelled,
    of AbstractController.cc the lines blocked by locked instructions.

    A packet is shared by pointer between processor, request and answer; of its
    command and flags the model has the attributes that the sequencer asks for.
    What the sequencer does to the objects around it is the list [sw_trace] of
    its calls, the latest last: the mandatory queue, the processor's side of the
    port, the cache recorder, the warnings.  The requests of a table are visited
    in an unspecified order.

    Not modelled: printing, [regStats], [checkCoherence], which is empty unless a
    macro is defined, and the getters of the statistics. *)

From S2P Require Import Prelude NetDestModel AddrRangeModel CommonTypes AddressModel ReplacementModel CacheMemoryModel DataBlockModel.

(** ** Packets *)
Record RubyPacket := mkRubyPacket {
  rp_addr : Z;
  rp_size : Z;
  rp_data : list Z;
  rp_isRead : bool;
  rp_isWrite : bool;
  rp_isFlush : bool;
  rp_isLLSC : bool;
  rp_isLockedRMW : bool;
  rp_isSwap : bool;
  rp_isInstFetch : bool;
  rp_flags : Z;
  rp_pc : option Z;
  rp_extraData : option Z;
  rp_subBlock : option SubBlock;
}.
#[export] Instance eta_RubyPacket : Eta RubyPacket := λ x,
  mkRubyPacket (rp_addr x) (rp_size x) (rp_data x) (rp_isRead x) (rp_isWrite x) (rp_isFlush x) (rp_isLLSC x)
    (rp_isLockedRMW x) (rp_isSwap x) (rp_isInstFetch x) (rp_flags x) (rp_pc x) (rp_extraData x) (rp_subBlock x).

Inductive RequestStatus :=
  | RequestStatus_Ready | RequestStatus_Issued | RequestStatus_BufferFull | RequestStatus_Aliased | RequestStatus_NULL.
#[export] Instance RequestStatus_eq_dec : EqDecision RequestStatus.
Proof. solve_decision. Defined.

Inductive DrainState := Running | Draining | Drained | Resuming.
#[export] Instance DrainState_eq_dec : EqDecision DrainState.
Proof. solve_decision. Defined.

Record SequencerRequest := mkSequencerRequest { sr_pkt : nat; sr_m_type : RubyRequestType; sr_issue_time : Z }.

(** The message for the controller. *)
Record RubyRequest := mkRubyRequest {
  rr_curTime : Z;
  rr_m_PhysicalAddress : Z;
  rr_m_LineAddress : Z;
  rr_data : option nat;
  rr_m_Size : Z;
  rr_m_ProgramCounter : Z;
  rr_m_Type : RubyRequestType;
  rr_m_pkt : nat;
  rr_m_contextId : Z;
}.

(** ** Statistics *)
Inductive histogram :=
  | H_outstandReq | H_latency | H_typeLatency (t : RubyRequestType)
  | H_hitLatency | H_hitTypeLatency (t : RubyRequestType) | H_hitMachLatency (m : Z)
  | H_hitTypeMachLatency (t : RubyRequestType) (m : Z)
  | H_missLatency | H_missTypeLatency (t : RubyRequestType) | H_missMachLatency (m : Z)
  | H_missTypeMachLatency (t : RubyRequestType) (m : Z)
  | H_IssueToInitialDelay (m : Z) | H_InitialToForwardDelay (m : Z)
  | H_ForwardToFirstResponseDelay (m : Z) | H_FirstResponseToCompletionDelay (m : Z).
#[export] Instance histogram_eq_dec : EqDecision histogram.
Proof. solve_decision. Defined.

(** ** State *)
Record Sequencer := mkSequencer {
  sq_m_version : Z;
  sq_m_max_outstanding_requests : Z;
  sq_m_deadlock_threshold : Z;
  sq_m_data_cache_hit_latency : Z;
  sq_m_inst_cache_hit_latency : Z;
  sq_m_coreId : Z;
  sq_m_runningGarnetStandalone : bool;
  sq_m_usingRubyTester : bool;
  sq_m_mandatory_q_ptr : option nat;
  sq_m_writeRequestTable : gmap Z SequencerRequest;
  sq_m_readRequestTable : gmap Z SequencerRequest;
  sq_m_outstanding_count : Z;
  sq_deadlockCheckEvent : option Z;
  sq_m_store_waiting_on_load : Z;
  sq_m_store_waiting_on_store : Z;
  sq_m_load_waiting_on_store : Z;
  sq_m_load_waiting_on_load : Z;
  sq_samples : list (histogram * Z);
  sq_m_IncompleteTimes : list Z;
}.
#[export] Instance eta_Sequencer : Eta Sequencer := λ x,
  mkSequencer (sq_m_version x) (sq_m_max_outstanding_requests x) (sq_m_deadlock_threshold x)
    (sq_m_data_cache_hit_latency x) (sq_m_inst_cache_hit_latency x) (sq_m_coreId x)
    (sq_m_runningGarnetStandalone x) (sq_m_usingRubyTester x) (sq_m_mandatory_q_ptr x)
    (sq_m_writeRequestTable x) (sq_m_readRequestTable x) (sq_m_outstanding_count x)
    (sq_deadlockCheckEvent x) (sq_m_store_waiting_on_load x) (sq_m_store_waiting_on_store x)
    (sq_m_load_waiting_on_store x) (sq_m_load_waiting_on_load x) (sq_samples x) (sq_m_IncompleteTimes x).

(** Calls of other objects. *)
Inductive seq_event :=
  | EvEnqueue (msg : RubyRequest) (current_time delta : Z)
  | EvHitCallback (pkt : nat)
  | EvDrainDone
  | EvNextFetchRequest
  | EvNextFlushRequest
  | EvScanNetwork
  | EvWarnDeadlock (addr : Z)
  | EvEviction (address : Z).

(** The sequencer with its data cache, its controller's blocked lines, the packets
    and the clock: [sw_clockEdge] is the tick of the current cycle's edge. *)
Record SWorld (P : Type) := mkSWorld {
  sw_seq : Sequencer;
  sw_dcache : CWorld P;
  sw_m_is_blocking : bool;
  sw_m_block_map : gmap Z (option nat);
  sw_pkts : gmap nat RubyPacket;
  sw_trace : list seq_event;
  sw_curCycle : Z;
  sw_clockEdge : Z;
  sw_clockPeriod : Z;
  sw_drainState : DrainState;
  sw_warmup : bool;
  sw_cooldown : bool;
  sw_X86ISA : bool;
  sw_gnet : bool;
}.
Arguments mkSWorld {P} _ _ _ _ _ _ _ _ _ _ _ _ _ _.
Arguments sw_seq {P} _.
Arguments sw_dcache {P} _.
Arguments sw_m_is_blocking {P} _.
Arguments sw_m_block_map {P} _.
Arguments sw_pkts {P} _.
Arguments sw_trace {P} _.
Arguments sw_curCycle {P} _.
Arguments sw_clockEdge {P} _.
Arguments sw_clockPeriod {P} _.
Arguments sw_drainState {P} _.
Arguments sw_warmup {P} _.
Arguments sw_cooldown {P} _.
Arguments sw_X86ISA {P} _.
Arguments sw_gnet {P} _.
#[export] Instance eta_SWorld {P} : Eta (SWorld P) := λ x,
  mkSWorld (sw_seq x) (sw_dcache x) (sw_m_is_blocking x) (sw_m_block_map x) (sw_pkts x) (sw_trace x)
    (sw_curCycle x) (sw_clockEdge x) (sw_clockPeriod x) (sw_drainState x) (sw_warmup x) (sw_cooldown x)
    (sw_X86ISA x) (sw_gnet x).

Section Sequencer.
Context `{MT : MachineTypes} {BS : BlockSize} {P : Type} `{RP : ReplacementPolicy P}.
#[local] Abbreviation Q := (M (SWorld P)).

Definition sqget {A} (f : Sequencer → A) : Q A := gets (λ w, f (sw_seq w)).
Definition upd_seq (f : Sequencer → Sequencer) : Q () := modify (λ w, w <| sw_seq ::= f |>).
Definition emit (e : seq_event) : Q () := modify (λ w, w <| sw_trace ::= λ l, l ++ [e] |>).
Definition sample (h : histogram) (v : Z) : Q () := upd_seq (λ x, x <| sq_samples ::= cons (h, v) |>).
Definition get_pkt (p : nat) : Q RubyPacket :=
  m ← gets sw_pkts; match m !! p with Some k => mret k | None => fail (NullDeref "pkt") end.
Definition upd_pkt (p : nat) (f : RubyPacket → RubyPacket) : Q () := modify (λ w, w <| sw_pkts ::= alter f p |>).

(** A call of the data cache. *)
Definition in_dcache {A} (m : M (CWorld P) A) : Q A := λ w,
  match m (sw_dcache w) with Ok (a, c) => Ok (a, w <| sw_dcache := c |>) | Abort e => Abort e end.

(** [clockEdge(cycles)]. *)
Definition edge_after (cycles : Z) : Q Z := gets (λ w, sw_clockEdge w + cycles * sw_clockPeriod w).

(** ** AbstractController.cc *)
Definition AbstractController_blockOnQueue (addr : Z) (port : option nat) : Q () :=
  modify (λ w, w <| sw_m_is_blocking := true |> <| sw_m_block_map ::= <[addr := port]> |>).
Definition AbstractController_unblock (addr : Z) : Q () :=
  modify (λ w, w <| sw_m_block_map ::= delete addr |>) ;;
  modify (λ w, if decide (size (sw_m_block_map w) = 0%nat) then w <| sw_m_is_blocking := false |> else w).
Definition AbstractController_isBlocked (addr : Z) : Q bool :=
  gets (λ w, bool_decide (is_Some (sw_m_block_map w !! addr))).

(** ** Construction *)
Record SequencerParams := mkSequencerParams {
  sp_version : Z; sp_icache : bool; sp_dcache : bool; sp_dcache_hit_latency : Z; sp_icache_hit_latency : Z;
  sp_max_outstanding_requests : Z; sp_deadlock_threshold : Z; sp_coreid : Z; sp_garnet_standalone : bool;
  sp_using_ruby_tester : bool;
}.

Definition Sequencer_ctor (p : SequencerParams) : outcome Sequencer :=
  assertO (0 <? sp_max_outstanding_requests p) "Sequencer.cc:71" ;;
  assertO (0 <? sp_deadlock_threshold p) "Sequencer.cc:72" ;;
  assertO (sp_icache p) "Sequencer.cc:73" ;;
  assertO (sp_dcache p) "Sequencer.cc:74" ;;
  assertO (0 <? sp_dcache_hit_latency p) "Sequencer.cc:75" ;;
  assertO (0 <? sp_icache_hit_latency p) "Sequencer.cc:76" ;;
  Ok (mkSequencer (sp_version p) (sp_max_outstanding_requests p) (sp_deadlock_threshold p)
        (sp_dcache_hit_latency p) (sp_icache_hit_latency p) (sp_coreid p) (sp_garnet_standalone p)
        (sp_using_ruby_tester p) None ∅ ∅ 0 None 0 0 0 0 [] (replicate (Z.to_nat MachineType_NUM) 0)).

(** ** The watch for deadlock *)

(** The loop over one table: for a request that has waited for the threshold the
    state of the network is printed, through a pointer that only a Garnet network
    sets, and a warning given. *)
Definition warn_overdue (table : gmap Z SequencerRequest) : Q () :=
  now ← gets sw_curCycle;
  threshold ← sqget sq_m_deadlock_threshold;
  for_each (map_to_list table) (λ '(_, r),
    waited ← lift (cycles_sub now (sr_issue_time r));
    if waited <? threshold then mret tt
    else
      gnet ← gets sw_gnet;
      (if (gnet : bool) then emit EvScanNetwork else fail (NullDeref "Sequencer::gnet")) ;;
      k ← get_pkt (sr_pkt r);
      emit (EvWarnDeadlock (rp_addr k))).

Definition schedule_check : Q () :=
  threshold ← sqget sq_m_deadlock_threshold;
  t ← edge_after threshold;
  upd_seq (λ x, x <| sq_deadlockCheckEvent := Some t |>).

Definition table_sizes (x : Sequencer) : Z :=
  Z.of_nat (size (sq_m_writeRequestTable x)) + Z.of_nat (size (sq_m_readRequestTable x)).

Definition Sequencer_wakeup : Q () :=
  d ← gets sw_drainState;
  assertM (negb (bool_decide (d = Draining))) "Sequencer.cc:88" ;;
  r ← sqget sq_m_readRequestTable;
  warn_overdue r ;;
  w ← sqget sq_m_writeRequestTable;
  warn_overdue w ;;
  x ← sqget id;
  assertM (sq_m_outstanding_count x =? table_sizes x) "Sequencer.cc:150" ;;
  if 0 <? sq_m_outstanding_count x then schedule_check else mret tt.

(** The event takes itself off the queue and calls [wakeup]. *)
Definition deadlockCheckEvent_process : Q () :=
  upd_seq (λ x, x <| sq_deadlockCheckEvent := None |>) ;; Sequencer_wakeup.

(** The histogram of outstanding requests is not reset. *)
Definition Sequencer_resetStats : Q () :=
  upd_seq (λ x, x <| sq_samples ::= filter (λ s, s.1 = H_outstandReq) |>
                  <| sq_m_IncompleteTimes := replicate (Z.to_nat MachineType_NUM) 0 |>).

(** ** Requests *)

(** The count is an [int], the sizes are not. *)
Definition count_check (site : string) : Q () :=
  x ← sqget id; assertM (u64 (sq_m_outstanding_count x) =? table_sizes x) site.

Definition is_store (t : RubyRequestType) : bool :=
  match t with
  | ST | RMW_Read | RMW_Write | Load_Linked | Store_Conditional | Locked_RMW_Read | Locked_RMW_Write | FLUSH => true
  | _ => false
  end.

(** A request is put into its table, unless one of the tables has the line:
    [own] and [other] are the tables, [waits_own] and [waits_other] the counters. *)
Definition insert_into (own : Sequencer → gmap Z SequencerRequest) (put : Z → SequencerRequest → Sequencer → Sequencer)
    (other : Sequencer → gmap Z SequencerRequest) (waits_own waits_other : Sequencer → Sequencer)
    (line_addr : Z) (pkt : nat) (request_type : RubyRequestType) : Q RequestStatus :=
  x ← sqget id;
  if bool_decide (is_Some (other x !! line_addr)) then upd_seq waits_other ;; mret RequestStatus_Aliased
  else if bool_decide (is_Some (own x !! line_addr)) then upd_seq waits_own ;; mret RequestStatus_Aliased
  else
    now ← gets sw_curCycle;
    upd_seq (put line_addr (mkSequencerRequest pkt request_type now)) ;;
    upd_seq (λ x, x <| sq_m_outstanding_count ::= Z.succ |>) ;;
    mret RequestStatus_Ready.

Definition insert_write : Z → nat → RubyRequestType → Q RequestStatus :=
  insert_into sq_m_writeRequestTable (λ a r x, x <| sq_m_writeRequestTable ::= <[a := r]> |>)
    sq_m_readRequestTable (λ x, x <| sq_m_store_waiting_on_store ::= Z.succ |>)
    (λ x, x <| sq_m_store_waiting_on_load ::= Z.succ |>).
Definition insert_read : Z → nat → RubyRequestType → Q RequestStatus :=
  insert_into sq_m_readRequestTable (λ a r x, x <| sq_m_readRequestTable ::= <[a := r]> |>)
    sq_m_writeRequestTable (λ x, x <| sq_m_load_waiting_on_load ::= Z.succ |>)
    (λ x, x <| sq_m_load_waiting_on_store ::= Z.succ |>).

Definition Sequencer_insertRequest (pkt : nat) (request_type : RubyRequestType) : Q RequestStatus :=
  count_check "Sequencer.cc:191" ;;
  e ← sqget sq_deadlockCheckEvent;
  d ← gets sw_drainState;
  (if bool_decide (e = None) && negb (bool_decide (d = Draining)) then schedule_check else mret tt) ;;
  k ← get_pkt pkt;
  let line_addr := makeLineAddress (rp_addr k) in
  blocked ← AbstractController_isBlocked line_addr;
  if blocked && negb (bool_decide (request_type = Locked_RMW_Write)) then mret RequestStatus_Aliased
  else
    status ← (if is_store request_type then insert_write else insert_read) line_addr pkt request_type;
    if bool_decide (status = RequestStatus_Ready) then
      n ← sqget sq_m_outstanding_count;
      sample H_outstandReq n ;;
      count_check "Sequencer.cc:266" ;;
      mret RequestStatus_Ready
    else mret status.

Definition Sequencer_markRemoved : Q () :=
  upd_seq (λ x, x <| sq_m_outstanding_count ::= Z.pred |>) ;;
  count_check "Sequencer.cc:276".

Definition Sequencer_empty : Q bool :=
  sqget (λ x, bool_decide (sq_m_writeRequestTable x = ∅) && bool_decide (sq_m_readRequestTable x = ∅)).

(** ** Load-linked and store-conditional *)
Definition entry_isLocked (e : option ptr) : Q bool :=
  v ← sqget sq_m_version;
  x ← in_dcache (get_entry e "AbstractCacheEntry.cc:73");
  mret (AbstractCacheEntry_isLocked v x).
Definition entry_clearLocked (e : option ptr) : Q () :=
  in_dcache (upd_entry e AbstractCacheEntry_clearLocked "AbstractCacheEntry.cc:66").

Definition Sequencer_invalidateSC (address : Z) : Q () :=
  e ← in_dcache (CacheMemory_lookup address);
  match e with
  | None => mret tt
  | Some _ => locked ← entry_isLocked e; if (locked : bool) then entry_clearLocked e else mret tt
  end.

Definition Sequencer_handleLlsc (address : Z) (request : SequencerRequest) : Q bool :=
  e ← in_dcache (CacheMemory_lookup address);
  match e with
  | None => mret true
  | Some _ =>
      if bool_decide (sr_m_type request = Store_Conditional) then
        locked ← entry_isLocked e;
        upd_pkt (sr_pkt request) (λ k, k <| rp_extraData := Some (if (locked : bool) then 1 else 0) |>) ;;
        entry_clearLocked e ;;
        mret locked
      else if bool_decide (sr_m_type request = Load_Linked) then
        v ← sqget sq_m_version;
        in_dcache (upd_entry e (AbstractCacheEntry_setLocked v) "AbstractCacheEntry.cc:59") ;;
        mret true
      else
        locked ← entry_isLocked e;
        (if (locked : bool) then entry_clearLocked e else mret tt) ;;
        mret true
  end.

(** ** Latencies *)

(** A vector with an element per machine type. *)
Definition mach_index (m : Z) : Q () :=
  if (0 <=? m) && (m <? MachineType_NUM) then mret tt else fail (OutOfRange "Sequencer: MachineType").

Definition miss_breakdown (respondingMach issuedTime initialRequestTime forwardRequestTime firstResponseTime
    completionTime : Z) : Q () :=
  if (issuedTime <=? initialRequestTime) && (initialRequestTime <=? forwardRequestTime) &&
     (forwardRequestTime <=? firstResponseTime) && (firstResponseTime <=? completionTime) then
    sample (H_IssueToInitialDelay respondingMach) (initialRequestTime - issuedTime) ;;
    sample (H_InitialToForwardDelay respondingMach) (forwardRequestTime - initialRequestTime) ;;
    sample (H_ForwardToFirstResponseDelay respondingMach) (firstResponseTime - forwardRequestTime) ;;
    sample (H_FirstResponseToCompletionDelay respondingMach) (completionTime - firstResponseTime)
  else upd_seq (λ x, x <| sq_m_IncompleteTimes ::= λ l,
         match vget l respondingMach with Some n => vset l respondingMach (n + 1) | None => l end |>).

Definition Sequencer_recordMissLatency (cycles : Z) (type : RubyRequestType) (respondingMach : Z) (isExternalHit : bool)
    (issuedTime initialRequestTime forwardRequestTime firstResponseTime completionTime : Z) : Q () :=
  sample H_latency cycles ;;
  sample (H_typeLatency type) cycles ;;
  if isExternalHit then
    sample H_missLatency cycles ;;
    sample (H_missTypeLatency type) cycles ;;
    if negb (respondingMach =? MachineType_NUM) then
      mach_index respondingMach ;;
      sample (H_missMachLatency respondingMach) cycles ;;
      sample (H_missTypeMachLatency type respondingMach) cycles ;;
      miss_breakdown respondingMach issuedTime initialRequestTime forwardRequestTime firstResponseTime completionTime
    else mret tt
  else
    sample H_hitLatency cycles ;;
    sample (H_hitTypeLatency type) cycles ;;
    if negb (respondingMach =? MachineType_NUM) then
      mach_index respondingMach ;;
      sample (H_hitMachLatency respondingMach) cycles ;;
      sample (H_hitTypeMachLatency type respondingMach) cycles
    else mret tt.

(** ** The answer *)

(** When and by whom a request was answered. *)
Record response := mkResponse {
  rs_externalHit : bool; rs_mach : Z; rs_initialRequestTime : Z; rs_forwardRequestTime : Z; rs_firstResponseTime : Z;
}.

Definition is_load (t : RubyRequestType) : bool :=
  match t with LD | IFETCH | RMW_Read | Locked_RMW_Read | Load_Linked => true | _ => false end.

(** What a request does to the data of the line and to the data of the packet. *)
Definition transfer (warmup : bool) (type : RubyRequestType) (llscSuccess : bool) (k : RubyPacket) (data : list Z)
    : outcome (list Z * list Z) :=
  offset ← Address_getOffset (rp_addr k);
  if warmup then d ← DataBlock_setData (rp_data k) offset (rp_size k) data; Ok (d, rp_data k)
  else if rp_isFlush k then Ok (data, rp_data k)
  else if is_load type then
    src ← DataBlock_getData offset (rp_size k) data;
    b ← memcpy (rp_data k) 0 src (rp_size k) "Sequencer.cc:502";
    Ok (data, b)
  else if rp_isSwap k then
    overwrite_val ← memcpy (replicate (Z.to_nat (rp_size k)) 0) 0 (rp_data k) (rp_size k) "Sequencer.cc:508";
    src ← DataBlock_getData offset (rp_size k) data;
    b ← memcpy (rp_data k) 0 src (rp_size k) "Sequencer.cc:510";
    d ← DataBlock_setData overwrite_val offset (rp_size k) data;
    Ok (d, b)
  else if negb (bool_decide (type = Store_Conditional)) || llscSuccess then
    d ← DataBlock_setData (rp_data k) offset (rp_size k) data; Ok (d, rp_data k)
  else Ok (data, rp_data k).

(** The tester's copy of the line. *)
Definition update_tester (pkt : nat) (data : list Z) : Q () :=
  tester ← sqget sq_m_usingRubyTester;
  if (tester : bool) then
    k ← get_pkt pkt;
    match rp_subBlock k with
    | None => fail (AssertFail "Sequencer.cc:533")
    | Some b => b' ← lift (SubBlock_mergeFrom data b); upd_pkt pkt (λ k, k <| rp_subBlock := Some b' |>)
    end
  else mret tt.

Definition RubyPort_testDrainComplete : Q () :=
  d ← gets sw_drainState;
  n ← sqget sq_m_outstanding_count;
  if bool_decide (d = Draining) && (n =? 0) then
    modify (λ w, w <| sw_drainState := Drained |>) ;; emit EvDrainDone
  else mret tt.

(** The result is the data of the line, a reference parameter. *)
Definition Sequencer_hitCallback (srequest : SequencerRequest) (data : list Z) (llscSuccess : bool) (r : response)
    : Q (list Z) :=
  let pkt := sr_pkt srequest in
  let type := sr_m_type srequest in
  let issued_time := sr_issue_time srequest in
  now ← gets sw_curCycle;
  assertM (issued_time <=? now) "Sequencer.cc:479" ;;
  Sequencer_recordMissLatency (now - issued_time) type (rs_mach r) (rs_externalHit r) issued_time
    (rs_initialRequestTime r) (rs_forwardRequestTime r) (rs_firstResponseTime r) now ;;
  k ← get_pkt pkt;
  warmup ← gets sw_warmup;
  cooldown ← gets sw_cooldown;
  t ← lift (transfer warmup type llscSuccess k data);
  let '(data, bytes) := t in
  upd_pkt pkt (λ k, k <| rp_data := bytes |>) ;;
  update_tester pkt data ;;
  (if (warmup : bool) then
     modify (λ w, w <| sw_pkts ::= delete pkt |>) ;; emit EvNextFetchRequest
   else if (cooldown : bool) then
     modify (λ w, w <| sw_pkts ::= delete pkt |>) ;; emit EvNextFlushRequest
   else
     emit (EvHitCallback pkt) ;; RubyPort_testDrainComplete) ;;
  mret data.

Definition write_types (t : RubyRequestType) : bool :=
  match t with
  | ST | ATOMIC | RMW_Read | RMW_Write | Load_Linked | Store_Conditional | Locked_RMW_Read | Locked_RMW_Write
  | FLUSH => true
  | _ => false
  end.

(** The locked instructions of x86 block the line between their read and write. *)
Definition block_line (address : Z) (type : RubyRequestType) : Q () :=
  match type with
  | Locked_RMW_Read => q ← sqget sq_m_mandatory_q_ptr; AbstractController_blockOnQueue address q
  | Locked_RMW_Write => AbstractController_unblock address
  | _ => mret tt
  end.

Definition Sequencer_writeCallback (address : Z) (data : list Z) (r : response) : Q (list Z) :=
  assertM (address =? makeLineAddress address) "Sequencer.cc:390" ;;
  table ← sqget sq_m_writeRequestTable;
  assertM (bool_decide (is_Some (table !! makeLineAddress address))) "Sequencer.cc:391" ;;
  match table !! address with
  | None => fail (AssertFail "Sequencer.cc:394")
  | Some request =>
      upd_seq (λ x, x <| sq_m_writeRequestTable ::= delete address |>) ;;
      Sequencer_markRemoved ;;
      assertM (write_types (sr_m_type request)) "Sequencer.cc:400" ;;
      standalone ← sqget sq_m_runningGarnetStandalone;
      success ← (if negb standalone then Sequencer_handleLlsc address request else mret true);
      block_line address (sr_m_type request) ;;
      Sequencer_hitCallback request data success r
  end.

Definition Sequencer_readCallback (address : Z) (data : list Z) (r : response) : Q (list Z) :=
  assertM (address =? makeLineAddress address) "Sequencer.cc:445" ;;
  table ← sqget sq_m_readRequestTable;
  assertM (bool_decide (is_Some (table !! makeLineAddress address))) "Sequencer.cc:446" ;;
  match table !! address with
  | None => fail (AssertFail "Sequencer.cc:449")
  | Some request =>
      upd_seq (λ x, x <| sq_m_readRequestTable ::= delete address |>) ;;
      Sequencer_markRemoved ;;
      assertM (bool_decide (sr_m_type request = LD) || bool_decide (sr_m_type request = IFETCH)) "Sequencer.cc:455" ;;
      Sequencer_hitCallback request data true r
  end.

(** ** Issuing *)

(** [flags & (X86ISA::StoreCheck << X86ISA::FlagShift)]. *)
Definition storeCheck (x86 : bool) (flags : Z) : bool := x86 && negb (Z.land flags (Z.shiftl 4 4) =? 0).

(** The primary and the secondary type of a packet. *)
Definition request_types (x86 : bool) (k : RubyPacket) : outcome (RubyRequestType * RubyRequestType) :=
  if rp_isLLSC k then
    if rp_isWrite k then Ok (Store_Conditional, ATOMIC)
    else assertO (rp_isRead k) "Sequencer.cc:583" ;; Ok (Load_Linked, ATOMIC)
  else if rp_isLockedRMW k then
    if rp_isWrite k then Ok (Locked_RMW_Write, ST)
    else assertO (rp_isRead k) "Sequencer.cc:599" ;; Ok (Locked_RMW_Read, ST)
  else if rp_isWrite k then Ok (ST, ST)
  else if rp_isRead k then
    if rp_isInstFetch k then Ok (IFETCH, IFETCH)
    else if storeCheck x86 (rp_flags k) then Ok (RMW_Read, ST) else Ok (LD, LD)
  else if rp_isFlush k then Ok (FLUSH, FLUSH)
  else Abort (Panic "Unsupported ruby packet type").

Definition Sequencer_issueRequest (pkt : nat) (secondary_type : RubyRequestType) : Q () :=
  k ← get_pkt pkt;
  core_id ← sqget sq_m_coreId;
  now ← edge_after 0;
  let msg := mkRubyRequest now (rp_addr k) (makeLineAddress (rp_addr k))
               (if rp_isFlush k then None else Some pkt) (rp_size k) (default 0 (rp_pc k)) secondary_type pkt core_id in
  x ← sqget id;
  let latency := if bool_decide (secondary_type = IFETCH) then sq_m_inst_cache_hit_latency x
                 else sq_m_data_cache_hit_latency x in
  assertM (0 <? latency) "Sequencer.cc:692" ;;
  assertM (negb (bool_decide (sq_m_mandatory_q_ptr x = None))) "Sequencer.cc:694" ;;
  period ← gets sw_clockPeriod;
  emit (EvEnqueue msg now (period * latency)).

Definition Sequencer_makeRequest (pkt : nat) : Q RequestStatus :=
  x ← sqget id;
  if sq_m_max_outstanding_requests x <=? sq_m_outstanding_count x then mret RequestStatus_BufferFull
  else
    k ← get_pkt pkt;
    x86 ← gets sw_X86ISA;
    types ← lift (request_types x86 k);
    status ← Sequencer_insertRequest pkt types.1;
    if negb (bool_decide (status = RequestStatus_Ready)) then mret status
    else Sequencer_issueRequest pkt types.2 ;; mret RequestStatus_Issued.

Definition Sequencer_evictionCallback (address : Z) : Q () := emit (EvEviction address).

(** ** Draining, from RubyPort.cc

    The result becomes the state of the object. *)
Definition RubyPort_drain : Q DrainState :=
  upd_seq (λ x, x <| sq_deadlockCheckEvent := None |>) ;;
  n ← sqget sq_m_outstanding_count;
  let d := if 0 <? n then Draining else Drained in
  modify (λ w, w <| sw_drainState := d |>) ;;
  mret d.

(** [Drainable::dmDrainResume]; a port has nothing of its own to do then. *)
Definition Drainable_dmDrainResume : Q () :=
  d ← gets sw_drainState;
  (if bool_decide (d = Drained) || bool_decide (d = Resuming) then mret tt
   else fail (Panic "Trying to resume an object that hasn't been drained")) ;;
  modify (λ w, w <| sw_drainState := Running |>).
End Sequencer.
