(* ===== verification/DMASequencerModel.v ===== *)
(** * The sequencer of a DMA controller

    Models src/gem5/src/mem/ruby/system/DMASequencer.hh, DMASequencer.cc: a device
    makes requests of any length, which are sent to the controller in pieces that
    lie in one line each, one after the other.  The bytes of a request are those
    of its packet, whose data pointer it copies; the pointer may be null.  A
    message is created with a cleared data block.  What the sequencer sends to the
    controller and to the device is the list [dw_trace] of its calls, the latest
    last.

    Not modelled: printing, and the announcement of address ranges to the ports
    in [init]. *)

From S2P Require Import Prelude NetDestModel AddrRangeModel CommonTypes AddressModel ReplacementModel CacheMemoryModel DataBlockModel SequencerModel.

Inductive SequencerRequestType :=
  | SequencerRequestType_Default | SequencerRequestType_LD | SequencerRequestType_ST | SequencerRequestType_ATOMIC
  | SequencerRequestType_REPLACEMENT | SequencerRequestType_FLUSH | SequencerRequestType_NULL.

(** The fields of the message that the sequencer sets. *)
Record SequencerMsg := mkSequencerMsg {
  sm_time : Z;
  sm_LineAddress : Z;
  sm_PhysicalAddress : Z;
  sm_Type : SequencerRequestType;
  sm_DataBlk : list Z;
  sm_Len : Z;
}.

Record DMAPacket := mkDMAPacket { dp_addr : Z; dp_size : Z; dp_isWrite : bool; dp_data : option (list Z) }.
#[export] Instance eta_DMAPacket : Eta DMAPacket := λ x, mkDMAPacket (dp_addr x) (dp_size x) (dp_isWrite x) (dp_data x).

Record DMARequest := mkDMARequest {
  dr_start_paddr : Z;
  dr_len : Z;
  dr_write : bool;
  dr_bytes_completed : Z;
  dr_bytes_issued : Z;
  dr_pkt : nat;
}.
#[export] Instance eta_DMARequest : Eta DMARequest := λ x,
  mkDMARequest (dr_start_paddr x) (dr_len x) (dr_write x) (dr_bytes_completed x) (dr_bytes_issued x) (dr_pkt x).

Record DMASequencer := mkDMASequencer {
  dq_m_data_block_mask : Z;
  dq_m_RequestTable : gmap Z DMARequest;
  dq_m_outstanding_count : Z;
  dq_m_max_outstanding_requests : Z;
  dq_m_mandatory_q_ptr : option nat;
}.
#[export] Instance eta_DMASequencer : Eta DMASequencer := λ x,
  mkDMASequencer (dq_m_data_block_mask x) (dq_m_RequestTable x) (dq_m_outstanding_count x)
    (dq_m_max_outstanding_requests x) (dq_m_mandatory_q_ptr x).

Inductive dma_event :=
  | DmaEnqueue (msg : SequencerMsg) (current_time delta : Z)
  | DmaHitCallback (pkt : nat).

Record DWorld := mkDWorld {
  dw_seq : DMASequencer;
  dw_pkts : gmap nat DMAPacket;
  dw_trace : list dma_event;
  dw_clockEdge : Z;
  dw_clockPeriod : Z;
}.
#[export] Instance eta_DWorld : Eta DWorld := λ x,
  mkDWorld (dw_seq x) (dw_pkts x) (dw_trace x) (dw_clockEdge x) (dw_clockPeriod x).

Section DMASequencer.
Context {BS : BlockSize}.
#[local] Abbreviation D := (M DWorld).

Definition dqget {A} (f : DMASequencer → A) : D A := gets (λ w, f (dw_seq w)).
Definition upd_dma (f : DMASequencer → DMASequencer) : D () := modify (λ w, w <| dw_seq ::= f |>).
Definition dma_emit (e : dma_event) : D () := modify (λ w, w <| dw_trace ::= λ l, l ++ [e] |>).
Definition get_dma_pkt (p : nat) : D DMAPacket :=
  m ← gets dw_pkts; match m !! p with Some k => mret k | None => fail (NullDeref "pkt") end.

(** ** Construction *)
Definition DMASequencer_ctor (max_outstanding_requests : Z) : DMASequencer :=
  mkDMASequencer 0 ∅ 0 max_outstanding_requests None.
Definition DMASequencer_init (x : DMASequencer) : DMASequencer :=
  x <| dq_m_data_block_mask := mask m_block_size_bits |>.

Definition DMASequencer_busy (x : DMASequencer) : bool := 0 <? dq_m_outstanding_count x.

(** ** Requests *)
Definition dma_type (write : bool) : SequencerRequestType :=
  if write then SequencerRequestType_ST else SequencerRequestType_LD.

(** The message is sent to the controller, and its length added to what the
    request at the line [key] has issued. *)
Definition dma_send (key : Z) (msg : SequencerMsg) (site : string) : D () :=
  q ← dqget dq_m_mandatory_q_ptr;
  assertM (negb (bool_decide (q = None))) site ;;
  now ← gets dw_clockEdge;
  period ← gets dw_clockPeriod;
  dma_emit (DmaEnqueue msg now period) ;;
  upd_dma (λ x, x <| dq_m_RequestTable ::= alter (λ r, r <| dr_bytes_issued ::= Z.add (sm_Len msg) |>) key |>).

Definition DMASequencer_makeRequest (pkt : nat) : D RequestStatus :=
  x ← dqget id;
  if dq_m_outstanding_count x =? dq_m_max_outstanding_requests x then mret RequestStatus_BufferFull
  else
    k ← get_dma_pkt pkt;
    let paddr := dp_addr k in
    let len := dp_size k in
    let write := dp_isWrite k in
    assertM (dq_m_outstanding_count x <? dq_m_max_outstanding_requests x) "DMASequencer.cc:76" ;;
    let line_addr := makeLineAddress paddr in
    if bool_decide (is_Some (dq_m_RequestTable x !! line_addr)) then mret RequestStatus_Aliased
    else
      upd_dma (λ x, x <| dq_m_RequestTable ::= <[line_addr := mkDMARequest paddr len write 0 0 pkt]> |>) ;;
      now ← gets dw_clockEdge;
      let offset := Z.land paddr (dq_m_data_block_mask x) in
      let msg_len := if u32 (offset + len) <=? m_block_size_bytes then len else u32 (m_block_size_bytes - offset) in
      blk ← match dp_data k with
            | Some data => if write then lift (DataBlock_setData data offset msg_len DataBlock_clear) else mret DataBlock_clear
            | None => mret DataBlock_clear
            end;
      let msg := mkSequencerMsg now line_addr paddr (dma_type write) blk msg_len in
      upd_dma (λ x, x <| dq_m_outstanding_count ::= Z.succ |>) ;;
      dma_send line_addr msg "DMASequencer.cc:113" ;;
      mret RequestStatus_Issued.

Definition DMASequencer_issueNext (address : Z) : D () :=
  x ← dqget id;
  match dq_m_RequestTable x !! address with
  | None => fail (AssertFail "DMASequencer.cc:124")
  | Some r =>
      assertM (dq_m_outstanding_count x <=? dq_m_max_outstanding_requests x) "DMASequencer.cc:128" ;;
      let completed := dr_bytes_issued r in
      upd_dma (λ x, x <| dq_m_RequestTable ::= <[address := r <| dr_bytes_completed := completed |>]> |>) ;;
      if dr_len r =? completed then
        upd_dma (λ x, x <| dq_m_outstanding_count ::= Z.pred |> <| dq_m_RequestTable ::= delete address |>) ;;
        dma_emit (DmaHitCallback (dr_pkt r))
      else
        now ← gets dw_clockEdge;
        let paddr := u64 (dr_start_paddr r + completed) in
        assertM (Z.land paddr (dq_m_data_block_mask x) =? 0) "DMASequencer.cc:145" ;;
        let msg_len := if u32 (dr_len r - completed) <? m_block_size_bytes then dr_len r - completed
                       else m_block_size_bytes in
        blk ← (if dr_write r then
                 k ← get_dma_pkt (dr_pkt r);
                 match dp_data k with
                 | None => fail (NullDeref "DMASequencer.cc:159")
                 | Some data => lift (DataBlock_setData (drop (Z.to_nat completed) data) 0 msg_len DataBlock_clear)
                 end
               else mret DataBlock_clear);
        let msg := mkSequencerMsg now (makeLineAddress paddr) paddr (dma_type (dr_write r)) blk msg_len in
        dma_send address msg "DMASequencer.cc:163"
  end.

(** ** Answers *)
Definition DMASequencer_dataCallback (dblk : list Z) (address : Z) : D () :=
  x ← dqget id;
  match dq_m_RequestTable x !! address with
  | None => fail (AssertFail "DMASequencer.cc:177")
  | Some r =>
      let completed := dr_bytes_completed r in
      let len := dr_bytes_issued r - completed in
      let offset := if completed =? 0 then Z.land (dr_start_paddr r) (dq_m_data_block_mask x) else 0 in
      assertM (negb (dr_write r)) "DMASequencer.cc:184" ;;
      k ← get_dma_pkt (dr_pkt r);
      (match dp_data k with
       | None => mret tt
       | Some data =>
           src ← lift (DataBlock_getData offset len dblk);
           bytes ← lift (memcpy data completed src len "DMASequencer.cc:186");
           modify (λ w, w <| dw_pkts ::= <[dr_pkt r := k <| dp_data := Some bytes |>]> |>)
       end) ;;
      DMASequencer_issueNext address
  end.

Definition DMASequencer_ackCallback (address : Z) : D () :=
  x ← dqget id;
  assertM (bool_decide (is_Some (dq_m_RequestTable x !! address))) "DMASequencer.cc:195" ;;
  DMASequencer_issueNext address.
End DMASequencer.
