(* ===== verification/StateLemmas.v ===== *)
(** * Running the accessors

    What the member accesses of GarnetState.v and the table look-ups of
    RoutingUnitModel.v return, when the object they name exists. *)

From S2P Require Import Prelude BinaryHeap NetDestModel CommonTypes GarnetState FlitBuffer Channels RoutingUnitModel.

Lemma vset_same {A} (l : list A) i a : vget l i = Some a → vset l i a = l.
Proof.
  intros [Hi Hl]%vget_Some. unfold vset. destruct (Z.leb_spec 0 i); [|lia].
  by apply list_insert_id.
Qed.

Lemma optG_Ok {A} (o : option A) e w a w' : optG o e w = Ok (a, w') ↔ o = Some a ∧ w' = w.
Proof. unfold optG. destruct o; cbv [mret M_ret fail]; naive_solver. Qed.

Lemma get_router_Ok r w x w' :
  get_router r w = Ok (x, w') ↔ vget (net_m_routers w) r = Some x ∧ w' = w.
Proof.
  unfold get_router. rewrite bind_Ok. split.
  - intros (o & w1 & [= <- <-] & ?%optG_Ok). done.
  - intros [? ->]. eexists _, w. split; [done|]. by apply optG_Ok.
Qed.

Lemma put_router_same r x w :
  vget (net_m_routers w) r = Some x → put_router r x w = Ok (tt, w).
Proof.
  intros Hx. unfold put_router, modify. do 2 f_equal. destruct w. cbn in *.
  by rewrite vset_same.
Qed.

Lemma run_upd_router r f w x :
  vget (net_m_routers w) r = Some x →
  upd_router r f w = Ok (tt, w <| net_m_routers ::= λ l, vset l r (f x) |>).
Proof.
  intros Hx. unfold upd_router, mbind, M_bind.
  by rewrite (proj2 (get_router_Ok r w x w) (conj Hx eq_refl)).
Qed.

Lemma run_upd_router_id r f w x :
  vget (net_m_routers w) r = Some x → f x = x → upd_router r f w = Ok (tt, w).
Proof.
  intros Hx Hf. unfold upd_router, mbind, M_bind.
  rewrite (proj2 (get_router_Ok r w x w) (conj Hx eq_refl)), Hf. by apply put_router_same.
Qed.

Lemma get_input_Ok r i w u w' :
  get_input r i w = Ok (u, w') ↔
  w' = w ∧ ∃ x, vget (net_m_routers w) r = Some x ∧ vget (rt_m_input_unit x) i = Some u.
Proof.
  unfold get_input. rewrite bind_Ok. split.
  - intros (x & w1 & [? ->]%get_router_Ok & [? ->]%optG_Ok). eauto.
  - intros (-> & x & ? & ?). exists x, w. by rewrite get_router_Ok, optG_Ok.
Qed.

Lemma get_output_Ok r o w u w' :
  get_output r o w = Ok (u, w') ↔
  w' = w ∧ ∃ x, vget (net_m_routers w) r = Some x ∧ vget (rt_m_output_unit x) o = Some u.
Proof.
  unfold get_output. rewrite bind_Ok. split.
  - intros (x & w1 & [? ->]%get_router_Ok & [? ->]%optG_Ok). eauto.
  - intros (-> & x & ? & ?). exists x, w. by rewrite get_router_Ok, optG_Ok.
Qed.

Lemma get_vc_Ok r i v w c w' :
  get_vc r i v w = Ok (c, w') ↔
  w' = w ∧ ∃ u, get_input r i w = Ok (u, w) ∧ vget (iu_m_vcs u) v = Some c.
Proof.
  unfold get_vc. rewrite bind_Ok. split.
  - intros (x & w1 & Hx & [? ->]%optG_Ok). pose proof Hx as [-> _]%get_input_Ok. eauto.
  - intros (-> & x & ? & ?). exists x, w. by rewrite optG_Ok.
Qed.

Lemma get_flit_Ok p w f w' : get_flit p w = Ok (f, w') ↔ net_flits w !! p = Some f ∧ w' = w.
Proof.
  unfold get_flit. rewrite bind_Ok. split.
  - intros (o & w1 & [= <- <-] & ?%optG_Ok). done.
  - intros [? ->]. eexists _, w. split; [done|]. by apply optG_Ok.
Qed.

Lemma get_fb_Ok b w x w' : get_fb b w = Ok (x, w') ↔ net_fbufs w !! b = Some x ∧ w' = w.
Proof.
  unfold get_fb. rewrite bind_Ok. split.
  - intros (o & w1 & [= <- <-] & ?%optG_Ok). done.
  - intros [? ->]. eexists _, w. split; [done|]. by apply optG_Ok.
Qed.

Lemma wp_get_router r w x Q :
  vget (net_m_routers w) r = Some x → Q x w → wp (get_router r) Q w.
Proof. intros Hx. apply wp_run. by apply get_router_Ok. Qed.

Lemma wp_get_input r i w x u Q :
  vget (net_m_routers w) r = Some x → vget (rt_m_input_unit x) i = Some u →
  Q u w → wp (get_input r i) Q w.
Proof. intros Hx Hu. apply wp_run, get_input_Ok. eauto. Qed.

(** A map access with [operator[]] at a key that is present. *)
Lemma map_at_Some {K V} `{Countable K} (m : gmap K V) k v z :
  m !! k = Some v → map_at m k z = (v, m).
Proof. unfold map_at. by intros ->. Qed.

Lemma wp_outports_dirn2idx r d w x o Q :
  vget (net_m_routers w) r = Some x →
  ru_m_outports_dirn2idx (rt_m_routing_unit x) !! d = Some o →
  Q o w → wp (outports_dirn2idx r d) Q w.
Proof.
  intros Hx Ho HQ. unfold outports_dirn2idx. apply wp_bind, (wp_get_router _ _ x); [done|].
  rewrite (map_at_Some _ _ _ _ Ho). apply wp_bind.
  eapply wp_run; [eapply run_upd_router_id; [done|]|by apply wp_ret].
  by destruct x as [????????[]].
Qed.

Lemma wp_inports_dirn2idx r d w x i Q :
  vget (net_m_routers w) r = Some x →
  ru_m_inports_dirn2idx (rt_m_routing_unit x) !! d = Some i →
  Q i w → wp (inports_dirn2idx r d) Q w.
Proof.
  intros Hx Hi HQ. unfold inports_dirn2idx. apply wp_bind, (wp_get_router _ _ x); [done|].
  rewrite (map_at_Some _ _ _ _ Hi). apply wp_bind.
  eapply wp_run; [eapply run_upd_router_id; [done|]|by apply wp_ret].
  by destruct x as [????????[]].
Qed.

Lemma wp_outports_idx2dirn r o w x d Q :
  vget (net_m_routers w) r = Some x →
  ru_m_outports_idx2dirn (rt_m_routing_unit x) !! o = Some d →
  Q d w → wp (outports_idx2dirn r o) Q w.
Proof.
  intros Hx Hd HQ. unfold outports_idx2dirn. apply wp_bind, (wp_get_router _ _ x); [done|].
  rewrite (map_at_Some _ _ _ _ Hd). apply wp_bind.
  eapply wp_run; [eapply run_upd_router_id; [done|]|by apply wp_ret].
  by destruct x as [????????[]].
Qed.

Lemma wp_inports_idx2dirn r i w x d Q :
  vget (net_m_routers w) r = Some x →
  ru_m_inports_idx2dirn (rt_m_routing_unit x) !! i = Some d →
  Q d w → wp (inports_idx2dirn r i) Q w.
Proof.
  intros Hx Hd HQ. unfold inports_idx2dirn. apply wp_bind, (wp_get_router _ _ x); [done|].
  rewrite (map_at_Some _ _ _ _ Hd). apply wp_bind.
  eapply wp_run; [eapply run_upd_router_id; [done|]|by apply wp_ret].
  by destruct x as [????????[]].
Qed.

Lemma wp_get_flit p w f Q : net_flits w !! p = Some f → Q f w → wp (get_flit p) Q w.
Proof. intros Hf. apply wp_run. by apply get_flit_Ok. Qed.

Lemma wp_upd_flit p g w f (Q : () → GNet → Prop) :
  net_flits w !! p = Some f → Q tt (w <| net_flits ::= <[p := g f]> |>) →
  wp (upd_flit p g) Q w.
Proof.
  intros Hf HQ. unfold upd_flit. apply wp_bind, (wp_get_flit _ _ f); [done|]. exact HQ.
Qed.

(** [InputUnit::vc_isEmpty] reads the contents of the VC's buffer. *)
Lemma wp_vc_isEmpty r i v w x u c Q :
  vget (net_m_routers w) r = Some x → vget (rt_m_input_unit x) i = Some u →
  vget (iu_m_vcs u) v = Some c → is_Some (net_fbufs w !! vc_m_input_buffer c) →
  Q (bool_decide (contents w (vc_m_input_buffer c) = [])) w →
  wp (InputUnit_vc_isEmpty r i v) Q w.
Proof.
  intros Hx Hu Hc Hb HQ. unfold InputUnit_vc_isEmpty. apply wp_bind.
  apply (wp_run _ _ _ c w).
  { apply get_vc_Ok. split; [done|]. exists u. rewrite get_input_Ok. eauto. }
  eapply wp_run; [by apply run_isEmpty|done].
Qed.

(** A counting loop that reads the state and always returns. *)
Lemma wp_foldM_pure {A V} (xs : list A) (v : V) (body : A → V → G V) w (Q : V → GNet → Prop) :
  (∀ x v, x ∈ xs → ∃ v', body x v w = Ok (v', w)) →
  (∀ v', Q v' w) → wp (foldM xs v body) Q w.
Proof.
  revert v. induction xs as [|x xs IH]; intros v Hb HQ; simpl; [apply HQ|].
  apply wp_bind. destruct (Hb x v) as [v' Hv]; [set_solver|].
  eapply wp_run; [done|]. apply IH; [|done]. intros. apply Hb. set_solver.
Qed.
