(* ===== verification/QueueLemmas.v ===== *)
(** * Message queues

    What [MessageBuffer::enqueue] and [MessageBuffer::dequeue] do to the whole
    state, with everything that they leave alone: the lemmas on which the
    theories of the message buffers and of the simple network are built. *)

From S2P Require Import Prelude BinaryHeap NetDestModel CommonTypes GarnetState FlitBuffer Channels RoutingUnitModel SwapModel UnitsModel SwitchAllocatorModel MessageBufferModel NetworkInterfaceModel StateLemmas.

(** ** The order of a buffer *)

(** [sooner h p q]: message [p] does not leave after message [q]. *)
Definition sooner (h : gmap ptr Message) (p q : ptr) : Prop :=
  msg_m_LastEnqueueTime (msg_at h p) < msg_m_LastEnqueueTime (msg_at h q) ∨
  (msg_m_LastEnqueueTime (msg_at h p) = msg_m_LastEnqueueTime (msg_at h q) ∧
   msg_m_msg_counter (msg_at h p) ≤ msg_m_msg_counter (msg_at h q)).

Lemma msgptr_greater_false h p q : msgptr_greater h p q = false ↔ sooner h p q.
Proof.
  unfold msgptr_greater, Message_greater, sooner.
  destruct (Z.eqb_spec (msg_m_LastEnqueueTime (msg_at h p)) (msg_m_LastEnqueueTime (msg_at h q))); lia.
Qed.

#[export] Instance msgptr_greater_strict h : StrictWeak (msgptr_greater h).
Proof.
  split.
  - intros p q. unfold msgptr_greater, Message_greater.
    repeat match goal with |- context [?a =? ?b] => destruct (Z.eqb_spec a b) end; lia.
  - intros p q s. rewrite !msgptr_greater_false. unfold sooner. lia.
Qed.

(** The order only looks at the arrival tick and the counter. *)
Definition same_key (h h' : gmap ptr Message) (p : ptr) : Prop :=
  msg_m_LastEnqueueTime (msg_at h' p) = msg_m_LastEnqueueTime (msg_at h p) ∧
  msg_m_msg_counter (msg_at h' p) = msg_m_msg_counter (msg_at h p).

Lemma is_heap_same_key h h' l :
  (∀ p, p ∈ l → same_key h h' p) →
  is_heap (msgptr_greater h) l → is_heap (msgptr_greater h') l.
Proof.
  intros Hk Hh i p q Hi Hp Hq. specialize (Hh i p q Hi Hp Hq).
  apply list_elem_of_lookup_2 in Hp, Hq. destruct (Hk _ Hp) as [T1 C1], (Hk _ Hq) as [T2 C2].
  unfold msgptr_greater, Message_greater in *. by rewrite T1, C1, T2, C2.
Qed.

(** Message buffer [b] has state [x], and its heap is ordered. *)
Definition mb_at (w : GNet) (b : Z) (x : MessageBuffer) : Prop :=
  vget (net_mbufs w) b = Some x ∧ is_heap (msgptr_greater (net_msgs w)) (mb_m_prio_heap x).

(** An update of a buffer leaves everything else alone. *)
Definition mb_updated (w : GNet) (b : Z) (y : MessageBuffer) (w' : GNet) : Prop :=
  w' = w <| net_mbufs ::= λ l, vset l b y |> ∧ vget (net_mbufs w') b = Some y.

Lemma wp_get_mbuf b w x Q : vget (net_mbufs w) b = Some x → Q x w → wp (get_mbuf b) Q w.
Proof. intros Hx. apply wp_run. unfold get_mbuf. apply bind_Ok. exists (Some x), w.
  split; [unfold gets; by rewrite Hx|by apply optG_Ok].
Qed.

Lemma wp_upd_mbuf b f w x (Q : () → GNet → Prop) :
  vget (net_mbufs w) b = Some x → (∀ w', mb_updated w b (f x) w' → Q tt w') →
  wp (upd_mbuf b f) Q w.
Proof.
  intros Hx HQ. unfold upd_mbuf. apply wp_bind, (wp_get_mbuf _ _ x); [done|].
  apply wp_modify, HQ. split; [done|]. simpl. apply vget_vset_eq. by eapply vget_Some_lt.
Qed.

Lemma wp_get_msg p w m Q : net_msgs w !! p = Some m → Q m w → wp (get_msg p) Q w.
Proof. intros Hm. apply wp_run. unfold get_msg. apply bind_Ok. exists (Some m), w.
  split; [unfold gets; by rewrite Hm|by apply optG_Ok].
Qed.

(** A conditional update of the buffer: the bookkeeping at the start of a tick. *)
Lemma wp_upd_mbuf_if (c : bool) b f w x (Q : () → GNet → Prop) :
  vget (net_mbufs w) b = Some x →
  (∀ w', mb_updated w b (if c then f x else x) w' → Q tt w') →
  wp (if c then upd_mbuf b f else mret tt) Q w.
Proof.
  intros Hx HQ. destruct c; [by apply (wp_upd_mbuf _ _ _ x)|].
  apply wp_ret, HQ. split; [|done]. destruct w. cbn in *. by rewrite vset_same.
Qed.

(** A wake-up that is asked for is in the event queue, unless one for the same
    tick was scheduled before. *)
Lemma wp_schedule c t w (Q : () → GNet → Prop) :
  (∀ w', net_mbufs w' = net_mbufs w → net_msgs w' = net_msgs w →
     (alreadyScheduled c t w = true ∨ (t, c) ∈ net_eventq w') → Q tt w') →
  wp (Consumer_scheduleEventAbsolute c t) Q w.
Proof.
  intros HQ. unfold Consumer_scheduleEventAbsolute. apply wp_bind, wp_gets, wp_bind.
  destruct (alreadyScheduled c t w) eqn:E.
  - apply wp_ret, wp_bind, wp_bind, wp_gets, wp_bind, wp_gets, wp_ret, wp_modify.
    by apply HQ; auto.
  - apply wp_modify, wp_bind, wp_bind, wp_gets, wp_bind, wp_gets, wp_ret, wp_modify.
    apply HQ; [done|done|]. right. simpl. apply elem_of_app. right. by apply list_elem_of_singleton.
Qed.

(** The delay counter of a message is not part of its key. *)
Lemma same_key_delay h p m d q :
  h !! p = Some m → same_key h (<[p := m <| msg_m_DelayedTicks := d |>]> h) q.
Proof.
  intros Hm. unfold same_key, msg_at. destruct (decide (p = q)) as [<-|].
  - by rewrite lookup_insert_eq, Hm.
  - by rewrite lookup_insert_ne.
Qed.

(** ** What a queue operation depends on

    The fields of a buffer that matter to its contents and to the next message;
    the others are statistics and the bookkeeping of its size. *)
Record QCore := mkQCore {
  qc_heap : list ptr;
  qc_consumer : option consumer;
  qc_vnet : Z;
  qc_fifo : bool;
  qc_randomization : bool;
  qc_last_arrival : Z;
}.
#[export] Instance eta_QCore : Eta QCore := λ x,
  mkQCore (qc_heap x) (qc_consumer x) (qc_vnet x) (qc_fifo x) (qc_randomization x)
    (qc_last_arrival x).

Definition mb_core (x : MessageBuffer) : QCore :=
  mkQCore (mb_m_prio_heap x) (mb_m_consumer x) (mb_m_vnet_id x) (mb_m_strict_fifo x)
    (mb_m_randomization x) (mb_m_last_arrival_time x).

Definition cores (w : GNet) : list QCore := mb_core <$> net_mbufs w.

(** The part of the state that the simple network and its queues live in. *)
Definition net_core (w : GNet) :=
  (cores w, net_msgs w, net_next w, net_cycle w, net_cfg w, net_m_switches w, net_simple w).

Lemma vget_cores w b x : vget (net_mbufs w) b = Some x → vget (cores w) b = Some (mb_core x).
Proof.
  intros [? Hl]%vget_Some. apply vget_Some. split; [done|]. unfold cores. by rewrite list_lookup_fmap, Hl.
Qed.

Lemma vget_cores_inv w b q :
  vget (cores w) b = Some q → ∃ x, vget (net_mbufs w) b = Some x ∧ mb_core x = q.
Proof.
  intros [Hb Hl]%vget_Some. unfold cores in Hl. rewrite list_lookup_fmap in Hl.
  apply fmap_Some in Hl as (x & Hx & ->). exists x. split; [by apply vget_Some|done].
Qed.

Lemma vset_fmap {A B} (f : A → B) l i a : f <$> vset l i a = vset (f <$> l) i (f a).
Proof. unfold vset. destruct (0 <=? i); [by rewrite list_fmap_insert|done]. Qed.

Lemma vset_vset {A} (l : list A) i a b : vset (vset l i a) i b = vset l i b.
Proof. unfold vset. destruct (0 <=? i); [by rewrite list_insert_insert_eq|done]. Qed.

(** Operations that only touch statistics, the event queue, the random numbers
    or the bookkeeping of a size. *)
Definition keeps_core : relation GNet := keeps net_core.
#[export] Instance keeps_core_preorder : PreOrder keeps_core := keeps_preorder net_core.

Lemma keeps_core_upd_mbuf b f :
  (∀ x, mb_core (f x) = mb_core x) → preserves keeps_core (upd_mbuf b f).
Proof.
  intros Hf w [] w' (x & w1 & Hx & [= <-])%bind_Ok. unfold get_mbuf in Hx.
  apply bind_Ok in Hx as (o & w2 & [= <- <-] & [Hx ->]%optG_Ok).
  unfold keeps_core, keeps, net_core, cores. simpl. rewrite vset_fmap, Hf.
  by rewrite vset_same by (by apply vget_cores).
Qed.

Create HintDb core_kept.
#[export] Hint Extern 1 (preserves keeps_core (upd_mbuf _ _)) =>
  apply keeps_core_upd_mbuf; intros ?; reflexivity : core_kept.
Lemma keeps_core_optG {A} (o : option A) e : preserves keeps_core (optG o e).
Proof. destruct o; [apply preserves_ret, _ | apply preserves_fail]. Qed.
#[export] Hint Resolve keeps_core_optG : core_kept.
Ltac core_prim := apply preserves_modify; intros ?; reflexivity.
Tactic Notation "pres_core" := pres by first [solve [auto 2 with nocore core_kept] | core_prim].

Lemma keeps_core_areNSlotsAvailable b n t :
  preserves keeps_core (MessageBuffer_areNSlotsAvailable b n t).
Proof. pres_core. Qed.
Lemma keeps_core_getSize b t : preserves keeps_core (MessageBuffer_getSize b t).
Proof. pres_core. Qed.
Lemma keeps_core_schedule c t : preserves keeps_core (Consumer_scheduleEvent c t).
Proof. pres_core. Qed.

(** A total operation that keeps the core: the result is arbitrary. *)
Lemma wp_core {A} (m : G A) (Q : A → GNet → Prop) w :
  wp m (λ _ _, True) w → preserves keeps_core m →
  (∀ a w', net_core w' = net_core w → Q a w') → wp m Q w.
Proof.
  intros Hm Hk HQ. eapply wp_mono; [by apply (wp_and_preserves _ _ _ _ Hm Hk)|].
  intros a w' [_ Hw]. by apply HQ.
Qed.

Lemma wp_areNSlotsAvailable b n t w q (Q : bool → GNet → Prop) :
  vget (cores w) b = Some q → (∀ a w', net_core w' = net_core w → Q a w') →
  wp (MessageBuffer_areNSlotsAvailable b n t) Q w.
Proof.
  intros (x & Hx & _)%vget_cores_inv. apply wp_core; [|apply keeps_core_areNSlotsAvailable].
  unfold MessageBuffer_areNSlotsAvailable. apply wp_bind, (wp_get_mbuf _ _ x); [done|].
  destruct (_ =? 0); [done|]. destruct (_ <=? _); [done|].
  apply wp_bind, (wp_upd_mbuf _ _ _ x); [done|]. by intros.
Qed.

Lemma wp_getSize b t w q (Q : Z → GNet → Prop) :
  vget (cores w) b = Some q → (∀ a w', net_core w' = net_core w → Q a w') →
  wp (MessageBuffer_getSize b t) Q w.
Proof.
  intros (x & Hx & _)%vget_cores_inv. apply wp_core; [|apply keeps_core_getSize].
  unfold MessageBuffer_getSize. apply wp_bind, (wp_get_mbuf _ _ x); [done|].
  apply wp_bind, (wp_upd_mbuf_if _ _ _ _ x); [done|]. intros w' [_ Hx'].
  eapply wp_bind, wp_get_mbuf; [done|]. done.
Qed.

Lemma wp_scheduleEvent c t w (Q : () → GNet → Prop) :
  (∀ w', net_core w' = net_core w → Q tt w') → wp (Consumer_scheduleEvent c t) Q w.
Proof.
  intros HQ. apply wp_core; [|apply keeps_core_schedule|by intros []].
  unfold Consumer_scheduleEvent, clockEdge. apply wp_bind, wp_bind, wp_gets, wp_bind, wp_gets, wp_ret.
  by apply wp_schedule.
Qed.

Lemma wp_random_between lo hi w (Q : Z → GNet → Prop) :
  lo ≤ hi → (∀ a w', lo ≤ a ≤ hi → net_core w' = net_core w → Q a w') → wp (random_between lo hi) Q w.
Proof.
  intros Hle HQ. unfold random_between, random.
  apply wp_bind, wp_bind, wp_gets, wp_bind, wp_modify, wp_gets, wp_ret, HQ; [|done].
  pose proof (Z.mod_pos_bound (Z.of_N (net_random w (net_rng w))) (hi - lo + 1) ltac:(lia)). simpl. lia.
Qed.

Lemma wp_isReady b t w q (Q : bool → GNet → Prop) :
  vget (cores w) b = Some q → Forall (λ p, is_Some (net_msgs w !! p)) (qc_heap q) →
  Q (match qc_heap q with
     | [] => false
     | p :: _ => msg_m_LastEnqueueTime (msg_at (net_msgs w) p) <=? t end) w →
  wp (MessageBuffer_isReady b t) Q w.
Proof.
  intros (x & Hx & <-)%vget_cores_inv Hl HQ. unfold MessageBuffer_isReady.
  apply wp_bind, (wp_get_mbuf _ _ x); [done|]. simpl in *. destruct (mb_m_prio_heap x) as [|p l]; [done|].
  apply Forall_cons in Hl as [[m Hm] _]. apply wp_bind, (wp_get_msg _ _ m); [done|].
  apply wp_ret. unfold msg_at in HQ. by rewrite Hm in HQ.
Qed.

Lemma wp_peekMsgPtr b w q p l (Q : ptr → GNet → Prop) :
  vget (cores w) b = Some q → qc_heap q = p :: l → Q p w → wp (MessageBuffer_peekMsgPtr b) Q w.
Proof.
  intros (x & Hx & <-)%vget_cores_inv Hl HQ. unfold MessageBuffer_peekMsgPtr.
  apply wp_bind, (wp_get_mbuf _ _ x); [done|]. simpl in Hl. by rewrite Hl.
Qed.

(** ** [enqueue] *)

(** Only buffer [b] and the random numbers change; [x'] is its new state. *)
Definition net_rest (w : GNet) :=
  (net_msgs w, net_next w, net_cycle w, net_cfg w, net_m_switches w, net_simple w,
   net_scheduled w, net_eventq w).
Definition buf_step (b : Z) (x' : MessageBuffer) (w w' : GNet) : Prop :=
  net_mbufs w' = vset (net_mbufs w) b x' ∧ vget (net_mbufs w') b = Some x' ∧
  net_rest w' = net_rest w.

Lemma buf_step_trans b x1 x2 w w1 w2 :
  buf_step b x1 w w1 → buf_step b x2 w1 w2 → buf_step b x2 w w2.
Proof.
  intros (E1 & _ & R1) (E2 & H2 & R2). split_and!; [by rewrite E2, E1, vset_vset|done|congruence].
Qed.

Lemma buf_step_refl b x w : vget (net_mbufs w) b = Some x → buf_step b x w w.
Proof. intros Hx. split_and!; [by rewrite vset_same|done|done]. Qed.

Lemma mb_updated_step w b y w' : mb_updated w b y w' → buf_step b y w w'.
Proof. intros [-> Hy]. by split_and!. Qed.

Ltac mod_pos :=
  repeat match goal with
         | |- context [?a mod ?k] =>
             pose proof (Z.mod_pos_bound a k ltac:(reflexivity)); generalize dependent (a mod k); intros
         end; lia.

Lemma wp_random_time b x w (Q : Z → GNet → Prop) :
  vget (net_mbufs w) b = Some x →
  (∀ t w', 1 ≤ t → buf_step b x w w' → Q t w') → wp random_time Q w.
Proof.
  intros Hx HQ. unfold random_time, random_between, random.
  apply wp_bind, wp_bind, wp_bind, wp_gets, wp_bind, wp_modify, wp_gets, wp_ret.
  apply wp_bind, wp_bind, wp_bind, wp_gets, wp_bind, wp_modify, wp_gets, wp_ret. simpl.
  destruct (_ =? 0).
  - apply wp_bind, wp_bind, wp_bind, wp_gets, wp_bind, wp_modify, wp_gets, wp_ret, wp_ret.
    apply HQ; [mod_pos|by split_and!; [rewrite vset_same| |]].
  - apply wp_ret. apply HQ; [mod_pos|by split_and!; [rewrite vset_same| |]].
Qed.

(** The arrival tick is later than now, and does not overtake a FIFO buffer. *)
Definition enq_ok (c : NetConfig) (q : QCore) (a : Z) : Prop :=
  cf_randomization c = true ∨ qc_randomization q = true ∨ qc_fifo q = false ∨
  qc_last_arrival q ≤ a.

Definition not_random (c : NetConfig) (q : QCore) : Prop :=
  cf_randomization c = false ∧ qc_randomization q = false.

Lemma wp_arrival_time b x w t delta (Q : Z → GNet → Prop) :
  vget (net_mbufs w) b = Some x → 0 < delta → enq_ok (net_cfg w) (mb_core x) (t + delta) →
  (∀ a last w', buf_step b (x <| mb_m_last_arrival_time := last |>) w w' → t < a →
     (mb_m_strict_fifo x = true → last ≤ a) →
     (not_random (net_cfg w) (mb_core x) → a = t + delta ∧ last = mb_m_last_arrival_time x) →
     Q a w') →
  wp (MessageBuffer_arrival_time b t delta) Q w.
Proof.
  intros Hx Hd Hok HQ. unfold MessageBuffer_arrival_time. apply wp_bind, (wp_get_mbuf _ _ x); [done|].
  apply wp_bind, wp_gets.
  assert (Hx' : vget (net_mbufs w) b = Some (x <| mb_m_last_arrival_time := mb_m_last_arrival_time x |>))
    by (rewrite Hx; by destruct x).
  destruct (negb _ && negb _) eqn:R.
  { apply wp_ret, (HQ _ (mb_m_last_arrival_time x)); [by apply buf_step_refl|lia| |done].
    intros Hf. apply andb_true_iff in R as [R1%negb_true_iff R2%negb_true_iff].
    unfold enq_ok in Hok. simpl in *. rewrite R1, R2, Hf in Hok. naive_solver. }
  assert (Hnr : ¬ not_random (net_cfg w) (mb_core x)).
  { intros [R1 R2]. simpl in R2. by rewrite R1, R2 in R. }
  destruct (mb_m_strict_fifo x) eqn:R3.
  2: { eapply wp_bind, wp_random_time; [exact Hx|]. intros d w' Hd' Hstep. apply wp_ret.
       apply (HQ _ (mb_m_last_arrival_time x)); [by destruct x|lia|done|done]. }
  apply wp_bind, (wp_upd_mbuf_if _ _ _ _ x); [done|]. intros w1 Hw1%mb_updated_step.
  set (x1 := if _ <? t then _ else x) in *.
  assert (Hx1 : x1 = x <| mb_m_last_arrival_time := Z.max t (mb_m_last_arrival_time x) |>).
  { unfold x1. destruct (Z.ltb_spec (mb_m_last_arrival_time x) t); destruct x; simpl in *; f_equal; lia. }
  rewrite Hx1 in *. pose proof (proj1 (proj2 Hw1)) as Hv1.
  eapply wp_bind, wp_get_mbuf; [exact Hv1|]. eapply wp_bind, wp_random_time; [exact Hv1|].
  intros d w' Hd' Hstep. apply wp_ret, (HQ _ (Z.max t (mb_m_last_arrival_time x)));
    [by eapply buf_step_trans|simpl; lia|simpl; lia|done].
Qed.

(** ** [storeEventInfo] *)

(** The pending count of virtual network [v] of switch [s] changes by [k]. *)
Definition add_pending (v k : Z) (x : Switch) : Switch :=
  x <| sw_m_perfect_switch ::= λ y, y <| ps_m_pending_message_count ::=
         λ l, vset l v (default 0 (vget l v) + k) |> |>.
Definition bump_pending (c : option consumer) (v k : Z) (sws : list Switch) : list Switch :=
  match c with
  | Some (CPerfectSwitch s) =>
      match vget sws s with Some x => vset sws s (add_pending v k x) | None => sws end
  | _ => sws
  end.

(** A consumer that can be told about a message of virtual network [v]. *)
Definition event_ok (sws : list Switch) (c : option consumer) (v : Z) : Prop :=
  match c with
  | Some (CPerfectSwitch s) =>
      ∃ x, vget sws s = Some x ∧ 0 ≤ v < vsize (ps_m_pending_message_count (sw_m_perfect_switch x))
  | Some _ => True
  | None => False
  end.

Lemma wp_get_switch s w x (Q : Switch → GNet → Prop) :
  vget (net_m_switches w) s = Some x → Q x w → wp (get_switch s) Q w.
Proof.
  intros Hx. apply wp_run. unfold get_switch. apply bind_Ok. exists (Some x), w.
  split; [unfold gets; by rewrite Hx|by apply optG_Ok].
Qed.

Lemma wp_get_pswitch s w x (Q : PerfectSwitch → GNet → Prop) :
  vget (net_m_switches w) s = Some x → Q (sw_m_perfect_switch x) w → wp (get_pswitch s) Q w.
Proof. intros Hx HQ. by apply wp_bind, (wp_get_switch _ _ x). Qed.

Lemma wp_upd_switch s f w x (Q : () → GNet → Prop) :
  vget (net_m_switches w) s = Some x →
  Q tt (w <| net_m_switches ::= λ l, vset l s (f x) |>) → wp (upd_switch s f) Q w.
Proof. intros Hx HQ. by apply wp_bind, (wp_get_switch _ _ x). Qed.

Lemma wp_vgetG {A} (l : list A) i site a w (Q : A → GNet → Prop) :
  vget l i = Some a → Q a w → wp (vgetG l i site) Q w.
Proof. unfold vgetG. by intros ->. Qed.

Lemma wp_storeEventInfo c v w (Q : () → GNet → Prop) :
  event_ok (net_m_switches w) (Some c) v →
  Q tt (w <| net_m_switches ::= bump_pending (Some c) v 1 |>) →
  wp (Consumer_storeEventInfo c v) Q w.
Proof.
  intros Hok HQ. destruct c as [| | | |s|]; try (apply wp_ret; by destruct w).
  destruct Hok as (x & Hx & Hv). unfold Consumer_storeEventInfo, PerfectSwitch_storeEventInfo.
  apply wp_bind, (wp_get_pswitch _ _ x); [done|].
  destruct (vget_lookup _ _ Hv) as [n Hn]. apply wp_bind, (wp_vgetG _ _ _ n); [done|].
  apply (wp_upd_switch _ _ _ x); [done|]. simpl in HQ. rewrite Hx in HQ.
  replace (add_pending v 1 x) with (x <| sw_m_perfect_switch ::= λ y, y <| ps_m_pending_message_count ::=
    λ l, vset l v (n + 1) |> |>) in HQ; [done|].
  unfold add_pending. simpl. by rewrite Hn.
Qed.

(** ** The whole of [enqueue] *)

(** The message and the buffer after [enqueue], which arrives at tick [a]. *)
Definition enqueued_msg (t a k : Z) (m : Message) : Message :=
  m <| msg_m_DelayedTicks ::= λ d, d + (t - msg_m_LastEnqueueTime m) |>
    <| msg_m_LastEnqueueTime := a |> <| msg_m_msg_counter := k |>.
Definition enqueued_core (h : gmap ptr Message) (p : ptr) (last : Z) (q : QCore) : QCore :=
  q <| qc_heap ::= λ l, push_heap (msgptr_greater h) (l ++ [p]) |> <| qc_last_arrival := last |>.

Record enqueued (b : Z) (x : MessageBuffer) (p : ptr) (m : Message) (t delta : Z) (w w' : GNet) : Prop := {
  enq_after : ∃ a last, t < a ∧ (not_random (net_cfg w) (mb_core x) → a = t + delta) ∧
    enq_ok (net_cfg w) ((mb_core x) <| qc_last_arrival := last |>) (t + delta) ∧
    net_msgs w' = <[p := enqueued_msg t a (mb_m_msg_counter x + 1) m]> (net_msgs w) ∧
    cores w' = vset (cores w) b (enqueued_core (net_msgs w') p last (mb_core x)) ∧
    (∀ c, mb_m_consumer x = Some c → alreadyScheduled c a w = true ∨ (a, c) ∈ net_eventq w');
  enq_switches : net_m_switches w' = bump_pending (mb_m_consumer x) (mb_m_vnet_id x) 1 (net_m_switches w);
  enq_rest : (net_next w', net_cycle w', net_cfg w', net_simple w') =
             (net_next w, net_cycle w, net_cfg w, net_simple w);
}.

(** The last part: store the message, queue it, tell the consumer. *)
Lemma wp_enqueue_store b y w p m' o k a (Q : () → GNet → Prop) :
  vget (net_mbufs w) b = Some y → event_ok (net_m_switches w) o k →
  (∀ w', net_msgs w' = <[p := m']> (net_msgs w) →
     cores w' = vset (cores w) b
       ((mb_core y) <| qc_heap ::= λ l, push_heap (msgptr_greater (net_msgs w')) (l ++ [p]) |>) →
     net_m_switches w' = bump_pending o k 1 (net_m_switches w) →
     (net_next w', net_cycle w', net_cfg w', net_simple w') =
       (net_next w, net_cycle w, net_cfg w, net_simple w) →
     (∀ c, o = Some c → alreadyScheduled c a w = true ∨ (a, c) ∈ net_eventq w') → Q tt w') →
  wp (put_msg p m' ;; MessageBuffer_push b p ;;
      upd_mbuf b (λ x, x <| mb_m_buf_msgs ::= Z.succ |>) ;;
      c ← optG o (AssertFail "MessageBuffer.cc:213");
      Consumer_scheduleEventAbsolute c a ;; Consumer_storeEventInfo c k) Q w.
Proof.
  intros Hy Hok HQ. apply wp_bind, wp_modify, wp_bind. unfold MessageBuffer_push.
  apply wp_bind, wp_gets, (wp_upd_mbuf _ _ _ y); [done|]. intros w1 [E1 Hy1].
  apply wp_bind, (wp_upd_mbuf _ _ _ _ _ Hy1). intros w2 [E2 Hy2].
  destruct o as [c|]; [|done]. apply wp_bind, wp_ret, wp_bind.
  eapply wp_mono; [apply (wp_and_preserves keeps_core); [|pres_core]|].
  { apply (wp_schedule _ _ _ (λ _ w', alreadyScheduled c a w2 = true ∨ (a, c) ∈ net_eventq w')). by intros w3 _ _. }
  intros [] w3 [Hev Hk]. unfold keeps_core, keeps, net_core in Hk.
  injection Hk as K1 K2 K3 K4 K5 K6 K7.
  apply wp_storeEventInfo; [by rewrite K6, E2, E1|].
  apply HQ; simpl.
  - by rewrite K2, E2, E1.
  - transitivity (cores w3); [done|]. rewrite K1, K2, E2, E1. unfold cores. simpl. by rewrite vset_vset, vset_fmap.
  - by rewrite K6, E2, E1.
  - rewrite K3, K4, K5, K7, E2, E1. done.
  - intros ? [= <-]. by rewrite E2, E1 in Hev.
Qed.

Lemma wp_enqueue_message b y w p m o k n t a (Q : () → GNet → Prop) :
  vget (net_mbufs w) b = Some y → net_msgs w !! p = Some m → msg_m_LastEnqueueTime m ≤ t →
  event_ok (net_m_switches w) o k →
  (∀ w', net_msgs w' = <[p := enqueued_msg t a n m]> (net_msgs w) →
     cores w' = vset (cores w) b
       ((mb_core y) <| qc_heap ::= λ l, push_heap (msgptr_greater (net_msgs w')) (l ++ [p]) |>) →
     net_m_switches w' = bump_pending o k 1 (net_m_switches w) →
     (net_next w', net_cycle w', net_cfg w', net_simple w') =
       (net_next w, net_cycle w, net_cfg w, net_simple w) →
     (∀ c, o = Some c → alreadyScheduled c a w = true ∨ (a, c) ∈ net_eventq w') → Q tt w') →
  wp (m ← get_msg p; assertM (msg_m_LastEnqueueTime m <=? t) "MessageBuffer.cc:196" ;;
      m ← lift (Message_updateDelayedTicks t m);
      put_msg p (m <| msg_m_LastEnqueueTime := a |> <| msg_m_msg_counter := n |>) ;;
      MessageBuffer_push b p ;; upd_mbuf b (λ x, x <| mb_m_buf_msgs ::= Z.succ |>) ;;
      c ← optG o (AssertFail "MessageBuffer.cc:213");
      Consumer_scheduleEventAbsolute c a ;; Consumer_storeEventInfo c k) Q w.
Proof.
  intros Hy Hm Hle Hok HQ. apply wp_bind, (wp_get_msg _ _ m); [done|].
  apply wp_bind, wp_assertM; [lia|]. apply wp_bind, (wp_lift _ (m <| msg_m_DelayedTicks ::=
    λ d, d + (t - msg_m_LastEnqueueTime m) |>)).
  { unfold Message_updateDelayedTicks, assertO. by replace (msg_m_LastEnqueueTime m <=? t) with true by lia. }
  by apply (wp_enqueue_store _ y).
Qed.

Lemma wp_enqueue b x w p m t delta (Q : () → GNet → Prop) :
  vget (net_mbufs w) b = Some x → net_msgs w !! p = Some m → 0 < delta →
  msg_m_LastEnqueueTime m ≤ t → event_ok (net_m_switches w) (mb_m_consumer x) (mb_m_vnet_id x) →
  enq_ok (net_cfg w) (mb_core x) (t + delta) →
  (∀ w', enqueued b x p m t delta w w' → Q tt w') →
  wp (MessageBuffer_enqueue b p t delta) Q w.
Proof.
  intros Hx Hm Hd Hle Hc Hok HQ. unfold MessageBuffer_enqueue.
  apply wp_bind, (wp_get_mbuf _ _ x); [done|]. apply wp_bind, (wp_upd_mbuf_if _ _ _ _ x); [done|].
  intros w1 Hw1%mb_updated_step. set (x1 := if _ <? t then _ else x) in *.
  assert (mb_core x1 = mb_core x ∧ mb_m_msg_counter x1 = mb_m_msg_counter x) as [E1 E2]
    by (unfold x1; destruct (_ <? _); done).
  apply wp_bind, (wp_upd_mbuf _ _ _ x1); [apply Hw1|]. intros w2 Hw2%mb_updated_step.
  set (x2 := x1 <| mb_m_msg_counter ::= Z.succ |> <| mb_m_msgs_this_cycle ::= Z.succ |>) in *.
  assert (Ec : mb_core x2 = mb_core x) by exact E1.
  assert (Ek : mb_m_msg_counter x2 = mb_m_msg_counter x + 1) by (unfold x2; simpl; lia).
  pose proof (buf_step_trans _ _ _ _ _ _ Hw1 Hw2) as Hw. clearbody x2. clear Hw1 Hw2 E1 E2 x1 w1.
  assert (R4 : net_cfg w2 = net_cfg w) by (destruct Hw as (_ & _ & Hr); by injection Hr).
  apply wp_bind, wp_assertM; [lia|].
  apply wp_bind, (wp_arrival_time _ x2); [apply Hw|done|by rewrite R4, Ec|].
  intros a last w3 Hw3 Ha Hfifo Hnr. rewrite R4, Ec in Hnr. apply wp_bind, wp_assertM; [lia|].
  pose proof (buf_step_trans _ _ _ _ _ _ Hw Hw3) as Hw'. clear Hw Hw3 R4 w2.
  set (x3 := x2 <| mb_m_last_arrival_time := last |>) in *.
  eapply wp_bind, wp_get_mbuf; [apply Hw'|]. apply wp_bind.
  assert (Hff : mb_m_strict_fifo x3 && (a <? mb_m_last_arrival_time x3) = false).
  { simpl. destruct (mb_m_strict_fifo x2); [|done]. specialize (Hfifo eq_refl). simpl. lia. }
  rewrite Hff. apply wp_ret, wp_bind, wp_gets, wp_bind.
  eapply (wp_mono _ (λ _ w4, ∃ last', buf_step b (x3 <| mb_m_last_arrival_time := last' |>) w w4 ∧
    enq_ok (net_cfg w) ((mb_core x) <| qc_last_arrival := last' |>) (t + delta))).
  { assert (Hk : ∀ last', last' = last ∨ last' = a →
      enq_ok (net_cfg w) ((mb_core x) <| qc_last_arrival := last' |>) (t + delta)).
    { injection Ec as _ _ _ C4 C5 C6. unfold enq_ok, not_random in *. simpl in *. rewrite <- C4, <- C5, <- C6 in *.
      destruct (cf_randomization (net_cfg w)), (mb_m_randomization x2), (mb_m_strict_fifo x2); naive_solver lia. }
    destruct (cf_warmup_enabled _).
    - apply wp_ret. exists last. split; [done|]. apply Hk. by left.
    - eapply wp_upd_mbuf; [apply Hw'|]. intros w4 Hw4%mb_updated_step.
      exists a. split; [by eapply buf_step_trans|]. apply Hk. by right. }
  intros [] w4 (last' & (Hb4 & Hx4 & Hrest) & Hok'). injection Hrest as T1 T2 T3 T4 T5 T6 T7 T8.
  injection Ec as C1 C2 C3 C4 C5 C6.
  eapply wp_enqueue_message; [exact Hx4|by rewrite T1|done|simpl; by rewrite T5, C2, C3|].
  intros w5 M1 M2 M3 M4 M5. apply HQ. split.
  - exists a, last'. simpl in M1. rewrite Ek, T1 in M1. split_and!; [lia|naive_solver|done|done| |].
    + rewrite M2. unfold cores. rewrite Hb4, vset_fmap, vset_vset. f_equal.
      unfold enqueued_core, mb_core. simpl. by rewrite C1, C2, C3, C4, C5.
    + intros c Hcc. simpl in M5. rewrite C2 in M5. destruct (M5 c Hcc) as [Hs|]; [left|by right].
      unfold alreadyScheduled in *. by rewrite T7 in Hs.
  - simpl in M3. by rewrite M3, C2, C3, T5.
  - by rewrite M4, T2, T3, T4, T6.
Qed.

(** ** The whole of [dequeue] *)
Definition dequeued_msg (t : Z) (m : Message) : Message :=
  m <| msg_m_DelayedTicks ::= λ d, d + (t - msg_m_LastEnqueueTime m) |>.
Definition dequeued_core (h : gmap ptr Message) (q : QCore) : QCore :=
  q <| qc_heap ::= λ l, removelast (pop_heap (msgptr_greater h) l) |>.

Record dequeued (b : Z) (x : MessageBuffer) (p : ptr) (m : Message) (t : Z) (w w' : GNet) : Prop := {
  deq_msgs : net_msgs w' = <[p := dequeued_msg t m]> (net_msgs w);
  deq_cores : cores w' = vset (cores w) b (dequeued_core (net_msgs w') (mb_core x));
  deq_rest : (net_next w', net_cycle w', net_cfg w', net_m_switches w', net_simple w') =
             (net_next w, net_cycle w, net_cfg w, net_m_switches w, net_simple w);
}.

Lemma wp_dequeue b x w p tl m t (Q : Z → GNet → Prop) :
  vget (net_mbufs w) b = Some x → mb_m_prio_heap x = p :: tl → net_msgs w !! p = Some m →
  msg_m_LastEnqueueTime m ≤ t →
  (∀ w', dequeued b x p m t w w' → Q (msg_m_DelayedTicks m + (t - msg_m_LastEnqueueTime m)) w') →
  wp (MessageBuffer_dequeue b t true) Q w.
Proof.
  intros Hx Hl Hm Ht HQ. unfold MessageBuffer_dequeue. apply wp_bind. unfold MessageBuffer_isReady.
  apply wp_bind, (wp_get_mbuf _ _ x); [done|]. rewrite Hl.
  apply wp_bind, (wp_get_msg _ _ m); [done|]. apply wp_ret, wp_bind, wp_assertM; [lia|].
  apply wp_bind. unfold MessageBuffer_peekMsgPtr. apply wp_bind, (wp_get_mbuf _ _ x); [done|].
  rewrite Hl. apply wp_ret. apply wp_bind, (wp_get_msg _ _ m); [done|].
  apply wp_bind, (wp_lift _ (dequeued_msg t m)).
  { unfold Message_updateDelayedTicks, assertO. by replace (msg_m_LastEnqueueTime m <=? t) with true by lia. }
  apply wp_bind, wp_modify, wp_bind, wp_bind, wp_gets, wp_bind, wp_gets, wp_ret.
  apply wp_bind, (wp_get_mbuf _ _ x); [done|].
  apply wp_bind, (wp_upd_mbuf _ _ _ x); [done|]. intros w1 [E1 Hx1].
  apply wp_bind. eapply (wp_upd_mbuf_if _ _ _ _ _ _ Hx1). intros w2 [E2 Hx2].
  set (x2 := if _ <? t then _ else _) in Hx2, E2.
  assert (El2 : mb_core x2 = mb_core x) by (unfold x2; destruct (_ <? _); done). clearbody x2.
  apply wp_bind. unfold MessageBuffer_pop. apply wp_bind, wp_gets, (wp_upd_mbuf _ _ _ _ _ Hx2).
  intros w3 [E3 Hx3]. apply wp_bind, (wp_upd_mbuf _ _ _ _ _ Hx3). intros w4 [E4 Hx4].
  assert (Hd : ∀ w5, net_core w5 = net_core w4 → dequeued b x p m t w w5).
  { intros w5 Hc. injection Hc as K1 K2 K3 K4 K5 K6 K7.
    split; rewrite ?K1, ?K2, ?K3, ?K4, ?K5, ?K6, ?K7, E4, E3, E2, E1; [done| |done].
    unfold cores. simpl. rewrite !vset_vset, vset_fmap. f_equal. by rewrite <- El2. }
  apply wp_bind. destruct (mb_m_dequeue_callback x) as [n|].
  - apply (wp_scheduleEvent (CNI n) 1). intros w5 Hc. by apply wp_ret, HQ, Hd.
  - by apply wp_ret, wp_ret, HQ, Hd.
Qed.
