(* ===== verification/RoutingTheory.v ===== *)
(** * Correctness of route computation

    On a mesh of [rows] x [cols] routers, numbered row by row, every
    direction-based algorithm of RoutingUnit.cc picks a direction that brings
    the packet one hop closer to its destination; XY routing never turns from
    a column back into a row and west-first routing never turns to the west;
    table routing picks a link of minimal weight among those that reach the
    destination. *)

From S2P Require Import Prelude BinaryHeap NetDestModel CommonTypes GarnetState FlitBuffer Channels RoutingUnitModel SwapModel UnitsModel SwitchAllocatorModel MessageBufferModel NetworkInterfaceModel BuildModel Scenarios StateLemmas.

(** ** Mesh geometry *)
Definition col (cols id : Z) : Z := id `rem` cols.
Definition row (cols id : Z) : Z := id `quot` cols.
Definition in_mesh (rows cols id : Z) : Prop := 0 ≤ id < rows * cols.
Definition distance (cols a b : Z) : Z :=
  Z.abs (col cols b - col cols a) + Z.abs (row cols b - row cols a).

(** [a] and [b] lie on one line in direction [d] (no wrap-around at the edges
    of the mesh). *)
Definition along (cols : Z) (d : PortDirection) (a b : Z) : bool :=
  if (d =s "East") || (d =s "West") then row cols a =? row cols b else col cols a =? col cols b.

(** [n] is the neighbour of [me] in direction [d]. *)
Definition neighbour (rows cols me : Z) (d : PortDirection) (n : Z) : Prop :=
  get_downstreamId cols d me = Ok n ∧ in_mesh rows cols n ∧ along cols d me n = true.

(** [productive]: the neighbour in direction [d] exists and is one hop closer
    to [dest]. *)
Definition productive (rows cols me dest : Z) (d : PortDirection) : Prop :=
  ∃ n, neighbour rows cols me d n ∧ distance cols n dest = distance cols me dest - 1.

Lemma coords cols id :
  0 < cols → 0 ≤ id →
  id = row cols id * cols + col cols id ∧ 0 ≤ col cols id < cols ∧ 0 ≤ row cols id.
Proof.
  intros Hc Hid. unfold row, col.
  pose proof (Z.quot_rem' id cols). pose proof (Z.rem_bound_pos id cols Hid Hc).
  pose proof (Z.quot_pos id cols Hid Hc). lia.
Qed.

Lemma coords_of cols x y :
  0 ≤ x < cols → 0 ≤ y → col cols (y * cols + x) = x ∧ row cols (y * cols + x) = y.
Proof.
  intros Hx Hy. unfold row, col. assert (0 ≤ y * cols + x) by nia.
  rewrite Z.rem_mod_nonneg, Z.quot_div_nonneg by lia.
  split.
  - rewrite Z.add_comm, Z.mod_add by lia. apply Z.mod_small. lia.
  - rewrite Z.add_comm, Z.div_add by lia. rewrite Z.div_small by lia. lia.
Qed.

Lemma in_mesh_row rows cols id :
  0 < cols → in_mesh rows cols id → row cols id < rows.
Proof. unfold in_mesh. intros ? ?. pose proof (coords cols id). nia. Qed.

Lemma mesh_inj cols a b :
  0 < cols → 0 ≤ a → 0 ≤ b → col cols a = col cols b → row cols a = row cols b → a = b.
Proof.
  intros Hc Ha Hb Hx Hy.
  destruct (coords cols a Hc Ha) as [-> _]. destruct (coords cols b Hc Hb) as [-> _].
  congruence.
Qed.

Section Steps.
Context (rows cols me dest : Z).
Context (Hrows : 0 < rows) (Hcols : 0 < cols).
Context (Hme : in_mesh rows cols me) (Hdest : in_mesh rows cols dest).

Lemma east_productive : col cols me < col cols dest → productive rows cols me dest "East".
Proof.
  unfold in_mesh in *. intros Hlt.
  destruct (coords cols me) as (E & Hx & Hy); [lia..|].
  destruct (coords cols dest) as (E' & Hx' & Hy'); [lia..|].
  exists (me + 1). assert (En : me + 1 = row cols me * cols + (col cols me + 1)) by lia.
  destruct (coords_of cols (col cols me + 1) (row cols me)) as [Hc Hr]; [lia..|].
  pose proof (in_mesh_row rows cols me Hcols Hme).
  split; [split_and!; [done|unfold in_mesh; nia|]|];
    unfold along, distance; simpl; rewrite En, ?Hc, ?Hr; lia.
Qed.

Lemma west_productive : col cols dest < col cols me → productive rows cols me dest "West".
Proof.
  unfold in_mesh in *. intros Hlt.
  destruct (coords cols me) as (E & Hx & Hy); [lia..|].
  destruct (coords cols dest) as (E' & Hx' & Hy'); [lia..|].
  exists (me - 1). assert (En : me - 1 = row cols me * cols + (col cols me - 1)) by lia.
  destruct (coords_of cols (col cols me - 1) (row cols me)) as [Hc Hr]; [lia..|].
  pose proof (in_mesh_row rows cols me Hcols Hme).
  split; [split_and!; [done|unfold in_mesh; nia|]|];
    unfold along, distance; simpl; rewrite En, ?Hc, ?Hr; lia.
Qed.

Lemma north_productive : row cols me < row cols dest → productive rows cols me dest "North".
Proof.
  unfold in_mesh in *. intros Hlt.
  destruct (coords cols me) as (E & Hx & Hy); [lia..|].
  destruct (coords cols dest) as (E' & Hx' & Hy'); [lia..|].
  exists (me + cols). assert (En : me + cols = (row cols me + 1) * cols + col cols me) by lia.
  destruct (coords_of cols (col cols me) (row cols me + 1)) as [Hc Hr]; [lia..|].
  pose proof (in_mesh_row rows cols dest Hcols Hdest).
  split; [split_and!; [done|unfold in_mesh; nia|]|];
    unfold along, distance; simpl; rewrite En, ?Hc, ?Hr; lia.
Qed.

Lemma south_productive : row cols dest < row cols me → productive rows cols me dest "South".
Proof.
  unfold in_mesh in *. intros Hlt.
  destruct (coords cols me) as (E & Hx & Hy); [lia..|].
  destruct (coords cols dest) as (E' & Hx' & Hy'); [lia..|].
  exists (me - cols). assert (En : me - cols = (row cols me - 1) * cols + col cols me) by lia.
  destruct (coords_of cols (col cols me) (row cols me - 1)) as [Hc Hr]; [lia..|].
  pose proof (in_mesh_row rows cols me Hcols Hme).
  split; [split_and!; [done|unfold in_mesh; nia|]|];
    unfold along, distance; simpl; rewrite En, ?Hc, ?Hr; lia.
Qed.

Context (Hne : dest ≠ me).

(** The hop counts are not both zero, so one axis is open. *)
Lemma some_hop : col cols me ≠ col cols dest ∨ row cols me ≠ row cols dest.
Proof.
  destruct (decide (col cols me = col cols dest)); [|by left].
  destruct (decide (row cols me = row cols dest)); [|by right].
  destruct Hne. unfold in_mesh in *. by apply (mesh_inj cols); try lia.
Qed.

(** One of the directions of an axis on which there is a distance left. *)
Definition x_choice : PortDirection :=
  if col cols me <=? col cols dest then "East"%string else "West"%string.
Definition y_choice : PortDirection :=
  if row cols me <=? row cols dest then "North"%string else "South"%string.

Lemma x_choice_productive :
  col cols me ≠ col cols dest → productive rows cols me dest x_choice.
Proof.
  unfold x_choice. intros ?. destruct (Z.leb_spec (col cols me) (col cols dest));
    [apply east_productive | apply west_productive]; lia.
Qed.
Lemma y_choice_productive :
  row cols me ≠ row cols dest → productive rows cols me dest y_choice.
Proof.
  unfold y_choice. intros ?. destruct (Z.leb_spec (row cols me) (row cols dest));
    [apply north_productive | apply south_productive]; lia.
Qed.

Lemma pos_fields :
  let p := mesh_pos cols me dest in
  mp_x_hops p = Z.abs (col cols dest - col cols me) ∧
  mp_y_hops p = Z.abs (row cols dest - row cols me) ∧
  mp_x_dirn p = (col cols me <=? col cols dest) ∧
  mp_y_dirn p = (row cols me <=? row cols dest).
Proof. done. Qed.

(** Every direction function only ever returns one of the two choices, and
    only on an axis with distance left. *)
Lemma xy_dirn_choice d :
  xy_dirn (mesh_pos cols me dest) = Some d →
  (d = x_choice ∧ col cols me ≠ col cols dest) ∨
  (d = y_choice ∧ col cols me = col cols dest ∧ row cols me ≠ row cols dest).
Proof.
  destruct pos_fields as (Ex & Ey & Edx & Edy). unfold xy_dirn.
  rewrite Ex, Ey, Edx, Edy. fold x_choice y_choice.
  destruct (Z.ltb_spec 0 (Z.abs (col cols dest - col cols me)));
    destruct (Z.ltb_spec 0 (Z.abs (row cols dest - row cols me)));
    intros [= <-]; [left|left|right]; split_and?; first [done|lia].
Qed.

Lemma straight_dirn_choice d :
  straight_dirn (mesh_pos cols me dest) = Some d →
  (d = y_choice ∧ col cols me = col cols dest ∧ row cols me ≠ row cols dest) ∨
  (d = x_choice ∧ col cols me ≠ col cols dest ∧ row cols me = row cols dest).
Proof.
  destruct pos_fields as (Ex & Ey & Edx & Edy). unfold straight_dirn.
  rewrite Ex, Ey, Edx, Edy. fold x_choice y_choice. pose proof some_hop.
  destruct (Z.eqb_spec (Z.abs (col cols dest - col cols me)) 0);
    destruct (Z.eqb_spec (Z.abs (row cols dest - row cols me)) 0);
    intros [= <-]; [left|left|right]; split_and!; first [done|lia].
Qed.

Lemma straight_dirn_None :
  straight_dirn (mesh_pos cols me dest) = None →
  col cols me ≠ col cols dest ∧ row cols me ≠ row cols dest.
Proof.
  destruct pos_fields as (Ex & Ey & _). unfold straight_dirn. rewrite Ex, Ey.
  destruct (Z.eqb_spec (Z.abs (col cols dest - col cols me)) 0); [done|].
  destruct (Z.eqb_spec (Z.abs (row cols dest - row cols me)) 0); [done|]. lia.
Qed.

Lemma random_dirn_choice rand :
  random_dirn (mesh_pos cols me dest) rand = x_choice ∨
  random_dirn (mesh_pos cols me dest) rand = y_choice.
Proof.
  destruct pos_fields as (_ & _ & Edx & Edy). unfold random_dirn.
  rewrite Edx, Edy. unfold x_choice, y_choice.
  destruct (col cols me <=? col cols dest), (row cols me <=? row cols dest), rand; auto.
Qed.

Lemma choice_productive d :
  (d = x_choice ∧ col cols me ≠ col cols dest) ∨
  (d = y_choice ∧ row cols me ≠ row cols dest) →
  productive rows cols me dest d.
Proof.
  intros [[-> ?]|[-> ?]]; [by apply x_choice_productive | by apply y_choice_productive].
Qed.
End Steps.

(** ** A wired mesh

    What building a mesh leaves behind: the routers are numbered, and for
    every neighbour there is an output port in that direction here and an
    input port in the opposite direction there, with its buffers. *)
Definition mesh_dirns : list PortDirection := ["North"; "East"; "South"; "West"]%string.

Definition port_ok (w : GNet) (n : Z) (d : PortDirection) : bool :=
  match vget (net_m_routers w) n with
  | Some x =>
      match ru_m_inports_dirn2idx (rt_m_routing_unit x) !! d with
      | Some i =>
          match vget (rt_m_input_unit x) i with
          | Some u =>
              bool_decide (d = iu_m_direction u) &&
              forallb (λ vc, match vget (iu_m_vcs u) vc with
                             | Some c => bool_decide (is_Some (net_fbufs w !! vc_m_input_buffer c))
                             | None => false
                             end) (zrange 0 (iu_m_vc_per_vnet u))
          | None => false
          end
      | None => false
      end
  | None => false
  end.

Definition edge_ok (w : GNet) (rows cols id : Z) (d : PortDirection) : bool :=
  match vget (net_m_routers w) id, get_downstreamId cols d id, get_downstreamDirn d with
  | Some x, Ok n, Ok d' =>
      if (0 <=? n) && (n <? rows * cols) && along cols d id n then
        match ru_m_outports_dirn2idx (rt_m_routing_unit x) !! d with
        | Some o => (0 <=? o) && port_ok w n d'
        | None => false
        end
      else true
  | _, _, _ => false
  end.

Definition router_ok (w : GNet) (rows cols id : Z) : bool :=
  match vget (net_m_routers w) id with
  | Some x => (rt_m_id x =? id) && forallb (edge_ok w rows cols id) mesh_dirns
  | None => false
  end.

Definition mesh_wired (w : GNet) (rows cols : Z) : bool :=
  (0 <? rows) && (0 <? cols) && (cf_m_num_rows (net_cfg w) =? rows) &&
  (cf_m_num_cols (net_cfg w) =? cols) && (vsize (net_m_routers w) =? rows * cols) &&
  forallb (router_ok w rows cols) (zrange 0 (rows * cols)).

Lemma downstream_dirns cols d me n : get_downstreamId cols d me = Ok n → d ∈ mesh_dirns.
Proof.
  unfold get_downstreamId. intros H.
  repeat match type of H with
    | (if String.eqb d ?s then _ else _) = _ =>
        destruct (String.eqb_spec d s) as [->|]; [first [discriminate | set_solver]|]
    end. discriminate.
Qed.

Section Wired.
Context (w : GNet) (rows cols : Z) (Hw : mesh_wired w rows cols = true).

Lemma wired_dims :
  0 < rows ∧ 0 < cols ∧ cf_m_num_rows (net_cfg w) = rows ∧ cf_m_num_cols (net_cfg w) = cols ∧
  vsize (net_m_routers w) = rows * cols.
Proof. unfold mesh_wired in Hw. rewrite !andb_true_iff in Hw. lia. Qed.

Lemma wired_router id :
  in_mesh rows cols id →
  ∃ x, vget (net_m_routers w) id = Some x ∧ rt_m_id x = id ∧
       ∀ d, d ∈ mesh_dirns → edge_ok w rows cols id d = true.
Proof.
  intros Hid. unfold mesh_wired in Hw. rewrite !andb_true_iff in Hw. destruct Hw as [_ Hf].
  assert (Hr : id ∈ zrange 0 (rows * cols)) by (by apply elem_of_zrange).
  apply (forallb_elem _ _ _ Hf) in Hr. unfold router_ok in Hr.
  destruct (vget (net_m_routers w) id) as [x|]; [|done].
  rewrite andb_true_iff in Hr. destruct Hr as [He Hd]. exists x.
  split_and!; [done|lia|]. intros d. by apply forallb_elem.
Qed.

Lemma wired_edge id d n :
  in_mesh rows cols id → neighbour rows cols id d n →
  ∃ x o d', vget (net_m_routers w) id = Some x ∧ rt_m_id x = id ∧
    ru_m_outports_dirn2idx (rt_m_routing_unit x) !! d = Some o ∧ 0 ≤ o ∧
    get_downstreamDirn d = Ok d' ∧ port_ok w n d' = true.
Proof.
  intros Hid (Hn & Hin & Hdist). destruct (wired_router id Hid) as (x & Hx & Hxid & He).
  specialize (He d (downstream_dirns _ _ _ _ Hn)). unfold edge_ok in He.
  rewrite Hx, Hn in He. destruct (get_downstreamDirn d) as [d'|] eqn:Hd; [|done].
  unfold in_mesh in Hin.
  replace ((0 <=? n) && (n <? rows * cols) && along cols d id n) with true in He by (rewrite Hdist; lia).
  destruct (ru_m_outports_dirn2idx (rt_m_routing_unit x) !! d) as [o|] eqn:Eo; [|done].
  rewrite andb_true_iff in He. destruct He as [Ho Hp].
  exists x, o, d'. split_and!; first [done|lia].
Qed.

(** Counting the free VCs of a neighbour reads its buffers and returns. *)
Lemma wp_numFreeVC n d Q :
  d ≠ "Local"%string → port_ok w n d = true → (∀ k, Q k w) →
  wp (Router_get_numFreeVC (Some n) d) Q w.
Proof.
  intros Hd Hp HQ. unfold port_ok in Hp.
  destruct (vget (net_m_routers w) n) as [x|] eqn:Hx; [|done].
  destruct (ru_m_inports_dirn2idx (rt_m_routing_unit x) !! d) as [i|] eqn:Hi; [|done].
  destruct (vget (rt_m_input_unit x) i) as [u|] eqn:Hu; [|done].
  rewrite andb_true_iff, bool_decide_eq_true in Hp. destruct Hp as [Hdir Hvcs].
  unfold Router_get_numFreeVC. apply wp_bind, wp_ret, wp_bind, wp_assertM.
  { by destruct (String.eqb_spec d "Local"). }
  apply wp_bind, (wp_inports_dirn2idx _ _ _ x i); [done..|].
  unfold InputUnit_get_numFreeVC. apply wp_bind, (wp_get_input _ _ _ x u); [done..|].
  apply wp_bind, wp_assertM; [by apply bool_decide_eq_true|].
  apply wp_foldM_pure; [|done]. intros vc k Hvc.
  apply (forallb_elem _ _ _ Hvcs) in Hvc.
  destruct (vget (iu_m_vcs u) vc) as [c|] eqn:Hc; [|done].
  rewrite bool_decide_eq_true in Hvc.
  pose proof (wp_vc_isEmpty n i vc w x u c (λ b w', w' = w)) as He.
  specialize (He Hx Hu Hc Hvc eq_refl).
  apply wp_Ok in He as (b & w' & Hr & ->).
  eexists. apply bind_Ok. by eexists b, w.
Qed.

Lemma wp_downstreamRouter d me n Q :
  neighbour rows cols me d n → Q (Some n) w → wp (get_downstreamRouter d me) Q w.
Proof.
  intros (Hn & Hin & _) HQ. destruct wired_dims as (_ & _ & _ & Hc & Hv).
  unfold get_downstreamRouter, GarnetNetwork_get_downstreamId.
  apply wp_bind, wp_bind, wp_gets, (wp_lift _ n); [by rewrite Hc|].
  apply wp_bind, wp_gets, wp_ret. unfold in_mesh in Hin.
  replace ((n <? 0) || (vsize (net_m_routers w) <=? n)) with false; [done|]. lia.
Qed.

(** The adaptive choice between two neighbours returns one of them. *)
Lemma wp_adaptive_pick me rand dx ix dy iy nx ny Q :
  in_mesh rows cols me → neighbour rows cols me dx nx → neighbour rows cols me dy ny →
  get_downstreamDirn dx = Ok ix → get_downstreamDirn dy = Ok iy →
  Q dx w → Q dy w → wp (adaptive_pick me rand dx ix dy iy) Q w.
Proof.
  intros Hme Hnx Hny Hix Hiy Qx Qy.
  destruct (wired_edge me dx nx Hme Hnx) as (x & ox & d' & Hx & Hid & _ & _ & Ed & Hpx).
  rewrite Hix in Ed. injection Ed as <-.
  destruct (wired_edge me dy ny Hme Hny) as (_ & oy & d' & _ & _ & _ & _ & Ed & Hpy).
  rewrite Hiy in Ed. injection Ed as <-.
  assert (Hloc : ∀ d i, get_downstreamDirn d = Ok i → i ≠ "Local"%string).
  { intros d i. unfold get_downstreamDirn. repeat case_match; naive_solver. }
  unfold adaptive_pick. apply wp_bind, (wp_get_router _ _ x); [done|].
  rewrite Hid. apply wp_bind, (wp_downstreamRouter _ _ nx); [done|].
  apply wp_bind, (wp_downstreamRouter _ _ ny); [done|].
  apply wp_bind, wp_numFreeVC; [by eapply Hloc|done|]. intros kx.
  apply wp_bind, wp_numFreeVC; [by eapply Hloc|done|]. intros ky.
  apply wp_ret. repeat case_match; done.
Qed.
End Wired.

(** ** Every algorithm makes progress *)

(** The mesh algorithms of [outportCompute]. *)
Definition mesh_algorithm (a : Z) : Prop :=
  a = XY_ ∨ a = RANDOM_ ∨ a = ADAPT_RAND_ ∨ a = WestFirst_ ∨ a = ADAPT_WestFirst_.

(** The result of a route computation at router [r]: the output port of a
    productive direction; the random number generator is all that changed. *)
Definition productive_port (w : GNet) (rows cols r dest : Z) (o : Z) (w' : GNet) : Prop :=
  ∃ d x, productive rows cols r dest d ∧ vget (net_m_routers w) r = Some x ∧
    ru_m_outports_dirn2idx (rt_m_routing_unit x) !! d = Some o ∧ 0 ≤ o ∧
    w' = w <| net_rng := net_rng w' |>.

Section Progress.
Context (w : GNet) (rows cols r : Z) (route : RouteInfo).
Context (Hw : mesh_wired w rows cols = true).
Context (Hr : in_mesh rows cols r) (Hdest : in_mesh rows cols (ri_dest_router route)).
Context (Hne : ri_dest_router route ≠ r).

Abbreviation dest := (ri_dest_router route).
Abbreviation pos := (mesh_pos cols r dest).

Lemma wp_mesh_prologue s1 s2 Q : Q pos w → wp (mesh_prologue r route s1 s2) Q w.
Proof.
  intros HQ. destruct (wired_dims w rows cols Hw) as (? & ? & Hrows & Hcols & _).
  destruct (wired_router w rows cols Hw r Hr) as (x & Hx & Hid & _).
  unfold mesh_prologue. apply wp_bind, wp_gets, wp_bind, wp_gets, wp_bind, wp_assertM.
  { rewrite Hrows, Hcols. lia. }
  apply wp_bind, (wp_get_router _ _ x); [done|]. rewrite Hcols, Hid.
  apply wp_bind, wp_assertM; [|by apply wp_ret].
  destruct (pos_fields cols r dest) as (Ex & Ey & _). rewrite Ex, Ey.
  pose proof (some_hop rows cols r dest ltac:(done) Hr Hdest Hne). lia.
Qed.

(** The port of a productive direction, in a state that differs from [w] in
    the random numbers drawn. *)
Lemma wp_productive_port d w1 :
  w1 = w <| net_rng := net_rng w1 |> → productive rows cols r dest d →
  wp (outports_dirn2idx r d) (productive_port w rows cols r dest) w1.
Proof.
  intros Hw1 Hp. pose proof Hp as (n & Hn & _).
  destruct (wired_edge w rows cols Hw r d n Hr Hn) as (x & o & _ & Hx & _ & Ho & Ho0 & _).
  apply (wp_outports_dirn2idx _ _ _ x o); [by rewrite Hw1|done|].
  exists d, x. split_and!; done.
Qed.

Lemma straight_productive d : straight_dirn pos = Some d → productive rows cols r dest d.
Proof.
  destruct (wired_dims w rows cols Hw) as (? & ? & _).
  intros [(-> & _ & ?)|(-> & ? & _)]%(straight_dirn_choice rows); try done;
    apply choice_productive; auto.
Qed.

Lemma both_productive :
  straight_dirn pos = None →
  productive rows cols r dest (x_choice cols r dest) ∧
  productive rows cols r dest (y_choice cols r dest).
Proof.
  destruct (wired_dims w rows cols Hw) as (? & ? & _).
  intros [??]%straight_dirn_None. split; apply choice_productive; auto.
Qed.

Lemma wp_random_bit w1 Q :
  (∀ b, Q b (w1 <| net_rng ::= S |>)) → wp random_bit Q w1.
Proof. intros HQ. apply HQ. Qed.

Lemma wp_XY i d : wp (outportComputeXY r route i d) (productive_port w rows cols r dest) w.
Proof.
  destruct (wired_dims w rows cols Hw) as (? & ? & _).
  unfold outportComputeXY. apply wp_bind, wp_mesh_prologue, wp_bind.
  destruct (xy_dirn pos) as [dir|] eqn:E.
  - apply wp_ret, wp_productive_port; [by destruct w|].
    apply xy_dirn_choice in E as [(-> & ?)|(-> & _ & ?)]; apply choice_productive; auto.
  - exfalso. unfold xy_dirn in E. destruct (pos_fields cols r dest) as (Ex & Ey & _).
    pose proof (some_hop rows cols r dest ltac:(done) Hr Hdest Hne).
    rewrite Ex, Ey in E. repeat case_match; try done. lia.
Qed.

Lemma wp_Random i d :
  wp (outportComputeRandom r route i d) (productive_port w rows cols r dest) w.
Proof.
  unfold outportComputeRandom. apply wp_bind, wp_mesh_prologue, wp_bind.
  destruct (straight_dirn pos) as [dir|] eqn:E.
  - apply wp_ret, wp_productive_port; [by destruct w|]. by apply straight_productive.
  - apply wp_bind, wp_random_bit. intros b. apply wp_ret, wp_productive_port; [by destruct w|].
    destruct (both_productive E). by destruct (random_dirn_choice cols r dest b) as [->| ->].
Qed.

Lemma wp_WestFirst i d :
  wp (outportComputeWestFirst r route i d) (productive_port w rows cols r dest) w.
Proof.
  unfold outportComputeWestFirst. apply wp_bind, wp_mesh_prologue, wp_bind, wp_random_bit.
  intros b. apply wp_productive_port; [by destruct w|]. unfold westfirst_dirn.
  destruct (straight_dirn pos) as [dir|] eqn:E; [by apply straight_productive|].
  destruct (both_productive E) as [Px Py]. unfold x_choice, y_choice in Px, Py.
  destruct (pos_fields cols r dest) as (_ & _ & Edx & Edy). rewrite Edx, Edy.
  destruct (col cols r <=? col cols dest), (row cols r <=? row cols dest), b; done.
Qed.

(** The adaptive choice between the two productive directions. *)
Lemma wp_adaptive_productive dx ix dy iy b w1 :
  w1 = w <| net_rng := net_rng w1 |> →
  get_downstreamDirn dx = Ok ix → get_downstreamDirn dy = Ok iy →
  productive rows cols r dest dx → productive rows cols r dest dy →
  wp (adaptive_pick r b dx ix dy iy)
     (λ d, wp (outports_dirn2idx r d) (productive_port w rows cols r dest)) w1.
Proof.
  intros Hw1 Hix Hiy Px Py. pose proof Px as (nx & Hnx & _). pose proof Py as (ny & Hny & _).
  eapply (wp_adaptive_pick w1 rows cols); [by rewrite Hw1|done..| |];
    by apply wp_productive_port.
Qed.

Lemma wp_AdaptRand i d :
  wp (outportComputeAdaptRand r route i d) (productive_port w rows cols r dest) w.
Proof.
  unfold outportComputeAdaptRand. apply wp_bind, wp_mesh_prologue, wp_bind.
  destruct (straight_dirn pos) as [dir|] eqn:E.
  { apply wp_ret, wp_productive_port; [by destruct w|]. by apply straight_productive. }
  apply wp_bind, wp_random_bit. intros b.
  destruct (both_productive E) as [Px Py]. unfold x_choice, y_choice in Px, Py.
  destruct (pos_fields cols r dest) as (_ & _ & Edx & Edy). rewrite Edx, Edy.
  destruct (col cols r <=? col cols dest), (row cols r <=? row cols dest); simpl;
    (apply wp_adaptive_productive; [by destruct w|done..]).
Qed.

Lemma wp_AdaptWestFirst i d :
  wp (outportComputeAdaptWestFirst r route i d) (productive_port w rows cols r dest) w.
Proof.
  unfold outportComputeAdaptWestFirst.
  apply wp_bind, wp_mesh_prologue, wp_bind, wp_random_bit. intros b. apply wp_bind.
  destruct (straight_dirn pos) as [dir|] eqn:E.
  { apply wp_ret, wp_productive_port; [by destruct w|]. by apply straight_productive. }
  destruct (both_productive E) as [Px Py]. unfold x_choice, y_choice in Px, Py.
  destruct (pos_fields cols r dest) as (_ & _ & Edx & Edy). rewrite Edx, Edy.
  destruct (col cols r <=? col cols dest); simpl;
    [|by apply wp_ret, wp_productive_port; [destruct w|]].
  destruct (row cols r <=? row cols dest);
    (apply wp_adaptive_productive; [by destruct w|done..]).
Qed.
End Progress.

Lemma wp_outportCompute w rows cols r route inport inport_dirn :
  mesh_wired w rows cols = true →
  in_mesh rows cols r → in_mesh rows cols (ri_dest_router route) →
  ri_dest_router route ≠ r →
  mesh_algorithm (cf_m_routing_algorithm (net_cfg w)) →
  wp (outportCompute r route inport inport_dirn)
     (productive_port w rows cols r (ri_dest_router route)) w.
Proof.
  intros Hw Hr Hdest Hne Ha. destruct (wired_router w rows cols Hw r Hr) as (x & Hx & Hid & _).
  unfold outportCompute. apply wp_bind, (wp_get_router _ _ x); [done|].
  rewrite Hid. destruct (Z.eqb_spec (ri_dest_router route) r) as [?|_]; [done|].
  apply wp_bind, wp_gets, wp_bind.
  assert (Hpost : ∀ o w', productive_port w rows cols r (ri_dest_router route) o w' →
    wp (assertM (negb (o =? -1)) "RoutingUnit.cc:173" ;; mret o)
       (productive_port w rows cols r (ri_dest_router route)) w').
  { intros o w' Hp. pose proof Hp as (_ & _ & _ & _ & _ & Ho & _).
    apply wp_bind, wp_assertM; [lia|]. by apply wp_ret. }
  unfold mesh_algorithm in Ha.
  destruct Ha as [->|[->|[->|[->| ->]]]]; simpl; (eapply wp_mono; [|exact Hpost]);
    auto using wp_XY, wp_Random, wp_AdaptRand, wp_WestFirst, wp_AdaptWestFirst.
Qed.

(** C1.  On a wired mesh, with any of the five direction-based algorithms,
    [RoutingUnit::outportCompute] returns for every packet that is not at its
    destination router, and the port it returns leads to a neighbour that is
    one hop closer to the destination; nothing but the random number generator
    is changed. *)
Theorem outportCompute_productive w rows cols r route inport inport_dirn :
  mesh_wired w rows cols = true →
  in_mesh rows cols r → in_mesh rows cols (ri_dest_router route) →
  ri_dest_router route ≠ r →
  mesh_algorithm (cf_m_routing_algorithm (net_cfg w)) →
  wp (outportCompute r route inport inport_dirn)
     (productive_port w rows cols r (ri_dest_router route)) w.
Proof. exact (wp_outportCompute w rows cols r route inport inport_dirn). Qed.

Lemma outportCompute_productive_witness :
  wp (outportCompute 0 (sample_route 3) 0 "Local")
     (productive_port (sample_mesh 2 2 1 ADAPT_RAND_ 1) 2 2 0 3) (sample_mesh 2 2 1 ADAPT_RAND_ 1).
Proof.
  apply (outportCompute_productive (sample_mesh 2 2 1 ADAPT_RAND_ 1) 2 2 0 (sample_route 3)).
  - vm_compute. reflexivity.
  - unfold in_mesh. lia.
  - unfold in_mesh. simpl. lia.
  - simpl. lia.
  - right; right; left. vm_compute. reflexivity.
Defined.

(** ** Whole routes

    [walk choose cols fuel me] follows the directions that [choose] gives at
    each hop (numbered from 0) and returns them with the router it ends at. *)
Fixpoint walk (choose : nat → Z → option PortDirection) (cols : Z) (fuel : nat) (me : Z)
    : list PortDirection * Z :=
  match fuel with
  | O => ([], me)
  | S fuel =>
      match choose O me with
      | None => ([], me)
      | Some d =>
          match get_downstreamId cols d me with
          | Ok n => let '(ds, e) := walk (λ i, choose (S i)) cols fuel n in (d :: ds, e)
          | Abort _ => ([], me)
          end
      end
  end.

(** The routes of XY and of west-first routing; a packet stops at [dest]. *)
Definition xy_choose (cols dest : Z) (_ : nat) (me : Z) : option PortDirection :=
  if me =? dest then None else xy_dirn (mesh_pos cols me dest).
Definition westfirst_choose (bits : nat → bool) (cols dest : Z) (i : nat) (me : Z)
    : option PortDirection :=
  if me =? dest then None else Some (westfirst_dirn (mesh_pos cols me dest) (bits i)).

Section Walks.
Context (rows cols dest : Z).
Context (Hrows : 0 < rows) (Hcols : 0 < cols) (Hdest : in_mesh rows cols dest).

Definition productive_choice (choose : nat → Z → option PortDirection) : Prop :=
  ∀ i me, in_mesh rows cols me →
    (me = dest ∧ choose i me = None) ∨
    (me ≠ dest ∧ ∃ d, choose i me = Some d ∧ productive rows cols me dest d).

Lemma distance_nonneg a b : 0 ≤ distance cols a b.
Proof. unfold distance. lia. Qed.

Lemma distance_self : distance cols dest dest = 0.
Proof. unfold distance. lia. Qed.

(** [P i ds] holds of the directions taken from hop [i] on, if it holds of no
    hop and is kept by putting a chosen direction in front. *)
Lemma walk_delivers choose fuel me (P : Z → list PortDirection → Prop) :
  productive_choice choose → in_mesh rows cols me →
  distance cols me dest ≤ Z.of_nat fuel →
  P dest [] →
  (∀ i m d n ds, in_mesh rows cols m → m ≠ dest → choose i m = Some d →
     neighbour rows cols m d n → P n ds → P m (d :: ds)) →
  ∃ ds, walk choose cols fuel me = (ds, dest) ∧
        Z.of_nat (length ds) = distance cols me dest ∧ P me ds.
Proof.
  revert choose me. induction fuel as [|fuel IH]; intros choose me Hc Hme Hf H0 HS; simpl;
    destruct (Hc 0%nat me Hme) as [[-> E]|(Hne & d & E & n & (Hn & Hin & H1) & Hd)].
  - exists []. rewrite distance_self. done.
  - exfalso. pose proof (distance_nonneg n dest). lia.
  - rewrite E. exists []. rewrite distance_self. done.
  - rewrite E, Hn. destruct (IH (λ i, choose (S i)) n) as (ds & -> & Hl & HP);
      [intros i; apply (Hc (S i))|done|lia|done|intros i; apply (HS (S i))|].
    exists (d :: ds). split_and!; [done|simpl; lia|].
    eapply (HS 0%nat); eauto. done.
Qed.

Lemma xy_choice_productive : productive_choice (xy_choose cols dest).
Proof.
  intros i me Hme. unfold xy_choose. destruct (Z.eqb_spec me dest) as [->|Hne]; [by left|].
  right. split; [done|].
  pose proof (some_hop rows cols me dest Hcols Hme Hdest ltac:(congruence)) as Hh.
  destruct (xy_dirn (mesh_pos cols me dest)) as [d|] eqn:E.
  - exists d. split; [done|].
    apply xy_dirn_choice in E as [(-> & ?)|(-> & _ & ?)]; apply choice_productive; auto.
  - exfalso. unfold xy_dirn in E. destruct (pos_fields cols me dest) as (Ex & Ey & _).
    rewrite Ex, Ey in E. repeat case_match; try done. lia.
Qed.

Lemma westfirst_choice bits me :
  in_mesh rows cols me → me ≠ dest →
  let d := westfirst_dirn (mesh_pos cols me dest) bits in
  productive rows cols me dest d ∧
  (d = "West"%string ∧ col cols dest < col cols me ∨
   d ≠ "West"%string ∧ col cols me ≤ col cols dest ∧
     (d = "East"%string → col cols me < col cols dest)).
Proof.
  intros Hme Hne d. subst d. unfold westfirst_dirn.
  destruct (straight_dirn (mesh_pos cols me dest)) as [d|] eqn:E.
  - apply (straight_dirn_choice rows) in E; [|done..|congruence]. split.
    + destruct E as [(-> & _ & ?)|(-> & ? & _)]; apply choice_productive; auto.
    + destruct E as [(-> & ? & ?)|(-> & ? & _)]; unfold y_choice, x_choice.
      * right. split; [by destruct (_ <=? _)|]. split; [lia|]. by destruct (_ <=? _).
      * destruct (Z.leb_spec (col cols me) (col cols dest)); [right|left]; split_and?;
          first [done|lia].
  - apply straight_dirn_None in E as [Hx Hy].
    assert (Px : productive rows cols me dest (x_choice cols me dest))
      by (apply choice_productive; auto).
    assert (Py : productive rows cols me dest (y_choice cols me dest))
      by (apply choice_productive; auto).
    unfold x_choice in Px. unfold y_choice in Py.
    destruct (pos_fields cols me dest) as (_ & _ & Edx & Edy). rewrite Edx, Edy.
    destruct (Z.leb_spec (col cols me) (col cols dest)); simpl; [|split; [done|left; split; [done|lia]]].
    destruct (row cols me <=? row cols dest), bits; simpl;
      (split; [done|right; split_and!; first [done|lia]]).
Qed.

(** Geometry of a hop. *)
Lemma neighbour_col me d n :
  in_mesh rows cols me → neighbour rows cols me d n →
  ((d = "North"%string ∨ d = "South"%string) ∧ col cols n = col cols me) ∨
  (d = "East"%string ∧ col cols n = col cols me + 1) ∨
  (d = "West"%string ∧ col cols n = col cols me - 1).
Proof.
  intros Hme (Hn & Hin & Hd). unfold in_mesh, along in *.
  destruct (coords cols me) as (E & Hx & Hy); [lia..|].
  destruct (coords cols n) as (E' & Hx' & Hy'); [lia..|].
  unfold get_downstreamId in Hn.
  repeat match type of Hn with
    | (if String.eqb d ?s then _ else _) = _ =>
        destruct (String.eqb_spec d s) as [->|]
    end; simplify_eq; simpl in Hd.
  - right; left. split; [done|]. nia.
  - right; right. split; [done|]. nia.
  - left. split; [by left|]. nia.
  - left. split; [by right|]. nia.
Qed.
End Walks.

Definition is_x (d : PortDirection) : Prop := d = "East"%string ∨ d = "West"%string.
Definition is_y (d : PortDirection) : Prop := d = "North"%string ∨ d = "South"%string.

(** XY routing delivers: following the direction of [outportComputeXY] at
    every hop, a packet reaches its destination in exactly the mesh distance,
    and it makes all its horizontal hops before its vertical ones (the
    forbidden turns of dimension-order routing are never taken). *)
Lemma xy_route_delivers rows cols me dest fuel :
  0 < rows → 0 < cols → in_mesh rows cols me → in_mesh rows cols dest →
  distance cols me dest ≤ Z.of_nat fuel →
  ∃ xs ys, walk (xy_choose cols dest) cols fuel me = (xs ++ ys, dest) ∧
    Z.of_nat (length (xs ++ ys)) = distance cols me dest ∧ Forall is_x xs ∧ Forall is_y ys.
Proof.
  intros Hr Hc Hme Hdest Hf.
  destruct (walk_delivers rows cols dest (xy_choose cols dest) fuel me
    (λ m ds, ∃ xs ys, ds = xs ++ ys ∧ Forall is_x xs ∧ Forall is_y ys ∧
                      (col cols m = col cols dest → xs = [])))
    as (ds & Hwalk & Hl & xs & ys & -> & Hxs & Hys & _);
    [by apply xy_choice_productive|done|done|by exists [], []; split_and!; constructor| |
     by exists xs, ys].
  intros i m d n ds Hm Hne Hd Hn (xs & ys & -> & Hxs & Hys & Hc0).
  unfold xy_choose in Hd. destruct (Z.eqb_spec m dest); [done|].
  apply xy_dirn_choice in Hd as [(-> & Hx)|(-> & Hx & _)].
  - exists (x_choice cols m dest :: xs), ys. split_and!; [done| |done|done].
    constructor; [|done]. unfold x_choice, is_x. destruct (_ <=? _); auto.
  - destruct (neighbour_col rows cols Hr Hc m _ n Hm Hn) as [[_ Hcol]|[[Hd _]|[Hd _]]];
      [|by unfold y_choice in Hd; destruct (_ <=? _)..].
    rewrite Hc0 by congruence. exists [], (y_choice cols m dest :: ys). split_and!; try done.
    constructor; [|done]. unfold y_choice, is_y. destruct (_ <=? _); auto.
Qed.

(** West-first routing delivers whatever the random bits are: a packet
    reaches its destination in exactly the mesh distance, and all its hops to
    the west come first (it never turns to the west). *)
Lemma westfirst_route_delivers rows cols me dest bits fuel :
  0 < rows → 0 < cols → in_mesh rows cols me → in_mesh rows cols dest →
  distance cols me dest ≤ Z.of_nat fuel →
  ∃ k ds, walk (westfirst_choose bits cols dest) cols fuel me =
            (replicate k "West"%string ++ ds, dest) ∧
    Z.of_nat (length (replicate k "West"%string ++ ds)) = distance cols me dest ∧
    "West"%string ∉ ds.
Proof.
  intros Hr Hc Hme Hdest Hf.
  destruct (walk_delivers rows cols dest (westfirst_choose bits cols dest) fuel me
    (λ m ds, ∃ k ds', ds = replicate k "West"%string ++ ds' ∧ ("West"%string ∉ ds') ∧
                      (col cols m ≤ col cols dest → k = 0%nat)))
    as (ds & Hwalk & Hl & k & ds' & -> & Hds & _);
    [|done|done|by exists 0%nat, []; split_and!; [|set_solver|]| |by exists k, ds'].
  - intros i m Hm. unfold westfirst_choose. destruct (Z.eqb_spec m dest) as [->|]; [by left|].
    right. split; [done|]. eexists. split; [done|]. by apply westfirst_choice.
  - intros i m d n ds Hm Hne Hd Hn (k & ds' & -> & Hds & Hk).
    unfold westfirst_choose in Hd. destruct (Z.eqb_spec m dest); [done|].
    injection Hd as <-.
    destruct (westfirst_choice rows cols dest Hr Hc Hdest (bits i) m Hm Hne)
      as [_ [[Hd Hlt]|(Hd & Hle & Heast)]].
    + exists (S k), ds'. rewrite Hd. split_and!; [done|done|lia].
    + rewrite Hk.
      * exists 0%nat, (westfirst_dirn (mesh_pos cols m dest) (bits i) :: ds'). set_solver.
      * destruct (neighbour_col rows cols Hr Hc m _ n Hm Hn) as [[_ ->]|[[Hd' ->]|[Hd' _]]];
          [done|specialize (Heast Hd'); lia|done].
Qed.

(** C2.  Routing on the mesh delivers in exactly the mesh distance.  Following
    [outportComputeXY] at every hop, a packet reaches its destination and makes
    all its horizontal hops before its vertical ones; following west-first
    routing it does so whatever the random bits are, with all its hops to the
    west first.  The turns that the two algorithms forbid are never taken. *)
Theorem mesh_routes_deliver rows cols me dest bits fuel :
  0 < rows → 0 < cols → in_mesh rows cols me → in_mesh rows cols dest →
  distance cols me dest ≤ Z.of_nat fuel →
  (∃ xs ys, walk (xy_choose cols dest) cols fuel me = (xs ++ ys, dest) ∧
    Z.of_nat (length (xs ++ ys)) = distance cols me dest ∧ Forall is_x xs ∧ Forall is_y ys) ∧
  (∃ k ds, walk (westfirst_choose bits cols dest) cols fuel me =
            (replicate k "West"%string ++ ds, dest) ∧
    Z.of_nat (length (replicate k "West"%string ++ ds)) = distance cols me dest ∧
    "West"%string ∉ ds).
Proof.
  intros Hr Hc Hme Hdest Hf.
  split; [by apply (xy_route_delivers rows)|by apply (westfirst_route_delivers rows)].
Qed.

Lemma mesh_routes_deliver_witness :
  walk (xy_choose 4 2) 4 5 9 = (["East"; "South"; "South"]%string, 2) ∧
  (∃ xs ys, walk (xy_choose 4 2) 4 5 9 = (xs ++ ys, 2) ∧
    Z.of_nat (length (xs ++ ys)) = distance 4 9 2 ∧ Forall is_x xs ∧ Forall is_y ys) ∧
  ∃ k ds, walk (westfirst_choose Nat.even 4 2) 4 5 9 = (replicate k "West"%string ++ ds, 2) ∧
    Z.of_nat (length (replicate k "West"%string ++ ds)) = distance 4 9 2 ∧ "West"%string ∉ ds.
Proof.
  split; [vm_compute; reflexivity|].
  apply (mesh_routes_deliver 4 4 9 2 Nat.even 5);
    [lia..| | |]; unfold in_mesh; simpl; vm_compute; intuition discriminate.
Defined.

(** ** Table routing *)
Section Table.
Context (u : RoutingUnit) (dst : NetDest).

(** [link] reaches the destination, with weight [wt]. *)
Definition reaches (link wt : Z) : Prop :=
  ∃ entry, vget (ru_m_routing_table u) link = Some entry ∧
    NetDest_intersectionIsNotEmpty entry dst = Ok true ∧
    vget (ru_m_weight_table u) link = Some wt.

(** The tables have one entry per link, and the destination sets have the
    same shape as [dst]. *)
Definition table_ok : bool :=
  (vsize (ru_m_weight_table u) =? vsize (ru_m_routing_table u)) &&
  forallb (λ entry, match NetDest_intersectionIsNotEmpty entry dst with
                    | Ok _ => true
                    | Abort _ => false
                    end) (ru_m_routing_table u).

Context (Hok : table_ok = true).

Lemma table_lookup link :
  link ∈ zrange 0 (vsize (ru_m_routing_table u)) →
  ∃ entry b wt, vget (ru_m_routing_table u) link = Some entry ∧
    NetDest_intersectionIsNotEmpty entry dst = Ok b ∧
    vget (ru_m_weight_table u) link = Some wt ∧
    (b = true → reaches link wt) ∧ (∀ wt', reaches link wt' → b = true ∧ wt' = wt).
Proof.
  unfold table_ok in Hok. rewrite andb_true_iff in Hok. destruct Hok as [Hlen Hint].
  intros Hl%elem_of_zrange.
  destruct (vget_lookup (ru_m_routing_table u) link) as [entry He]; [lia|].
  pose proof He as [_ Hin%list_elem_of_lookup_2]%vget_Some.
  apply (forallb_elem _ _ _ Hint) in Hin.
  destruct (NetDest_intersectionIsNotEmpty entry dst) as [b|] eqn:Hb; [|done].
  destruct (vget_lookup (ru_m_weight_table u) link) as [wt Hwt]; [lia|].
  exists entry, b, wt. split_and!; try done.
  - intros ->. by exists entry.
  - intros wt' (e & ? & ? & ?). simplify_eq. split; congruence.
Qed.

Lemma wp_min_route_weight w :
  wp (min_route_weight u dst)
     (λ m w', w' = w ∧ m ≤ INFINITE_ ∧ (∀ l wt, reaches l wt → m ≤ wt) ∧
              (m = INFINITE_ ∨ ∃ l, reaches l m)) w.
Proof.
  eapply wp_mono; [apply (wp_foldM _ _ _ (λ pre m w', w' = w ∧ m ≤ INFINITE_ ∧
    (∀ l wt, l ∈ pre → reaches l wt → m ≤ wt) ∧ (m = INFINITE_ ∨ ∃ l, reaches l m)))|].
  - split_and!; [done|lia|set_solver|by left].
  - intros pre l m w1 Hl (-> & Hm & Hmin & Hex).
    destruct (table_lookup l Hl) as (e & b & wt & He & Hb & Hwt & Hr & Hr').
    unfold vgetG. rewrite He. apply wp_bind, wp_ret, wp_bind, (wp_lift _ b); [done|].
    destruct b.
    + rewrite Hwt. apply wp_bind, wp_ret, wp_ret. split_and!; [done|case_match; lia| |].
      * intros l' wt' [Hl'| ->%list_elem_of_singleton]%elem_of_app Hr''.
        -- specialize (Hmin _ _ Hl' Hr''). case_match; lia.
        -- destruct (Hr' _ Hr'') as [_ ->]. case_match; lia.
      * case_match; [right; eauto|done].
    + apply wp_ret. split_and!; [done|done| |done].
      intros l' wt' [Hl'| ->%list_elem_of_singleton]%elem_of_app Hr''; [eauto|].
      by destruct (Hr' _ Hr'').
  - intros m w' (-> & Hm & Hmin & Hex). split_and!; [done|done| |done].
    intros l wt Hr. apply (Hmin l wt); [|done]. destruct Hr as (e & He & _).
    apply elem_of_zrange. by apply vget_Some_lt in He.
Qed.

Lemma wp_route_candidates m w :
  wp (route_candidates u dst m) (λ cs w', w' = w ∧ ∀ l, l ∈ cs ↔ reaches l m) w.
Proof.
  eapply wp_mono; [apply (wp_foldM _ _ _
    (λ pre cs w', w' = w ∧ ∀ l, l ∈ cs ↔ l ∈ pre ∧ reaches l m))|].
  - set_solver.
  - intros pre l cs w1 Hl (-> & Hcs).
    destruct (table_lookup l Hl) as (e & b & wt & He & Hb & Hwt & Hr & Hr').
    unfold vgetG. rewrite He. apply wp_bind, wp_ret, wp_bind, (wp_lift _ b); [done|].
    assert (Hno : b = false ∨ wt ≠ m → ∀ l', l' ∈ cs ↔ l' ∈ pre ++ [l] ∧ reaches l' m).
    { intros Hb' l'. rewrite Hcs, elem_of_app, list_elem_of_singleton.
      split; [naive_solver|]. intros [[?| ->] ?]; [done|].
      destruct (Hr' m) as [-> ->]; [done|]. naive_solver. }
    destruct b; [|apply wp_ret; eauto].
    rewrite Hwt. apply wp_bind, wp_ret, wp_ret. split; [done|].
    destruct (Z.eqb_spec wt m) as [->|]; [|eauto].
    intros l'. rewrite !elem_of_app, !list_elem_of_singleton, Hcs. naive_solver.
  - intros cs w' (-> & Hcs). split; [done|]. intros l. rewrite Hcs. split; [naive_solver|].
    intros Hr. split; [|done]. destruct Hr as (e & He & _).
    apply elem_of_zrange. by apply vget_Some_lt in He.
Qed.
End Table.

Lemma lookupRoutingTable_run w r x vnet dst :
  vget (net_m_routers w) r = Some x →
  table_ok (rt_m_routing_unit x) dst = true →
  is_Some (vget (cf_m_ordered (net_cfg w)) vnet) →
  let reach := reaches (rt_m_routing_unit x) dst in
  match lookupRoutingTable r vnet dst w with
  | Ok (link, w') => w' = w <| net_rng := net_rng w' |> ∧
      ∃ wt, reach link wt ∧ wt ≤ INFINITE_ ∧ ∀ l wt', reach l wt' → wt ≤ wt'
  | Abort e => e = Fatal "Fatal Error:: No Route exists from this Router." ∧
               ∀ l wt, reach l wt → INFINITE_ < wt
  end.
Proof.
  intros Hx Hok [ord Hord] reach. unfold lookupRoutingTable.
  erewrite bind_run by (by apply get_router_Ok).
  destruct (proj1 (wp_Ok _ _ _) (wp_min_route_weight _ _ Hok w))
    as (m & ? & Hm & -> & Hle & Hmin & Hex).
  erewrite bind_run by exact Hm.
  destruct (proj1 (wp_Ok _ _ _) (wp_route_candidates _ _ Hok m w)) as (cs & ? & Hcs & -> & Hin).
  erewrite bind_run by exact Hcs.
  destruct (Z.eqb_spec (vsize cs) 0) as [H0|H0].
  { split; [done|]. intros l wt Hr. assert (cs = []) as -> by (by destruct cs).
    destruct Hex as [->|[l' Hl']]; [|apply Hin in Hl'; set_solver].
    specialize (Hmin _ _ Hr). destruct (decide (wt = INFINITE_)) as [->|]; [|lia].
    apply Hin in Hr. set_solver. }
  assert (Hgood : ∀ c l, vget cs c = Some l →
            ∃ wt, reach l wt ∧ wt ≤ INFINITE_ ∧ ∀ l' wt', reach l' wt' → wt ≤ wt').
  { intros c l [_ Hl%list_elem_of_lookup_2]%vget_Some. apply Hin in Hl. eauto. }
  unfold isVNetOrdered. erewrite bind_run; [|by erewrite bind_run by done; unfold vgetG; rewrite Hord].
  destruct ord.
  - erewrite bind_run by done. destruct (vget_lookup cs 0) as [l Hl]; [unfold vsize in *; lia|].
    rewrite Hl. split; [by destruct w|]. by eapply Hgood.
  - erewrite bind_run by done.
    destruct (vget_lookup cs (Z.of_N (net_random w (net_rng w)) `rem` vsize cs)) as [l Hl].
    { apply Z.rem_bound_pos; unfold vsize in *; lia. }
    simpl. rewrite Hl. split; [by destruct w|]. by eapply Hgood.
Qed.

(** C4.  [lookupRoutingTable] picks a link that reaches the destination and
    whose weight is minimal among those that do, and changes nothing but the
    random number generator; it stops with the fatal error
    "No Route exists" exactly when no link of weight at most [INFINITE_]
    reaches the destination. *)
Theorem lookupRoutingTable_minimal w r x vnet dst :
  vget (net_m_routers w) r = Some x →
  table_ok (rt_m_routing_unit x) dst = true →
  is_Some (vget (cf_m_ordered (net_cfg w)) vnet) →
  let reach := reaches (rt_m_routing_unit x) dst in
  match lookupRoutingTable r vnet dst w with
  | Ok (link, w') => w' = w <| net_rng := net_rng w' |> ∧
      ∃ wt, reach link wt ∧ wt ≤ INFINITE_ ∧ ∀ l wt', reach l wt' → wt ≤ wt'
  | Abort e => e = Fatal "Fatal Error:: No Route exists from this Router." ∧
               ∀ l wt, reach l wt → INFINITE_ < wt
  end.
Proof. exact (lookupRoutingTable_run w r x vnet dst). Qed.

Lemma lookupRoutingTable_minimal_witness :
  let w := sample_mesh 2 2 1 TABLE_ 1 in
  ∃ x, vget (net_m_routers w) 0 = Some x ∧
  match lookupRoutingTable 0 0 (one_dest 2 2 3) w with
  | Ok (link, w') => w' = w <| net_rng := net_rng w' |> ∧
      ∃ wt, reaches (rt_m_routing_unit x) (one_dest 2 2 3) link wt ∧ wt ≤ INFINITE_ ∧
        ∀ l wt', reaches (rt_m_routing_unit x) (one_dest 2 2 3) l wt' → wt ≤ wt'
  | Abort e => e = Fatal "Fatal Error:: No Route exists from this Router." ∧
      ∀ l wt, reaches (rt_m_routing_unit x) (one_dest 2 2 3) l wt → INFINITE_ < wt
  end.
Proof.
  intros w.
  assert (Hb : match vget (net_m_routers w) 0 with
               | Some x => table_ok (rt_m_routing_unit x) (one_dest 2 2 3)
               | None => false end = true) by (vm_compute; reflexivity).
  destruct (vget (net_m_routers w) 0) as [x|] eqn:Hx; [|discriminate Hb].
  exists x. split; [reflexivity|].
  apply (lookupRoutingTable_minimal w 0 x 0 (one_dest 2 2 3) Hx Hb).
  vm_compute. eexists. reflexivity.
Defined.

(** The mesh arithmetic of GarnetNetwork.cc is consistent: the input
    direction [get_downstreamDirn] gives at the downstream router is the one
    whose [get_upstreamId] there is the sender, and whose opposite is the
    sender's output direction. *)
Theorem downstream_upstream_roundtrip cols d me n :
  get_downstreamId cols d me = Ok n →
  ∃ d', get_downstreamDirn d = Ok d' ∧ get_upstreamId cols d' n = Ok me ∧
        get_downstreamDirn d' = Ok d ∧ get_downstreamId cols d' n = Ok me.
Proof.
  intros Hn. pose proof (downstream_dirns _ _ _ _ Hn) as Hd. unfold mesh_dirns in Hd.
  rewrite !elem_of_cons, elem_of_nil in Hd. destruct Hd as [->|[->|[->|[->|[]]]]];
    injection Hn as <-; eexists; (split; [reflexivity|]);
    unfold get_upstreamId, get_downstreamId; simpl; split_and!; try done; f_equal; lia.
Qed.

Lemma downstream_upstream_roundtrip_witness :
  ∃ d', get_downstreamDirn "North" = Ok d' ∧ get_upstreamId 4 d' 9 = Ok 5 ∧
        get_downstreamDirn d' = Ok "North"%string ∧ get_downstreamId 4 d' 9 = Ok 5.
Proof. apply (downstream_upstream_roundtrip 4 "North" 5 9). reflexivity. Defined.
