(* ===== verification/Wiring.v ===== *)
(** * The wiring of the network

    After the network is built, no operation changes its configuration, the
    identity of a port, a link or a VC, or which buffer an object points to:
    [static] is the relation between states with the same wiring. *)

From S2P Require Import Prelude BinaryHeap NetDestModel CommonTypes GarnetState FlitBuffer Channels RoutingUnitModel SwapModel UnitsModel SwitchAllocatorModel MessageBufferModel NetworkInterfaceModel StateLemmas.

(** What is fixed in each object. *)
Definition input_static (u : InputUnit) :=
  ((λ c, (vc_m_id c, vc_m_input_buffer c)) <$> iu_m_vcs u, iu_m_id u, iu_m_direction u,
   iu_m_num_vcs u, iu_m_vc_per_vnet u, iu_m_in_link u, iu_m_credit_link u, iu_creditQueue u).
Definition output_static (o : OutputUnit) :=
  (ou_m_out_link o, length (ou_m_outvc_state o), ou_m_id o,
   ou_m_direction o, ou_m_num_vcs o, ou_m_vc_per_vnet o, ou_m_credit_link o, ou_m_out_buffer o).
Definition router_static (x : Router) :=
  (rt_m_id x, rt_m_latency x, rt_m_virtual_networks x, rt_m_num_vcs x, rt_m_vc_per_vnet x,
   input_static <$> rt_m_input_unit x, output_static <$> rt_m_output_unit x,
   (xb_m_num_inports (rt_m_switch x), xb_m_switch_buffer (rt_m_switch x)),
   (sa_m_num_inports (rt_m_sw_alloc x), sa_m_num_outports (rt_m_sw_alloc x),
    sa_m_num_vcs (rt_m_sw_alloc x), sa_m_vc_per_vnet (rt_m_sw_alloc x)),
   (ru_m_routing_table (rt_m_routing_unit x), ru_m_weight_table (rt_m_routing_unit x))).
Definition link_static (l : NetworkLink) :=
  (nl_linkBuffer l, nl_m_id l, nl_m_type l, nl_m_latency l, nl_link_consumer l, nl_link_srcQueue l).
Definition ni_static (n : NetworkInterface) :=
  (ni_m_id n, ni_m_virtual_networks n, ni_m_vc_per_vnet n, ni_m_num_vcs n, ni_m_router_id n,
   ni_outFlitQueue n, ni_outCreditQueue n, ni_m_ni_out_vcs n,
   (ni_inNetLink n, ni_outNetLink n, ni_inCreditLink n, ni_outCreditLink n),
   (ni_inNode_ptr n, ni_outNode_ptr n), ni_m_deadlock_threshold n,
   length (ni_m_out_vc_state n)).
Definition net_static (w : GNet) :=
  (net_cfg w, router_static <$> net_m_routers w, link_static <$> net_links w,
   ni_static <$> net_m_nis w, dom (net_fbufs w)).

Definition static : relation GNet := keeps net_static.
#[export] Instance static_preorder : PreOrder static := keeps_preorder net_static.

Lemma vset_map_same {A B} (g : A → B) l i x y :
  vget l i = Some x → g y = g x → g <$> vset l i y = g <$> l.
Proof.
  intros [Hi Hl]%vget_Some Hg. unfold vset. destruct (Z.leb_spec 0 i); [|lia].
  rewrite list_fmap_insert, Hg. apply list_insert_id. by rewrite list_lookup_fmap, Hl.
Qed.

Lemma length_vset {A} (l : list A) i a : length (vset l i a) = length l.
Proof. unfold vset. destruct (0 <=? i); [apply length_insert|done]. Qed.

(** ** Primitives *)
Create HintDb static.
Ltac static_prim := apply preserves_modify; intros ?; reflexivity.
Ltac static_tac := first [solve [auto 2 with nocore static] | static_prim].
Tactic Notation "pres_static" := pres by static_tac.

Lemma static_optG {A} (o : option A) e : preserves static (optG o e).
Proof. destruct o; [apply preserves_ret, _ | apply preserves_fail]. Qed.
#[export] Hint Resolve static_optG : static.

Lemma static_upd_fb b f : preserves static (upd_fb b f).
Proof.
  intros w [] w' (x & w1 & [Hx ->]%get_fb_Ok & [= <-])%bind_Ok.
  unfold static, keeps, net_static. simpl. f_equal. rewrite dom_insert_L.
  apply elem_of_dom_2 in Hx. set_solver.
Qed.

Lemma static_upd_router r f :
  (∀ x, router_static (f x) = router_static x) → preserves static (upd_router r f).
Proof.
  intros Hf w [] w' (x & w1 & [Hx ->]%get_router_Ok & [= <-])%bind_Ok.
  unfold static, keeps, net_static. simpl. by rewrite (vset_map_same _ _ _ x).
Qed.

Lemma static_upd_link l f :
  (∀ x, link_static (f x) = link_static x) → preserves static (upd_link l f).
Proof.
  intros Hf w [] w' (x & w1 & H1 & [= <-])%bind_Ok.
  unfold get_link in H1. apply bind_Ok in H1 as (o & w2 & [= <- <-] & [Hx ->]%optG_Ok).
  unfold static, keeps, net_static. simpl. by rewrite (vset_map_same _ _ _ x).
Qed.

Lemma static_upd_ni n f :
  (∀ x, ni_static (f x) = ni_static x) → preserves static (upd_ni n f).
Proof.
  intros Hf w [] w' (x & w1 & H1 & [= <-])%bind_Ok.
  unfold get_ni in H1. apply bind_Ok in H1 as (o & w2 & [= <- <-] & [Hx ->]%optG_Ok).
  unfold static, keeps, net_static. simpl. by rewrite (vset_map_same _ _ _ x).
Qed.

(** An update of a part of router [r] that keeps the router's static data. *)
Lemma static_router_part {A} r (g : G A) (f : A → Router → Router) :
  preserves static g →
  (∀ w a w', g w = Ok (a, w') → w' = w ∧
     ∀ x, vget (net_m_routers w) r = Some x → router_static (f a x) = router_static x) →
  preserves static (a ← g; upd_router r (f a)).
Proof.
  intros Hg Hf w [] w' (a & w1 & Hrun & Hu)%bind_Ok.
  destruct (Hf _ _ _ Hrun) as [-> Hs]. unfold upd_router in Hu.
  apply bind_Ok in Hu as (x & w1 & [Hx ->]%get_router_Ok & [= <-]).
  unfold static, keeps, net_static. simpl. rewrite (vset_map_same _ _ _ x); auto.
Qed.

Lemma static_upd_input r i f :
  (∀ u, input_static (f u) = input_static u) → preserves static (upd_input r i f).
Proof.
  intros Hf. apply static_router_part; [pres_static|].
  intros w u w' (-> & x & Hx & Hu)%get_input_Ok. split; [done|]. intros x' Hx'.
  simplify_eq. unfold router_static. simpl. by rewrite (vset_map_same _ _ _ u).
Qed.


Lemma static_upd_vc r i v f :
  (∀ c, (vc_m_id (f c), vc_m_input_buffer (f c)) = (vc_m_id c, vc_m_input_buffer c)) →
  preserves static (upd_vc r i v f).
Proof.
  intros Hf w [] w' (c & w1 & (-> & u & Hu & Hc)%get_vc_Ok & Hrun)%bind_Ok.
  apply bind_Ok in Hrun as (u' & w1 & Hu' & Hrun). rewrite Hu in Hu'. injection Hu' as <- <-.
  apply get_input_Ok in Hu as (_ & x & Hx & Hu).
  apply bind_Ok in Hrun as (x' & w1 & [Hx' ->]%get_router_Ok & [= <-]). simplify_eq.
  unfold static, keeps, net_static. simpl. rewrite (vset_map_same _ _ _ x); [done..|].
  unfold router_static. simpl. rewrite (vset_map_same _ _ _ u); [done..|].
  unfold input_static. simpl. by rewrite (vset_map_same _ _ _ c).
Qed.

Lemma static_upd_output r o f :
  (∀ u, output_static (f u) = output_static u) → preserves static (upd_output r o f).
Proof.
  intros Hf. apply static_router_part; [pres_static|].
  intros w u w' (-> & x & Hx & Hu)%get_output_Ok. split; [done|]. intros x' Hx'.
  simplify_eq. unfold router_static. simpl. by rewrite (vset_map_same _ _ _ u).
Qed.

Lemma static_put_outvc r o v s : preserves static (put_outvc r o v s).
Proof.
  apply static_upd_output. intros u. unfold output_static. simpl. by rewrite length_vset.
Qed.

Lemma static_ni_put_outvc n v s : preserves static (ni_put_outvc n v s).
Proof. apply static_upd_ni. intros x. unfold ni_static. simpl. by rewrite length_vset. Qed.
#[export] Hint Resolve static_upd_fb static_put_outvc static_ni_put_outvc : static.
#[export] Hint Extern 1 (preserves static (upd_router _ _)) =>
  apply static_upd_router; intros ?; reflexivity : static.
#[export] Hint Extern 1 (preserves static (upd_input _ _ _)) =>
  apply static_upd_input; intros ?; reflexivity : static.
#[export] Hint Extern 1 (preserves static (upd_vc _ _ _ _)) =>
  apply static_upd_vc; intros ?; reflexivity : static.
#[export] Hint Extern 1 (preserves static (upd_link _ _)) =>
  apply static_upd_link; intros ?; reflexivity : static.
#[export] Hint Extern 1 (preserves static (upd_ni _ _)) =>
  apply static_upd_ni; intros ?; reflexivity : static.

(** ** Operations *)
Lemma static_movSwapPtr r : preserves static (Router_movSwapPtr r).
Proof. pres_static. Qed.
Lemma static_route_compute r rt i d : preserves static (Router_route_compute r rt i d).
Proof. pres_static. Qed.
#[export] Hint Resolve static_movSwapPtr static_route_compute : static.
Lemma static_doSwap_enqueue r p d i v : preserves static (Router_doSwap_enqueue r p d i v).
Proof. pres_static. Qed.
#[export] Hint Resolve static_doSwap_enqueue : static.
Lemma static_swap_phase r : preserves static (Router_swap_phase r).
Proof. pres_static. Qed.
Lemma static_InputUnit_wakeup r i : preserves static (InputUnit_wakeup r i).
Proof. pres_static. Qed.
Lemma static_SwitchAllocator_wakeup r : preserves static (SwitchAllocator_wakeup r).
Proof. pres_static. Qed.
#[export] Hint Resolve static_swap_phase static_InputUnit_wakeup static_SwitchAllocator_wakeup
  : static.
Lemma static_Router_wakeup r : preserves static (Router_wakeup r).
Proof. pres_static. Qed.
Lemma static_NetworkLink_wakeup l : preserves static (NetworkLink_wakeup l).
Proof. pres_static. Qed.
Lemma static_MessageBuffer_enqueue b m t d : preserves static (MessageBuffer_enqueue b m t d).
Proof. pres_static. Qed.
#[export] Hint Resolve static_Router_wakeup static_NetworkLink_wakeup static_MessageBuffer_enqueue
  : static.
Lemma static_NI_wakeup `{MachineTypes} n : preserves static (NetworkInterface_wakeup n).
Proof. pres_static. Qed.
