(* ===== verification/Ownership.v ===== *)
(** * Ownership of flits

    Every live flit object is held by exactly one flit buffer or stall queue,
    and every pointer held there is live: the program neither loses, nor
    duplicates, nor leaks a flit, and no buffer holds a dangling pointer.

    The proof keeps an account per pointer, [bal]: the number of times the
    pointer is held minus one if it is allocated.  Each primitive changes the
    account of one pointer by one, so that an operation preserves ownership
    when its changes cancel, in whatever order it makes them. *)

From S2P Require Import Prelude BinaryHeap NetDestModel CommonTypes GarnetState FlitBuffer Channels RoutingUnitModel SwapModel UnitsModel SwitchAllocatorModel MessageBufferModel NetworkInterfaceModel StateLemmas Wiring.

(** ** Flits held *)
Definition resident (w : GNet) : list ptr :=
  concat ((λ bx, fb_m_buffer bx.2) <$> map_to_list (net_fbufs w)) ++
  concat (ni_m_stall_queue <$> net_m_nis w).

(** Pointers are allocated in increasing order. *)
Definition fresh_ok (w : GNet) : Prop :=
  ∀ p, is_Some (net_flits w !! p) → (p < net_next w)%nat.

Definition owned (w : GNet) : Prop :=
  fresh_ok w ∧ NoDup (resident w) ∧ ∀ p, p ∈ resident w ↔ is_Some (net_flits w !! p).

(** ** The account of a pointer *)
Definition occ (p : ptr) (l : list ptr) : Z := Z.of_nat (count_occ Nat.eq_dec l p).
Definition one (q p : ptr) : Z := if decide (q = p) then 1 else 0.
Definition live (w : GNet) (p : ptr) : Z := if decide (is_Some (net_flits w !! p)) then 1 else 0.
Definition bal (w : GNet) (p : ptr) : Z := occ p (resident w) - live w p.

Lemma occ_app p l k : occ p (l ++ k) = occ p l + occ p k.
Proof. unfold occ. rewrite count_occ_app. lia. Qed.
Lemma occ_cons p q l : occ p (q :: l) = one q p + occ p l.
Proof. unfold occ, one. simpl. destruct (Nat.eq_dec q p); case_decide; first [done|lia]. Qed.
Lemma occ_nil p : occ p [] = 0.
Proof. done. Qed.
Lemma occ_perm p l k : l ≡ₚ k → occ p l = occ p k.
Proof. intros H. unfold occ. by rewrite (proj1 (Permutation_count_occ Nat.eq_dec l k) H). Qed.
Lemma occ_perm_inv l k : (∀ p, occ p l = occ p k) → l ≡ₚ k.
Proof. intros H. apply (Permutation_count_occ Nat.eq_dec). intros p. specialize (H p). unfold occ in H. lia. Qed.

Lemma owned_bal w : owned w ↔ fresh_ok w ∧ ∀ p, bal w p = 0.
Proof.
  unfold owned, bal, occ, live. split; intros [Hf H]; (split; [done|]).
  - destruct H as [Hnd Hin]. intros p. case_decide as Hp.
    + rewrite <- Hin in Hp. apply list_elem_of_In in Hp.
      pose proof (proj1 (NoDup_count_occ' Nat.eq_dec _) ltac:(by apply NoDup_ListNoDup) p Hp). lia.
    + rewrite <- Hin, list_elem_of_In in Hp.
      apply (count_occ_not_In Nat.eq_dec) in Hp. lia.
  - split.
    + apply NoDup_ListNoDup, (NoDup_count_occ Nat.eq_dec). intros p.
      specialize (H p). case_decide; lia.
    + intros p. rewrite list_elem_of_In, (count_occ_In Nat.eq_dec). specialize (H p).
      case_decide; split; intros; try done; lia.
Qed.

(** An executable test of ownership. *)
Definition ownedb (w : GNet) : bool :=
  bool_decide (Forall (λ p, (p < net_next w)%nat) (elements (dom (net_flits w)))) &&
  bool_decide (NoDup (resident w)) &&
  bool_decide (list_to_set (resident w) = dom (net_flits w)).

Lemma ownedb_spec w : ownedb w = true → owned w.
Proof.
  unfold ownedb. rewrite !andb_true_iff, !bool_decide_eq_true. intros [[Hf Hnd] Hd].
  split_and!; [|done|].
  - intros p Hp. rewrite Forall_forall in Hf. apply Hf, elem_of_elements, elem_of_dom, Hp.
  - intros p. rewrite <- elem_of_dom, <- Hd. set_solver.
Qed.

(** ** Effects on the account *)

(** Nothing that concerns ownership changes. *)
Definition quiet (w w' : GNet) : Prop :=
  net_fbufs w' = net_fbufs w ∧
  ni_m_stall_queue <$> net_m_nis w' = ni_m_stall_queue <$> net_m_nis w ∧
  dom (net_flits w') = dom (net_flits w) ∧ (net_next w ≤ net_next w')%nat.
#[export] Instance quiet_preorder : PreOrder quiet.
Proof.
  split.
  - intros w. split_and!; done.
  - intros w1 w2 w3 (?&?&?&?) (?&?&?&?). split_and!; [congruence..|lia].
Qed.

(** [moves δ m]: when [m] returns [a], the account of each [p] has changed by
    [δ a p]. *)
Definition moves {A} (δ : A → ptr → Z) (m : G A) : Prop :=
  ∀ w a w', fresh_ok w → m w = Ok (a, w') → fresh_ok w' ∧ ∀ p, bal w' p = bal w p + δ a p.

(** The account is settled. *)
Definition settled (w w' : GNet) : Prop :=
  fresh_ok w → fresh_ok w' ∧ ∀ p, bal w' p = bal w p.
#[export] Instance settled_preorder : PreOrder settled.
Proof.
  split; [done|]. intros w1 w2 w3 H12 H23 H1. destruct (H12 H1) as [H2 E2].
  destruct (H23 H2) as [H3 E3]. split; [done|]. intros p. by rewrite E3.
Qed.

Lemma quiet_resident w w' : quiet w w' → resident w' = resident w.
Proof. intros (Hb & Hs & _). unfold resident. by rewrite Hb, Hs. Qed.

Lemma quiet_settled w w' : quiet w w' → settled w w'.
Proof.
  intros Hq Hf. pose proof (quiet_resident _ _ Hq) as Hr. destruct Hq as (_ & _ & Hd & Hn).
  assert (E : ∀ p, is_Some (net_flits w' !! p) ↔ is_Some (net_flits w !! p)).
  { intros p. by rewrite <- !elem_of_dom, Hd. }
  split.
  - intros p Hp. apply E, Hf in Hp. lia.
  - intros p. unfold bal, live. rewrite Hr. do 2 case_decide; naive_solver.
Qed.

Lemma settled_owned w w' : settled w w' → owned w → owned w'.
Proof.
  rewrite !owned_bal. intros Hs [Hf Hb]. destruct (Hs Hf) as [Hf' E].
  split; [done|]. intros p. by rewrite E.
Qed.

Lemma moves_settled {A} (m : G A) : moves (λ _ _, 0) m ↔ preserves settled m.
Proof.
  split; intros H.
  - intros w a w' Hm Hf. destruct (H _ _ _ Hf Hm) as [? E]. split; [done|].
    intros p. rewrite E. lia.
  - intros w a w' Hf Hm. destruct (H _ _ _ Hm Hf) as [? E]. split; [done|].
    intros p. rewrite E. lia.
Qed.

Lemma quiet_moves {A} (m : G A) : preserves quiet m → preserves settled m.
Proof. intros H. eapply preserves_mono; [exact H|apply quiet_settled]. Qed.

(** ** Operations that leave ownership alone *)
Create HintDb quiet.
Ltac quiet_prim := apply preserves_modify; intros ?; split_and!; simpl; first [done | lia].
Ltac quiet_tac := first [solve [auto 2 with nocore quiet] | quiet_prim].
Tactic Notation "pres_quiet" := pres by quiet_tac.

Lemma quiet_optG {A} (o : option A) e : preserves quiet (optG o e).
Proof. destruct o; [apply preserves_ret, _ | apply preserves_fail]. Qed.
Lemma quiet_vgetG {A} (l : list A) i s : preserves quiet (vgetG l i s).
Proof. apply quiet_optG. Qed.
#[export] Hint Resolve quiet_optG quiet_vgetG : quiet.

(** The accessors.  An update of a router, a link, a message, a message buffer
    or the statistics is quiet; so is an update of a flit, which does not
    allocate. *)
Lemma quiet_curCycle : preserves quiet curCycle.
Proof. unfold curCycle. pres_quiet. Qed.
Lemma quiet_config {A} (p : NetConfig → A) : preserves quiet (config p).
Proof. unfold config. pres_quiet. Qed.
Lemma quiet_upd_stats f : preserves quiet (upd_stats f).
Proof. unfold upd_stats. pres_quiet. Qed.
#[export] Hint Resolve quiet_curCycle quiet_config quiet_upd_stats : quiet.
Lemma quiet_clockEdge n : preserves quiet (clockEdge n).
Proof. unfold clockEdge. pres_quiet. Qed.
Lemma quiet_random : preserves quiet random.
Proof. unfold random. pres_quiet. Qed.
Lemma quiet_get_flit p : preserves quiet (get_flit p).
Proof. unfold get_flit. pres_quiet. Qed.
Lemma quiet_get_fb b : preserves quiet (get_fb b).
Proof. unfold get_fb. pres_quiet. Qed.
Lemma quiet_get_router r : preserves quiet (get_router r).
Proof. unfold get_router. pres_quiet. Qed.
Lemma quiet_get_link l : preserves quiet (get_link l).
Proof. unfold get_link. pres_quiet. Qed.
Lemma quiet_get_ni n : preserves quiet (get_ni n).
Proof. unfold get_ni. pres_quiet. Qed.
Lemma quiet_get_mbuf b : preserves quiet (get_mbuf b).
Proof. unfold get_mbuf. pres_quiet. Qed.
Lemma quiet_get_msg p : preserves quiet (get_msg p).
Proof. unfold get_msg. pres_quiet. Qed.
Lemma quiet_put_msg p m : preserves quiet (put_msg p m).
Proof. unfold put_msg. pres_quiet. Qed.
Lemma quiet_new_msg m : preserves quiet (new_msg m).
Proof. intros w p w' [= <- <-]. split_and!; simpl; first [done|lia]. Qed.
#[export] Hint Resolve quiet_clockEdge quiet_random quiet_get_flit quiet_get_fb quiet_get_router
  quiet_get_link quiet_get_ni quiet_get_mbuf quiet_get_msg quiet_put_msg quiet_new_msg : quiet.

Lemma quiet_upd_flit p f : preserves quiet (upd_flit p f).
Proof.
  intros w [] w' (x & w1 & [Hx ->]%get_flit_Ok & [= <-])%bind_Ok.
  split_and!; try done. simpl. rewrite dom_insert_L. apply elem_of_dom_2 in Hx. set_solver.
Qed.
Lemma quiet_upd_router r f : preserves quiet (upd_router r f).
Proof. unfold upd_router, put_router. pres_quiet. Qed.
Lemma quiet_upd_link l f : preserves quiet (upd_link l f).
Proof. unfold upd_link. pres_quiet. Qed.
Lemma quiet_upd_mbuf b f : preserves quiet (upd_mbuf b f).
Proof. unfold upd_mbuf. pres_quiet. Qed.

Lemma quiet_upd_ni n f :
  (∀ x, ni_m_stall_queue (f x) = ni_m_stall_queue x) → preserves quiet (upd_ni n f).
Proof.
  intros Hf w [] w' (x & w1 & H1 & [= <-])%bind_Ok.
  unfold get_ni in H1. apply bind_Ok in H1 as (o & w2 & [= <- <-] & [Hx ->]%optG_Ok).
  split_and!; try done. simpl. by eapply vset_map_same.
Qed.
#[export] Hint Resolve quiet_upd_flit quiet_upd_router quiet_upd_link quiet_upd_mbuf : quiet.
#[export] Hint Extern 1 (preserves quiet (upd_ni _ _)) =>
  apply quiet_upd_ni; intros ?; reflexivity : quiet.

Lemma quiet_scheduleEventAbsolute c t : preserves quiet (Consumer_scheduleEventAbsolute c t).
Proof. pres_quiet. Qed.
Lemma quiet_get_vc r i v : preserves quiet (get_vc r i v).
Proof. pres_quiet. Qed.
Lemma quiet_get_output r o : preserves quiet (get_output r o).
Proof. pres_quiet. Qed.
Lemma quiet_vc_isEmpty r i v : preserves quiet (InputUnit_vc_isEmpty r i v).
Proof. pres_quiet. Qed.
Lemma quiet_need_stage r i v s t : preserves quiet (InputUnit_need_stage r i v s t).
Proof. pres_quiet. Qed.
Lemma quiet_numFreeVC o d : preserves quiet (Router_get_numFreeVC o d).
Proof. pres_quiet. Qed.
Lemma quiet_route_compute r rt i d : preserves quiet (Router_route_compute r rt i d).
Proof. pres_quiet. Qed.
#[export] Hint Resolve quiet_scheduleEventAbsolute quiet_get_vc quiet_get_output quiet_vc_isEmpty
  quiet_need_stage quiet_numFreeVC quiet_route_compute : quiet.

(** ** Operations that move flits *)

Lemma occ_concat_perm p ls ks : ls ≡ₚ ks → occ p (concat ls) = occ p (concat ks).
Proof. induction 1; simpl; rewrite ?occ_app in *; lia. Qed.

(** The flits of the buffers of [m]; an insertion changes one buffer. *)
Definition held (m : gmap ptr flitBuffer) : list ptr :=
  concat ((λ bx, fb_m_buffer bx.2) <$> map_to_list m).

Lemma occ_held_insert p m b x :
  m !! b = None → occ p (held (<[b := x]> m)) = occ p (fb_m_buffer x) + occ p (held m).
Proof.
  intros Hb. unfold held.
  rewrite (occ_concat_perm p _ ((λ bx, fb_m_buffer bx.2) <$> (b, x) :: map_to_list m)).
  - simpl. by rewrite occ_app.
  - by apply fmap_Permutation, map_to_list_insert.
Qed.

(** New contents [l] for buffer [b]. *)
Lemma occ_with_contents p b l w :
  is_Some (net_fbufs w !! b) →
  occ p (resident (with_contents b l w)) =
    occ p (resident w) - occ p (contents w b) + occ p l.
Proof.
  intros [x Hx].
  assert (E1 : ∀ y, occ p (held (<[b := y]> (net_fbufs w))) =
                    occ p (fb_m_buffer y) + occ p (held (delete b (net_fbufs w)))).
  { intros y. rewrite <- insert_delete_eq. apply occ_held_insert, lookup_delete_eq. }
  pose proof (E1 x) as E2. rewrite (insert_id _ _ _ Hx) in E2.
  specialize (E1 (x <| fb_m_buffer := l |>)). unfold held in E1, E2. simpl in E1.
  unfold resident, with_contents, contents. simpl. rewrite Hx, !occ_app. lia.
Qed.

(** New contents for a buffer change the account accordingly. *)
Lemma bal_with_contents p b l w :
  is_Some (net_fbufs w !! b) →
  bal (with_contents b l w) p = bal w p - occ p (contents w b) + occ p l.
Proof. intros Hb. unfold bal. rewrite occ_with_contents by done. unfold live. simpl. lia. Qed.

Lemma get_fb_bind_Ok {A} b (k : flitBuffer → G A) w a w' :
  (get_fb b ≫= k) w = Ok (a, w') → is_Some (net_fbufs w !! b).
Proof. intros (x & w1 & [Hx _]%get_fb_Ok & _)%bind_Ok. eauto. Qed.

Lemma upd_fb_Ok b f w a w' : upd_fb b f w = Ok (a, w') → is_Some (net_fbufs w !! b).
Proof. apply get_fb_bind_Ok. Qed.

Lemma moves_insert b p : moves (λ _, one p) (flitBuffer_insert b p).
Proof.
  intros w [] w' Hf Hrun. assert (Hb : is_Some (net_fbufs w !! b)).
  { unfold flitBuffer_insert in Hrun. apply bind_Ok in Hrun as (h & w1 & [= <- <-] & ?).
    by eapply upd_fb_Ok. }
  rewrite run_insert in Hrun by done. injection Hrun as <-. split; [exact Hf|].
  intros q. rewrite bal_with_contents by done.
  rewrite (occ_perm _ _ _ (push_heap_perm _ _)), occ_app, occ_cons, occ_nil. lia.
Qed.

Lemma moves_insertAtTop b p : moves (λ _, one p) (flitBuffer_insertAtTop b p).
Proof.
  intros w [] w' Hf Hrun. assert (Hb : is_Some (net_fbufs w !! b)) by (by eapply upd_fb_Ok).
  rewrite run_insertAtTop in Hrun by done. injection Hrun as <-. split; [exact Hf|].
  intros q. rewrite bal_with_contents, occ_cons by done. lia.
Qed.

Lemma getTopFlit_Ok b w p w' :
  flitBuffer_getTopFlit b w = Ok (p, w') →
  is_Some (net_fbufs w !! b) ∧ ∃ l l', contents w b = p :: l ∧ l' ≡ₚ l ∧ w' = with_contents b l' w.
Proof.
  intros Hrun. pose proof Hrun as Hb%get_fb_bind_Ok. split; [done|].
  assert (Hc : ∃ l, contents w b = p :: l).
  { unfold flitBuffer_getTopFlit in Hrun. apply bind_Ok in Hrun as (x & w1 & [Hx ->]%get_fb_Ok & Hrun).
    apply bind_Ok in Hrun as (f & w1 & [Hf ->]%optG_Ok & Hrun). unfold contents. rewrite Hx.
    assert (f = p) as ->.
    { apply bind_Ok in Hrun as (h & w1 & [= <- <-] & Hrun).
      apply bind_Ok in Hrun as (? & w1 & _ & [= -> _]). done. }
    destruct (fb_m_buffer x) as [|q l]; [done|]. injection Hf as ->. eauto. }
  destruct Hc as [l Hc]. rewrite (run_getTopFlit _ _ _ _ Hc) in Hrun. injection Hrun as <-.
  exists l, (removelast (pop_heap (ptr_greater (net_flits w)) (p :: l))).
  split_and!; [done|apply pop_contents_perm|done].
Qed.

Lemma moves_getTopFlit b : moves (λ p q, - one p q) (flitBuffer_getTopFlit b).
Proof.
  intros w p w' Hf (Hb & l & l' & Hc & Hl & ->)%getTopFlit_Ok. split; [exact Hf|].
  intros q. rewrite bal_with_contents, Hc, (occ_perm _ _ _ Hl), occ_cons by done. lia.
Qed.

Lemma moves_new_flit f : moves (λ p q, - one p q) (new_flit f).
Proof.
  intros w p w' Hf [= <- <-]. split.
  - intros q. simpl. rewrite lookup_insert_is_Some. intros [->|[_ Hq]]; [lia|].
    apply Hf in Hq. lia.
  - intros q. unfold bal, live, one. change (resident _) with (resident w) at 1. simpl.
    destruct (decide (net_next w = q)) as [<-|Hne].
    + rewrite lookup_insert_eq. rewrite decide_True by eauto.
      rewrite decide_False; [lia|]. intros Hq%Hf. lia.
    + rewrite lookup_insert_ne by done. lia.
Qed.

Lemma moves_delete_flit p : moves (λ _, one p) (delete_flit p).
Proof.
  intros w [] w' Hf (x & w1 & [Hx ->]%get_flit_Ok & [= <-])%bind_Ok. split.
  - intros q. simpl. rewrite lookup_delete_is_Some. intros [_ Hq]. by apply Hf.
  - intros q. unfold bal, live, one. change (resident _) with (resident w) at 1. simpl.
    destruct (decide (p = q)) as [<-|Hne].
    + rewrite lookup_delete_eq. rewrite (decide_True (P := is_Some (net_flits w !! p))) by eauto.
      rewrite decide_False; [lia|]. by intros [? ?].
    + rewrite lookup_delete_ne by done. lia.
Qed.

(** ** Composing moves *)
Lemma moves_eq {A} (δ δ' : A → ptr → Z) (m : G A) :
  moves δ' m → (∀ a p, δ' a p = δ a p) → moves δ m.
Proof.
  intros H E w a w' Hf Hm. destruct (H _ _ _ Hf Hm) as [? Hb]. split; [done|].
  intros p. by rewrite <- E.
Qed.

Lemma moves_bind {A B} (δ1 : A → ptr → Z) (δ : B → ptr → Z) (m : G A) (k : A → G B) :
  moves δ1 m → (∀ a, moves (λ b p, δ b p - δ1 a p) (k a)) → moves δ (m ≫= k).
Proof.
  intros H1 H2 w b w' Hf (a & w1 & Hm & Hk)%bind_Ok.
  destruct (H1 _ _ _ Hf Hm) as [Hf1 E1]. destruct (H2 a _ _ _ Hf1 Hk) as [Hf2 E2].
  split; [done|]. intros p. rewrite E2, E1. lia.
Qed.

Lemma moves_bind_settled {A B} (δ : B → ptr → Z) (m : G A) (k : A → G B) :
  preserves settled m → (∀ a, moves δ (k a)) → moves δ (m ≫= k).
Proof.
  intros H1 H2. eapply moves_bind; [by apply moves_settled|].
  intros a. eapply moves_eq; [apply H2|]. intros; simpl; lia.
Qed.

Lemma moves_bind_assoc {A B C} (δ : C → ptr → Z) (m : G A) (k : A → G B) (k' : B → G C) :
  moves δ (a ← m; b ← k a; k' b) → moves δ (b ← (a ← m; k a); k' b).
Proof.
  intros H w c w' Hf (b & w1 & (a & w2 & Hm & Hk)%bind_Ok & Hk')%bind_Ok.
  apply (H w c w' Hf). apply bind_Ok. exists a, w2. split; [done|].
  apply bind_Ok. eauto.
Qed.

Lemma moves_ret {A} (δ : A → ptr → Z) (a : A) : (∀ p, δ a p = 0) → moves δ (mret a).
Proof. intros H w ? w' Hf [= <- <-]. split; [done|]. intros p. rewrite H. lia. Qed.

Lemma moves_fail {A} (δ : A → ptr → Z) e : moves δ (fail e : G A).
Proof. intros w a w' _ [=]. Qed.

Lemma moves_of_settled {A} (δ : A → ptr → Z) (m : G A) :
  preserves settled m → (∀ a p, δ a p = 0) → moves δ m.
Proof. intros H E. eapply moves_eq; [by apply moves_settled|]. intros; by rewrite E. Qed.

(** [mv] computes the effect of a program without loops and compares it with
    the one claimed. *)
Create HintDb moves.
#[export] Hint Resolve moves_insert moves_insertAtTop moves_getTopFlit moves_new_flit
  moves_delete_flit : moves.
Create HintDb settled.
Ltac quiet_or_settled :=
  first [ solve [auto 1 with nocore settled]
        | apply quiet_moves; solve [pres_quiet] ].
Ltac mv :=
  cbv beta zeta;
  lazymatch goal with
  | |- moves _ (mret _) => apply moves_ret; intros; simpl; lia
  | |- moves _ (fail _) => apply moves_fail
  | |- moves _ (match ?x with _ => _ end) => destruct x; mv
  | |- moves _ (_ ≫= _) =>
      first
        [ apply moves_bind_settled; [quiet_or_settled | intros ?; mv]
        | eapply moves_bind; [solve [auto 1 with nocore moves] | intros ?; mv]
        | lazymatch goal with
          | |- moves _ ((_ ≫= _) ≫= _) => apply moves_bind_assoc; mv
          | |- moves _ ((match ?x with _ => _ end) ≫= _) => destruct x; mv
          end ]
  | |- moves _ ?m =>
      first
        [ apply moves_of_settled; [quiet_or_settled | intros; simpl; lia]
        | eapply moves_eq; [solve [auto 1 with nocore moves] | intros; simpl; lia]
        | let h := head_of m in unfold h; mv ]
  end.
Ltac mv_settled := apply moves_settled; mv.

Lemma moves_InputUnit_getTopFlit r i v : moves (λ p q, - one p q) (InputUnit_getTopFlit r i v).
Proof. mv. Qed.
Lemma moves_consumeLink l : moves (λ p q, - one p q) (NetworkLink_consumeLink l).
Proof. mv. Qed.
Lemma moves_InputUnit_insertFlit r i v p : moves (λ _, one p) (InputUnit_insertFlit r i v p).
Proof. mv. Qed.
Lemma moves_InputUnit_enqueue_flit r i v p : moves (λ _, one p) (InputUnit_enqueue_flit r i v p).
Proof. mv. Qed.
Lemma moves_update_sw_winner r i p : moves (λ _, one p) (CrossbarSwitch_update_sw_winner r i p).
Proof. mv. Qed.
Lemma moves_OutputUnit_insert_flit r o p : moves (λ _, one p) (OutputUnit_insert_flit r o p).
Proof. mv. Qed.
Lemma settled_increment_credit r i v b t :
  preserves settled (InputUnit_increment_credit r i v b t).
Proof. mv_settled. Qed.
Lemma settled_sendCredit n p b : preserves settled (NetworkInterface_sendCredit n p b).
Proof. mv_settled. Qed.
#[export] Hint Resolve moves_InputUnit_getTopFlit moves_consumeLink moves_InputUnit_insertFlit
  moves_InputUnit_enqueue_flit moves_update_sw_winner moves_OutputUnit_insert_flit : moves.
#[export] Hint Resolve settled_increment_credit settled_sendCredit : settled.

(** The same for programs with loops whose bodies settle. *)
Ltac settled_tac := first [solve [auto 1 with nocore settled] | apply quiet_moves; quiet_tac].
Tactic Notation "pres_settled" := pres by settled_tac.

(** ** Links and routers *)
Lemma settled_NetworkLink_wakeup l : preserves settled (NetworkLink_wakeup l).
Proof. mv_settled. Qed.
Lemma settled_InputUnit_wakeup r i : preserves settled (InputUnit_wakeup r i).
Proof. mv_settled. Qed.
Lemma settled_OutputUnit_wakeup r o : preserves settled (OutputUnit_wakeup r o).
Proof. mv_settled. Qed.
Lemma settled_return_credit r i v p : preserves settled (SwitchAllocator_return_credit r i v p).
Proof. mv_settled. Qed.
#[export] Hint Resolve settled_NetworkLink_wakeup settled_InputUnit_wakeup
  settled_OutputUnit_wakeup settled_return_credit : settled.
Lemma settled_grant r o i : preserves settled (SwitchAllocator_grant r o i).
Proof. mv_settled. Qed.
#[export] Hint Resolve settled_grant : settled.
Lemma settled_SwitchAllocator_wakeup r : preserves settled (SwitchAllocator_wakeup r).
Proof. pres_settled. Qed.
#[export] Hint Resolve settled_SwitchAllocator_wakeup : settled.

Lemma moves_doSwap_enqueue r p d i v : moves (λ _, one p) (Router_doSwap_enqueue r p d i v).
Proof. mv. Qed.
