(* ===== verification/SwapExchange.v ===== *)
(** * A swap exchanges two flits

    [Router::wakeup] asks the network to swap the head flit of the VC its swap
    pointer names with the head flit of the VC of the same number at the
    downstream router.  This file follows the call chain through
    [GarnetNetwork::doSwap], [Router::doSwap] and [Router::doSwap_enqueue] and
    proves that a completed swap exchanges the two flits and that a refused
    one changes no buffer. *)

From S2P Require Import Prelude BinaryHeap NetDestModel CommonTypes GarnetState FlitBuffer Channels RoutingUnitModel SwapModel UnitsModel SwitchAllocatorModel MessageBufferModel NetworkInterfaceModel BuildModel Scenarios StateLemmas Wiring Ownership.

(** ** Reading the head of a VC *)

(** The buffer of VC [v] of input port [i] of router [r]. *)
Definition vc_buffer (w : GNet) (r i v : Z) (b : ptr) : Prop :=
  ∃ c, get_vc r i v w = Ok (c, w) ∧ vc_m_input_buffer c = b.

Lemma peekTopFlit_Ok b w p w' :
  flitBuffer_peekTopFlit b w = Ok (p, w') → w' = w ∧ ∃ l, contents w b = p :: l.
Proof.
  intros (x & w1 & [Hx ->]%get_fb_Ok & Hrun)%bind_Ok.
  apply bind_Ok in Hrun as (? & w1 & Ha & [Hf ->]%optG_Ok).
  unfold assertM in Ha. case_match; [|done]. injection Ha as <- <-. split; [done|].
  unfold contents. rewrite Hx. destruct (fb_m_buffer x) as [|q l]; [done|].
  injection Hf as ->. eauto.
Qed.

Lemma InputUnit_peekTopFlit_Ok r i v w p w' :
  InputUnit_peekTopFlit r i v w = Ok (p, w') →
  w' = w ∧ ∃ b l, vc_buffer w r i v b ∧ contents w b = p :: l.
Proof.
  intros (c & w1 & Hc & Hrun)%bind_Ok. pose proof Hc as [-> _]%get_vc_Ok.
  apply peekTopFlit_Ok in Hrun as [-> [l Hl]]. split; [done|]. exists (vc_m_input_buffer c), l.
  split; [|done]. by exists c.
Qed.

Lemma InputUnit_getTopFlit_Ok r i v w p w' :
  InputUnit_getTopFlit r i v w = Ok (p, w') →
  ∃ b l l', vc_buffer w r i v b ∧ is_Some (net_fbufs w !! b) ∧ contents w b = p :: l ∧
            l' ≡ₚ l ∧ w' = with_contents b l' w.
Proof.
  intros (c & w1 & Hc & Hrun)%bind_Ok. pose proof Hc as [-> _]%get_vc_Ok.
  apply getTopFlit_Ok in Hrun as (Hb & l & l' & Hl & Hp & ->).
  exists (vc_m_input_buffer c), l, l'. split_and!; try done. by exists c.
Qed.

Lemma InputUnit_enqueue_flit_Ok r i v p w a w' :
  InputUnit_enqueue_flit r i v p w = Ok (a, w') →
  ∃ b, vc_buffer w r i v b ∧ is_Some (net_fbufs w !! b) ∧
       w' = with_contents b (p :: contents w b) w.
Proof.
  intros (c & w1 & Hc & Hrun)%bind_Ok. pose proof Hc as [-> _]%get_vc_Ok.
  pose proof Hrun as Hb%upd_fb_Ok. unfold InputUnit_enqueue_flit in Hrun.
  rewrite run_insertAtTop in Hrun by done. injection Hrun as _ <-.
  exists (vc_m_input_buffer c). split_and!; try done. by exists c.
Qed.

Lemma vc_buffer_fun w r i v b b' : vc_buffer w r i v b → vc_buffer w r i v b' → b = b'.
Proof. intros (c & Hc & <-) (c' & Hc' & <-). congruence. Qed.

Lemma list_fmap_eq_lookup {A B} (f : A → B) l k i x :
  f <$> k = f <$> l → vget l i = Some x → ∃ y, vget k i = Some y ∧ f y = f x.
Proof.
  intros E [Hi Hx]%vget_Some.
  assert (H : (f <$> k) !! Z.to_nat i = Some (f x)) by (by rewrite E, list_lookup_fmap, Hx).
  rewrite list_lookup_fmap in H. apply fmap_Some in H as (y & Hy & E').
  exists y. split; [|done]. apply vget_Some. done.
Qed.

(** The wiring determines the buffer of a VC. *)
Lemma static_vc_buffer w w' r i v b : static w w' → vc_buffer w r i v b → vc_buffer w' r i v b.
Proof.
  intros Hs (c & (_ & u & (_ & x & Hx & Hu)%get_input_Ok & Hc)%get_vc_Ok & <-).
  injection Hs as _ Hr _ _ _.
  destruct (list_fmap_eq_lookup _ _ _ _ _ Hr Hx) as (x' & Hx' & Ex).
  injection Ex as _ _ _ _ _ Ei _ _ _ _ _ _ _ _ _.
  destruct (list_fmap_eq_lookup _ _ _ _ _ Ei Hu) as (u' & Hu' & Eu).
  injection Eu as Ev _ _ _ _ _ _ _.
  destruct (list_fmap_eq_lookup _ _ _ _ _ Ev Hc) as (c' & Hc' & Ec).
  injection Ec as _ Eb. exists c'. split; [|done].
  apply get_vc_Ok. split; [done|]. exists u'. split; [|done]. apply get_input_Ok. eauto.
Qed.

(** ** What does not move during a swap

    [still]: no buffer changes, no flit is created or deleted, the wiring and
    the swap pointers stay, and the direction tables only gain entries. *)
Definition same_ptrs (w w' : GNet) : Prop :=
  rt_swap_ptr <$> net_m_routers w' = rt_swap_ptr <$> net_m_routers w.
Definition dirs (x : Router) : gmap string Z := ru_m_inports_dirn2idx (rt_m_routing_unit x).
Definition grows (w w' : GNet) : Prop :=
  ∀ r x, vget (net_m_routers w) r = Some x →
    ∃ x', vget (net_m_routers w') r = Some x' ∧ dirs x ⊆ dirs x'.
Definition steady (w w' : GNet) : Prop := static w w' ∧ same_ptrs w w' ∧ grows w w'.
(** The counters of initiated, completed and refused swaps. *)
Definition swap_counters (w : GNet) : Z * Z * Z :=
  (st_m_total_initiated_swaps (net_stats w), st_m_total_swaps (net_stats w),
   st_m_total_failed_swaps (net_stats w)).
Definition still (w w' : GNet) : Prop :=
  quiet w w' ∧ steady w w' ∧ swap_counters w' = swap_counters w.

#[export] Instance steady_preorder : PreOrder steady.
Proof.
  split.
  - intros w. split_and!; try done. intros r x Hx. by exists x.
  - intros w1 w2 w3 (S1 & P1 & G1) (S2 & P2 & G2). split_and!.
    + by transitivity w2.
    + unfold same_ptrs in *. congruence.
    + intros r x Hx. destruct (G1 _ _ Hx) as (x2 & Hx2 & E2).
      destruct (G2 _ _ Hx2) as (x3 & Hx3 & E3). exists x3. split; [done|].
      by transitivity (dirs x2).
Qed.
#[export] Instance still_preorder : PreOrder still.
Proof.
  split; [intros w; split_and!; reflexivity|]. intros w1 w2 w3 (Q1 & S1 & C1) (Q2 & S2 & C2).
  split_and!; [by transitivity w2|by transitivity w2|congruence].
Qed.

Lemma still_routers w w' :
  net_m_routers w' = net_m_routers w → swap_counters w' = swap_counters w →
  static w w' → quiet w w' → still w w'.
Proof.
  intros E Hc Hs Hq. split; [done|]. split; [|done].
  split_and!; [done|by unfold same_ptrs; rewrite E|].
  intros r x Hx. exists x. by rewrite E.
Qed.

Create HintDb still.
Ltac still_prim := apply preserves_modify; intros ?; apply still_routers;
  [reflexivity | reflexivity | reflexivity | split_and!; simpl; first [done | lia]].
Ltac still_tac := first [solve [auto 2 with nocore still] | still_prim].
Tactic Notation "pres_still" := pres by still_tac.

Lemma still_optG {A} (o : option A) e : preserves still (optG o e).
Proof. destruct o; [apply preserves_ret, _ | apply preserves_fail]. Qed.

Lemma still_upd_flit p f : preserves still (upd_flit p f).
Proof.
  intros w [] w' Hrun. pose proof (quiet_upd_flit _ _ _ _ _ Hrun) as Hq.
  apply bind_Ok in Hrun as (x & w1 & [Hx ->]%get_flit_Ok & [= <-]). by apply still_routers.
Qed.

(** An update of a router that keeps its wiring and its swap pointer. *)
Lemma still_set_router r x y w :
  vget (net_m_routers w) r = Some x → router_static y = router_static x →
  rt_swap_ptr y = rt_swap_ptr x → dirs x ⊆ dirs y →
  still w (w <| net_m_routers ::= λ l, vset l r y |>).
Proof.
  intros Hx Hs Hp Hd. split; [split_and!; done|]. split; [|done]. split_and!.
  - unfold static, keeps, net_static. simpl. by rewrite (vset_map_same _ _ _ x).
  - unfold same_ptrs. simpl. by apply (vset_map_same _ _ _ x).
  - intros r' x' Hx'. simpl. rewrite vget_vset. case_decide as E; [|by exists x'].
    destruct E as [-> _]. simplify_eq. by exists y.
Qed.

Lemma still_upd_router r f :
  (∀ x, router_static (f x) = router_static x ∧ rt_swap_ptr (f x) = rt_swap_ptr x ∧
        dirs (f x) = dirs x) → preserves still (upd_router r f).
Proof.
  intros Hf w [] w' (x & w1 & [Hx ->]%get_router_Ok & [= <-])%bind_Ok.
  destruct (Hf x) as (? & ? & Hd). apply (still_set_router _ x); try done. by rewrite Hd.
Qed.

Lemma map_at_subseteq {K V} `{Countable K} (m : gmap K V) k z :
  m ⊆ (map_at m k z).2 ∧ (map_at m k z).2 !! k = Some (map_at m k z).1.
Proof.
  unfold map_at. destruct (m !! k) as [v|] eqn:E; simpl; [done|].
  split; [by apply insert_subseteq|by rewrite lookup_insert_eq].
Qed.

(** [m_inports_dirn2idx[d]] is in the table afterwards. *)
Lemma inports_dirn2idx_Ok r d w i w' :
  inports_dirn2idx r d w = Ok (i, w') →
  still w w' ∧ ∃ x', vget (net_m_routers w') r = Some x' ∧ dirs x' !! d = Some i.
Proof.
  intros (x & w1 & [Hx ->]%get_router_Ok & Hrun)%bind_Ok.
  destruct (map_at_subseteq (dirs x) d 0) as [Hsub Hlk]. unfold dirs in Hsub, Hlk.
  destruct (map_at _ d 0) as [j m]. simpl in *.
  apply bind_Ok in Hrun as (? & w1 & Hrun & [= -> <-]). unfold upd_ru in Hrun.
  rewrite (run_upd_router _ _ _ _ Hx) in Hrun. injection Hrun as _ <-. split.
  - by apply (still_set_router _ x).
  - simpl. rewrite vget_vset_eq by (by eapply vget_Some_lt). eexists. split; [done|]. done.
Qed.

Lemma still_inports_dirn2idx r d : preserves still (inports_dirn2idx r d).
Proof. intros w i w' Hrun. by apply inports_dirn2idx_Ok in Hrun as [? _]. Qed.

#[export] Hint Resolve still_optG still_upd_flit still_inports_dirn2idx : still.
#[export] Hint Extern 1 (preserves still (upd_router _ _)) =>
  apply still_upd_router; intros ?; split_and!; reflexivity : still.

Lemma still_numFreeVC o d : preserves still (Router_get_numFreeVC o d).
Proof. pres_still. Qed.
#[export] Hint Resolve still_numFreeVC : still.
Lemma still_route_compute r rt i d : preserves still (Router_route_compute r rt i d).
Proof. pres_still. Qed.
#[export] Hint Resolve still_route_compute : still.
Lemma still_bail_out i : preserves still (GarnetNetwork_bail_out i).
Proof. pres_still. Qed.
#[export] Hint Resolve still_bail_out : still.

(** ** Buffers and stillness *)
Lemma still_contents w w' b : still w w' → contents w' b = contents w b.
Proof. intros ((Hb & _) & _). unfold contents. by rewrite Hb. Qed.

Lemma still_fbuf w w' b : still w w' → is_Some (net_fbufs w' !! b) ↔ is_Some (net_fbufs w !! b).
Proof. intros ((Hb & _) & _). by rewrite Hb. Qed.

Lemma steady_with_contents b l w : steady w (with_contents b l w).
Proof.
  split_and!; [|done|intros r x Hx; by exists x].
  unfold static, keeps, net_static, with_contents. simpl. f_equal.
  destruct (net_fbufs w !! b) as [x|] eqn:Hb; [|done].
  rewrite dom_insert_L. apply elem_of_dom_2 in Hb. set_solver.
Qed.

Lemma steady_vc_buffer w w' r i v b : steady w w' → vc_buffer w r i v b → vc_buffer w' r i v b.
Proof. intros (Hs & _). by apply static_vc_buffer. Qed.

Lemma still_steady w w' : still w w' → steady w w'.
Proof. by intros (_ & ? & _). Qed.

(** The swap pointer of a router is the same in steady states. *)
Lemma steady_swap_ptr w w' r x x' :
  steady w w' → vget (net_m_routers w) r = Some x → vget (net_m_routers w') r = Some x' →
  rt_swap_ptr x' = rt_swap_ptr x ∧ router_static x' = router_static x.
Proof.
  intros (Hs & Hp & _) Hx Hx'. injection Hs as _ Hr _ _ _.
  destruct (list_fmap_eq_lookup _ _ _ _ _ Hp Hx) as (y & Hy & Ey).
  destruct (list_fmap_eq_lookup _ _ _ _ _ Hr Hx) as (z & Hz & Ez). split; congruence.
Qed.

(** The index of a direction is the same in steady states. *)
Lemma steady_dirs w w' r x x' d i i' :
  steady w w' → vget (net_m_routers w) r = Some x → vget (net_m_routers w') r = Some x' →
  dirs x !! d = Some i → dirs x' !! d = Some i' → i' = i.
Proof.
  intros (_ & _ & Hg) Hx Hx' Hd Hd'. destruct (Hg _ _ Hx) as (y & Hy & Hsub).
  simplify_eq. eapply lookup_weaken in Hd; [|done]. congruence.
Qed.

Lemma bind_still {A B} (m : G A) (k : A → G B) w b w' :
  (m ≫= k) w = Ok (b, w') → preserves still m →
  ∃ a w1, m w = Ok (a, w1) ∧ still w w1 ∧ k a w1 = Ok (b, w').
Proof. intros (a & w1 & Hm & Hk)%bind_Ok Hs. exists a, w1. split_and!; eauto. Qed.

(** Run a still prefix of a program, keeping [still w0 w] for the current [w]. *)
Ltac run_still H S :=
  lazymatch type of H with
  | (_ ≫= _) _ = Ok _ =>
      let a := fresh "a" in let w1 := fresh "w" in let Hm := fresh "Hm" in
      let S1 := fresh "S" in
      apply bind_still in H as (a & w1 & Hm & S1 & H); [|solve [pres_still]];
      cbv beta zeta in H;
      lazymatch type of S with
      | still ?w0 _ =>
          let S2 := fresh "S" in
          assert (S2 : still w0 w1) by (etransitivity; [exact S | exact S1]);
          clear S S1; rename S2 into S
      end
  end.

(** [doSwap_enqueue] puts the flit at the front of one VC: that of [inport_id],
    or of the port that [inport_dirn] names when [inport_id] is -1. *)
Lemma doSwap_enqueue_Ok r p d i v w a w' :
  Router_doSwap_enqueue r p d i v w = Ok (a, w') →
  ∃ j b w1, still w w1 ∧ vc_buffer w1 r j v b ∧ is_Some (net_fbufs w1 !! b) ∧
    w' = with_contents b (p :: contents w1 b) w1 ∧
    (i ≠ -1 → j = i) ∧
    (i = -1 → ∃ x, vget (net_m_routers w1) r = Some x ∧ dirs x !! d = Some j).
Proof.
  intros H. unfold Router_doSwap_enqueue in H. assert (S : still w w) by reflexivity.
  do 10 run_still H S.
  assert (Hj : ∃ j w1, still w w1 ∧ InputUnit_enqueue_flit r j v p w1 = Ok (a, w') ∧
    (i ≠ -1 → j = i) ∧
    (i = -1 → ∃ x, vget (net_m_routers w1) r = Some x ∧ dirs x !! d = Some j)).
  { run_still H S. match type of H with InputUnit_enqueue_flit _ ?j _ _ ?w1 = _ => exists j, w1 end.
    split; [done|]. split; [done|]. destruct (Z.eqb_spec i (-1)) as [->|Hi].
    - apply bind_Ok in Hm9 as (k & w9' & Hk & Hm9).
      apply bind_Ok in Hm9 as (? & w10' & Ha & [= -> ->]).
      unfold assertM in Ha. case_match; [|done]. injection Ha as _ ->.
      split; [done|]. intros _. by apply inports_dirn2idx_Ok in Hk as [_ ?].
    - split; [|done]. intros _.
      repeat apply bind_Ok in Hm9 as (? & ? & _ & Hm9). by injection Hm9. }
  destruct Hj as (j & wj & S1 & He & Hj1 & Hj2).
  apply InputUnit_enqueue_flit_Ok in He as (b & Hb & Hf & ->).
  exists j, b, wj. split_and!; done.
Qed.

(** ** The exchange *)

(** [put b l w w']: apart from the new contents [l] of [b], nothing has moved. *)
Definition put (b : ptr) (l : list ptr) (w w' : GNet) : Prop :=
  is_Some (net_fbufs w !! b) ∧ quiet (with_contents b l w) w' ∧ steady w w' ∧
  swap_counters w' = swap_counters w.

Lemma quiet_with_contents b l w w' :
  quiet w w' → quiet (with_contents b l w) (with_contents b l w').
Proof.
  intros (Hb & Hs & Hd & Hn). split_and!; try done. unfold with_contents. simpl. by rewrite Hb.
Qed.

Lemma with_contents_twice b l l' w :
  with_contents b l (with_contents b l' w) = with_contents b l w.
Proof.
  unfold with_contents. destruct w. cbn in *. f_equal.
  destruct (net_fbufs !! b) as [x|] eqn:Hx; [|by rewrite Hx].
  by rewrite lookup_insert_eq, insert_insert_eq.
Qed.

Lemma put_intro b l w : is_Some (net_fbufs w !! b) → put b l w (with_contents b l w).
Proof. intros Hb. split_and!; [done|reflexivity|apply steady_with_contents|done]. Qed.

Lemma put_still_l b l w w1 w' : still w w1 → put b l w1 w' → put b l w w'.
Proof.
  intros Hs (Hb & Hq & Hst & Hc). pose proof Hs as (Hq1 & Hst1 & Hc1). split_and!.
  - by rewrite <- (still_fbuf _ _ _ Hs).
  - etransitivity; [by apply quiet_with_contents|done].
  - by transitivity w1.
  - congruence.
Qed.

Lemma put_still_r b l w w1 w' : put b l w w1 → still w1 w' → put b l w w'.
Proof.
  intros (Hb & Hq & Hst & Hc) (Hq1 & Hst1 & Hc1).
  split_and!; [done|by transitivity w1|by transitivity w1|congruence].
Qed.

Lemma put_contents b l w w' b' :
  put b l w w' → contents w' b' = if decide (b = b') then l else contents w b'.
Proof.
  intros (Hb & (E & _) & _). rewrite <- (contents_with b l w b' Hb). unfold contents.
  by rewrite E.
Qed.

Lemma put_steady b l w w' : put b l w w' → steady w w'.
Proof. by intros (_ & _ & ? & _). Qed.

Lemma put_fbuf b l w w' b' :
  put b l w w' → is_Some (net_fbufs w' !! b') ↔ is_Some (net_fbufs w !! b').
Proof.
  intros (_ & _ & (Hs & _) & _). injection Hs as _ _ _ _ Hd.
  by rewrite <- !elem_of_dom, Hd.
Qed.

(** A second [put] into the same buffer replaces the first. *)
Lemma put_put b l l' w w1 w' : put b l' w w1 → put b l w1 w' → put b l w w'.
Proof.
  intros (Hb & Hq & Hst & Hc) (Hb1 & Hq1 & Hst1 & Hc1). split_and!.
  - done.
  - etransitivity; [|exact Hq1]. rewrite <- (with_contents_twice b l l' w).
    by apply quiet_with_contents.
  - by transitivity w1.
  - congruence.
Qed.

(** The VC of input direction [d] and number [v] at router [r], once the
    direction has been looked up. *)
Definition dirn_vc (w : GNet) (r : Z) (d : PortDirection) (v : Z) (b : ptr) : Prop :=
  ∃ x i, vget (net_m_routers w) r = Some x ∧ dirs x !! d = Some i ∧ vc_buffer w r i v b.

Lemma dirn_vc_steady w w' r d v b b' :
  steady w w' → dirn_vc w r d v b → dirn_vc w' r d v b' → b' = b.
Proof.
  intros Hst (x & i & Hx & Hi & Hb) (x' & i' & Hx' & Hi' & Hb').
  rewrite (steady_dirs _ _ _ _ _ _ _ _ Hst Hx Hx' Hi Hi') in Hb'.
  eapply vc_buffer_fun; [exact Hb'|]. by eapply steady_vc_buffer.
Qed.

(** [Router::doSwap] takes the head flit [q] of a VC, or nothing. *)
Lemma doSwap_take_Ok r i v w o w' :
  Router_doSwap_take r i v w = Ok (o, w') →
  match o with
  | None => still w w'
  | Some q => ∃ b l l', vc_buffer w r i v b ∧ contents w b = q :: l ∧ l' ≡ₚ l ∧ put b l' w w'
  end.
Proof.
  intros H. unfold Router_doSwap_take in H.
  apply bind_Ok in H as (e & w1 & He & H).
  assert (w1 = w) as ->.
  { unfold InputUnit_vc_isEmpty in He. apply bind_Ok in He as (c & w2 & [-> _]%get_vc_Ok & He).
    unfold flitBuffer_isEmpty in He.
    apply bind_Ok in He as (x & w2 & [_ ->]%get_fb_Ok & [= _ ->]). done. }
  destruct e.
  { apply bind_Ok in H as (? & w2 & [= _ <-] & [= <- <-]). by apply still_routers. }
  apply bind_Ok in H as (q & w2 & (-> & b & l & Hb & Hl)%InputUnit_peekTopFlit_Ok & H).
  apply bind_Ok in H as (f & w2 & [_ ->]%get_flit_Ok & H). case_match.
  { injection H as <- <-. reflexivity. }
  apply bind_Ok in H as (q' & w2 & Hq & [= <- ->]).
  apply InputUnit_getTopFlit_Ok in Hq as (b' & k & k' & Hb' & Hf & Hk & Hp & ->).
  pose proof (vc_buffer_fun _ _ _ _ _ _ Hb Hb') as <-. rewrite Hl in Hk. injection Hk as <- <-.
  exists b, l, k'. split_and!; try done. by apply put_intro.
Qed.

Lemma doSwap_Ok r d v w o w' :
  Router_doSwap r d v w = Ok (o, w') →
  match o with
  | None => still w w'
  | Some q => ∃ b l l' w1, still w w1 ∧ dirn_vc w1 r d v b ∧ contents w b = q :: l ∧
                           l' ≡ₚ l ∧ put b l' w1 w'
  end.
Proof.
  intros H. unfold Router_doSwap in H.
  apply bind_still in H as (? & w1 & _ & S1 & H); [|pres_still]. cbv beta in H.
  apply bind_Ok in H as (i & w2 & Hi & H).
  apply inports_dirn2idx_Ok in Hi as (S2 & xr & Hx & Hd).
  apply bind_still in H as (nis & w3 & [= _ <-] & S3 & H); [|pres_still]. cbv beta in H.
  assert (S : still w w2) by (by transitivity w1).
  assert (Hmain : ∀ w2', still w2 w2' → w2' = w2 → Router_doSwap_take r i v w2' = Ok (o, w') →
    match o with
    | None => still w w'
    | Some q => ∃ b l l' w1, still w w1 ∧ dirn_vc w1 r d v b ∧ contents w b = q :: l ∧
                             l' ≡ₚ l ∧ put b l' w1 w'
    end).
  { intros w2' _ -> Ht. apply doSwap_take_Ok in Ht. destruct o as [q|]; [|by transitivity w2].
    destruct Ht as (b & l & l' & Hb & Hl & Hp & Hput). exists b, l, l', w2.
    split_and!; try done; [by exists xr, i|]. by rewrite <- (still_contents _ _ b S). }
  destruct (nis =? 0).
  - apply bind_Ok in H as (y & w3 & [_ ->]%get_router_Ok & H). destruct (rt_is_swap y).
    + injection H as <- <-. done.
    + by apply (Hmain w2).
  - destruct (nis =? 1); [by apply (Hmain w2)|done].
Qed.

(** The downstream half: [flit_t] takes the place of the flit it returns. *)
Lemma doSwap_with_Ok t up down d set w o w' :
  GarnetNetwork_doSwap_with t up down d set w = Ok (o, w') →
  match o with
  | None => still w w'
  | Some q => ∃ b l l', contents w b = q :: l ∧ l' ≡ₚ l ∧ put b (t :: l') w w' ∧
      ∃ x, vget (net_m_routers w) up = Some x ∧ dirn_vc w' down d (sp_vcid (rt_swap_ptr x)) b
  end.
Proof.
  intros H. unfold GarnetNetwork_doSwap_with in H.
  apply bind_Ok in H as (x & w1 & [Hx ->]%get_router_Ok & H). cbv zeta in H.
  apply bind_Ok in H as (f & w1 & [Hf ->]%get_flit_Ok & H).
  apply bind_still in H as (? & w1 & _ & S1 & H); [|pres_still]. cbv beta in H.
  apply bind_Ok in H as (o' & w2 & Ho & H). apply doSwap_Ok in Ho.
  destruct o' as [q|]; [|injection H as <- <-; by transitivity w1].
  destruct Ho as (b & l & l' & w1' & S2 & Hd & Hl & Hp & Hput).
  apply bind_still in H as (? & w3 & _ & S3 & H); [|pres_still]. cbv beta in H.
  apply bind_still in H as (? & w4 & _ & S4 & H); [|pres_still]. cbv beta in H.
  apply bind_Ok in H as (? & w5 & He & [= <- ->]).
  apply doSwap_enqueue_Ok in He as (j & b' & w6 & S5 & Hb' & Hf' & -> & _ & Hj).
  destruct (Hj eq_refl) as (y & Hy & Hdy).
  assert (Hput' : put b l' w w6).
  { eapply put_still_l; [by transitivity w1|].
    eapply put_still_r; [exact Hput|]. transitivity w3; [done|]. by transitivity w4. }
  assert (b' = b) as ->.
  { eapply (dirn_vc_steady w1' w6); [|exact Hd|by exists y, j].
    etransitivity; [by eapply put_steady|]. apply still_steady.
    transitivity w3; [done|]. by transitivity w4. }
  exists b, l, l'. split_and!; [by rewrite <- (still_contents _ _ b S1)|done| |].
  - rewrite (put_contents _ _ _ _ b Hput'), decide_True by done.
    eapply put_put; [done|]. by apply put_intro.
  - exists x. split; [done|]. exists y, j. split_and!; [done|done|].
    eapply steady_vc_buffer; [apply steady_with_contents|done].
Qed.

Lemma GarnetNetwork_doSwap_Ok t up w o w' :
  GarnetNetwork_doSwap t up w = Ok (o, w') →
  match o with
  | None => still w w'
  | Some q => ∃ f down d b l l', net_flits w !! t = Some f ∧
      get_downstreamId (cf_m_num_cols (net_cfg w)) (fl_m_outport_dir f) up = Ok down ∧
      get_downstreamDirn (fl_m_outport_dir f) = Ok d ∧
      contents w b = q :: l ∧ l' ≡ₚ l ∧ put b (t :: l') w w' ∧
      ∃ x, vget (net_m_routers w) up = Some x ∧ dirn_vc w' down d (sp_vcid (rt_swap_ptr x)) b
  end.
Proof.
  intros H. unfold GarnetNetwork_doSwap in H.
  apply bind_Ok in H as (f & w1 & [Hf ->]%get_flit_Ok & H). cbv zeta in H.
  apply bind_Ok in H as (down & w1 & Hdn & H). unfold GarnetNetwork_get_downstreamId in Hdn.
  apply bind_Ok in Hdn as (cols & w2 & [= <- <-] & Hdn). unfold lift in Hdn.
  destruct (get_downstreamId _ _ up) as [down'|] eqn:Ed; [|done]. injection Hdn as -> <-.
  apply bind_Ok in H as (d & w2 & Hd & H). unfold lift in Hd.
  destruct (get_downstreamDirn _) as [d'|] eqn:Edir; [|done]. injection Hd as -> <-.
  apply bind_Ok in H as (nis & w2 & [= _ <-] & H).
  assert (Hmain : ∀ set, GarnetNetwork_doSwap_with t up down d set w = Ok (o, w') →
    match o with
    | None => still w w'
    | Some q => ∃ f down d b l l', net_flits w !! t = Some f ∧
        get_downstreamId (cf_m_num_cols (net_cfg w)) (fl_m_outport_dir f) up = Ok down ∧
        get_downstreamDirn (fl_m_outport_dir f) = Ok d ∧
        contents w b = q :: l ∧ l' ≡ₚ l ∧ put b (t :: l') w w' ∧
        ∃ x, vget (net_m_routers w) up = Some x ∧ dirn_vc w' down d (sp_vcid (rt_swap_ptr x)) b
    end).
  { intros set Hs. apply doSwap_with_Ok in Hs. destruct o as [q|]; [|done].
    destruct Hs as (b & l & l' & ? & ? & ? & ?). exists f, down, d, b, l, l'. done. }
  repeat match type of H with
    | (if ?b then _ else _) _ = _ => destruct b
    | (_ ≫= _) _ = _ => apply bind_Ok in H as (y & w2 & [_ ->]%get_router_Ok & H)
    | mret _ _ = _ => injection H as <- <-; reflexivity
    | _ => first [discriminate H | by eapply Hmain]
    end.
Qed.

Lemma vc_buffer_index w r i v b : vc_buffer w r i v b → i ≠ -1.
Proof.
  intros (c & (_ & u & (_ & x & _ & Hu)%get_input_Ok & _)%get_vc_Ok & _).
  apply vget_Some_lt in Hu. lia.
Qed.

(** The upstream half: the flit brought back replaces the head of the VC that
    the swap pointer names. *)
Lemma complete_swap_Ok r q w a w' x b :
  Router_complete_swap r q w = Ok (a, w') →
  vget (net_m_routers w) r = Some x →
  vc_buffer w r (sp_inport (rt_swap_ptr x)) (sp_vcid (rt_swap_ptr x)) b →
  ∃ t l l' w1, contents w b = t :: l ∧ l' ≡ₚ l ∧ put b (q :: l') w w1 ∧
    still (w1 <| net_stats ::= λ s, s <| st_m_total_swaps ::= Z.succ |> |>) w'.
Proof.
  intros H Hx Hb. unfold Router_complete_swap in H.
  apply bind_Ok in H as (x' & w1 & [Hx' ->]%get_router_Ok & H). simplify_eq. cbv zeta in H.
  apply bind_Ok in H as (t & w1 & Ht & H).
  apply InputUnit_getTopFlit_Ok in Ht as (b' & l & l' & Hb' & Hf & Hl & Hp & ->).
  pose proof (vc_buffer_fun _ _ _ _ _ _ Hb Hb') as <-.
  apply bind_Ok in H as (u & w1 & [-> _]%get_input_Ok & H).
  apply bind_Ok in H as (? & w2 & He & H).
  apply doSwap_enqueue_Ok in He as (j & b' & w1 & S & Hbj & Hf' & -> & Hj & _).
  rewrite (Hj (vc_buffer_index _ _ _ _ _ Hb)) in Hbj.
  assert (b' = b) as ->.
  { eapply vc_buffer_fun; [exact Hbj|]. eapply steady_vc_buffer; [|exact Hb].
    etransitivity; [apply steady_with_contents|by apply still_steady]. }
  rewrite (still_contents _ _ b S), contents_with, decide_True in H by done.
  exists t, l, l', (with_contents b (q :: l') w1). split_and!; [done|done| |].
  - eapply put_put; [by apply (put_intro b l')|]. eapply put_still_l; [exact S|]. by apply put_intro.
  - apply bind_Ok in H as (? & w3 & [= _ <-] & H).
    assert (Hs : preserves still (
      x ← get_router r;
      if rt_send_routedSwap x then
        no_is_swap ← config cf_m_no_is_swap;
        (if no_is_swap =? 0 then assertM (rt_is_swap x) "Router.cc:303" else mret tt) ;;
        upd_router r (λ x, x <| rt_send_routedSwap := false |>) ;;
        upd_router r (λ x, x <| rt_is_swap := false |>) ;;
        upd_stats (λ s, s <| st_m_total_routedSwaps ::= Z.succ |>)
      else mret tt)) by pres_still.
    by apply Hs in H.
Qed.

(** ** [Router::wakeup]'s use of a swap *)

Lemma still_failed w w' :
  still w w' →
  still (w <| net_stats ::= λ s, s <| st_m_total_failed_swaps ::= Z.succ |> |>)
        (w' <| net_stats ::= λ s, s <| st_m_total_failed_swaps ::= Z.succ |> |>).
Proof.
  intros (Hq & Hst & Hc). split_and!; [exact Hq|exact Hst|].
  unfold swap_counters in *. simpl in *. congruence.
Qed.

Lemma steady_router w w' r x :
  steady w w' → vget (net_m_routers w) r = Some x →
  ∃ x', vget (net_m_routers w') r = Some x' ∧ rt_swap_ptr x' = rt_swap_ptr x ∧
        router_static x' = router_static x.
Proof.
  intros Hst Hx. pose proof Hst as (_ & _ & Hg). destruct (Hg _ _ Hx) as (x' & Hx' & _).
  exists x'. split; [done|]. by eapply steady_swap_ptr.
Qed.

(** The state with one more initiated swap counted. *)
Definition initiated (w : GNet) : GNet :=
  w <| net_stats ::= λ s, s <| st_m_total_initiated_swaps ::= Z.succ |> |>.

(** The downstream VC for flit [t] of router [r]: the VC of the swap pointer's
    number, at the input port that faces the sender in the direction in which
    the flit leaves. *)
Definition downstream_vc (w w' : GNet) (r : Z) (t b : ptr) : Prop :=
  ∃ x x' f down d, vget (net_m_routers w) r = Some x ∧
    vget (net_m_routers w) (rt_m_id x) = Some x' ∧ net_flits w !! t = Some f ∧
    get_downstreamId (cf_m_num_cols (net_cfg w)) (fl_m_outport_dir f) (rt_m_id x) = Ok down ∧
    get_downstreamDirn (fl_m_outport_dir f) = Ok d ∧
    dirn_vc w' down d (sp_vcid (rt_swap_ptr x')) b.

Lemma dirn_vc_mono w w' r d v b : steady w w' → dirn_vc w r d v b → dirn_vc w' r d v b.
Proof.
  intros Hst (x & i & Hx & Hi & Hb). pose proof Hst as (_ & _ & Hg).
  destruct (Hg _ _ Hx) as (x' & Hx' & Hsub). exists x', i. split_and!; [done| |].
  - by eapply lookup_weaken.
  - by eapply steady_vc_buffer.
Qed.

(** Nothing before the exchange changes the direction of a flit. *)
Definition same_outdirs : relation GNet := keeps (λ w, fl_m_outport_dir <$> net_flits w).
#[local] Instance same_outdirs_preorder : PreOrder same_outdirs := keeps_preorder _.

Lemma same_outdirs_upd_flit p f :
  (∀ x, fl_m_outport_dir (f x) = fl_m_outport_dir x) → preserves same_outdirs (upd_flit p f).
Proof.
  intros Hf w [] w' (x & w1 & [Hx ->]%get_flit_Ok & [= <-])%bind_Ok.
  unfold same_outdirs, keeps. simpl. rewrite fmap_insert, Hf. apply insert_id.
  by rewrite lookup_fmap, Hx.
Qed.
Ltac outdirs_tac :=
  first [ apply same_outdirs_upd_flit; intros ?; reflexivity
        | apply preserves_modify; intros ?; reflexivity ].

Definition periodic_bail_out (r no_is_swap : Z) (x : Router) : G () :=
  if no_is_swap =? 0 then
    deadlck_symtm ← chk_deadlck_symptm (rt_m_id x) 0;
    if (deadlck_symtm : bool) then
      GarnetNetwork_bail_out (rt_m_id x) ;;
      upd_stats (λ s, s <| st_m_total_bailout ::= Z.succ |>)
    else mret tt
  else assertM (no_is_swap =? 1) "Router.cc:238".

Lemma same_outdirs_bail_out r nis x : preserves same_outdirs (periodic_bail_out r nis x).
Proof. pres by outdirs_tac. Qed.

Lemma outdir_back w w' t f :
  same_outdirs w w' → net_flits w' !! t = Some f →
  ∃ f0, net_flits w !! t = Some f0 ∧ fl_m_outport_dir f0 = fl_m_outport_dir f.
Proof.
  intros E Hf. unfold same_outdirs, keeps in E.
  assert (H : (fl_m_outport_dir <$> net_flits w) !! t = Some (fl_m_outport_dir f))
    by (by rewrite <- E, lookup_fmap, Hf).
  rewrite lookup_fmap in H. apply fmap_Some in H as (f0 & ? & ?). eauto.
Qed.

Lemma steady_router_back w w' r x' :
  steady w w' → vget (net_m_routers w') r = Some x' →
  ∃ x, vget (net_m_routers w) r = Some x ∧ rt_swap_ptr x = rt_swap_ptr x'.
Proof. intros (_ & Hp & _) Hx'. symmetry in Hp. by eapply list_fmap_eq_lookup in Hx'. Qed.

Lemma initiate_swap_Ok r w a w' :
  Router_initiate_swap r w = Ok (a, w') →
  still ((initiated w) <| net_stats ::= λ s, s <| st_m_total_failed_swaps ::= Z.succ |> |>) w' ∨
  ∃ x bu bd t q lu ld ld' w1 w2 k k',
    vget (net_m_routers w) r = Some x ∧
    vc_buffer w r (sp_inport (rt_swap_ptr x)) (sp_vcid (rt_swap_ptr x)) bu ∧
    contents w bu = t :: lu ∧ contents w bd = q :: ld ∧ ld' ≡ₚ ld ∧
    put bd (t :: ld') (initiated w) w1 ∧ contents w1 bu = t :: k ∧ k' ≡ₚ k ∧
    put bu (q :: k') w1 w2 ∧
    still (w2 <| net_stats ::= λ s, s <| st_m_total_swaps ::= Z.succ |> |>) w' ∧
    downstream_vc w w' r t bd.
Proof.
  intros H. unfold Router_initiate_swap in H.
  apply bind_Ok in H as (? & w1 & Hw1 & H). assert (w1 = initiated w) as -> by (by injection Hw1).
  clear Hw1. apply bind_Ok in H as (xa & w1 & [Hxa ->]%get_router_Ok & H).
  apply bind_Ok in H as (nis & w1 & Hnis & H).
  assert (w1 = initiated w) as -> by (by injection Hnis). clear Hnis.
  apply bind_still in H as (? & w1 & Hb & S1 & H); [|pres_still]. cbv beta in H.
  apply (same_outdirs_bail_out r nis xa) in Hb.
  apply bind_Ok in H as (xb & w2 & [Hxb ->]%get_router_Ok & H). cbv zeta in H.
  apply bind_Ok in H as (t & w2 & (-> & bu & lu & Hbu & Hlu)%InputUnit_peekTopFlit_Ok & H).
  apply bind_Ok in H as (f & w2 & [Hf ->]%get_flit_Ok & H).
  apply bind_still in H as (? & w2 & Hr & S2 & H); [|pres_still]. cbv beta in H.
  match type of Hr with ?m _ = _ =>
    assert (P : preserves same_outdirs m) by (pres by outdirs_tac); apply P in Hr; clear P end.
  apply bind_Ok in H as (o & w3 & Ho & H). apply GarnetNetwork_doSwap_Ok in Ho.
  assert (S : still (initiated w) w2) by (by transitivity w1).
  destruct o as [q|]; [right|left].
  - destruct Ho as (f2 & down & d & bd & l & l' & Hf2 & Hdn & Hd & Hl & Hp & Hput & x2 & Hx2 & Hdv).
    assert (St3 : steady w1 w3).
    { etransitivity; [by apply still_steady|by eapply put_steady]. }
    destruct (steady_router _ _ _ _ St3 Hxb) as (x3 & Hx3 & Ep & _).
    assert (Hbu3 : vc_buffer w3 r (sp_inport (rt_swap_ptr x3)) (sp_vcid (rt_swap_ptr x3)) bu)
      by (rewrite Ep; by eapply steady_vc_buffer).
    destruct (complete_swap_Ok _ _ _ _ _ _ _ H Hx3 Hbu3) as (t' & k & k' & w4 & Hk & Hk' & Hput4 & S4).
    assert (t' = t) as ->.
    { rewrite (put_contents _ _ _ _ bu Hput) in Hk.
      rewrite (still_contents _ _ bu S2), Hlu in Hk. case_decide; congruence. }
    destruct (steady_swap_ptr _ _ _ _ _ (still_steady _ _ S1) Hxa Hxb) as [Eptr Eid].
    exists xa, bu, bd, t, q, lu, l, l', w3, w4, k, k'. rewrite <- Eptr. split_and!; try done.
    + eapply static_vc_buffer; [|exact Hbu]. destruct S1 as (_ & (St & _) & _). symmetry. exact St.
    + rewrite <- Hlu. symmetry. apply (still_contents _ _ bu S1).
    + rewrite <- Hl. symmetry. apply (still_contents _ _ bd S).
    + by eapply put_still_l.
    + destruct (steady_router_back _ _ _ _ (still_steady _ _ S) Hx2) as (y & Hy & Ey).
      destruct (outdir_back _ _ _ _ (transitivity Hb Hr) Hf2) as (f0 & Hf0 & Ef).
      assert (Ecfg : net_cfg w2 = net_cfg w) by (destruct S as (_ & (St & _) & _); by injection St).
      assert (rt_m_id xb = rt_m_id xa) as E by (by injection Eid). rewrite E in *.
      exists xa, y, f0, down, d. rewrite Ef, <- Ecfg, Ey. split_and!; try done.
      eapply dirn_vc_mono; [|exact Hdv].
      etransitivity; [by eapply put_steady|]. by apply still_steady in S4.
  - unfold Router_refuse_swap in H. apply bind_Ok in H as (xr & w4 & [_ ->]%get_router_Ok & H).
    apply bind_still in H as (? & w4 & _ & S3 & H); [|pres_still].
    assert (w' = w4 <| net_stats ::= λ s, s <| st_m_total_failed_swaps ::= Z.succ |> |>) as ->
      by (by injection H).
    apply (still_failed (initiated w)). transitivity w2; [done|]. by transitivity w3.
Qed.

(** [t], at the head of [bu], and [q], at the head of [bd], have changed
    places; what is behind them stays, and so does every other buffer. *)
Definition exchanged (w w' : GNet) (bu bd t q : ptr) : Prop :=
  ∃ lu ld lu' ld', contents w bu = t :: lu ∧ contents w bd = q :: ld ∧
    contents w' bu = q :: lu' ∧ contents w' bd = t :: ld' ∧ lu' ≡ₚ lu ∧ ld' ≡ₚ ld ∧
    ∀ b, b ≠ bu → b ≠ bd → contents w' b = contents w b.

Lemma puts_exchanged w w1 w2 bu bd t q lu ld ld' k k' :
  contents w bu = t :: lu → contents w bd = q :: ld → ld' ≡ₚ ld →
  put bd (t :: ld') w w1 → contents w1 bu = t :: k → k' ≡ₚ k → put bu (q :: k') w1 w2 →
  exchanged w w2 bu bd t q.
Proof.
  intros Hlu Hld Hp Hput1 Hk Hk' Hput2.
  assert (E1 := λ b, put_contents _ _ _ _ b Hput1).
  assert (E2 := λ b, put_contents _ _ _ _ b Hput2).
  pose proof Hk as Hk1. rewrite E1, Hlu in Hk1. case_decide as Ebd.
  - subst bd. rewrite Hlu in Hld. injection Hld as -> ->. injection Hk1 as ->.
    exists ld, ld, k', k'. rewrite E2, decide_True by done. split_and!; try done;
      try (by rewrite Hk'). intros b Hb _. rewrite E2, E1, !decide_False by done. done.
  - injection Hk1 as ->. exists k, ld, k', ld'. split_and!; try done.
    + by rewrite E2, decide_True.
    + by rewrite E2, E1, decide_False, decide_True.
    + intros b Hb1 Hb2. rewrite E2, E1, !decide_False by done. done.
Qed.

(** The queues of the interfaces and the set of live flits stay. *)
Definition same_flits (w w' : GNet) : Prop :=
  dom (net_flits w') = dom (net_flits w) ∧
  ni_m_stall_queue <$> net_m_nis w' = ni_m_stall_queue <$> net_m_nis w.

Lemma put_same_flits b l w w' : put b l w w' → same_flits w w'.
Proof. intros (_ & (_ & Hs & Hd & _) & _). by split. Qed.
Lemma still_same_flits w w' : still w w' → same_flits w w'.
Proof. intros ((_ & Hs & Hd & _) & _). by split. Qed.

(** C6.  A swap is an exchange: when [Router::wakeup] initiates a swap, either
    the swap is refused, and then it is counted as failed and no buffer of the
    network changes, or it is counted as completed, and then the head flit of
    the VC that the swap pointer names and the head flit of the VC of the same
    number at the facing input port of the downstream router have changed
    places, and every other buffer is unchanged.  In both cases no flit is
    created or deleted, and the swap pointers and the wiring stay. *)
Theorem swap_exchanges_two_flits r w w' :
  Router_initiate_swap r w = Ok (tt, w') →
  let '(i, s, f) := swap_counters w in
  same_flits w w' ∧ steady w w' ∧
  ((swap_counters w' = (i + 1, s, f + 1) ∧ ∀ b, contents w' b = contents w b) ∨
   (swap_counters w' = (i + 1, s + 1, f) ∧
    ∃ x bu bd t q, vget (net_m_routers w) r = Some x ∧
      vc_buffer w r (sp_inport (rt_swap_ptr x)) (sp_vcid (rt_swap_ptr x)) bu ∧
      downstream_vc w w' r t bd ∧ exchanged w w' bu bd t q)).
Proof.
  intros [S|(x & bu & bd & t & q & lu & ld & ld' & w1 & w2 & k & k' & Hx & Hbu & Hlu & Hld & Hp
    & Hput1 & Hk & Hk' & Hput2 & S & Hdv)]%initiate_swap_Ok; simpl.
  - split_and!.
    + apply (still_same_flits _ _ S).
    + apply (still_steady _ _ S).
    + left. destruct S as (Hq & _ & ->). split; [done|]. intros b.
      unfold contents. destruct Hq as (-> & _). done.
  - split_and!.
    + destruct (put_same_flits _ _ _ _ Hput1) as [D1 N1].
      destruct (put_same_flits _ _ _ _ Hput2) as [D2 N2].
      destruct (still_same_flits _ _ S) as [D3 N3]. split; simpl in *; congruence.
    + transitivity w1; [apply (put_steady _ _ _ _ Hput1)|].
      transitivity w2; [apply (put_steady _ _ _ _ Hput2)|apply (still_steady _ _ S)].
    + right. split.
      * destruct S as (_ & _ & ->). destruct Hput1 as (_ & _ & _ & C1).
        destruct Hput2 as (_ & _ & _ & C2). unfold swap_counters in *. simpl in *.
        injection C1 as ???. injection C2 as ???. f_equal; [f_equal|]; lia.
      * exists x, bu, bd, t, q. split_and!; try done.
        destruct (puts_exchanged (initiated w) w1 w2 bu bd t q lu ld ld' k k')
          as (a1 & a2 & a3 & a4 & H1 & H2 & H3 & H4 & H5 & H6 & H7); [done..|].
        assert (E := λ b, still_contents _ _ b S).
        exists a1, a2, a3, a4. split_and!; [exact H1|exact H2|by rewrite E|by rewrite E|done|done|].
        intros b ??. rewrite E. by apply H7.
Qed.

Lemma swap_exchanges_two_flits_witness :
  ∃ w', Router_initiate_swap 0 (swap_scene 1) = Ok (tt, w') ∧ swap_counters w' = (1, 1, 0) ∧
    ∃ bu bd t q, downstream_vc (swap_scene 1) w' 0 t bd ∧ exchanged (swap_scene 1) w' bu bd t q.
Proof.
  assert (Hc : match Router_initiate_swap 0 (swap_scene 1) with
               | Ok (_, w') => swap_counters w' = (1, 1, 0)
               | Abort _ => False
               end) by (vm_compute; reflexivity).
  destruct (Router_initiate_swap 0 (swap_scene 1)) as [[[] w']|e] eqn:E; [|destruct Hc].
  exists w'. split; [reflexivity|]. split; [exact Hc|].
  pose proof (swap_exchanges_two_flits 0 (swap_scene 1) w' E) as H.
  assert (Es : swap_counters (swap_scene 1) = (0, 0, 0)) by (vm_compute; reflexivity).
  rewrite Es in H. destruct H as (_ & _ & [[Hc' _]|[_ H]]).
  - rewrite Hc in Hc'. discriminate Hc'.
  - destruct H as (x & bu & bd & t & q & _ & _ & Hd & H). exists bu, bd, t, q. split; assumption.
Defined.
