(* ===== verification/SwapProgress.v ===== *)
(** * Swaps make progress

    When two routed flits face each other, a swap cannot fail: it returns,
    exchanges them, brings the initiating flit one hop closer to its
    destination, takes the other at most one hop back, and leaves both with a
    freshly computed output port at their new routers. *)

From S2P Require Import Prelude BinaryHeap NetDestModel CommonTypes GarnetState FlitBuffer Channels RoutingUnitModel SwapModel UnitsModel SwitchAllocatorModel MessageBufferModel NetworkInterfaceModel BuildModel Scenarios StateLemmas RoutingTheory Wiring Ownership SwapExchange.

(** ** What a swap leaves alone

    The configuration, the buffers' addresses, and of each router its number,
    routing unit, input units and swap pointer. *)
Definition router_view (x : Router) :=
  (rt_m_id x, rt_m_routing_unit x, rt_m_input_unit x, rt_swap_ptr x).
Definition net_view (w : GNet) :=
  (net_cfg w, router_view <$> net_m_routers w, dom (net_fbufs w)).
Definition same_view : relation GNet := keeps net_view.
#[export] Instance same_view_preorder : PreOrder same_view := keeps_preorder _.

Lemma same_view_cfg w w' : same_view w w' → net_cfg w' = net_cfg w.
Proof. intros E. by injection E. Qed.

Lemma same_view_fbuf w w' b :
  same_view w w' → is_Some (net_fbufs w' !! b) ↔ is_Some (net_fbufs w !! b).
Proof. intros E. injection E as _ _ E. by rewrite <- !elem_of_dom, E. Qed.

Lemma same_view_vget w w' r :
  same_view w w' →
  router_view <$> vget (net_m_routers w') r = router_view <$> vget (net_m_routers w) r.
Proof. intros E. injection E as _ E _. by rewrite <- !vget_fmap, E. Qed.

Lemma same_view_router w w' r x :
  same_view w w' → vget (net_m_routers w) r = Some x →
  ∃ x', vget (net_m_routers w') r = Some x' ∧ rt_m_id x' = rt_m_id x ∧
    rt_m_routing_unit x' = rt_m_routing_unit x ∧ rt_m_input_unit x' = rt_m_input_unit x ∧
    rt_swap_ptr x' = rt_swap_ptr x.
Proof.
  intros E%(same_view_vget _ _ r) Hx. rewrite Hx in E. simpl in E.
  apply fmap_Some in E as (x' & Hx' & E). exists x'. by injection E.
Qed.

Lemma same_view_port_ok w w' n d : same_view w w' → port_ok w' n d = port_ok w n d.
Proof.
  intros V. pose proof (same_view_vget _ _ n V) as E. unfold port_ok.
  destruct (vget (net_m_routers w) n) as [x|], (vget (net_m_routers w') n) as [x'|]; try done.
  injection E as _ -> -> _. destruct (_ !! d) as [i|]; [|done].
  destruct (vget _ i) as [u|]; [|done]. f_equal. induction (zrange _ _) as [|v l IH]; [done|].
  simpl. rewrite IH. f_equal. destruct (vget (iu_m_vcs u) v) as [c|]; [|done].
  apply bool_decide_ext. by apply same_view_fbuf.
Qed.

Lemma same_view_edge_ok w w' rows cols id d :
  same_view w w' → edge_ok w' rows cols id d = edge_ok w rows cols id d.
Proof.
  intros V. pose proof (same_view_vget _ _ id V) as E. unfold edge_ok.
  destruct (vget (net_m_routers w) id) as [x|], (vget (net_m_routers w') id) as [x'|]; try done.
  injection E as _ -> _ _. repeat case_match; try done. by rewrite (same_view_port_ok w w').
Qed.

Lemma forallb_ext {A} (f g : A → bool) l : (∀ x, f x = g x) → forallb f l = forallb g l.
Proof. intros E. induction l as [|x l IH]; [done|]. simpl. by rewrite E, IH. Qed.

Lemma same_view_wired w w' rows cols :
  same_view w w' → mesh_wired w rows cols = true → mesh_wired w' rows cols = true.
Proof.
  intros V <-. unfold mesh_wired. rewrite (same_view_cfg _ _ V).
  assert (vsize (net_m_routers w') = vsize (net_m_routers w)) as ->.
  { injection V as _ E _. apply (f_equal length) in E. rewrite !length_fmap in E.
    unfold vsize. by rewrite E. }
  f_equal. apply forallb_ext. intros id. pose proof (same_view_vget _ _ id V) as E. unfold router_ok.
  destruct (vget (net_m_routers w) id) as [x|], (vget (net_m_routers w') id) as [x'|]; try done.
  injection E as -> _ _ _. f_equal. apply forallb_ext. intros d. by apply same_view_edge_ok.
Qed.

Lemma same_view_vc_buffer w w' r i v b :
  same_view w w' → vc_buffer w r i v b → vc_buffer w' r i v b.
Proof.
  intros V (c & (_ & u & (_ & x & Hx & Hu)%get_input_Ok & Hc)%get_vc_Ok & <-).
  destruct (same_view_router _ _ _ _ V Hx) as (x' & Hx' & _ & _ & Ei & _).
  exists c. split; [|done]. apply get_vc_Ok. split; [done|]. exists u. split; [|done].
  apply get_input_Ok. split; [done|]. exists x'. by rewrite Ei.
Qed.

Lemma same_view_with_contents b l w : same_view w (with_contents b l w).
Proof.
  unfold same_view, keeps, net_view, with_contents. simpl. f_equal.
  destruct (net_fbufs w !! b) as [x|] eqn:Hb; [|done].
  rewrite dom_insert_L. apply elem_of_dom_2 in Hb. set_solver.
Qed.

Lemma same_view_upd_router r f w x :
  vget (net_m_routers w) r = Some x → router_view (f x) = router_view x →
  same_view w (w <| net_m_routers ::= λ l, vset l r (f x) |>).
Proof.
  intros Hx Hf. unfold same_view, keeps, net_view. simpl. by rewrite (vset_map_same _ _ _ x).
Qed.

(** Updating a bit of a router that the view leaves out. *)
Lemma wp_upd_router_bit r f w x (Q : () → GNet → Prop) :
  vget (net_m_routers w) r = Some x → router_view (f x) = router_view x →
  (∀ w', same_view w w' → net_flits w' = net_flits w → net_fbufs w' = net_fbufs w →
     net_stats w' = net_stats w → Q tt w') →
  wp (upd_router r f) Q w.
Proof.
  intros Hx Hf HQ. eapply wp_run; [by apply run_upd_router|]. apply HQ; try done.
  by apply same_view_upd_router.
Qed.

(** ** Computing the route of a flit that has moved *)

(** The tables of a router name its ports both ways ([addInDirection],
    [addOutDirection]): the output port towards every neighbour, and every
    input port. *)
Definition out_named (cols rows id : Z) (x : Router) (d : PortDirection) : bool :=
  match get_downstreamId cols d id with
  | Ok n =>
      if (0 <=? n) && (n <? rows * cols) && along cols d id n then
        match ru_m_outports_dirn2idx (rt_m_routing_unit x) !! d with
        | Some o => bool_decide (ru_m_outports_idx2dirn (rt_m_routing_unit x) !! o = Some d)
        | None => false
        end
      else true
  | Abort _ => false
  end.
Definition in_named (x : Router) (i : Z) : bool :=
  match vget (rt_m_input_unit x) i with
  | Some u => bool_decide (ru_m_inports_idx2dirn (rt_m_routing_unit x) !! i
                           = Some (iu_m_direction u)) &&
              bool_decide (is_Some (dirs x !! iu_m_direction u))
  | None => true
  end.
Definition ports_named (w : GNet) (rows cols id : Z) : bool :=
  match vget (net_m_routers w) id with
  | Some x => forallb (out_named cols rows id x) mesh_dirns &&
              forallb (in_named x) (zrange 0 (vsize (rt_m_input_unit x)))
  | None => false
  end.
Definition mesh_named (w : GNet) (rows cols : Z) : bool :=
  forallb (ports_named w rows cols) (zrange 0 (rows * cols)).

(** The routing table of router [r] leads to local ports only for [route]. *)
Definition hits (u : RoutingUnit) (dst : NetDest) (l : Z) : bool :=
  match vget (ru_m_routing_table u) l with
  | Some entry => match NetDest_intersectionIsNotEmpty entry dst with Ok b => b | Abort _ => false end
  | None => false
  end.
Definition local_exit (w : GNet) (r : Z) (route : RouteInfo) : bool :=
  match vget (net_m_routers w) r with
  | Some x =>
      let u := rt_m_routing_unit x in
      let links := zrange 0 (vsize (ru_m_routing_table u)) in
      table_ok u (ri_net_dest route) &&
      bool_decide (is_Some (vget (cf_m_ordered (net_cfg w)) (ri_vnet route))) &&
      existsb (λ l, hits u (ri_net_dest route) l &&
                    match vget (ru_m_weight_table u) l with
                    | Some wt => wt <=? INFINITE_
                    | None => false
                    end) links &&
      forallb (λ l, negb (hits u (ri_net_dest route) l) ||
                    bool_decide (ru_m_outports_idx2dirn u !! l = Some "Local"%string)) links
  | None => false
  end.

(** A packet that is at its destination router can leave there. *)
Definition exits (w : GNet) (r : Z) (route : RouteInfo) : Prop :=
  ri_dest_router route = r → local_exit w r route = true.

Lemma hits_reaches u dst l wt :
  reaches u dst l wt ↔ hits u dst l = true ∧ vget (ru_m_weight_table u) l = Some wt.
Proof.
  unfold reaches, hits. split.
  - intros (e & -> & -> & ?). done.
  - intros [Hh Hwt]. destruct (vget _ l) as [e|]; [|done]. exists e.
    destruct (NetDest_intersectionIsNotEmpty e dst) as [[]|]; done.
Qed.

Lemma local_exit_spec w r route :
  local_exit w r route = true →
  ∃ x, vget (net_m_routers w) r = Some x ∧
    table_ok (rt_m_routing_unit x) (ri_net_dest route) = true ∧
    is_Some (vget (cf_m_ordered (net_cfg w)) (ri_vnet route)) ∧
    (∃ l wt, reaches (rt_m_routing_unit x) (ri_net_dest route) l wt ∧ wt ≤ INFINITE_) ∧
    ∀ l wt, reaches (rt_m_routing_unit x) (ri_net_dest route) l wt →
      ru_m_outports_idx2dirn (rt_m_routing_unit x) !! l = Some "Local"%string.
Proof.
  unfold local_exit. destruct (vget (net_m_routers w) r) as [x|]; [|done].
  rewrite !andb_true_iff, bool_decide_eq_true. intros (((Hok & Hord) & He) & Hf).
  exists x. split_and!; try done.
  - apply existsb_exists in He as (l & _ & [Hh Hwt]%andb_true_iff).
    destruct (vget _ l) as [wt|] eqn:E; [|done]. exists l, wt. rewrite hits_reaches. split; [done|lia].
  - intros l wt Hr. assert (Hl : l ∈ zrange 0 (vsize (ru_m_routing_table (rt_m_routing_unit x)))).
    { destruct Hr as (e & He' & _). apply elem_of_zrange. by apply vget_Some_lt in He'. }
    apply (forallb_elem _ _ _ Hf) in Hl. apply hits_reaches in Hr as [Hh _].
    rewrite Hh in Hl. by apply bool_decide_eq_true in Hl.
Qed.

(** Output port [o] of router [r], in direction [dir], is right for [route]:
    the local port at the destination, a productive direction elsewhere. *)
Definition good_port (w : GNet) (rows cols r : Z) (route : RouteInfo) (o : Z) (dir : PortDirection)
    : Prop :=
  (∃ x, vget (net_m_routers w) r = Some x ∧
        ru_m_outports_idx2dirn (rt_m_routing_unit x) !! o = Some dir) ∧
  (ri_dest_router route = r → dir = "Local"%string) ∧
  (ri_dest_router route ≠ r → productive rows cols r (ri_dest_router route) dir).

(** A routed flit: it has a good output port at router [r] and VC number [v]. *)
Definition routed_flit (w : GNet) (rows cols r v : Z) (f : flit) : Prop :=
  good_port w rows cols r (fl_m_route f) (fl_m_outport f) (fl_m_outport_dir f) ∧ fl_m_vc f = v.

Lemma same_view_good_port w w' rows cols r route o dir :
  same_view w w' → good_port w rows cols r route o dir → good_port w' rows cols r route o dir.
Proof.
  intros V ((x & Hx & Ho) & H1 & H2). split_and!; [|done|done].
  destruct (same_view_router _ _ _ _ V Hx) as (x' & Hx' & _ & Eu & _). exists x'. by rewrite Eu.
Qed.

Lemma same_view_named w w' rows cols :
  same_view w w' → mesh_named w rows cols = true → mesh_named w' rows cols = true.
Proof.
  intros V <-. apply forallb_ext. intros id. pose proof (same_view_vget _ _ id V) as E.
  unfold ports_named.
  destruct (vget (net_m_routers w) id) as [x|], (vget (net_m_routers w') id) as [x'|]; try done.
  unfold out_named, in_named, dirs. by injection E as _ -> -> _.
Qed.

Lemma same_view_exits w w' r route : same_view w w' → exits w r route → exits w' r route.
Proof.
  intros V H Hr. rewrite <- (H Hr). pose proof (same_view_vget _ _ r V) as E. unfold local_exit.
  rewrite (same_view_cfg _ _ V).
  destruct (vget (net_m_routers w) r) as [x|], (vget (net_m_routers w') r) as [x'|]; try done.
  by injection E as _ -> _ _.
Qed.

Lemma named_outport w rows cols r x d n o :
  mesh_named w rows cols = true → in_mesh rows cols r → vget (net_m_routers w) r = Some x →
  neighbour rows cols r d n → ru_m_outports_dirn2idx (rt_m_routing_unit x) !! d = Some o →
  ru_m_outports_idx2dirn (rt_m_routing_unit x) !! o = Some d.
Proof.
  intros Hn Hr Hx (Hd & Hin & Hal) Ho.
  apply (forallb_elem _ _ r) in Hn; [|by apply elem_of_zrange]. unfold ports_named in Hn.
  rewrite Hx, andb_true_iff in Hn. destruct Hn as [Hn _].
  apply (forallb_elem _ _ d) in Hn; [|by eapply downstream_dirns].
  unfold out_named in Hn. unfold in_mesh in Hin. rewrite Hd, Hal, Ho in Hn.
  replace ((0 <=? n) && (n <? rows * cols) && true) with true in Hn by lia.
  by apply bool_decide_eq_true in Hn.
Qed.

Lemma named_inport w rows cols r x i u :
  mesh_named w rows cols = true → in_mesh rows cols r → vget (net_m_routers w) r = Some x →
  vget (rt_m_input_unit x) i = Some u →
  ru_m_inports_idx2dirn (rt_m_routing_unit x) !! i = Some (iu_m_direction u) ∧
  is_Some (dirs x !! iu_m_direction u).
Proof.
  intros Hn Hr Hx Hu.
  apply (forallb_elem _ _ r) in Hn; [|by apply elem_of_zrange]. unfold ports_named in Hn.
  rewrite Hx, andb_true_iff in Hn. destruct Hn as [_ Hn].
  apply (forallb_elem _ _ i) in Hn; [|apply elem_of_zrange; by apply vget_Some_lt in Hu].
  unfold in_named in Hn. rewrite Hu, andb_true_iff, !bool_decide_eq_true in Hn. done.
Qed.

Section Moved.
Context (w : GNet) (rows cols : Z) (Hw : mesh_wired w rows cols = true).
Context (Hn : mesh_named w rows cols = true).
Context (Ha : mesh_algorithm (cf_m_routing_algorithm (net_cfg w))).

(** The route of a flit at router [r], whether or not it has arrived. *)
Lemma wp_route_compute r route i d :
  in_mesh rows cols r → in_mesh rows cols (ri_dest_router route) → exits w r route →
  wp (Router_route_compute r route i d)
     (λ o w', w' = w <| net_rng := net_rng w' |> ∧
              ∃ dir, good_port w rows cols r route o dir) w.
Proof.
  intros Hr Hd He. unfold Router_route_compute.
  destruct (decide (ri_dest_router route = r)) as [E|E].
  - destruct (local_exit_spec _ _ _ (He E)) as (x & Hx & Hok & Hord & (l & wt & Hl & Hwt) & Hloc).
    destruct (wired_router w rows cols Hw r Hr) as (y & Hy & Hid & _). simplify_eq.
    unfold outportCompute. apply wp_bind, (wp_get_router _ _ x); [done|].
    rewrite Hid. rewrite Z.eqb_refl. clear Hid.
    pose proof (lookupRoutingTable_run w _ x (ri_vnet route) (ri_net_dest route) Hx Hok Hord) as H.
    unfold wp. simpl in H. destruct (lookupRoutingTable _ _ _ _) as [[o w']|e].
    + destruct H as (Hrng & wt' & Ho & _). split; [done|]. exists "Local"%string.
      split_and!; [|done|done]. exists x. eauto.
    + destruct H as [_ H]. specialize (H _ _ Hl). lia.
  - eapply wp_mono; [by apply (wp_outportCompute w rows cols)|].
    intros o w' (dir & x & Hp & Hx & Ho & _ & Hrng). split; [done|]. exists dir.
    split_and!; [|done|done]. exists x. split; [done|].
    destruct Hp as (m & Hm & _). by apply (named_outport w rows cols r x dir m o).
Qed.
End Moved.

(** ** Putting a flit into a VC *)
Section HeadOfVC.
Context (w : GNet) (r i v : Z) (b : ptr) (Hb : vc_buffer w r i v b).

Lemma run_enqueue_flit p :
  is_Some (net_fbufs w !! b) →
  InputUnit_enqueue_flit r i v p w = Ok (tt, with_contents b (p :: contents w b) w).
Proof.
  intros Hf. destruct Hb as (c & Hc & <-). apply bind_Ok. eexists _, w. split; [done|].
  by apply run_insertAtTop.
Qed.

Lemma run_vc_peek p l : contents w b = p :: l → InputUnit_peekTopFlit r i v w = Ok (p, w).
Proof.
  intros Hl. destruct Hb as (c & Hc & <-). apply bind_Ok. eexists _, w. split; [done|].
  by eapply run_peekTopFlit.
Qed.

Lemma run_vc_get p l :
  contents w b = p :: l →
  ∃ l', l' ≡ₚ l ∧ InputUnit_getTopFlit r i v w = Ok (p, with_contents b l' w).
Proof.
  intros Hl. destruct Hb as (c & Hc & <-). eexists. split; [|apply bind_Ok; eexists _, w; split; [done|]].
  2: by eapply run_getTopFlit. apply pop_contents_perm.
Qed.

Lemma run_vc_nonempty p l :
  contents w b = p :: l → InputUnit_vc_isEmpty r i v w = Ok (false, w).
Proof.
  intros Hl. destruct Hb as (c & Hc & <-). apply bind_Ok. eexists _, w. split; [done|].
  rewrite run_isEmpty; [by rewrite Hl|]. unfold contents in Hl. by case_match.
Qed.
End HeadOfVC.

(** [f'] is [f] with a new route at router [r], in VC [v]. *)
Definition rerouted (w : GNet) (rows cols r v : Z) (f f' : flit) : Prop :=
  routed_flit w rows cols r v f' ∧ fl_m_route f' = fl_m_route f.

(** The input port that [doSwap_enqueue] uses: the one that the direction
    names, or the given one. *)
Definition enqueue_port (w : GNet) (r : Z) (d : PortDirection) (i j : Z) : Prop :=
  ∃ x, vget (net_m_routers w) r = Some x ∧ is_Some (dirs x !! d) ∧ j ≠ -1 ∧
    ((i = -1 ∧ d ≠ "Local"%string ∧ dirs x !! d = Some j) ∨
     (i = j ∧ (d = "Local"%string → cf_m_whichToSwap (net_cfg w) = ENABLE_LOCAL_SWAP_) ∧
      ru_m_inports_idx2dirn (rt_m_routing_unit x) !! i = Some d)).

(** The assertions on local swaps at the head of [doSwap_enqueue] hold. *)
Lemma wp_enqueue_guard w r d i j (Q : () → GNet → Prop) :
  enqueue_port w r d i j → Q tt w →
  wp (if cf_m_whichToSwap (net_cfg w) =? ENABLE_LOCAL_SWAP_ then
        if i =? -1 then assertM (negb (d =s "Local")) "Router.cc:604" else mret tt
      else assertM (negb (d =s "Local")) "Router.cc:606") Q w.
Proof.
  intros (x & _ & _ & Hj & Hport) HQ.
  destruct (Z.eqb_spec (cf_m_whichToSwap (net_cfg w)) ENABLE_LOCAL_SWAP_) as [E|E].
  - destruct (Z.eqb_spec i (-1)); [|by apply wp_ret]. apply wp_assertM; [|done].
    destruct Hport as [(_ & Hl & _)|(-> & _)]; [|done]. by destruct (String.eqb_spec d "Local").
  - apply wp_assertM; [|done]. destruct (String.eqb_spec d "Local") as [->|]; [|done].
    by destruct Hport as [(_ & Hl & _)|(_ & Hl & _)]; [|specialize (Hl eq_refl)].
Qed.

Lemma wp_doSwap_enqueue w rows cols r p f d i j v b :
  mesh_wired w rows cols = true → mesh_named w rows cols = true →
  mesh_algorithm (cf_m_routing_algorithm (net_cfg w)) → cf_m_no_is_swap (net_cfg w) = 1 →
  in_mesh rows cols r → net_flits w !! p = Some f →
  in_mesh rows cols (ri_dest_router (fl_m_route f)) → exits w r (fl_m_route f) →
  enqueue_port w r d i j → v ≠ -1 → vc_buffer w r j v b → is_Some (net_fbufs w !! b) →
  wp (Router_doSwap_enqueue r p d i v)
     (λ _ w', ∃ f', rerouted w rows cols r v f f' ∧
        w' = with_contents b (p :: contents w b)
               (w <| net_flits ::= <[p := f']> |> <| net_rng := net_rng w' |>)) w.
Proof.
  intros Hw Hn Ha Hnis Hr Hf Hd He Hp Hv Hb Hfb.
  pose proof Hp as (x & Hx & [k Hk] & Hj & Hport).
  unfold Router_doSwap_enqueue. apply wp_bind, wp_gets, wp_bind.
  eapply wp_enqueue_guard; [done|]. apply wp_bind, (wp_get_flit _ _ f); [done|].
  apply wp_bind, (wp_inports_dirn2idx _ _ _ x k); [done..|]. apply wp_bind.
  eapply wp_mono; [by apply (wp_route_compute w rows cols)|].
  intros o w1 (Hw1 & dir & Hg). pose proof Hg as ((y & Hy & Ho) & _). simplify_eq.
  rewrite Hw1. generalize (net_rng w1). clear w1 Hw1. intros n.
  apply wp_bind. eapply wp_upd_flit; [done|]. apply wp_bind.
  eapply wp_outports_idx2dirn; [done|done|].
  apply wp_bind. eapply wp_upd_flit; [simpl; apply lookup_insert_eq|].
  apply wp_bind. eapply wp_upd_flit; [simpl; apply lookup_insert_eq|].
  apply wp_bind, wp_assertM; [lia|]. apply wp_bind.
  match goal with |- wp _ _ ?s => set (w1 := s) end.
  assert (V : same_view w w1) by done.
  assert (Hx1 : vget (net_m_routers w1) r = Some x) by done.
  assert (Hend : wp (InputUnit_enqueue_flit r j v p)
    (λ _ w', ∃ f', rerouted w rows cols r v f f' ∧
       w' = with_contents b (p :: contents w b)
               (w <| net_flits ::= <[p := f']> |> <| net_rng := net_rng w' |>)) w1).
  { eapply wp_run; [eapply run_enqueue_flit; [by eapply same_view_vc_buffer|done]|].
    eexists. split; [|subst w1; cbn; rewrite !insert_insert_eq; reflexivity].
    split; [|done]. by split. }
  destruct Hport as [(-> & _ & Hjd)|(-> & _ & Hjd)].
  - simpl. apply wp_bind, (wp_inports_dirn2idx _ _ _ x j); [done..|].
    apply wp_bind, wp_assertM; [lia|]. by apply wp_ret.
  - destruct (Z.eqb_spec j (-1)) as [?|_]; [done|]. apply wp_bind, wp_gets.
    replace (cf_m_no_is_swap (net_cfg w1)) with 1 by done. simpl. apply wp_bind, wp_ret.
    apply wp_bind, (wp_inports_idx2dirn _ _ _ x d); [done..|].
    apply wp_bind, wp_assertM; [apply String.eqb_refl|]. by apply wp_ret.
Qed.

(** ** The two halves of a swap *)

(** A built mesh with a direction-based algorithm in which swaps do not wait
    for [is_swap] bits. *)
Definition arena (w : GNet) (rows cols : Z) : Prop :=
  mesh_wired w rows cols = true ∧ mesh_named w rows cols = true ∧
  mesh_algorithm (cf_m_routing_algorithm (net_cfg w)) ∧ cf_m_no_is_swap (net_cfg w) = 1.

Lemma same_view_arena w w' rows cols : same_view w w' → arena w rows cols → arena w' rows cols.
Proof.
  intros V (H1 & H2 & H3 & H4). rewrite <- (same_view_cfg _ _ V) in H3, H4.
  split_and!; [by eapply same_view_wired|by eapply same_view_named|done|done].
Qed.

(** Flit [t], now [f'], has become the head of [b], in front of [l]; nothing
    else has moved. *)
Definition moved (w w' : GNet) (b t : ptr) (f' : flit) (l : list ptr) : Prop :=
  same_view w w' ∧ net_flits w' = <[t := f']> (net_flits w) ∧
  (∀ b', contents w' b' = if decide (b = b') then t :: l else contents w b') ∧
  swap_counters w' = swap_counters w.

Lemma contents_is_buffer w b p l : contents w b = p :: l → is_Some (net_fbufs w !! b).
Proof. unfold contents. by case_match. Qed.

(** Take the head of a VC away and put [t] in its place. *)
Lemma wp_replace_head w w1 rows cols r t f f1 d i j v b l :
  arena w rows cols → in_mesh rows cols r → net_flits w !! t = Some f →
  fl_m_route f1 = fl_m_route f →
  in_mesh rows cols (ri_dest_router (fl_m_route f)) → exits w r (fl_m_route f) →
  enqueue_port w r d i j → v ≠ -1 → vc_buffer w r j v b → is_Some (net_fbufs w !! b) →
  w1 = (with_contents b l w) <| net_flits ::= <[t := f1]> |> →
  wp (Router_doSwap_enqueue r t d i v)
     (λ _ w', ∃ f', rerouted w' rows cols r v f f' ∧ moved w w' b t f' l) w1.
Proof.
  intros Har Hr Hf Ef Hd He Hp Hv Hb Hfb ->.
  match goal with |- wp _ _ ?s => set (w1 := s) end.
  assert (V : same_view w w1) by apply (same_view_with_contents b l w).
  destruct (same_view_arena _ _ _ _ V Har) as (Hw & Hn & Ha & Hm).
  assert (Hfb1 : is_Some (net_fbufs w1 !! b)) by (by rewrite (same_view_fbuf w w1 b V)).
  eapply wp_mono; [eapply (wp_doSwap_enqueue w1 rows cols r t f1 d i j v b); try done|].
  - simpl. by rewrite lookup_insert_eq.
  - by rewrite Ef.
  - rewrite Ef. by eapply same_view_exits.
  - by eapply same_view_vc_buffer.
  - intros [] w' (f' & [[Hg Hvc] Er] & ->). exists f'.
    assert (V' : same_view w1 (with_contents b (t :: contents w1 b)
      (w1 <| net_flits ::= <[t := f']> |> <| net_rng := net_rng w' |>))).
    { etransitivity; [|apply same_view_with_contents]. done. }
    split; [split; [split; [by eapply same_view_good_port|done]|by rewrite Er]|].
    split_and!.
    + by transitivity w1.
    + simpl. by rewrite insert_insert_eq.
    + intros b'. rewrite contents_with by done.
      change (contents (w1 <| net_flits ::= <[t := f']> |> <| net_rng := net_rng w' |>))
        with (contents (with_contents b l w)).
      change (contents w1 b) with (contents (with_contents b l w) b).
      rewrite !contents_with by done. repeat case_decide; congruence.
    + done.
Qed.

(** The VC [v] at port [j] of router [r] is the buffer [b], with the flit [t]
    at its head and [l] behind it; [f] is the flit. *)
Record head_at (w : GNet) (r j v : Z) (b t : ptr) (f : flit) (l : list ptr) : Prop := {
  ha_buffer : vc_buffer w r j v b;
  ha_contents : contents w b = t :: l;
  ha_flit : net_flits w !! t = Some f;
}.

(** Two flits face each other: [p] at the head of the VC that the swap pointer
    of router [r] names, routed towards router [n], and [q] at the head of the
    VC of the same number at the facing port [j] of [n].  Both have valid
    destinations, and can leave where they are delivered. *)
Record facing (w : GNet) (rows cols r n : Z) (x y : Router) (u : InputUnit) (d : PortDirection)
    (j : Z) (p q : ptr) (f g : flit) (bu bd : ptr) (lu ld : list ptr) : Prop := {
  fc_up : vget (net_m_routers w) r = Some x;
  fc_in : in_mesh rows cols r;
  fc_input : vget (rt_m_input_unit x) (sp_inport (rt_swap_ptr x)) = Some u;
  fc_local : iu_m_direction u = "Local"%string →
             cf_m_whichToSwap (net_cfg w) = ENABLE_LOCAL_SWAP_;
  fc_vcid : sp_vcid (rt_swap_ptr x) ≠ -1;
  fc_p : head_at w r (sp_inport (rt_swap_ptr x)) (sp_vcid (rt_swap_ptr x)) bu p f lu;
  fc_routed : routed_flit w rows cols r (sp_vcid (rt_swap_ptr x)) f;
  fc_dest_p : in_mesh rows cols (ri_dest_router (fl_m_route f));
  fc_not_there : ri_dest_router (fl_m_route f) ≠ r;
  fc_down : vget (net_m_routers w) n = Some y;
  fc_next : get_downstreamId cols (fl_m_outport_dir f) r = Ok n;
  fc_dirn : get_downstreamDirn (fl_m_outport_dir f) = Ok d;
  fc_valid : sp_valid (rt_swap_ptr y) = true;
  fc_port : dirs y !! d = Some j;
  fc_q : head_at w n j (sp_vcid (rt_swap_ptr x)) bd q g ld;
  fc_q_stays : fl_m_outport_dir g ≠ "Local"%string;
  fc_dest_q : in_mesh rows cols (ri_dest_router (fl_m_route g));
  fc_distinct : p ≠ q;
  fc_exit_p : exits w n (fl_m_route f);
  fc_exit_q : exits w r (fl_m_route g);
}.

Arguments fc_routed {_ _ _ _ _ _ _ _ _ _ _ _ _ _ _ _ _ _} _.
Arguments fc_not_there {_ _ _ _ _ _ _ _ _ _ _ _ _ _ _ _ _ _} _.
Arguments fc_next {_ _ _ _ _ _ _ _ _ _ _ _ _ _ _ _ _ _} _.
Arguments fc_in {_ _ _ _ _ _ _ _ _ _ _ _ _ _ _ _ _ _} _.
Arguments fc_q {_ _ _ _ _ _ _ _ _ _ _ _ _ _ _ _ _ _} _.

Section Halves.
Context {w : GNet} {rows cols r n : Z} {x y : Router} {u : InputUnit} {d : PortDirection} {j : Z}
  {p q : ptr} {f g : flit} {bu bd : ptr} {lu ld : list ptr}.
Context (Har : arena w rows cols).
Context (F : facing w rows cols r n x y u d j p q f g bu bd lu ld).

Lemma facing_next :
  in_mesh rows cols n ∧ along cols (fl_m_outport_dir f) r n = true ∧
  distance cols n (ri_dest_router (fl_m_route f)) =
    distance cols r (ri_dest_router (fl_m_route f)) - 1.
Proof.
  destruct (fc_routed F) as [(_ & _ & Hp) _].
  destruct (Hp (fc_not_there F)) as (m & (Hm & Hin & Hal) & Hd).
  pose proof (fc_next F) as Hn.
  rewrite Hn in Hm. by injection Hm as <-.
Qed.

Lemma downstream_not_local o d' : get_downstreamDirn o = Ok d' → d' ≠ "Local"%string.
Proof. unfold get_downstreamDirn. repeat case_match; naive_solver. Qed.

Lemma facing_port_index : j ≠ -1.
Proof.
  destruct (fc_q F) as [Hb _ _]. by eapply vc_buffer_index.
Qed.

(** The downstream half. *)
Lemma wp_network_doSwap :
  wp (GarnetNetwork_doSwap p r)
     (λ o w', o = Some q ∧ ∃ f' ld', ld' ≡ₚ ld ∧ moved w w' bd p f' ld' ∧
        rerouted w' rows cols n (sp_vcid (rt_swap_ptr x)) f f') w.
Proof.
  pose proof facing_port_index as Hj1. pose proof facing_next as (Hn & _ & _).
  destruct F as [Hx Hr Hu Hloc Hv [Hbu Hlu Hf] [Hg Hvc] Hdp Hne Hy Hnext Hd Hval Hj [Hbd Hld Hgq] Hgl Hdq Hpq Hep Heq].
  destruct Har as (Hw & Hnm & Ha & Hm).
  destruct (wired_dims w rows cols Hw) as (_ & _ & _ & Hcols & _).
  unfold GarnetNetwork_doSwap, GarnetNetwork_get_downstreamId.
  apply wp_bind, (wp_get_flit _ _ f); [done|]. apply wp_bind, wp_bind, wp_gets, (wp_lift _ n).
  { by rewrite Hcols. }
  apply wp_bind, (wp_lift _ d); [done|]. apply wp_bind, wp_gets. rewrite Hm. simpl.
  apply wp_bind, (wp_get_router _ _ y); [done|]. rewrite Hval.
  unfold GarnetNetwork_doSwap_with. apply wp_bind, (wp_get_router _ _ x); [done|].
  apply wp_bind, (wp_get_flit _ _ f); [done|]. apply wp_bind, wp_assertM; [lia|].
  unfold Router_doSwap. apply wp_bind, wp_bind, wp_assertM.
  { apply downstream_not_local in Hd. by destruct (String.eqb_spec d "Local"). }
  apply wp_bind, (wp_inports_dirn2idx _ _ _ y j); [done..|]. apply wp_bind, wp_gets.
  rewrite Hm. simpl. unfold Router_doSwap_take. apply wp_bind.
  eapply wp_run; [by eapply run_vc_nonempty|]. apply wp_bind.
  eapply wp_run; [by eapply run_vc_peek|]. apply wp_bind, (wp_get_flit _ _ g); [done|].
  destruct (String.eqb_spec (fl_m_outport_dir g) "Local") as [?|_]; [done|].
  destruct (run_vc_get _ _ _ _ _ Hbd _ _ Hld) as (ld' & Hp & Hget).
  apply wp_bind. eapply wp_run; [exact Hget|]. apply wp_ret. simpl.
  apply wp_bind, wp_ret, wp_bind. eapply (wp_upd_flit _ _ _ f); [done|]. apply wp_bind.
  eapply wp_mono; [eapply (wp_replace_head w _ rows cols n p f (f <| fl_routedSwap := true |>)
                        d (-1) j _ bd ld'); try done|].
  - exists y. split_and!; [done|by eexists|done|]. left. split_and!; [done| |done].
    by eapply downstream_not_local.
  - by eapply contents_is_buffer.
  - intros [] w' (f' & Hr' & Hmv). apply wp_ret. split; [done|]. by exists f', ld'.
Qed.

(** The upstream half, in a state where the downstream half is done. *)
Lemma wp_complete_swap w1 f' ld' :
  moved w w1 bd p f' ld' →
  wp (Router_complete_swap r q)
     (λ _ w', ∃ w2 g' lu', lu' ≡ₚ lu ∧ moved w1 w2 bu q g' lu' ∧
        rerouted w2 rows cols r (sp_vcid (rt_swap_ptr x)) g g' ∧ same_view w2 w' ∧
        net_flits w' = net_flits w2 ∧ net_fbufs w' = net_fbufs w2 ∧
        swap_counters w' = let '(i, s, f) := swap_counters w2 in (i, Z.succ s, f)) w1.
Proof.
  intros (V & Hfl & Hct & _). pose proof (same_view_arena _ _ _ _ V Har) as Har1.
  destruct F as [Hx Hr Hu Hloc Hv [Hbu Hlu Hf] _ Hdp Hne Hy Hnext Hd Hval Hj [Hbd Hld Hgq] Hgl Hdq Hpq Hep Heq].
  destruct Har1 as (Hw & Hnm & Ha & Hm).
  destruct (same_view_router _ _ _ _ V Hx) as (x1 & Hx1 & _ & Eu & Ei & Ep).
  assert (Hl1 : contents w1 bu = p :: lu).
  { rewrite Hct. case_decide; [|done]. subst. congruence. }
  assert (Hg1 : net_flits w1 !! q = Some g) by (by rewrite Hfl, lookup_insert_ne).
  assert (Hb1 := same_view_vc_buffer _ _ _ _ _ _ V Hbu). rewrite <- Ep in Hb1.
  assert (Hu1 : vget (rt_m_input_unit x1) (sp_inport (rt_swap_ptr x1)) = Some u) by congruence.
  destruct (named_inport _ _ _ _ _ _ u Hnm Hr Hx1 Hu1) as [Hidx Hdir].
  unfold Router_complete_swap. apply wp_bind, (wp_get_router _ _ x1); [done|].
  destruct (run_vc_get _ _ _ _ _ Hb1 _ _ Hl1) as (lu' & Hp & Hget).
  apply wp_bind. eapply wp_run; [exact Hget|].
  apply wp_bind. eapply (wp_get_input _ _ _ x1 u); [done..|]. apply wp_bind.
  eapply wp_mono; [eapply (wp_replace_head w1 _ rows cols r q g g _ (sp_inport (rt_swap_ptr x1))
     (sp_inport (rt_swap_ptr x1)) _ bu lu'); try done|].
  - by eapply same_view_exits.
  - exists x1. split_and!; [done|done|by eapply vc_buffer_index|]. right. split_and!; [done| |done].
    by rewrite (same_view_cfg _ _ V).
  - congruence.
  - by eapply contents_is_buffer.
  - destruct w1. cbn in *. f_equal. by rewrite insert_id.
  - intros [] w2 (g' & Hr' & Hmv). rewrite Ep in Hr'. apply wp_bind.
    apply wp_run with tt (w2 <| net_stats ::= λ s, s <| st_m_total_swaps ::= Z.succ |> |>); [done|].
    destruct (same_view_router _ _ _ _ (proj1 Hmv) Hx1) as (x2 & Hx2 & _).
    apply wp_bind, (wp_get_router _ _ x2); [done|].
    destruct (rt_send_routedSwap x2).
    2: { apply wp_ret. exists w2, g', lu'. done. }
    assert (Hm2 : cf_m_no_is_swap (net_cfg w2) = 1) by (by rewrite (same_view_cfg _ _ (proj1 Hmv))).
    apply wp_bind, wp_gets, wp_bind. cbn [net_cfg set_field]. rewrite Hm2. apply wp_ret.
    apply wp_bind. eapply wp_upd_router_bit; [done|done|]. intros w3 V3 F3 B3 S3.
    destruct (same_view_router _ _ _ _ V3 Hx2) as (x3 & Hx3 & _).
    apply wp_bind. eapply wp_upd_router_bit; [done|done|]. intros w4 V4 F4 B4 S4.
    exists w2, g', lu'. split_and!; try done.
    + transitivity w3; [exact V3|]. transitivity w4; [exact V4|]. reflexivity.
    + simpl. by rewrite F4, F3.
    + simpl. by rewrite B4, B3.
    + unfold swap_counters. simpl. by rewrite S4, S3.
Qed.
End Halves.

(** ** The whole swap *)

(** Neighbours are one hop apart. *)
Lemma neighbour_distance rows cols me d n dest :
  0 < cols → in_mesh rows cols me → neighbour rows cols me d n →
  distance cols me dest ≤ distance cols n dest + 1.
Proof.
  intros Hc Hme (Hn & Hin & Hal). unfold in_mesh in *.
  destruct (coords cols me Hc ltac:(lia)) as (Em & ? & ?).
  destruct (coords cols n Hc ltac:(lia)) as (En & ? & ?).
  pose proof (downstream_dirns _ _ _ _ Hn) as Hd. unfold mesh_dirns in Hd.
  rewrite !elem_of_cons, elem_of_nil in Hd. unfold along, distance in *.
  destruct Hd as [->|[->|[->|[->|[]]]]]; simpl in Hal; injection Hn as Hn; apply Z.eqb_eq in Hal.
  - assert (row cols n = row cols me + 1) by nia. lia.
  - assert (col cols n = col cols me + 1) by nia. lia.
  - assert (row cols n = row cols me - 1) by nia. lia.
  - assert (col cols n = col cols me - 1) by nia. lia.
Qed.

(** What holds after the swap of [p] at router [r] and [q] at router [n]. *)
Definition swapped (w w' : GNet) (rows cols r n v : Z) (p q : ptr) (f g : flit) (bu bd : ptr) : Prop :=
  (let '(i, s, k) := swap_counters w in swap_counters w' = (i + 1, s + 1, k)) ∧
  exchanged w w' bu bd p q ∧
  (∃ f', net_flits w' !! p = Some f' ∧ rerouted w' rows cols n v f f') ∧
  (∃ g', net_flits w' !! q = Some g' ∧ rerouted w' rows cols r v g g').

Lemma same_view_rerouted w w' rows cols r v f f' :
  same_view w w' → rerouted w rows cols r v f f' → rerouted w' rows cols r v f f'.
Proof. intros V [[Hg Hv] Er]. split; [split|done]; [|done]. by eapply same_view_good_port. Qed.

Lemma same_view_facing w w' rows cols r n x y u d j p q f g bu bd lu ld :
  same_view w w' → net_flits w' = net_flits w → net_fbufs w' = net_fbufs w →
  facing w rows cols r n x y u d j p q f g bu bd lu ld →
  ∃ x' y', rt_swap_ptr x' = rt_swap_ptr x ∧
    facing w' rows cols r n x' y' u d j p q f g bu bd lu ld.
Proof.
  intros V Ef Eb [Hx Hr Hu Hloc Hv [Hbu Hlu Hf] [Hg Hvc] Hdp Hne Hy Hnext Hd Hval Hj [Hbd Hld Hgq] Hgl Hdq Hpq Hep Heq].
  destruct (same_view_router _ _ _ _ V Hx) as (x' & Hx' & _ & _ & Ei & Ep).
  destruct (same_view_router _ _ _ _ V Hy) as (y' & Hy' & _ & Eu' & _ & Ep').
  exists x', y'. split; [done|].
  split; rewrite ?Ep, ?Ep', ?Ei, ?(same_view_cfg _ _ V); try done.
  - split; [by eapply same_view_vc_buffer|by unfold contents in *; rewrite Eb|by rewrite Ef].
  - split; [by eapply same_view_good_port|done].
  - unfold dirs. by rewrite Eu'.
  - split; [by eapply same_view_vc_buffer|by unfold contents in *; rewrite Eb|by rewrite Ef].
  - by eapply same_view_exits.
  - by eapply same_view_exits.
Qed.

(** The exchange, once the swap has been initiated. *)
Lemma wp_exchange w w0 rows cols r n x y u d j p q f g bu bd lu ld i s k :
  arena w rows cols → facing w rows cols r n x y u d j p q f g bu bd lu ld →
  same_view w w0 → net_flits w0 = net_flits w → net_fbufs w0 = net_fbufs w →
  swap_counters w = (i, s, k) → swap_counters w0 = (i + 1, s, k) →
  wp (flit_t ← GarnetNetwork_doSwap p r;
      match flit_t with Some q => Router_complete_swap r q | None => Router_refuse_swap r end)
     (λ _ w', swapped w w' rows cols r n (sp_vcid (rt_swap_ptr x)) p q f g bu bd) w0.
Proof.
  intros Har F V Ef Eb C C0.
  destruct (same_view_facing _ _ _ _ _ _ _ _ _ _ _ _ _ _ _ _ _ _ _ V Ef Eb F)
    as (x0 & y0 & Ep & F0).
  pose proof (same_view_arena _ _ _ _ V Har) as Har0. rewrite <- Ep. apply wp_bind.
  eapply wp_mono; [by eapply wp_network_doSwap|]. intros o w1 (-> & f' & ld' & Hld & Hm1 & Hr1).
  eapply wp_mono; [by eapply wp_complete_swap|].
  intros [] w' (w2 & g' & lu' & Hlu & Hm2 & Hr2 & V3 & Ef3 & Eb3 & C3).
  destruct F as [_ _ _ _ _ [_ Hcu _] _ _ _ _ _ _ _ _ [_ Hcd _] _ _ Hpq _ _].
  destruct Hm1 as (V1 & Ef1 & Ct1 & C1), Hm2 as (V2 & Ef2 & Ct2 & C2).
  assert (Ct : ∀ b, contents w0 b = contents w b) by (intros b; unfold contents; by rewrite Eb).
  assert (Ct3 : ∀ b, contents w' b = contents w2 b) by (intros b; unfold contents; by rewrite Eb3).
  assert (Hb : bu ≠ bd) by (intros ->; congruence).
  split_and!.
  - rewrite C. rewrite C3, C2, C1, C0. by f_equal; f_equal; lia.
  - exists lu, ld, lu', ld'. rewrite !Ct3, !Ct2, !Ct1.
    rewrite (decide_True (P := bu = bu)), (decide_False (P := bu = bd)), (decide_True (P := bd = bd)) by done.
    split_and!; try done. intros b ??. by rewrite Ct3, Ct2, Ct1, !decide_False, Ct by done.
  - exists f'. rewrite Ef3, Ef2, lookup_insert_ne, Ef1, lookup_insert_eq by done. split; [done|].
    eapply same_view_rerouted; [|exact Hr1]. by transitivity w2.
  - exists g'. rewrite Ef3, Ef2, lookup_insert_eq. split; [done|]. by eapply same_view_rerouted.
Qed.

(** C33.  A swap between two routed flits that face each other always
    completes: on a built mesh, with any direction-based algorithm,
    [Router::wakeup]'s initiation of a swap returns without failing an
    assertion, counts one completed swap, and exchanges the two flits; both
    get an output port that is right at their new router (the local port at
    the destination, a productive direction elsewhere); the initiating flit is
    one hop closer to its destination, and the other at most one hop farther
    away from its own. *)
Theorem swap_progress w rows cols r n x y u d j p q f g bu bd lu ld :
  arena w rows cols →
  facing w rows cols r n x y u d j p q f g bu bd lu ld →
  wp (Router_initiate_swap r)
     (λ _ w', swapped w w' rows cols r n (sp_vcid (rt_swap_ptr x)) p q f g bu bd) w ∧
  distance cols n (ri_dest_router (fl_m_route f)) =
    distance cols r (ri_dest_router (fl_m_route f)) - 1 ∧
  distance cols r (ri_dest_router (fl_m_route g)) ≤
    distance cols n (ri_dest_router (fl_m_route g)) + 1.
Proof.
  intros Har F. destruct (facing_next F) as (Hn & Hal & Hdist). split_and!; [|done|].
  2: { destruct Har as (Hw & _). destruct (wired_dims w rows cols Hw) as (_ & Hc & _).
       eapply (neighbour_distance rows); [done|by eapply fc_in|]. split_and!; [by eapply fc_next|done..]. }
  pose proof F as [Hx Hr _ _ _ [Hbu Hlu Hf] _ _ _ _ _ _ _ _ _ _ _ _ _ _].
  destruct Har as (Hw & Hnm & Ha & Hm).
  destruct (wired_router w rows cols Hw r Hr) as (x' & Hx' & Hid & _).
  rewrite Hx in Hx'. injection Hx' as <-. destruct (swap_counters w) as [[i s] k] eqn:C.
  assert (C0 : swap_counters (initiated w) = (i + 1, s, k)).
  { injection C as <- <- <-. unfold swap_counters. simpl. by f_equal. }
  unfold Router_initiate_swap. apply wp_bind.
  apply wp_run with tt (initiated w); [done|].
  apply wp_bind, (wp_get_router _ _ x); [done|]. apply wp_bind, wp_gets.
  change (net_cfg (initiated w)) with (net_cfg w). rewrite Hm. apply wp_bind, wp_ret.
  apply wp_bind, (wp_get_router _ _ x); [done|]. apply wp_bind.
  apply wp_run with p (initiated w).
  { eapply run_vc_peek; [|exact Hlu]. by eapply (same_view_vc_buffer w (initiated w)). }
  apply wp_bind, (wp_get_flit _ _ f); [done|]. rewrite Hid. apply wp_bind.
  destruct (fl_routedSwap f).
  - apply wp_bind, wp_ret. eapply wp_upd_router_bit; [exact Hx|done|]. intros w0 V Ef Eb Es.
    eapply wp_exchange; try done. unfold swap_counters in *. by rewrite Es.
  - apply wp_ret. by eapply wp_exchange.
Qed.

Lemma swap_progress_witness :
  arena (swap_scene 1) 2 2 ∧
  ∃ v p q f g bu bd,
    wp (Router_initiate_swap 0)
       (λ _ w', swapped (swap_scene 1) w' 2 2 0 2 v p q f g bu bd) (swap_scene 1) ∧
    distance 2 2 (ri_dest_router (fl_m_route f)) = distance 2 0 (ri_dest_router (fl_m_route f)) - 1 ∧
    distance 2 0 (ri_dest_router (fl_m_route g)) ≤ distance 2 2 (ri_dest_router (fl_m_route g)) + 1.
Proof.
  assert (Har : arena (swap_scene 1) 2 2).
  { split; [vm_compute; reflexivity|]. split; [vm_compute; reflexivity|].
    split; [left|]; vm_compute; reflexivity. }
  split; [exact Har|].
  assert (H : ∃ x u y f g,
    vget (net_m_routers (swap_scene 1)) 0 = Some x ∧ vget (rt_m_input_unit x) 1 = Some u ∧
    iu_m_direction u = "East"%string ∧ sp_inport (rt_swap_ptr x) = 1 ∧
    sp_vcid (rt_swap_ptr x) = 0 ∧ vget (net_m_routers (swap_scene 1)) 2 = Some y ∧
    sp_valid (rt_swap_ptr y) = true ∧ dirs y !! "South"%string = Some 1 ∧
    net_flits (swap_scene 1) !! 92%nat = Some f ∧ net_flits (swap_scene 1) !! 93%nat = Some g ∧
    ru_m_outports_idx2dirn (rt_m_routing_unit x) !! fl_m_outport f = Some "North"%string ∧
    fl_m_outport_dir f = "North"%string ∧ fl_m_outport_dir g = "East"%string ∧
    fl_m_vc f = 0 ∧ fl_m_route f = sample_route 2 ∧ fl_m_route g = sample_route 3).
  { vm_compute. do 5 eexists. repeat (split; [reflexivity|]). reflexivity. }
  destruct H as (x & u & y & f & g & Hx & Hu & Hdu & Hi & Hv & Hy & Hval & Hj & Hf & Hg & Ho &
    Hdf & Hdg & Hvc & Hrf & Hrg).
  exists (sp_vcid (rt_swap_ptr x)), 92%nat, 93%nat, f, g, 48%nat, 53%nat.
  assert (Hp : productive 2 2 0 2 "North").
  { exists 2. split; [|reflexivity]. split; [reflexivity|].
    split; [split; [discriminate|reflexivity]|reflexivity]. }
  apply (swap_progress (swap_scene 1) 2 2 0 2 x y u "South" 1 92 93 f g 48 53 [] [] Har).
  assert (Hin : ∀ m, 0 ≤ m < 4 → in_mesh 2 2 m) by (unfold in_mesh; lia).
  split; rewrite ?Hi, ?Hv, ?Hdf, ?Hdg, ?Hrf, ?Hrg, ?Hdu.
  - exact Hx.
  - apply Hin. lia.
  - exact Hu.
  - discriminate.
  - discriminate.
  - split; [|vm_compute; reflexivity|exact Hf]. vm_compute. eexists. split; reflexivity.
  - split; [|exact Hvc]. rewrite Hrf, Hdf. split; [exists x; split; assumption|].
    split; [discriminate|]. intros _. exact Hp.
  - apply Hin. simpl. lia.
  - discriminate.
  - exact Hy.
  - reflexivity.
  - reflexivity.
  - exact Hval.
  - exact Hj.
  - split; [|vm_compute; reflexivity|exact Hg]. vm_compute. eexists. split; reflexivity.
  - discriminate.
  - apply Hin. simpl. lia.
  - discriminate.
  - intros _. vm_compute. reflexivity.
  - discriminate.
Defined.
