(* ===== verification/RouterTheory.v ===== *)
(** * Whole wake-ups keep the flits

    [Router::wakeup], [NetworkLink::wakeup] and [NetworkInterface::wakeup]
    preserve ownership of flits (Ownership.v), and [Router::wakeup] counts
    every swap it initiates exactly once, as completed or as refused. *)

From S2P Require Import Prelude BinaryHeap NetDestModel CommonTypes GarnetState FlitBuffer Channels RoutingUnitModel SwapModel UnitsModel SwitchAllocatorModel MessageBufferModel NetworkInterfaceModel BuildModel Scenarios SystemModel StateLemmas Wiring Ownership SwapExchange.

(** ** The swap phase *)
Lemma put_bal b l w w' :
  put b l w w' → fresh_ok w →
  fresh_ok w' ∧ ∀ p, bal w' p = bal w p - occ p (contents w b) + occ p l.
Proof.
  intros (Hb & Hq & _) Hf. destruct (quiet_settled _ _ Hq Hf) as [Hf' E]. split; [done|].
  intros p. by rewrite E, bal_with_contents.
Qed.

Lemma still_settled w w' : still w w' → settled w w'.
Proof. intros (Hq & _). by apply quiet_settled. Qed.

Lemma settled_initiate_swap r : preserves settled (Router_initiate_swap r).
Proof.
  intros w a w' [S|(x & bu & bd & t & q & lu & ld & ld' & w1 & w2 & k & k' & _ & _ & _ & Hld & Hp
    & Hput1 & Hk & Hk' & Hput2 & S & _)]%initiate_swap_Ok Hf.
  - apply (still_settled _ _ S Hf).
  - destruct (put_bal _ _ _ _ Hput1 Hf) as [Hf1 E1].
    destruct (put_bal _ _ _ _ Hput2 Hf1) as [Hf2 E2].
    destruct (still_settled _ _ S Hf2) as [Hf3 E3]. split; [done|]. intros p.
    specialize (E1 p). specialize (E2 p). specialize (E3 p).
    change (bal _ p) with (bal w2 p) in E3 at 2. rewrite E3, E2.
    change (bal (initiated w) p) with (bal w p) in E1.
    change (contents (initiated w) bd) with (contents w bd) in E1.
    rewrite E1, Hld, Hk, !occ_cons.
    rewrite (occ_perm _ _ _ Hp), (occ_perm _ _ _ Hk'). lia.
Qed.
#[export] Hint Resolve settled_initiate_swap : settled.

Lemma settled_swap_phase r : preserves settled (Router_swap_phase r).
Proof. pres_settled. Qed.
#[export] Hint Resolve settled_swap_phase : settled.

(** ** The crossbar

    A flit moves from a switch buffer to the buffer of an output unit; the two
    are different buffers. *)
Definition router_separate (x : Router) : Prop :=
  Forall (λ b, b ∉ (ou_m_out_buffer <$> rt_m_output_unit x)) (xb_m_switch_buffer (rt_m_switch x)).
Definition switch_separate (w : GNet) : Prop := Forall router_separate (net_m_routers w).
#[export] Instance switch_separate_dec w : Decision (switch_separate w).
Proof. unfold switch_separate, router_separate. apply _. Defined.

Lemma Forall_fmap_eq {A B} (f : A → B) (P : A → Prop) l k :
  f <$> k = f <$> l → (∀ x y, f x = f y → P x → P y) → Forall P l → Forall P k.
Proof.
  intros E HP. rewrite !Forall_lookup. intros Hl i y Hy.
  assert (H : (f <$> l) !! i = Some (f y)) by (by rewrite <- E, list_lookup_fmap, Hy).
  rewrite list_lookup_fmap in H. apply fmap_Some in H as (x & Hx & Exy). eauto.
Qed.

Lemma static_switch_separate w w' : static w w' → switch_separate w → switch_separate w'.
Proof.
  intros Hs. injection Hs as _ Hr _ _ _. apply (Forall_fmap_eq _ _ _ _ Hr).
  intros x y E. injection E as _ _ _ _ _ _ Eo _ Eb _ _ _ _ _ _. unfold router_separate.
  rewrite Eb. intros HP. eapply Forall_impl; [exact HP|]. intros b. simpl.
  assert (Ebufs : ou_m_out_buffer <$> rt_m_output_unit x = ou_m_out_buffer <$> rt_m_output_unit y).
  { apply (f_equal (fmap (λ s, s.2))) in Eo. by rewrite <- !list_fmap_compose in Eo. }
  by rewrite Ebufs.
Qed.

(** Settled, on networks whose switch buffers are separate. *)
Definition settled_sep (w w' : GNet) : Prop :=
  switch_separate w → settled w w' ∧ switch_separate w'.
#[export] Instance settled_sep_preorder : PreOrder settled_sep.
Proof.
  split; [by intros w; split|]. intros w1 w2 w3 H1 H2 Hs.
  destruct (H1 Hs) as [E1 Hs1]. destruct (H2 Hs1) as [E2 Hs2]. split; [|done]. by transitivity w2.
Qed.

Lemma settled_sep_intro {A} (m : G A) :
  preserves static m → preserves settled m → preserves settled_sep m.
Proof.
  intros H1 H2 w a w' Hm Hs. split; [by eapply H2|]. eapply static_switch_separate; eauto.
Qed.

Lemma insert_Ok b p w a w' :
  flitBuffer_insert b p w = Ok (a, w') →
  is_Some (net_fbufs w !! b) ∧ ∃ l, l ≡ₚ p :: contents w b ∧ w' = with_contents b l w.
Proof.
  intros Hrun. assert (Hb : is_Some (net_fbufs w !! b)).
  { unfold flitBuffer_insert in Hrun. apply bind_Ok in Hrun as (h & w1 & [= <- <-] & ?).
    by eapply upd_fb_Ok. }
  split; [done|]. rewrite run_insert in Hrun by done. injection Hrun as _ <-.
  eexists. split; [|done]. rewrite push_heap_perm. by rewrite Permutation_app_comm.
Qed.

Lemma quiet_contents w w' b : quiet w w' → contents w' b = contents w b.
Proof. intros (Hb & _). unfold contents. by rewrite Hb. Qed.

(** [OutputUnit::insert_flit] does not touch the switch buffers. *)
Lemma insert_flit_contents r o p w a w' x b :
  OutputUnit_insert_flit r o p w = Ok (a, w') → vget (net_m_routers w) r = Some x →
  router_separate x → b ∈ xb_m_switch_buffer (rt_m_switch x) → contents w' b = contents w b.
Proof.
  intros H Hx Hsep Hb. unfold OutputUnit_insert_flit in H.
  apply bind_Ok in H as (u & w1 & (-> & x' & Hx' & Hu)%get_output_Ok & H). simplify_eq.
  apply bind_Ok in H as (? & w1 & Hi & H).
  apply insert_Ok in Hi as (Hf & l & _ & ->).
  match type of H with ?m _ = _ => assert (P : preserves still m) by pres_still end.
  apply P in H. rewrite (still_contents _ _ b H), contents_with by done.
  rewrite decide_False; [done|].
  unfold router_separate in Hsep. rewrite Forall_forall in Hsep. specialize (Hsep b Hb).
  intros <-. apply Hsep. apply list_elem_of_fmap. exists u. split; [done|].
  apply vget_Some in Hu as [_ Hu]. by eapply list_elem_of_lookup_2.
Qed.

Lemma settled_traverse r i w w' :
  CrossbarSwitch_traverse r i w = Ok (tt, w') → switch_separate w → settled w w'.
Proof.
  intros H Hsep Hf. unfold CrossbarSwitch_traverse in H.
  apply bind_Ok in H as (x & w1 & [Hx ->]%get_router_Ok & H).
  apply bind_Ok in H as (t & w1 & [= <- <-] & H).
  apply bind_Ok in H as (b & w1 & [Hb ->]%optG_Ok & H).
  assert (S : still w w) by reflexivity. run_still H S.
  destruct (negb a); [injection H as <-; by apply still_settled|].
  apply bind_Ok in H as (p & w1 & [-> [l Hl]]%peekTopFlit_Ok & H).
  apply bind_Ok in H as (f & w1 & [_ ->]%get_flit_Ok & H).
  destruct (flit_is_stage ST_ (net_cycle w) f); [|injection H as <-; by apply still_settled].
  assert (S1 : still w0 w0) by reflexivity. do 2 run_still H S1.
  apply bind_Ok in H as (? & w3 & Hi & H). apply bind_Ok in H as (q & w4 & Hq & H).
  assert (S2 : still w w2) by (by transitivity w0).
  destruct (steady_router _ _ _ _ (still_steady _ _ S2) Hx) as (x2 & Hx2 & _ & Es).
  assert (Hsep2 : switch_separate w2) by (eapply static_switch_separate; [apply S2|done]).
  assert (Hc : contents w3 b = p :: l).
  { rewrite (insert_flit_contents _ _ _ _ _ _ _ b Hi Hx2).
    - by rewrite (still_contents _ _ b S1).
    - unfold switch_separate in Hsep2. rewrite Forall_lookup in Hsep2.
      apply vget_Some in Hx2 as [_ Hx2]. eauto.
    - injection Es as _ _ _ _ _ _ _ _ -> _ _ _ _ _ _.
      apply vget_Some in Hb as [_ Hb]. by eapply list_elem_of_lookup_2. }
  destruct (still_settled _ _ S2 Hf) as [Hf2 E2].
  destruct (moves_OutputUnit_insert_flit _ _ _ _ _ _ Hf2 Hi) as [Hf3 E3].
  destruct (moves_getTopFlit _ _ _ _ Hf3 Hq) as [Hf4 E4].
  assert (q = p) as ->.
  { apply getTopFlit_Ok in Hq as (_ & k & _ & Hk & _). congruence. }
  match type of H with ?m _ = _ => assert (P : preserves settled m)
    by (apply quiet_moves; pres_quiet) end.
  destruct (P _ _ _ H Hf4) as [Hf5 E5]. split; [done|]. intros z.
  rewrite E5, E4, E3, E2. lia.
Qed.

Lemma settled_sep_crossbar r : preserves settled_sep (CrossbarSwitch_wakeup r).
Proof.
  unfold CrossbarSwitch_wakeup. apply preserves_bind;
    [exact _ | apply settled_sep_intro; [pres_static | pres_settled] | intros x].
  apply preserves_for_each; [exact _|]. intros i _ w [] w' H Hs.
  split; [by eapply settled_traverse|]. eapply static_switch_separate; [|done].
  revert H. apply (fun P : preserves static _ => P w tt w'). pres_static.
Qed.

Ltac sep_step :=
  apply preserves_bind; [exact _ | apply settled_sep_intro; [pres_static | pres_settled] | intros ?].

Lemma settled_sep_Router_wakeup r : preserves settled_sep (Router_wakeup r).
Proof. unfold Router_wakeup. do 6 sep_step. apply settled_sep_crossbar. Qed.

(** ** Network interfaces *)
Lemma occ_concat_set {A} (g : A → list ptr) q l i x y :
  vget l i = Some x →
  occ q (concat (g <$> vset l i y)) = occ q (concat (g <$> l)) - occ q (g x) + occ q (g y).
Proof.
  intros [Hi Hx]%vget_Some. unfold vset. destruct (Z.leb_spec 0 i); [|lia].
  rewrite list_fmap_insert. assert (Hg : (g <$> l) !! Z.to_nat i = Some (g x))
    by (by rewrite list_lookup_fmap, Hx).
  pose proof (occ_concat_perm q _ _ (list_insert_perm (g <$> l) (Z.to_nat i) (g x) (g y) Hg)) as E.
  simpl in E. rewrite !occ_app in E. lia.
Qed.

(** An update of an interface changes the account by what it does to the stall
    queue. *)
Lemma upd_ni_bal n f w a w' :
  upd_ni n f w = Ok (a, w') → fresh_ok w →
  fresh_ok w' ∧ ∃ x, vget (net_m_nis w) n = Some x ∧
    ∀ q, bal w' q = bal w q - occ q (ni_m_stall_queue x) + occ q (ni_m_stall_queue (f x)).
Proof.
  intros (x & w1 & Hx & [= _ <-])%bind_Ok Hf. unfold get_ni in Hx.
  apply bind_Ok in Hx as (o & w2 & [= <- <-] & [Hx ->]%optG_Ok).
  split; [done|]. exists x. split; [done|]. intros q. unfold bal, resident, live. simpl.
  rewrite !occ_app, (occ_concat_set _ _ _ _ x) by done. lia.
Qed.

(** A flit is added to the stall queue. *)
Lemma moves_stall n f p :
  (∀ x, ni_m_stall_queue (f x) = ni_m_stall_queue x ++ [p]) → moves (λ _, one p) (upd_ni n f).
Proof.
  intros Hs w a w' Hf Hrun. destruct (upd_ni_bal _ _ _ _ _ Hrun Hf) as (Hf' & x & _ & E).
  split; [done|]. intros q. rewrite E, Hs, occ_app, occ_cons, occ_nil. lia.
Qed.
#[export] Hint Extern 1 (moves _ (upd_ni _ _)) =>
  apply moves_stall; intros ?; reflexivity : moves.

Lemma moves_eject_flit n p : moves (λ _, one p) (eject_flit n p).
Proof. mv. Qed.
#[export] Hint Resolve moves_eject_flit : moves.
Lemma settled_receive_flit n b : preserves settled (NetworkInterface_receive_flit n b).
Proof. mv_settled. Qed.
Lemma settled_receive_credit n : preserves settled (NetworkInterface_receive_credit n).
Proof. mv_settled. Qed.
Lemma settled_send n v : preserves settled (scheduleOutputLink_send n v).
Proof. mv_settled. Qed.
#[export] Hint Resolve settled_receive_flit settled_receive_credit settled_send : settled.
Lemma settled_scheduleOutputLink n : preserves settled (NetworkInterface_scheduleOutputLink n).
Proof. pres_settled. Qed.
Lemma settled_flitisize_packet n v k d m m' :
  preserves settled (flitisize_packet n v k d m m').
Proof. mv_settled. Qed.
#[export] Hint Resolve settled_scheduleOutputLink settled_flitisize_packet : settled.
Lemma settled_inject `{MachineTypes} n : preserves settled (NetworkInterface_inject n).
Proof. pres_settled. Qed.
#[export] Hint Resolve settled_inject : settled.

(** Ejecting a flit leaves the stall queues alone. *)
Definition same_stalls : relation GNet := keeps (λ w, ni_m_stall_queue <$> net_m_nis w).
#[export] Instance same_stalls_preorder : PreOrder same_stalls := keeps_preorder _.
Ltac stalls_tac := apply preserves_modify; intros ?; reflexivity.
Lemma same_stalls_eject n p : preserves same_stalls (eject_flit n p).
Proof. pres by stalls_tac. Qed.

(** Removing the [k]-th entry. *)
Lemma occ_remove q k l p :
  vget l k = Some p →
  occ q (take (Z.to_nat k) l ++ drop (S (Z.to_nat k)) l) = occ q l - one p q.
Proof.
  intros [_ Hk]%vget_Some. rewrite <- (take_drop_middle _ _ _ Hk) at 3.
  rewrite !occ_app, occ_cons. lia.
Qed.

(** Which flit is ejected and which entry is removed agree. *)
Lemma settled_checkStallQueue n : preserves settled (NetworkInterface_checkStallQueue n).
Proof.
  intros w b w' H. unfold NetworkInterface_checkStallQueue in H.
  apply bind_Ok in H as (x & w0 & Hx & H). unfold get_ni in Hx.
  apply bind_Ok in Hx as (o & w1 & [= <- <-] & [Hx ->]%optG_Ok).
  apply bind_Ok in H as (tick & w1 & Ht & H).
  assert (w1 = w) as -> by (by injection Ht). clear Ht.
  apply bind_Ok in H as (res & w1 & H & [= _ ->]).
  assert (Hstall : same_stalls w w) by done. revert H Hstall.
  generalize (zrange 0 (vsize (ni_m_stall_queue x))) as ks. intros ks.
  generalize w at 1 3 4 as v. induction ks as [|k ks IH]; intros v H Hstall; simpl in H.
  { injection H as _ <-. done. }
  apply bind_Ok in H as (r & v1 & Hbody & H).
  apply bind_Ok in Hbody as (p & v2 & [Hk ->]%optG_Ok & Hbody).
  apply bind_Ok in Hbody as (f & v2 & [_ ->]%get_flit_Ok & Hbody).
  apply bind_still in Hbody as (mb & v2 & _ & S1 & Hbody); [|pres_still].
  apply bind_still in Hbody as (avail & v3 & _ & S2 & Hbody); [|pres_still].
  assert (S : still v v3) by (by transitivity v2). destruct avail.
  - apply bind_Ok in Hbody as (? & v4 & He & Hbody).
    apply bind_Ok in Hbody as (cnt & v5 & [_ ->]%optG_Ok & Hbody).
    apply bind_Ok in Hbody as (? & v5 & Hu & Hbody).
    apply bind_still in Hbody as (? & v6 & _ & S3 & Hbody); [|pres_still].
    injection Hbody as <- <-. injection H as _ <-. intros Hf.
    destruct (still_settled _ _ S Hf) as [Hf3 E3].
    destruct (moves_eject_flit _ _ _ _ _ Hf3 He) as [Hf4 E4].
    destruct (upd_ni_bal _ _ _ _ _ Hu Hf4) as (Hf5 & y & Hy & E5).
    destruct (still_settled _ _ S3 Hf5) as [Hf6 E6]. split; [done|]. intros q.
    assert (Es : ni_m_stall_queue y = ni_m_stall_queue x).
    { assert (St : same_stalls w v4).
      { transitivity v; [done|]. transitivity v3; [apply S|by eapply same_stalls_eject]. }
      destruct (list_fmap_eq_lookup _ _ _ _ _ St Hx) as (y' & Hy' & ?). congruence. }
    rewrite E6, E5, E4, E3. simpl. rewrite Es, (occ_remove _ _ _ _ Hk). lia.
  - injection Hbody as <- <-. transitivity v3; [by apply still_settled|].
    apply (IH v3 H). transitivity v; [done|]. apply S.
Qed.
#[export] Hint Resolve settled_checkStallQueue : settled.

Lemma settled_NI_wakeup `{MachineTypes} n : preserves settled (NetworkInterface_wakeup n).
Proof. pres_settled. Qed.

(** C7.  The wake-ups keep the flits: if every live flit is held by exactly one
    buffer and every pointer in a buffer is live, then the same is true after
    [Router::wakeup], whose pipeline and swaps lose, duplicate and leak no flit,
    and after [NetworkInterface::wakeup], which injects messages, sends and
    receives flits and credits, stalls flits and releases them, whatever the
    protocol's machine types are. *)
Theorem wakeups_owned `{MachineTypes} w :
  owned w →
  (∀ r w', switch_separate w → Router_wakeup r w = Ok (tt, w') → owned w') ∧
  (∀ n w', NetworkInterface_wakeup n w = Ok (tt, w') → owned w').
Proof.
  intros Ho. split.
  - intros r w' Hs Hrun. destruct (settled_sep_Router_wakeup r _ _ _ Hrun Hs) as [Hset _]. by eapply settled_owned.
  - intros n w' Hrun. eapply settled_owned; [by eapply settled_NI_wakeup|done].
Qed.

Lemma wakeups_owned_witness :
  (∃ w', Router_wakeup 0 (swap_scene 1) = Ok (tt, w') ∧ owned w') ∧
  ∃ w', NetworkInterface_wakeup (MT := sample_types 4) 0 (tick (packet_scene XY_ 0 3)) = Ok (tt, w')
        ∧ owned w' ∧ resident w' ≠ [].
Proof.
  split.
  - assert (Hr : returns (Router_wakeup 0 (swap_scene 1)) = true) by (vm_compute; reflexivity).
    destruct (Router_wakeup 0 (swap_scene 1)) as [[[] w']|e] eqn:E; [|discriminate Hr].
    exists w'. split; [reflexivity|]. apply (wakeups_owned (H := sample_types 4) (swap_scene 1)) with (r := 0).
    + apply ownedb_spec. vm_compute. reflexivity.
    + apply (bool_decide_eq_true (switch_separate (swap_scene 1))). vm_compute. reflexivity.
    + exact E.
  - assert (Hr : match NetworkInterface_wakeup (MT := sample_types 4) 0 (tick (packet_scene XY_ 0 3)) with
                 | Ok (_, w') => resident w' ≠ []
                 | Abort _ => False
                 end) by (vm_compute; discriminate).
    destruct (NetworkInterface_wakeup 0 (tick (packet_scene XY_ 0 3))) as [[[] w']|e] eqn:E;
      [|destruct Hr].
    exists w'. split; [reflexivity|]. split; [|exact Hr].
    apply (wakeups_owned (H := sample_types 4) (tick (packet_scene XY_ 0 3))) with (n := 0).
    + apply ownedb_spec. vm_compute. reflexivity.
    + exact E.
Defined.
