(* ===== verification/SystemTheory.v ===== *)
(** * Invariants of the running network

    Relations that every step of the transition system of SystemModel.v respects,
    and what follows for every state that it reaches: flits are owned, and the
    wiring is fixed. *)

From S2P Require Import Prelude BinaryHeap NetDestModel CommonTypes GarnetState FlitBuffer Channels RoutingUnitModel SwapModel UnitsModel SwitchAllocatorModel MessageBufferModel NetworkInterfaceModel BuildModel TopologyModel SimpleNetworkModel Scenarios SystemModel StateLemmas Wiring Ownership SwapExchange RouterTheory.

(** ** A reflexive and transitive relation that every wake-up respects *)
Section Steps.
Context `{MT : MachineTypes} `{LS : LinkSort}.

(** An invariant [R] of transitions: it does not look at the clock and the
    event queue, and every wake-up and controller action respects it. *)
Class StepRel (R : relation GNet) : Prop := {
  sr_preorder :: PreOrder R;
  sr_remove w i : R w (remove_event i w);
  sr_tick w : R w (tick w);
  sr_wakeup c : preserves R (wakeup_consumer c);
  sr_enqueue b m d : preserves R (controller_enqueue b m d);
  sr_dequeue b : preserves R (controller_dequeue b);
}.

Lemma reachable_rel (R : relation GNet) `{!StepRel R} w w' : reachable w w' → R w w'.
Proof.
  induction 1 as [|w1 w2 _ IH Hs]; [reflexivity|]. transitivity w1; [done|].
  destruct Hs as [i c w2 _ Hrun| |b m d w2 Hrun|b w2 Hrun].
  - transitivity (remove_event i w1); [apply sr_remove|by eapply sr_wakeup].
  - apply sr_tick.
  - by eapply sr_enqueue.
  - by eapply sr_dequeue.
Qed.

(** The executable schedule takes legal steps. *)
Lemma due_at_Some t i q j c :
  due_at t i q = Some (j, c) → (i ≤ j)%nat ∧ q !! (j - i)%nat = Some (t, c).
Proof.
  revert i. induction q as [|[t' c'] q IH]; intros i; simpl; [done|].
  destruct (Z.eqb_spec t' t) as [->|].
  - intros [= <- <-]. split; [lia|]. by rewrite Nat.sub_diag.
  - intros [Hle Hq]%IH. split; [lia|]. by replace (j - i)%nat with (S (j - S i)) by lia.
Qed.

Lemma exec_reachable fuel w w' : exec fuel w = Ok w' → reachable w w'.
Proof.
  assert (Htrans : ∀ w1 w2 w3, reachable w1 w2 → reachable w2 w3 → reachable w1 w3).
  { intros w1 w2 w3 H1 H2. induction H2; [done|]. by eapply reach_step. }
  revert w. induction fuel as [|fuel IH]; intros w; simpl; [intros [= ->]; constructor|].
  unfold mbind, outcome_bind. destruct (exec_step w) as [w1|] eqn:E; [|done].
  intros Hr%IH. eapply Htrans; [|done]. eapply reach_step; [constructor|].
  unfold exec_step in E. destruct (first_due w) as [[i c]|] eqn:Ed.
  - apply due_at_Some in Ed as [_ Hq]. rewrite Nat.sub_0_r in Hq.
    destruct (wakeup_consumer c (remove_event i w)) as [[[] w2]|] eqn:Er; [|done].
    injection E as ->. by eapply step_event.
  - destruct (forallb (λ e, now w <? fst e) (net_eventq w)) eqn:Ef; [|done].
    injection E as <-. apply step_tick. apply Forall_forall. intros e He.
    rewrite forallb_forall in Ef. apply list_elem_of_In in He. apply Ef in He. lia.
Qed.

#[export] Instance static_steps : StepRel static.
Proof.
  split; [exact _|done|done| | |].
  - intros [r|l|n|c|s|s t]; simpl.
    + apply static_Router_wakeup.
    + apply static_NetworkLink_wakeup.
    + apply static_NI_wakeup.
    + apply preserves_ret, _.
    + pres_static.
    + pres_static.
  - intros. pres_static.
  - intros. pres_static.
Qed.

#[export] Instance settled_sep_steps : StepRel settled_sep.
Proof.
  split; [exact _|done|done| | |].
  - intros [r|l|n|c|s|s t]; simpl.
    + apply settled_sep_Router_wakeup.
    + apply settled_sep_intro; [apply static_NetworkLink_wakeup|apply settled_NetworkLink_wakeup].
    + apply settled_sep_intro; [apply static_NI_wakeup|apply settled_NI_wakeup].
    + apply preserves_ret, _.
    + apply settled_sep_intro; [pres_static|apply quiet_moves; pres_quiet].
    + apply settled_sep_intro; [pres_static|apply quiet_moves; pres_quiet].
  - intros. apply settled_sep_intro; [pres_static|apply quiet_moves; pres_quiet].
  - intros. apply settled_sep_intro; [pres_static|apply quiet_moves; pres_quiet].
Qed.
End Steps.

(** C9.  Conservation of flits in the running network: in every state reachable
    from a state in which flits are owned, whatever the order in which due
    events run and whatever messages the protocol enqueues, every live flit is
    held by exactly one buffer or stall queue, and everything held is live. *)
Theorem reachable_owned `{MT : MachineTypes} `{LS : LinkSort} w w' :
  switch_separate w → owned w → reachable w w' → owned w' ∧ switch_separate w'.
Proof.
  intros Hs Ho Hr. destruct (reachable_rel settled_sep _ _ Hr Hs) as [Hset Hs'].
  split; [by eapply settled_owned|done].
Qed.

(** The packet scene runs to the end: a message of node 0 is in the buffer of
    node 3 after two hops, and no flit is left. *)
Lemma packet_run :
  match exec (MT := sample_types 4) (LS := stable_sort) 40 (packet_scene XY_ 0 3) with
  | Ok w' => (st_m_packets_received (net_stats w'), st_m_total_hops (net_stats w'),
              resident w') = ([1], 2, [])
  | Abort _ => False
  end.
Proof. vm_compute. reflexivity. Qed.

Lemma reachable_owned_witness :
  ∃ w', reachable (MT := sample_types 4) (LS := stable_sort) (packet_scene XY_ 0 3) w' ∧
        st_m_packets_received (net_stats w') = [1] ∧ owned w' ∧ switch_separate w'.
Proof.
  pose proof packet_run as Hp.
  destruct (exec 40 (packet_scene XY_ 0 3)) as [w'|e] eqn:E; [|destruct Hp].
  exists w'. apply (exec_reachable (MT := sample_types 4) (LS := stable_sort)) in E.
  split; [exact E|]. split; [injection Hp; auto|].
  apply (reachable_owned (MT := sample_types 4) (LS := stable_sort) (packet_scene XY_ 0 3) w').
  - apply (bool_decide_eq_true (switch_separate (packet_scene XY_ 0 3))). vm_compute. reflexivity.
  - apply ownedb_spec. vm_compute. reflexivity.
  - exact E.
Defined.

(** The wiring is fixed: in every reachable state the configuration, the
    ports, links and VCs, and the buffers they point to are those of the
    initial state. *)
Theorem reachable_static `{MT : MachineTypes} `{LS : LinkSort} w w' :
  reachable w w' → net_static w' = net_static w.
Proof. intros Hr. apply (reachable_rel static _ _ Hr). Qed.

Lemma reachable_static_witness :
  ∃ w', reachable (MT := sample_types 4) (LS := stable_sort) (packet_scene XY_ 0 3) w' ∧
        net_static w' = net_static (packet_scene XY_ 0 3).
Proof.
  pose proof packet_run as Hp.
  destruct (exec 40 (packet_scene XY_ 0 3)) as [w'|e] eqn:E; [|destruct Hp].
  exists w'. apply (exec_reachable (MT := sample_types 4) (LS := stable_sort)) in E. split; [exact E|].
  apply (reachable_static (MT := sample_types 4) (LS := stable_sort)). exact E.
Defined.
