(* ===== verification/WiredTheory.v ===== *)
(** * A built mesh stays built

    The routing theorems (RoutingTheory.v) and the progress of swaps
    (SwapProgress.v) are about networks that are wired as a mesh.  The port
    tables of the routing units are not constant while the network runs: a
    look-up of a direction that has no port inserts an entry.  This file proves
    that entries are only added, so that every reachable state is wired as the
    initial one. *)

From S2P Require Import Prelude BinaryHeap NetDestModel CommonTypes GarnetState FlitBuffer Channels RoutingUnitModel SwapModel UnitsModel SwitchAllocatorModel MessageBufferModel NetworkInterfaceModel BuildModel TopologyModel SimpleNetworkModel Scenarios SystemModel StateLemmas RoutingTheory Wiring Ownership SwapExchange SwapProgress RouterTheory SystemTheory.

(** ** The port tables grow *)
Definition tables_grow (u u' : RoutingUnit) : Prop :=
  ru_m_inports_dirn2idx u ⊆ ru_m_inports_dirn2idx u' ∧
  ru_m_inports_idx2dirn u ⊆ ru_m_inports_idx2dirn u' ∧
  ru_m_outports_dirn2idx u ⊆ ru_m_outports_dirn2idx u' ∧
  ru_m_outports_idx2dirn u ⊆ ru_m_outports_idx2dirn u'.
Definition grown (w w' : GNet) : Prop :=
  ∀ r x, vget (net_m_routers w) r = Some x →
    ∃ x', vget (net_m_routers w') r = Some x' ∧
          tables_grow (rt_m_routing_unit x) (rt_m_routing_unit x').

#[export] Instance tables_grow_preorder : PreOrder tables_grow.
Proof.
  split; [done|]. intros u1 u2 u3 (A1 & B1 & C1 & D1) (A2 & B2 & C2 & D2).
  split_and!; etransitivity; done.
Qed.
#[export] Instance grown_preorder : PreOrder grown.
Proof.
  split; [intros w r x Hx; by exists x|]. intros w1 w2 w3 H1 H2 r x Hx.
  destruct (H1 r x Hx) as (x2 & Hx2 & G2). destruct (H2 r x2 Hx2) as (x3 & Hx3 & G3).
  exists x3. split; [done|]. by etransitivity.
Qed.

Create HintDb grown.
Ltac grown_prim := apply preserves_modify; intros ? ? ? Hx; eexists; split; [exact Hx|reflexivity].
Ltac grown_tac := first [solve [auto 2 with nocore grown] | grown_prim].
Tactic Notation "pres_grown" := pres by grown_tac.

Lemma grown_upd_router r f :
  (∀ x, tables_grow (rt_m_routing_unit x) (rt_m_routing_unit (f x))) →
  preserves grown (upd_router r f).
Proof.
  intros Hf w [] w' (x & w1 & [Hx ->]%get_router_Ok & [= <-])%bind_Ok r' x' Hx'.
  simpl. rewrite vget_vset. case_decide as E; [|by exists x'].
  destruct E as [-> _]. simplify_eq. by exists (f x).
Qed.
#[export] Hint Extern 1 (preserves grown (upd_router _ _)) =>
  apply grown_upd_router; intros ?; reflexivity : grown.

(** A look-up with [operator[]]. *)
Lemma grown_table_at {K V} `{Countable K} r (g : RoutingUnit → gmap K V) k z
    (put : gmap K V → RoutingUnit → RoutingUnit) :
  (∀ u m, g u ⊆ m → tables_grow u (put m u)) →
  preserves grown (x ← get_router r;
                   let '(v, m) := map_at (g (rt_m_routing_unit x)) k z in
                   upd_ru r (put m) ;; mret v).
Proof.
  intros Hput w v w' (x & w1 & [Hx ->]%get_router_Ok & Hrun)%bind_Ok.
  destruct (map_at_subseteq (g (rt_m_routing_unit x)) k z) as [Hsub _].
  destruct (map_at _ k z) as [v' m]. simpl in *. apply bind_Ok in Hrun as ([] & w1 & Hrun & [= _ <-]).
  unfold upd_ru in Hrun. rewrite (run_upd_router _ _ _ _ Hx) in Hrun. injection Hrun as <-.
  intros r' x' Hx'. simpl. rewrite vget_vset. case_decide as E; [|by exists x'].
  destruct E as [-> _]. simplify_eq. eexists. split; [done|]. by apply Hput.
Qed.

Lemma grown_inports_dirn2idx r d : preserves grown (inports_dirn2idx r d).
Proof. apply (grown_table_at r ru_m_inports_dirn2idx). done. Qed.
Lemma grown_outports_dirn2idx r d : preserves grown (outports_dirn2idx r d).
Proof. apply (grown_table_at r ru_m_outports_dirn2idx). done. Qed.
Lemma grown_inports_idx2dirn r i : preserves grown (inports_idx2dirn r i).
Proof. apply (grown_table_at r ru_m_inports_idx2dirn). done. Qed.
Lemma grown_outports_idx2dirn r o : preserves grown (outports_idx2dirn r o).
Proof. apply (grown_table_at r ru_m_outports_idx2dirn). done. Qed.
#[export] Hint Resolve grown_inports_dirn2idx grown_outports_dirn2idx grown_inports_idx2dirn
  grown_outports_idx2dirn : grown.

Lemma grown_route_compute r rt i d : preserves grown (Router_route_compute r rt i d).
Proof. pres_grown. Qed.
#[export] Hint Resolve grown_route_compute : grown.
Lemma grown_swap_phase r : preserves grown (Router_swap_phase r).
Proof. pres_grown. Qed.
Lemma grown_SwitchAllocator_wakeup r : preserves grown (SwitchAllocator_wakeup r).
Proof. pres_grown. Qed.
#[export] Hint Resolve grown_swap_phase grown_SwitchAllocator_wakeup : grown.

#[export] Instance grown_steps `{MT : MachineTypes} `{LS : LinkSort} : StepRel grown.
Proof.
  split; [exact _|intros w i r x Hx; by exists x|intros w r x Hx; by exists x| | |].
  - intros [r|l|n|c|s|s t]; simpl; pres_grown.
  - intros. pres_grown.
  - intros. pres_grown.
Qed.

(** ** The mesh stays wired *)
Section Mono.
Context (w w' : GNet) (Hs : static w w') (Hg : grown w w').

Lemma kept_cfg : net_cfg w' = net_cfg w.
Proof. by injection Hs. Qed.

Lemma kept_fbuf b : is_Some (net_fbufs w !! b) → is_Some (net_fbufs w' !! b).
Proof. injection Hs as _ _ _ _ E. by rewrite <- !elem_of_dom, E. Qed.

Lemma kept_router r x :
  vget (net_m_routers w) r = Some x →
  ∃ x', vget (net_m_routers w') r = Some x' ∧ rt_m_id x' = rt_m_id x ∧
    input_static <$> rt_m_input_unit x' = input_static <$> rt_m_input_unit x ∧
    tables_grow (rt_m_routing_unit x) (rt_m_routing_unit x').
Proof.
  intros Hx. destruct (Hg r x Hx) as (x' & Hx' & G). exists x'. split; [done|].
  injection Hs as _ E _ _ _. destruct (list_fmap_eq_lookup _ _ _ _ _ E Hx) as (y & Hy & Ey).
  rewrite Hx' in Hy. injection Hy as <-. injection Ey as -> _ _ _ _ -> _ _ _ _ _ _ _ _ _. done.
Qed.

Lemma kept_port n d : port_ok w n d = true → port_ok w' n d = true.
Proof.
  unfold port_ok. destruct (vget (net_m_routers w) n) as [x|] eqn:Hx; [|done].
  destruct (kept_router _ _ Hx) as (x' & -> & _ & Ei & (Gd & _)).
  destruct (_ !! d) as [i|] eqn:Hd; [|done]. rewrite (lookup_weaken _ _ _ _ Hd Gd).
  destruct (vget (rt_m_input_unit x) i) as [u|] eqn:Hu; [|done].
  destruct (list_fmap_eq_lookup _ _ _ _ _ Ei Hu) as (u' & -> & Eu).
  injection Eu as Ev _ Edir _ Eper _ _ _. rewrite Edir, Eper, !andb_true_iff. intros [Hdir Hvc].
  split; [done|]. rewrite forallb_forall in *. intros v Hv. specialize (Hvc v Hv).
  destruct (vget (iu_m_vcs u) v) as [c|] eqn:Hc; [|done].
  destruct (list_fmap_eq_lookup _ _ _ _ _ Ev Hc) as (c' & -> & Ec). injection Ec as _ ->.
  rewrite bool_decide_eq_true in *. by apply kept_fbuf.
Qed.

Lemma kept_edge rows cols id d : edge_ok w rows cols id d = true → edge_ok w' rows cols id d = true.
Proof.
  unfold edge_ok. destruct (vget (net_m_routers w) id) as [x|] eqn:Hx; [|done].
  destruct (kept_router _ _ Hx) as (x' & -> & _ & _ & (_ & _ & Go & _)).
  destruct (get_downstreamId cols d id) as [n|]; [|done].
  destruct (get_downstreamDirn d) as [d'|]; [|done]. case_match; [|done].
  destruct (ru_m_outports_dirn2idx (rt_m_routing_unit x) !! d) as [o|] eqn:Ho; [|done].
  rewrite (lookup_weaken _ _ _ _ Ho Go), !andb_true_iff. intros [? ?]. split; [done|].
  by apply kept_port.
Qed.

Lemma kept_wired rows cols : mesh_wired w rows cols = true → mesh_wired w' rows cols = true.
Proof.
  unfold mesh_wired. rewrite kept_cfg.
  assert (vsize (net_m_routers w') = vsize (net_m_routers w)) as ->.
  { injection Hs as _ E _ _ _. apply (f_equal length) in E. rewrite !length_fmap in E.
    unfold vsize. by rewrite E. }
  rewrite !andb_true_iff. intros [? Hf]. split; [done|]. rewrite forallb_forall in *.
  intros id Hid. specialize (Hf id Hid). unfold router_ok in *.
  destruct (vget (net_m_routers w) id) as [x|] eqn:Hx; [|done].
  destruct (kept_router _ _ Hx) as (x' & -> & -> & _). rewrite andb_true_iff in *.
  destruct Hf as [? Hd]. split; [done|]. rewrite forallb_forall in *.
  intros d Hin. by apply kept_edge, Hd.
Qed.

Lemma kept_named rows cols : mesh_named w rows cols = true → mesh_named w' rows cols = true.
Proof.
  unfold mesh_named. rewrite !forallb_forall. intros Hf id Hid. specialize (Hf id Hid).
  unfold ports_named in *. destruct (vget (net_m_routers w) id) as [x|] eqn:Hx; [|done].
  destruct (kept_router _ _ Hx) as (x' & -> & _ & Ei & (Gid & Gii & God & Goi)).
  rewrite andb_true_iff in *. destruct Hf as [Ho Hi].
  rewrite forallb_forall in Ho, Hi. split; apply forallb_forall.
  - intros d Hd. specialize (Ho d Hd). unfold out_named in *. destruct (get_downstreamId cols d id); [|done].
    case_match; [|done]. destruct (ru_m_outports_dirn2idx (rt_m_routing_unit x) !! d) as [o|] eqn:E; [|done].
    rewrite (lookup_weaken _ _ _ _ E God). rewrite bool_decide_eq_true in *. by eapply lookup_weaken.
  - intros i Hin. assert (Hlen : vsize (rt_m_input_unit x') = vsize (rt_m_input_unit x)).
    { apply (f_equal length) in Ei. rewrite !length_fmap in Ei. unfold vsize. by rewrite Ei. }
    rewrite Hlen in Hin. specialize (Hi i Hin). unfold in_named, dirs in *.
    destruct (vget (rt_m_input_unit x) i) as [u|] eqn:Hu.
    + destruct (list_fmap_eq_lookup _ _ _ _ _ Ei Hu) as (u' & -> & Eu).
      injection Eu as _ _ -> _ _ _ _ _. rewrite andb_true_iff, !bool_decide_eq_true in *.
      destruct Hi as [Hi [k Hk]]. split; [by eapply lookup_weaken|]. exists k. by eapply lookup_weaken.
    + symmetry in Ei. destruct (vget (rt_m_input_unit x') i) as [u'|] eqn:Hu'; [|done].
      destruct (list_fmap_eq_lookup _ _ _ _ _ Ei Hu') as (u & Hu2 & _). congruence.
Qed.
End Mono.

(** C40.  A network that is built as a mesh stays one: in every state reachable
    from a wired mesh, every router has its number, the output port towards
    each neighbour and the facing input port there with all its buffers, and
    its tables name the ports both ways, so that the theorems on routing (C1)
    and on swaps (C33) apply in every reachable state. *)
Theorem reachable_arena `{MT : MachineTypes} `{LS : LinkSort} w w' rows cols :
  arena w rows cols → reachable w w' → arena w' rows cols.
Proof.
  intros (Hw & Hn & Ha & Hm) Hr.
  pose proof (reachable_rel static _ _ Hr) as Hs. pose proof (reachable_rel grown _ _ Hr) as Hg.
  unfold arena. rewrite (kept_cfg _ _ Hs).
  split_and!; [by eapply kept_wired|by eapply kept_named|done|done].
Qed.

Lemma reachable_arena_witness :
  ∃ w', reachable (MT := sample_types 4) (LS := stable_sort) (packet_scene XY_ 0 3) w' ∧
        st_m_packets_received (net_stats w') = [1] ∧ arena w' 2 2.
Proof.
  pose proof packet_run as Hp.
  destruct (exec 40 (packet_scene XY_ 0 3)) as [w'|e] eqn:E; [|destruct Hp].
  exists w'. apply (exec_reachable (MT := sample_types 4) (LS := stable_sort)) in E.
  split; [exact E|]. split; [injection Hp; auto|].
  apply (reachable_arena (MT := sample_types 4) (LS := stable_sort) (packet_scene XY_ 0 3) w' 2 2); [|exact E].
  split; [vm_compute; reflexivity|]. split; [vm_compute; reflexivity|].
  split; [left|]; vm_compute; reflexivity.
Defined.
