(* ===== verification/CreditTheory.v ===== *)
(** * Credits and output virtual channels

    The credit counters of OutVcState.cc, their bounds in every reachable
    state, and the VC allocator of OutputUnit.cc. *)

From S2P Require Import Prelude BinaryHeap NetDestModel CommonTypes GarnetState FlitBuffer Channels RoutingUnitModel SwapModel UnitsModel SwitchAllocatorModel MessageBufferModel NetworkInterfaceModel BuildModel TopologyModel SimpleNetworkModel Scenarios SystemModel StateLemmas Wiring Ownership SwapExchange RouterTheory SystemTheory.

(** ** One counter *)
Definition ov_ok (s : OutVcState) : Prop :=
  0 ≤ ov_m_credit_count s ≤ ov_m_max_credit_count s.
#[export] Instance ov_ok_dec s : Decision (ov_ok s).
Proof. unfold ov_ok. apply _. Defined.

Lemma increment_ok s s' : OutVcState_increment_credit s = Ok s' → ov_ok s → ov_ok s'.
Proof.
  destruct s as [i t st c m]. unfold OutVcState_increment_credit, assertO, mbind, outcome_bind, ov_ok.
  simpl. destruct (Z.leb_spec (Z.succ c) m); [|done]. intros [= <-]. simpl. lia.
Qed.
Lemma decrement_ok s s' : OutVcState_decrement_credit s = Ok s' → ov_ok s → ov_ok s'.
Proof.
  destruct s as [i t st c m]. unfold OutVcState_decrement_credit, assertO, mbind, outcome_bind, ov_ok.
  simpl. destruct (Z.leb_spec 0 (Z.pred c)); [|done]. intros [= <-]. simpl. lia.
Qed.

Lemma OutVcState_ctor_full id c s :
  OutVcState_ctor id c = Ok s →
  ov_ok s ∧ OutVcState_has_credit s = true ∧
  ov_m_credit_count s = ov_m_max_credit_count s ∧ ov_m_vc_state s = IDLE_.
Proof.
  unfold OutVcState_ctor, assertO, mbind, outcome_bind, ov_ok, OutVcState_has_credit.
  destruct (get_vnet_type id c) as [t|]; [|done].
  destruct (bool_decide _), (Z.leb_spec 1 (cf_m_buffers_per_data_vc c)),
    (Z.leb_spec 1 (cf_m_buffers_per_ctrl_vc c)); try done; intros [= <-]; simpl; repeat split; lia.
Qed.

(** The credit counter of an output VC: a counter built by the constructor
    is full, not empty, and its VC idle; a credit can be taken exactly when [has_credit] holds and can be
    returned exactly when the counter is not full, otherwise the assertion of
    the operation stops the simulation; taking a credit and returning it
    restores the state. *)
Theorem OutVcState_credit_protocol s :
  ov_ok s →
  (∀ id c s0, OutVcState_ctor id c = Ok s0 →
     ov_ok s0 ∧ OutVcState_has_credit s0 = true ∧
     ov_m_credit_count s0 = ov_m_max_credit_count s0 ∧ ov_m_vc_state s0 = IDLE_) ∧
  (match OutVcState_decrement_credit s with
   | Ok s' => OutVcState_has_credit s = true ∧ OutVcState_increment_credit s' = Ok s
   | Abort e => OutVcState_has_credit s = false ∧ e = AssertFail "OutVcState.cc:64"
   end) ∧
  (match OutVcState_increment_credit s with
   | Ok s' => ov_m_credit_count s < ov_m_max_credit_count s ∧ OutVcState_decrement_credit s' = Ok s
   | Abort e => ov_m_credit_count s = ov_m_max_credit_count s ∧ e = AssertFail "OutVcState.cc:57"
   end).
Proof.
  intros Hc. split; [apply OutVcState_ctor_full|]. revert Hc.
  destruct s as [i t st c m]. unfold ov_ok, OutVcState_decrement_credit,
    OutVcState_increment_credit, OutVcState_has_credit, assertO, mbind, outcome_bind.
  simpl. intros Hc. split.
  - destruct (Z.leb_spec 0 (Z.pred c)); simpl; [|split; [lia|done]].
    rewrite Z.succ_pred. split; [lia|]. by destruct (Z.leb_spec c m); [|lia].
  - destruct (Z.leb_spec (Z.succ c) m); simpl; [|split; [lia|done]].
    rewrite Z.pred_succ. split; [lia|]. by destruct (Z.leb_spec 0 c); [|lia].
Qed.

Lemma OutVcState_credit_protocol_witness :
  ov_ok (mkOutVcState 0 0 IDLE_ 1 1) ∧
  match OutVcState_decrement_credit (mkOutVcState 0 0 IDLE_ 1 1) with
  | Ok s' => OutVcState_has_credit (mkOutVcState 0 0 IDLE_ 1 1) = true ∧
             OutVcState_increment_credit s' = Ok (mkOutVcState 0 0 IDLE_ 1 1)
  | Abort e => OutVcState_has_credit (mkOutVcState 0 0 IDLE_ 1 1) = false ∧
               e = AssertFail "OutVcState.cc:64"
  end.
Proof.
  assert (H : ov_ok (mkOutVcState 0 0 IDLE_ 1 1)) by (unfold ov_ok; simpl; lia).
  split; [exact H|]. apply (proj1 (proj2 (OutVcState_credit_protocol (mkOutVcState 0 0 IDLE_ 1 1) H))).
Defined.

(** ** All counters of the network *)
Definition credits_ok (w : GNet) : Prop :=
  Forall (λ x, Forall (λ u, Forall ov_ok (ou_m_outvc_state u)) (rt_m_output_unit x))
    (net_m_routers w) ∧
  Forall (λ n, Forall ov_ok (ni_m_out_vc_state n)) (net_m_nis w).
#[export] Instance credits_ok_dec w : Decision (credits_ok w).
Proof. unfold credits_ok. apply _. Defined.

Definition credit_rel (w w' : GNet) : Prop := credits_ok w → credits_ok w'.
#[export] Instance credit_rel_preorder : PreOrder credit_rel.
Proof. split; [intros w H; exact H|]. intros w1 w2 w3 H1 H2 H. auto. Qed.

Lemma Forall_vset {A} (P : A → Prop) l i y : Forall P l → P y → Forall P (vset l i y).
Proof. intros. unfold vset. destruct (0 <=? i); [by apply Forall_insert|done]. Qed.
Lemma Forall_vget {A} (P : A → Prop) l i x : Forall P l → vget l i = Some x → P x.
Proof. intros H [_ Hx]%vget_Some. rewrite Forall_lookup in H. eauto. Qed.

Create HintDb credit.
Ltac credit_prim := apply preserves_modify; intros ? ?; assumption.
Ltac credit_tac := first [solve [auto 2 with nocore credit] | credit_prim].
Tactic Notation "pres_credit" := pres by credit_tac.

Lemma credit_upd_router r f :
  (∀ x, rt_m_output_unit (f x) = rt_m_output_unit x) → preserves credit_rel (upd_router r f).
Proof.
  intros Hf w [] w' (x & w1 & [Hx ->]%get_router_Ok & [= <-])%bind_Ok [Hr Hn].
  split; [|done]. apply Forall_vset; [done|]. rewrite Hf. exact (Forall_vget _ _ _ _ Hr Hx).
Qed.
Lemma credit_upd_ni n f :
  (∀ x, ni_m_out_vc_state (f x) = ni_m_out_vc_state x) → preserves credit_rel (upd_ni n f).
Proof.
  intros Hf w [] w' (x & w1 & H1 & [= <-])%bind_Ok [Hr Hn].
  unfold get_ni in H1. apply bind_Ok in H1 as (o & w2 & [= <- <-] & [Hx ->]%optG_Ok).
  split; [done|]. apply Forall_vset; [done|]. rewrite Hf. exact (Forall_vget _ _ _ _ Hn Hx).
Qed.
#[export] Hint Extern 1 (preserves credit_rel (upd_router _ _)) =>
  apply credit_upd_router; intros ?; reflexivity : credit.
#[export] Hint Extern 1 (preserves credit_rel (upd_ni _ _)) =>
  apply credit_upd_ni; intros ?; reflexivity : credit.

(** Writing a counter. *)
Lemma get_outvc_ok r o v w s w' : credits_ok w → get_outvc r o v w = Ok (s, w') → w' = w ∧ ov_ok s.
Proof.
  intros [Hr _] (u & w1 & (-> & x & Hx & Hu)%get_output_Ok & [Hs ->]%optG_Ok)%bind_Ok.
  split; [done|]. pose proof (Forall_vget _ _ _ _ Hr Hx) as H1.
  pose proof (Forall_vget _ _ _ _ H1 Hu) as H2. exact (Forall_vget _ _ _ _ H2 Hs).
Qed.
Lemma put_outvc_ok r o v s w a w' :
  credits_ok w → ov_ok s → put_outvc r o v s w = Ok (a, w') → credits_ok w'.
Proof.
  intros [Hr Hn] Hs (u & w1 & (-> & x & Hx & Hu)%get_output_Ok & Hrun)%bind_Ok.
  rewrite (run_upd_router _ _ _ _ Hx) in Hrun. injection Hrun as _ <-. split; [|done].
  pose proof (Forall_vget _ _ _ _ Hr Hx) as H1. pose proof (Forall_vget _ _ _ _ H1 Hu) as H2.
  apply Forall_vset; [done|]. simpl. apply Forall_vset; [done|]. simpl. by apply Forall_vset.
Qed.
Lemma ni_get_outvc_ok n v w s w' :
  credits_ok w → ni_get_outvc n v w = Ok (s, w') → w' = w ∧ ov_ok s.
Proof.
  intros [_ Hn] (x & w1 & H1 & [Hs ->]%optG_Ok)%bind_Ok. unfold get_ni in H1.
  apply bind_Ok in H1 as (o & w2 & [= <- <-] & [Hx ->]%optG_Ok).
  split; [done|]. pose proof (Forall_vget _ _ _ _ Hn Hx) as H1. exact (Forall_vget _ _ _ _ H1 Hs).
Qed.
Lemma ni_put_outvc_ok n v s w a w' :
  credits_ok w → ov_ok s → ni_put_outvc n v s w = Ok (a, w') → credits_ok w'.
Proof.
  intros [Hr Hn] Hs (x & w1 & H1 & [= _ <-])%bind_Ok. unfold get_ni in H1.
  apply bind_Ok in H1 as (o & w2 & [= <- <-] & [Hx ->]%optG_Ok).
  split; [done|]. pose proof (Forall_vget _ _ _ _ Hn Hx) as H2.
  apply Forall_vset; [done|]. simpl. by apply Forall_vset.
Qed.

(** The operations that write counters. *)
Lemma lift_Ok {A} (o : outcome A) (w w' : GNet) a : lift o w = Ok (a, w') → o = Ok a ∧ w' = w.
Proof. unfold lift. destruct o; [|done]. by intros [= -> ->]. Qed.

Lemma credit_decrement r o v : preserves credit_rel (OutputUnit_decrement_credit r o v).
Proof.
  intros w [] w' (s & w1 & Hs & H)%bind_Ok Hok. apply get_outvc_ok in Hs as [-> Hs]; [|done].
  apply bind_Ok in H as (s' & w1 & [Hd ->]%lift_Ok & H).
  eapply put_outvc_ok; [done|by eapply decrement_ok|done].
Qed.
Lemma credit_increment r o v : preserves credit_rel (OutputUnit_increment_credit r o v).
Proof.
  intros w [] w' (s & w1 & Hs & H)%bind_Ok Hok. apply get_outvc_ok in Hs as [-> Hs]; [|done].
  apply bind_Ok in H as (s' & w1 & [Hd ->]%lift_Ok & H).
  eapply put_outvc_ok; [done|by eapply increment_ok|done].
Qed.
Lemma credit_set_vc_state r o st v t : preserves credit_rel (OutputUnit_set_vc_state r o st v t).
Proof.
  intros w [] w' (s & w1 & Hs & H)%bind_Ok Hok. apply get_outvc_ok in Hs as [-> Hs]; [|done].
  eapply put_outvc_ok; [done| |done]. exact Hs.
Qed.
#[export] Hint Resolve credit_decrement credit_increment credit_set_vc_state : credit.

(** Programs whose first step yields a counter to be written later. *)
Lemma credit_bind {A B} (m : G A) (k : A → G B) w b w' :
  (m ≫= k) w = Ok (b, w') → preserves credit_rel m → credits_ok w →
  ∃ a w1, m w = Ok (a, w1) ∧ credits_ok w1 ∧ k a w1 = Ok (b, w').
Proof. intros (a & w1 & Hm & Hk)%bind_Ok Hs Hok. exists a, w1. split_and!; [done|by eapply Hs|done]. Qed.

Ltac run_credit H :=
  apply credit_bind in H as (? & ? & _ & ? & H); [|solve [pres_credit]|assumption]; cbv beta zeta in H.
Ltac end_credit H := revert H; match goal with
  | |- ?m _ = Ok _ → _ => let P := fresh "P" in
      assert (P : preserves credit_rel m) by pres_credit; intros H; by eapply P end.

Lemma credit_send n v : preserves credit_rel (scheduleOutputLink_send n v).
Proof.
  intros w [] w' H Hok. unfold scheduleOutputLink_send in H. do 2 run_credit H.
  apply bind_Ok in H as (s & w1 & Hs & H). apply ni_get_outvc_ok in Hs as [-> Hs]; [|done].
  apply bind_Ok in H as (s' & w1 & [Hd ->]%lift_Ok & H).
  apply bind_Ok in H as (? & w1 & Hp & H).
  assert (credits_ok w1) by (eapply ni_put_outvc_ok; [|by eapply decrement_ok|done]; done).
  end_credit H.
Qed.
Lemma credit_receive_credit n : preserves credit_rel (NetworkInterface_receive_credit n).
Proof.
  intros w [] w' H Hok. unfold NetworkInterface_receive_credit in H. do 2 run_credit H.
  apply bind_Ok in H as (ready & w1 & Hr & H).
  assert (credits_ok w1) by end_credit Hr. destruct ready; [|by injection H as <-].
  do 2 run_credit H.
  apply bind_Ok in H as (s & w2 & Hs & H). apply ni_get_outvc_ok in Hs as [-> Hs]; [|done].
  apply bind_Ok in H as (s' & w2 & [Hd ->]%lift_Ok & H).
  apply bind_Ok in H as (? & w2 & Hp & H). eapply increment_ok in Hd; [|done].
  assert (credits_ok w2) by (eapply ni_put_outvc_ok; [| |exact Hp]; [done|by case_match]).
  end_credit H.
Qed.
Lemma credit_flitisize_packet n v k d m m' : preserves credit_rel (flitisize_packet n v k d m m').
Proof.
  intros w [] w' H Hok. unfold flitisize_packet in H. do 16 run_credit H.
  apply bind_Ok in H as (s & w2 & Hs & H). apply ni_get_outvc_ok in Hs as [-> Hs]; [|done].
  eapply ni_put_outvc_ok; [| |exact H]; [done|exact Hs].
Qed.
#[export] Hint Resolve credit_send credit_receive_credit credit_flitisize_packet : credit.

Lemma credit_Router_wakeup r : preserves credit_rel (Router_wakeup r).
Proof. pres_credit. Qed.
Lemma credit_NI_wakeup `{MachineTypes} n : preserves credit_rel (NetworkInterface_wakeup n).
Proof. pres_credit. Qed.

#[export] Instance credit_steps `{MT : MachineTypes} `{LS : LinkSort} : StepRel credit_rel.
Proof.
  split; [exact _|intros w i H; exact H|intros w H; exact H| | |].
  - intros [r|l|n|c|s|s t]; simpl.
    + apply credit_Router_wakeup.
    + pres_credit.
    + apply credit_NI_wakeup.
    + apply preserves_ret, _.
    + pres_credit.
    + pres_credit.
  - intros. pres_credit.
  - intros. pres_credit.
Qed.

(** Each credit counter of a router's output unit or of a network interface stays
    between zero and its maximum, as the assertions of the counters demand. *)
Lemma reachable_credits `{MT : MachineTypes} `{LS : LinkSort} w w' :
  credits_ok w → reachable w w' → credits_ok w'.
Proof. intros Hok Hr. by apply (reachable_rel credit_rel _ _ Hr). Qed.

(** ** Allocation of output VCs *)
Section FreeVc.
Context (w : GNet) (r o vnet : Z) (x : Router) (u : OutputUnit).
Context (Hx : vget (net_m_routers w) r = Some x) (Hu : vget (rt_m_output_unit x) o = Some u).

Definition vc_base : Z := vnet * ou_m_vc_per_vnet u.
Definition vc_end : Z := vc_base + ou_m_vc_per_vnet u.
Context (Hvcs : 0 ≤ vc_base ∧ vc_end ≤ vsize (ou_m_outvc_state u)).

(** Output VC [vc] is idle now. *)
Definition idle_now (vc : Z) : bool :=
  match vget (ou_m_outvc_state u) vc with
  | Some s => OutVcState_isInState IDLE_ (net_cycle w) s
  | None => false
  end.

Lemma run_get_outvc vc s :
  vget (ou_m_outvc_state u) vc = Some s → get_outvc r o vc w = Ok (s, w).
Proof.
  intros Hs. apply bind_Ok. exists u, w. split; [apply get_output_Ok; eauto|].
  by apply optG_Ok.
Qed.

Lemma run_is_vc_idle vc :
  vc ∈ zrange vc_base vc_end → OutputUnit_is_vc_idle r o vc (net_cycle w) w = Ok (idle_now vc, w).
Proof.
  intros Hv%elem_of_zrange. destruct (vget_lookup (ou_m_outvc_state u) vc) as [s Hs]; [lia|].
  unfold OutputUnit_is_vc_idle. rewrite (bind_run _ _ _ _ _ (run_get_outvc _ _ Hs)).
  unfold idle_now. by rewrite Hs.
Qed.

(** The state in which [vc] has become active. *)
Definition activate (vc : Z) : GNet :=
  match vget (ou_m_outvc_state u) vc with
  | Some s => w <| net_m_routers ::= λ l, vset l r (x <| rt_m_output_unit ::= λ l, vset l o
                (u <| ou_m_outvc_state ::= λ l, vset l vc (OutVcState_setState ACTIVE_ (net_cycle w) s) |>) |>) |>
  | None => w
  end.

Lemma run_set_active vc :
  vc ∈ zrange vc_base vc_end →
  OutputUnit_set_vc_state r o ACTIVE_ vc (net_cycle w) w = Ok (tt, activate vc).
Proof.
  intros Hv%elem_of_zrange. destruct (vget_lookup (ou_m_outvc_state u) vc) as [s Hs]; [lia|].
  unfold activate. rewrite Hs. unfold OutputUnit_set_vc_state.
  rewrite (bind_run _ _ _ _ _ (run_get_outvc _ _ Hs)).
  unfold put_outvc, upd_output. rewrite (bind_run _ _ _ u w) by (apply get_output_Ok; eauto).
  by rewrite (run_upd_router _ _ _ _ Hx).
Qed.

Lemma run_has_free_vc :
  OutputUnit_has_free_vc r o vnet w =
    Ok (bool_decide (is_Some (first_such idle_now (zrange vc_base vc_end))), w).
Proof.
  unfold OutputUnit_has_free_vc. rewrite (bind_run _ _ _ u w) by (apply get_output_Ok; eauto).
  cbv zeta. fold vc_base. fold vc_end.
  unfold mbind at 1, M_bind at 1. rewrite (loop_search _ _ idle_now (λ _, true) (λ _, w)).
  - by destruct (first_such idle_now (zrange vc_base vc_end)).
  - intros vc Hv Hi. erewrite bind_run; [|done]. erewrite bind_run; [|by apply run_is_vc_idle].
    by rewrite Hi.
  - intros vc Hv Hi. erewrite bind_run; [|done]. erewrite bind_run; [|by apply run_is_vc_idle].
    by rewrite Hi.
Qed.

Lemma run_select_free_vc :
  OutputUnit_select_free_vc r o vnet w =
    match first_such idle_now (zrange vc_base vc_end) with
    | Some vc => Ok (vc, activate vc)
    | None => Ok (-1, w)
    end.
Proof.
  unfold OutputUnit_select_free_vc. rewrite (bind_run _ _ _ u w) by (apply get_output_Ok; eauto).
  cbv zeta. fold vc_base. fold vc_end.
  unfold mbind at 1, M_bind at 1. rewrite (loop_search _ _ idle_now (λ vc, vc) activate).
  - by destruct (first_such idle_now (zrange vc_base vc_end)).
  - intros vc Hv Hi. erewrite bind_run; [|done]. erewrite bind_run; [|by apply run_is_vc_idle].
    by rewrite Hi.
  - intros vc Hv Hi. erewrite bind_run; [|done]. erewrite bind_run; [|by apply run_is_vc_idle].
    rewrite Hi. erewrite bind_run; [|by apply run_set_active]. done.
Qed.
End FreeVc.

(** Allocation of an output VC.  For an output unit whose VC table covers
    the virtual network, [has_free_vc] answers whether one of its VCs is idle
    and changes nothing; [select_free_vc] returns the first idle VC and makes
    it active, or -1, changing nothing, exactly when [has_free_vc] is false. *)
Theorem select_free_vc_correct w r o vnet x u :
  vget (net_m_routers w) r = Some x → vget (rt_m_output_unit x) o = Some u →
  0 ≤ vc_base vnet u ∧ vc_end vnet u ≤ vsize (ou_m_outvc_state u) →
  ∃ free vc w', OutputUnit_has_free_vc r o vnet w = Ok (free, w) ∧
    OutputUnit_select_free_vc r o vnet w = Ok (vc, w') ∧
    if free then
      vc_base vnet u ≤ vc < vc_end vnet u ∧ idle_now w u vc = true ∧
      (∀ v, vc_base vnet u ≤ v < vc → idle_now w u v = false) ∧ w' = activate w r o x u vc ∧
      ∃ s, get_outvc r o vc w' = Ok (s, w') ∧ ov_m_vc_state s = ACTIVE_ ∧
           ov_m_time s = net_cycle w
    else vc = -1 ∧ w' = w ∧ ∀ v, vc_base vnet u ≤ v < vc_end vnet u → idle_now w u v = false.
Proof.
  intros Hx Hu Hv. rewrite (run_has_free_vc w r o vnet x u Hx Hu Hv).
  rewrite (run_select_free_vc w r o vnet x u Hx Hu Hv).
  pose proof (first_such_zrange (idle_now w u) (vc_base vnet u) (vc_end vnet u)) as Hf.
  destruct (first_such _ _) as [vc|]; eexists _, _, _; (split; [done|]); (split; [done|]); simpl.
  - destruct Hf as (Hr & Hi & Hmin). split_and!; try first [done|lia].
    destruct (vget_lookup (ou_m_outvc_state u) vc) as [s Hs]; [lia|].
    unfold activate. rewrite Hs. exists (OutVcState_setState ACTIVE_ (net_cycle w) s).
    split; [|done]. eapply run_get_outvc.
    + apply vget_vset_eq. by eapply vget_Some_lt.
    + simpl. apply vget_vset_eq. by eapply vget_Some_lt.
    + simpl. apply vget_vset_eq. lia.
  - split_and!; try done.
Qed.

Lemma select_free_vc_correct_witness :
  ∃ vc w', OutputUnit_select_free_vc 0 0 0 (sample_mesh 2 2 2 XY_ 1) = Ok (vc, w') ∧ 0 ≤ vc < 2.
Proof.
  assert (Hb : match vget (net_m_routers (sample_mesh 2 2 2 XY_ 1)) 0 with
    | Some x => match vget (rt_m_output_unit x) 0 with
      | Some u => ou_m_vc_per_vnet u = 2 ∧ vsize (ou_m_outvc_state u) = 2
      | None => False end
    | None => False end) by (vm_compute; split; reflexivity).
  destruct (vget (net_m_routers (sample_mesh 2 2 2 XY_ 1)) 0) as [x|] eqn:Hx; [|destruct Hb].
  destruct (vget (rt_m_output_unit x) 0) as [u|] eqn:Hu; [|destruct Hb].
  destruct Hb as [Hp Hn].
  destruct (select_free_vc_correct (sample_mesh 2 2 2 XY_ 1) 0 0 0 x u Hx Hu)
    as (free & vc & w' & Hf & Hs & H).
  { unfold vc_base, vc_end, vc_base. rewrite Hp, Hn. lia. }
  exists vc, w'. split; [exact Hs|].
  assert (Ht : match OutputUnit_has_free_vc 0 0 0 (sample_mesh 2 2 2 XY_ 1) with
               | Ok (b, _) => b = true | Abort _ => False end) by (vm_compute; reflexivity).
  rewrite Hf in Ht. subst free. destruct H as [Hr _]. unfold vc_end, vc_base in Hr.
  rewrite Hp in Hr. lia.
Defined.
