(* ===== verification/SwapTheory.v ===== *)
(** * The SWAP mechanism over time

    Accounting of swaps, and the swap pointer. *)

From S2P Require Import Prelude BinaryHeap NetDestModel CommonTypes GarnetState FlitBuffer Channels RoutingUnitModel SwapModel UnitsModel SwitchAllocatorModel MessageBufferModel NetworkInterfaceModel BuildModel TopologyModel SimpleNetworkModel Scenarios SystemModel StateLemmas Wiring Ownership SwapExchange RouterTheory SystemTheory.

(** ** Every initiated swap is counted once *)
Definition unaccounted (w : GNet) : Z :=
  let '(i, s, f) := swap_counters w in i - (s + f).
Definition same_account : relation GNet := keeps unaccounted.
#[export] Instance same_account_preorder : PreOrder same_account := keeps_preorder _.

Create HintDb account.
Ltac account_prim := apply preserves_modify; intros ?; reflexivity.
Ltac account_tac := first [solve [auto 2 with nocore account] | account_prim].
Tactic Notation "pres_account" := pres by account_tac.

Lemma account_initiate_swap r : preserves same_account (Router_initiate_swap r).
Proof.
  intros w a w' [(_ & _ & C)|(x & bu & bd & t & q & lu & ld & ld' & w1 & w2 & k & k' & _ & _ & _ & _
    & _ & (_ & _ & _ & C1) & _ & _ & (_ & _ & _ & C2) & (_ & _ & C3) & _)]%initiate_swap_Ok;
    unfold same_account, keeps, unaccounted.
  - rewrite C. unfold swap_counters. simpl. lia.
  - rewrite C3. unfold swap_counters in *. simpl in *.
    injection C1 as ???. injection C2 as ???. lia.
Qed.
#[export] Hint Resolve account_initiate_swap : account.

#[export] Instance account_steps `{MT : MachineTypes} `{LS : LinkSort} : StepRel same_account.
Proof.
  split; [exact _|done|done| | |].
  - intros [r|l|n|c|s|s t]; simpl; pres_account.
  - intros. pres_account.
  - intros. pres_account.
Qed.

(** C14.  Swap statistics add up: in every state reachable from a state in which
    the numbers of initiated, completed and failed swaps are consistent, the
    number of initiated swaps is the number of completed swaps plus the number
    of failed ones. *)
Theorem reachable_swaps_accounted `{MT : MachineTypes} `{LS : LinkSort} w w' :
  st_m_total_initiated_swaps (net_stats w) =
    st_m_total_swaps (net_stats w) + st_m_total_failed_swaps (net_stats w) →
  reachable w w' →
  st_m_total_initiated_swaps (net_stats w') =
    st_m_total_swaps (net_stats w') + st_m_total_failed_swaps (net_stats w').
Proof.
  intros H Hr. pose proof (reachable_rel same_account _ _ Hr) as E.
  unfold same_account, keeps, unaccounted, swap_counters in E. lia.
Qed.

(** The swap scene as a running system: router 0 is woken at tick 0. *)
Definition swap_system : GNet := after (Consumer_scheduleEvent (CRouter 0) 0) (swap_scene 1).

Lemma reachable_swaps_accounted_witness :
  ∃ w', reachable (MT := sample_types 4) (LS := stable_sort) swap_system w' ∧ st_m_total_swaps (net_stats w') = 1 ∧
    st_m_total_initiated_swaps (net_stats w') =
      st_m_total_swaps (net_stats w') + st_m_total_failed_swaps (net_stats w').
Proof.
  assert (Hp : match exec (MT := sample_types 4) (LS := stable_sort) 1 swap_system with
               | Ok w' => st_m_total_swaps (net_stats w') = 1 | Abort _ => False end)
    by (vm_compute; reflexivity).
  destruct (exec 1 swap_system) as [w'|e] eqn:E; [|destruct Hp].
  exists w'. apply (exec_reachable (MT := sample_types 4) (LS := stable_sort)) in E.
  split; [exact E|]. split; [exact Hp|].
  apply (reachable_swaps_accounted (MT := sample_types 4) (LS := stable_sort) swap_system w'); [|exact E].
  vm_compute. reflexivity.
Defined.

(** ** The swap pointer *)
Lemma vc_isEmpty_Ok r i v w e w' :
  InputUnit_vc_isEmpty r i v w = Ok (e, w') →
  w' = w ∧ ∃ b, vc_buffer w r i v b ∧ (e = true ↔ contents w b = []).
Proof.
  intros (c & w1 & Hc & H)%bind_Ok. pose proof Hc as [-> _]%get_vc_Ok.
  apply bind_Ok in H as (x & w1 & [Hx ->]%get_fb_Ok & [= <- <-]). split; [done|].
  exists (vc_m_input_buffer c). split; [by exists c|]. unfold contents. rewrite Hx.
  unfold vsize. destruct (fb_m_buffer x); simpl; [done|]. split; [lia|done].
Qed.

(** An update of the swap pointer of [r]. *)
Lemma upd_swap_ptr_Ok r f w a w' :
  upd_swap_ptr r f w = Ok (a, w') →
  quiet w w' ∧ static w w' ∧ ∃ x, vget (net_m_routers w) r = Some x ∧
    vget (net_m_routers w') r = Some (x <| rt_swap_ptr ::= f |>).
Proof.
  intros H. split; [revert H; apply (fun P : preserves quiet _ => P w a w'); pres_quiet|].
  split; [revert H; apply (fun P : preserves static _ => P w a w'); pres_static|].
  pose proof H as (x & w1 & [Hx ->]%get_router_Ok & _)%bind_Ok. exists x. split; [done|].
  unfold upd_swap_ptr in H. rewrite (run_upd_router _ _ _ _ Hx) in H. injection H as _ <-.
  simpl. apply vget_vset_eq. by eapply vget_Some_lt.
Qed.

(** The VC [v] of port [i] is empty; the port is left out of the scan. *)
Definition vc_empty (w : GNet) (r i v : Z) : Prop :=
  ∃ b, vc_buffer w r i v b ∧ contents w b = [].
Definition vc_occupied (w : GNet) (r i v : Z) : Prop :=
  ∃ b, vc_buffer w r i v b ∧ contents w b ≠ [].
Definition port_skipped (w : GNet) (r i : Z) : Prop :=
  cf_m_whichToSwap (net_cfg w) = DISABLE_LOCAL_SWAP_ ∧
  ∃ x u, vget (net_m_routers w) r = Some x ∧ vget (rt_m_input_unit x) i = Some u ∧
         iu_m_direction u = "Local"%string.

Lemma vc_empty_back w w' r i v : quiet w w' → static w w' → vc_empty w' r i v → vc_empty w r i v.
Proof.
  intros Hq Hs (b & Hb & Hc). exists b. split.
  - eapply static_vc_buffer; [|done]. by symmetry.
  - by rewrite <- (quiet_contents _ _ b Hq).
Qed.

Lemma static_router_input w w' r x' i u' :
  static w w' → vget (net_m_routers w') r = Some x' → vget (rt_m_input_unit x') i = Some u' →
  ∃ x u, vget (net_m_routers w) r = Some x ∧ router_static x = router_static x' ∧
         vget (rt_m_input_unit x) i = Some u ∧ iu_m_direction u = iu_m_direction u'.
Proof.
  intros Hs Hx' Hu'. injection Hs as _ Hr _ _ _.
  destruct (list_fmap_eq_lookup router_static _ _ _ _ (eq_sym Hr) Hx') as (x & Hx & Ex).
  pose proof Ex as Ex1. injection Ex1 as _ _ _ _ _ Ei _ _ _ _ _ _ _ _ _.
  destruct (list_fmap_eq_lookup input_static _ _ _ _ Ei Hu') as (u & Hu & Eu).
  injection Eu as _ _ Ed _ _ _ _ _. exists x, u. done.
Qed.

Lemma port_skipped_back w w' r i : static w w' → port_skipped w' r i → port_skipped w r i.
Proof.
  intros Hs (Hw & x' & u' & Hx' & Hu' & Hd).
  destruct (static_router_input _ _ _ _ _ _ Hs Hx' Hu') as (x & u & Hx & _ & Hu & Ed).
  injection Hs as Hc _ _ _ _. rewrite Hc in Hw. split; [done|]. exists x, u.
  split_and!; [done|done|congruence].
Qed.

(** With one VC per port, scanning a port looks at its VC 0. *)
Lemma scan_vcs_single r v0 w res w' x :
  movSwapPtr_scan_vcs r v0 w = Ok (res, w') →
  vget (net_m_routers w) r = Some x → rt_m_num_vcs x = 1 →
  quiet w w' ∧ static w w' ∧
  (∃ x', vget (net_m_routers w') r = Some x' ∧ sp_inport (rt_swap_ptr x') = sp_inport (rt_swap_ptr x)) ∧
  match res with
  | inl v => vc_empty w r (sp_inport (rt_swap_ptr x)) 0
  | inr v => v = 0 ∧ vc_occupied w r (sp_inport (rt_swap_ptr x)) 0
  end.
Proof.
  intros H Hx Hn. unfold movSwapPtr_scan_vcs in H.
  apply bind_Ok in H as (x1 & w1 & [Hx1 ->]%get_router_Ok & H). simplify_eq.
  rewrite Hn in H. simpl in H. apply bind_Ok in H as (r1 & w1 & Hb & H).
  apply bind_Ok in Hb as (x2 & w2 & [Hx2 ->]%get_router_Ok & Hb). simplify_eq.
  apply bind_Ok in Hb as (? & w2 & Hu & Hb).
  apply upd_swap_ptr_Ok in Hu as (Hq & Hs & x3 & Hx3 & Hx3'). simplify_eq.
  apply bind_Ok in Hb as (e & w3 & (-> & b & Hvc & He)%vc_isEmpty_Ok & [= <- <-]).
  assert (Hv : (if rt_m_num_vcs x1 <=? sp_vcid (rt_swap_ptr x1) then 0
                else sp_vcid (rt_swap_ptr x1)) = 0).
  { rewrite Hn in *. destruct (Z.leb_spec 1 (sp_vcid (rt_swap_ptr x1))); [done|].
    destruct Hvc as (c & (_ & u & _ & [? _]%vget_Some)%get_vc_Ok & _). lia. }
  rewrite Hv in *. assert (Hvc0 : vc_buffer w r (sp_inport (rt_swap_ptr x1)) 0 b).
  { eapply static_vc_buffer; [symmetry; exact Hs|done]. }
  assert (Hc0 : contents w2 b = contents w b) by (by apply quiet_contents).
  destruct e; simpl in H; injection H as <- <-; (split; [done|]); (split; [done|]); (split; [by eauto|]).
  - exists b. split; [done|]. rewrite <- Hc0. by apply He.
  - split; [done|]. exists b. split; [done|]. rewrite <- Hc0. intros E. by apply He in E.
Qed.

Lemma mod_succ a n :
  0 < n → (if a mod n + 1 =? n then 0 else a mod n + 1) = (a + 1) mod n.
Proof.
  intros Hn. pose proof (Z.mod_pos_bound a n Hn). pose proof (Z.div_mod a n ltac:(lia)).
  destruct (Z.eqb_spec (a mod n + 1) n).
  - replace (a + 1) with (0 + (a / n + 1) * n) by lia. by rewrite Z.mod_add, Z.mod_0_l by lia.
  - replace (a + 1) with ((a mod n + 1) + a / n * n) by lia.
    rewrite Z.mod_add by lia. symmetry. apply Z.mod_small. lia.
Qed.

Lemma static_router_back w s r x xs :
  static w s → vget (net_m_routers w) r = Some x → vget (net_m_routers s) r = Some xs →
  router_static xs = router_static x.
Proof.
  intros Hs Hx Hxs. injection Hs as _ Hr _ _ _.
  destruct (list_fmap_eq_lookup _ _ _ _ _ Hr Hx) as (y & Hy & E). congruence.
Qed.

Lemma router_static_inputs x y :
  router_static x = router_static y →
  vsize (rt_m_input_unit x) = vsize (rt_m_input_unit y) ∧ rt_m_num_vcs x = rt_m_num_vcs y.
Proof.
  intros E. injection E as _ _ _ En _ Ei _ _ _ _ _ _ _ _ _. split; [|done].
  unfold vsize. f_equal. apply (f_equal length) in Ei. by rewrite !length_fmap in Ei.
Qed.

Section Scan.
Context (w : GNet) (r : Z) (x : Router).
Context (Hx : vget (net_m_routers w) r = Some x) (Hone : rt_m_num_vcs x = 1).
Let n := vsize (rt_m_input_unit x).
Let i0 := sp_inport (rt_swap_ptr x).
Context (Hi0 : 0 ≤ i0 < n).

Definition dismissed (i : Z) : Prop := port_skipped w r i ∨ vc_empty w r i 0.

(** The state of the scan after [k] ports. *)
Definition scan_inv (k : Z) (s : GNet) : Prop :=
  quiet w s ∧ static w s ∧ (∃ xs, vget (net_m_routers s) r = Some xs ∧
    sp_inport (rt_swap_ptr xs) = (i0 + k) mod n) ∧
  ∀ j, 1 ≤ j ≤ k → dismissed ((i0 + j) mod n).
Definition scan_found (v : Z) (s : GNet) : Prop :=
  quiet w s ∧ static w s ∧ v = 0 ∧ ∃ xs, vget (net_m_routers s) r = Some xs ∧
    vc_occupied w r (sp_inport (rt_swap_ptr xs)) 0.

Lemma scan_port k s v (res : Z + Z) s' :
  0 ≤ k → scan_inv k s →
  (x ← get_router r;
   let next := sp_inport (rt_swap_ptr x) + 1 in
   let next := if next =? vsize (rt_m_input_unit x) then 0 else next in
   upd_swap_ptr r (λ s, s <| sp_inport := next |>) ;;
   which ← config cf_m_whichToSwap;
   skip ← (if which =? DISABLE_LOCAL_SWAP_ then
             u ← get_input r next; mret (iu_m_direction u =s "Local")
           else mret false);
   if (skip : bool) then mret (inl v)
   else movSwapPtr_scan_vcs r v) s = Ok (res, s') →
  match res with inl _ => scan_inv (k + 1) s' | inr v' => scan_found v' s' end.
Proof.
  intros Hk (Hq & Hs & (xs & Hxs & Hin) & Hdis) H.
  apply bind_Ok in H as (x1 & s1 & [Hx1 ->]%get_router_Ok & H).
  assert (x1 = xs) as -> by congruence. clear Hx1.
  destruct (router_static_inputs _ _ (static_router_back _ _ _ _ _ Hs Hx Hxs)) as [En Ev].
  cbv zeta in H. rewrite En, Hin in H. fold n in H. rewrite mod_succ in H by lia.
  rewrite <- Z.add_assoc in H.
  apply bind_Ok in H as (? & s1 & (Hq1 & Hs1 & y & Hy & Hy1)%upd_swap_ptr_Ok & H).
  assert (y = xs) as -> by congruence. clear Hy.
  assert (Hqs : quiet w s1) by (by transitivity s).
  assert (Hss : static w s1) by (by transitivity s).
  assert (Hdis' : dismissed ((i0 + (k + 1)) mod n) →
            ∀ j, 1 ≤ j ≤ k + 1 → dismissed ((i0 + j) mod n)).
  { intros Hd j Hj. destruct (decide (j = k + 1)) as [->|]; [done|apply Hdis; lia]. }
  apply bind_Ok in H as (which & s2 & Hwh & H).
  assert (s2 = s1 ∧ which = cf_m_whichToSwap (net_cfg w)) as [-> ->].
  { injection Hwh as <- <-. injection Hss as -> _ _ _ _. done. }
  apply bind_Ok in H as (skip & s2 & Hsk & H).
  assert (s2 = s1 ∧ (skip = true → port_skipped w r ((i0 + (k + 1)) mod n))) as [-> Hskip].
  { destruct (Z.eqb_spec (cf_m_whichToSwap (net_cfg w)) DISABLE_LOCAL_SWAP_) as [Ew|].
    - apply bind_Ok in Hsk as (u & s3 & (-> & x3 & Hx3 & Hu)%get_input_Ok & [= <- <-]).
      split; [done|]. intros Hd%String.eqb_eq. apply (port_skipped_back w s1 r _ Hss).
      split; [by injection Hss as -> _ _ _ _|]. eauto.
    - injection Hsk as <- <-. done. }
  destruct skip.
  - injection H as <- <-. split_and!; [done|done|eauto|]. apply Hdis'. left. auto.
  - destruct (scan_vcs_single _ _ _ _ _ _ H Hy1) as (Hq2 & Hs2 & (x2 & Hx2 & Ein) & Hres).
    { simpl. by rewrite Ev. }
    simpl in Ein, Hres.
    assert (quiet w s') by (by transitivity s1). assert (static w s') by (by transitivity s1).
    destruct res as [v'|v'].
    + split_and!; [done|done|eauto|]. apply Hdis'. right. exact (vc_empty_back _ _ _ _ _ Hqs Hss Hres).
    + destruct Hres as (-> & b & Hb & Hc). split_and!; [done|done|done|].
      exists x2. split; [done|]. rewrite Ein. exists b. split.
      * eapply static_vc_buffer; [symmetry; exact Hss|done].
      * by rewrite <- (quiet_contents _ _ b Hqs).
Qed.

Lemma scan_result v s :
  movSwapPtr_scan r w = Ok (v, s) → scan_inv n s ∨ scan_found v s.
Proof.
  intros H. unfold movSwapPtr_scan in H.
  apply bind_Ok in H as (x1 & s1 & [Hx1 ->]%get_router_Ok & H).
  assert (x1 = x) as -> by congruence. fold n in H.
  apply bind_Ok in H as (res & s1 & H & [= <- <-]).
  apply (loop_returned _ _ _ (λ pre _ s, scan_inv (vsize pre) s) scan_found) in H.
  - destruct res as [v|v]; [left|by right]. replace n with (vsize (zrange 0 n)); [done|].
    unfold vsize, zrange. rewrite length_seqZ. lia.
  - split_and!; [reflexivity|reflexivity| |unfold vsize; simpl; lia]. exists x. split; [done|].
    unfold vsize. simpl. rewrite Z.add_0_r, Z.mod_small; done.
  - intros pre i v' s0 res' s0' _ Hinv Hb.
    apply (scan_port (vsize pre)) in Hb; [|unfold vsize; lia|done].
    destruct res'; [|done]. replace (vsize (pre ++ [i])) with (vsize pre + 1); [done|].
    unfold vsize. rewrite length_app. simpl. lia.
Qed.

(** A scan that finds nothing has dismissed every port. *)
Lemma scan_inv_all s i : scan_inv n s → 0 ≤ i < n → dismissed i.
Proof.
  intros (_ & _ & _ & Hd) Hi.
  destruct (decide (i0 < i)).
  - specialize (Hd (i - i0) ltac:(lia)). replace (i0 + (i - i0)) with i in Hd by lia.
    by rewrite Z.mod_small in Hd by lia.
  - specialize (Hd (i - i0 + n) ltac:(lia)). replace (i0 + (i - i0 + n)) with (i + 1 * n) in Hd by lia.
    by rewrite Z.mod_add, Z.mod_small in Hd by lia.
Qed.
End Scan.

(** The outcome recorded in the pointer once the scan has ended at VC [v]. *)
Lemma movSwapPtr_record r v w w' :
  (x ← get_router r;
   let inport := sp_inport (rt_swap_ptr x) in
   e ← InputUnit_vc_isEmpty r inport v;
   if negb e then
     u ← get_input r inport;
     upd_swap_ptr r (λ s, s <| sp_inport_dirn := iu_m_direction u |>
                            <| sp_vcid := v |> <| sp_valid := true |>)
   else
     upd_swap_ptr r (λ s, s <| sp_vcid := -1 |> <| sp_valid := false |> <| sp_inport := -1 |>)) w
  = Ok (tt, w') →
  quiet w w' ∧ static w w' ∧ ∃ x x', vget (net_m_routers w) r = Some x ∧
    vget (net_m_routers w') r = Some x' ∧
    if sp_valid (rt_swap_ptr x') then
      sp_inport (rt_swap_ptr x') = sp_inport (rt_swap_ptr x) ∧ sp_vcid (rt_swap_ptr x') = v ∧
      vc_occupied w r (sp_inport (rt_swap_ptr x)) v
    else vc_empty w r (sp_inport (rt_swap_ptr x)) v.
Proof.
  intros H. apply bind_Ok in H as (x & w1 & [Hx ->]%get_router_Ok & H). cbv zeta in H.
  apply bind_Ok in H as (e & w1 & (-> & b & Hb & He)%vc_isEmpty_Ok & H). destruct e; simpl in H.
  - apply upd_swap_ptr_Ok in H as (Hq & Hs & y & Hy & Hy'). assert (y = x) as -> by congruence.
    split; [done|]. split; [done|]. eexists x, _. split; [done|]. split; [done|]. simpl.
    exists b. split; [done|]. by apply He.
  - apply bind_Ok in H as (u & w1 & [-> _]%get_input_Ok & H).
    apply upd_swap_ptr_Ok in H as (Hq & Hs & y & Hy & Hy'). assert (y = x) as -> by congruence.
    split; [done|]. split; [done|]. eexists x, _. split; [done|]. split; [done|]. simpl.
    split_and!; [done|done|]. exists b. split; [done|]. intros E. by apply He in E.
Qed.

(** The checks at the end of [movSwapPtr] only complete the pointer. *)
Lemma movSwapPtr_checks r w w' x :
  vget (net_m_routers w) r = Some x →
  (x ← get_router r;
   let s := rt_swap_ptr x in
   if sp_valid s then
     assertM (0 <=? sp_vcid s) "Router.cc:427" ;;
     e ← InputUnit_vc_isEmpty r (sp_inport s) (sp_vcid s);
     assertM (negb e) "Router.cc:428" ;;
     d ← inports_idx2dirn r (sp_inport s);
     upd_swap_ptr r (λ s, s <| sp_inport_dirn := d |>) ;;
     assertM (negb (d =s "")) "Router.cc:433" ;;
     which ← config cf_m_whichToSwap;
     if which =? DISABLE_LOCAL_SWAP_ then assertM (negb (d =s "Local")) "Router.cc:436"
     else mret tt
   else
     upd_swap_ptr r (λ s, s <| sp_vcid := -1 |> <| sp_inport := -1 |>)) w = Ok (tt, w') →
  quiet w w' ∧ static w w' ∧ ∃ x', vget (net_m_routers w') r = Some x' ∧
    sp_valid (rt_swap_ptr x') = sp_valid (rt_swap_ptr x) ∧
    if sp_valid (rt_swap_ptr x') then
      sp_inport (rt_swap_ptr x') = sp_inport (rt_swap_ptr x) ∧
      sp_vcid (rt_swap_ptr x') = sp_vcid (rt_swap_ptr x) ∧ 0 ≤ sp_vcid (rt_swap_ptr x') ∧
      sp_inport_dirn (rt_swap_ptr x') ≠ ""%string ∧
      (cf_m_whichToSwap (net_cfg w) = DISABLE_LOCAL_SWAP_ →
       sp_inport_dirn (rt_swap_ptr x') ≠ "Local"%string)
    else sp_vcid (rt_swap_ptr x') = -1 ∧ sp_inport (rt_swap_ptr x') = -1.
Proof.
  intros Hx H. apply bind_Ok in H as (y & w1 & [Hy ->]%get_router_Ok & H).
  assert (y = x) as -> by congruence. cbv zeta in H.
  destruct (sp_valid (rt_swap_ptr x)) eqn:Ev.
  - apply bind_Ok in H as (? & w1 & Ha & H). unfold assertM in Ha.
    destruct (Z.leb_spec 0 (sp_vcid (rt_swap_ptr x))); [|done]. injection Ha as _ <-.
    apply bind_Ok in H as (e & w1 & [-> _]%vc_isEmpty_Ok & H).
    apply bind_Ok in H as (? & w1 & Ha & H). unfold assertM in Ha.
    destruct e; [done|]. injection Ha as _ <-.
    apply bind_still in H as (d & w1 & _ & S & H); [|pres_still].
    destruct (steady_router _ _ _ _ (still_steady _ _ S) Hx) as (xr & Hxr & Ep & _).
    apply bind_Ok in H as (? & w2 & (Hq & Hs & y & Hy1 & Hy')%upd_swap_ptr_Ok & H).
    assert (y = xr) as -> by congruence.
    apply bind_Ok in H as (? & w3 & Ha & H). unfold assertM in Ha.
    destruct (String.eqb_spec d ""); [done|]. injection Ha as _ <-.
    apply bind_Ok in H as (which & w3 & [= <- <-] & H).
    assert (Hq2 : quiet w w2) by (transitivity w1; [apply S|done]).
    assert (Hs2 : static w w2) by (transitivity w1; [apply S|done]).
    assert (Hl : w' = w2 ∧ (cf_m_whichToSwap (net_cfg w2) = DISABLE_LOCAL_SWAP_ → d ≠ "Local"%string)).
    { destruct (Z.eqb_spec (cf_m_whichToSwap (net_cfg w2)) DISABLE_LOCAL_SWAP_).
      - unfold assertM in H. destruct (String.eqb_spec d "Local"); [done|]. by injection H as <-.
      - by injection H as <-. }
    destruct Hl as [-> Hl]. split; [done|]. split; [done|]. eexists. split; [done|].
    simpl. rewrite Ep, Ev. injection Hs2 as Hc _ _ _ _. rewrite Hc in Hl. split_and!; done.
  - apply upd_swap_ptr_Ok in H as (Hq & Hs & y & Hy1 & Hy'). assert (y = x) as -> by congruence.
    split; [done|]. split; [done|]. eexists. split; [done|]. simpl. by rewrite Ev.
Qed.

(** C16.  [movSwapPtr] leaves a well-formed swap pointer: when it returns, either
    the pointer is valid and names a VC that holds a flit, with the direction
    of its port (never the local one if local swaps are disabled), or it is
    invalid and both indices are -1.  With one VC per port (the configuration
    of the paper's main result) the search is also complete: the pointer
    becomes invalid only if every port that takes part has an empty VC.  No
    buffer changes. *)
Theorem movSwapPtr_correct r w w' x :
  Router_movSwapPtr r w = Ok (tt, w') → vget (net_m_routers w) r = Some x →
  (∀ b, contents w' b = contents w b) ∧ static w w' ∧
  ∃ x', vget (net_m_routers w') r = Some x' ∧ let s := rt_swap_ptr x' in
    (if sp_valid s then
       0 ≤ sp_vcid s ∧ vc_occupied w r (sp_inport s) (sp_vcid s) ∧ sp_inport_dirn s ≠ ""%string ∧
       (cf_m_whichToSwap (net_cfg w) = DISABLE_LOCAL_SWAP_ → sp_inport_dirn s ≠ "Local"%string)
     else sp_vcid s = -1 ∧ sp_inport s = -1) ∧
    (rt_m_num_vcs x = 1 → 0 ≤ sp_inport (rt_swap_ptr x) < vsize (rt_m_input_unit x) →
     sp_valid s = false →
     ∀ i, 0 ≤ i < vsize (rt_m_input_unit x) → port_skipped w r i ∨ vc_empty w r i 0).
Proof.
  intros H Hx. unfold Router_movSwapPtr in H. apply bind_Ok in H as (v & w1 & Hscan & H).
  assert (Hq1 : quiet w w1) by (revert Hscan; apply (fun P : preserves quiet _ => P w v w1); pres_quiet).
  assert (Hs1 : static w w1)
    by (revert Hscan; apply (fun P : preserves static _ => P w v w1); pres_static).
  apply bind_Ok in H as (x1 & w2 & Hx1 & H). cbv zeta in H.
  apply bind_Ok in H as (e & w3 & He & H). apply bind_Ok in H as ([] & w4 & Hrec & H).
  destruct (movSwapPtr_record r v w1 w4) as (Hq2 & Hs2 & x2 & x3 & Hx2 & Hx3 & Hres).
  { apply bind_Ok. exists x1, w2. split; [done|]. apply bind_Ok. eauto. }
  destruct (movSwapPtr_checks r w4 w' x3 Hx3 H) as (Hq3 & Hs3 & x4 & Hx4 & Ev & Hchk).
  assert (Hs4 : static w w4) by (by transitivity w1).
  split; [intros b; apply quiet_contents; transitivity w1; [done|by transitivity w4]|].
  split; [by transitivity w4|]. exists x4. split; [done|]. cbv zeta. rewrite <- Ev in Hres. split.
  - destruct (sp_valid (rt_swap_ptr x4)); [|done].
    destruct Hres as (E1 & E2 & b & Hb & Hc). rewrite E1, E2 in Hchk.
    destruct Hchk as (-> & Ev2 & Hv0 & ? & ?). rewrite Ev2 in *.
    injection Hs4 as Hcfg _ _ _ _. rewrite Hcfg in *. split_and!; try done.
    exists b. split; [eapply static_vc_buffer; [symmetry; exact Hs1|done]|].
    by rewrite <- (quiet_contents _ _ b Hq1).
  - intros Hone Hi0 Hv. rewrite Hv in Hres. pose proof (scan_result w r x Hx Hone Hi0 v w1 Hscan) as Hsc.
    destruct Hsc as [Hinv|(_ & _ & -> & xs & Hxs & b & Hb & Hc)].
    + intros i Hi. by eapply scan_inv_all.
    + assert (xs = x2) as -> by congruence. destruct Hres as (b' & Hb' & Hc').
      destruct Hc. rewrite <- (quiet_contents _ _ b Hq1), <- Hc'. f_equal.
      eapply vc_buffer_fun; [|exact Hb']. by eapply static_vc_buffer.
Qed.

Lemma movSwapPtr_correct_witness :
  ∃ w' x', Router_movSwapPtr 0 (swap_scene 1) = Ok (tt, w') ∧
    vget (net_m_routers w') 0 = Some x' ∧ sp_valid (rt_swap_ptr x') = true ∧
    vc_occupied (swap_scene 1) 0 (sp_inport (rt_swap_ptr x')) (sp_vcid (rt_swap_ptr x')).
Proof.
  assert (Hr : match Router_movSwapPtr 0 (swap_scene 1) with
               | Ok (_, w') => match vget (net_m_routers w') 0 with
                               | Some x' => sp_valid (rt_swap_ptr x') = true | None => False end
               | Abort _ => False end) by (vm_compute; reflexivity).
  destruct (Router_movSwapPtr 0 (swap_scene 1)) as [[[] w']|] eqn:E; [|destruct Hr].
  assert (Hx : returns (match vget (net_m_routers (swap_scene 1)) 0 with
               | Some x => Ok x | None => Abort (OutOfRange "") end) = true)
    by (vm_compute; reflexivity).
  destruct (vget (net_m_routers (swap_scene 1)) 0) as [x|] eqn:Ex; [|discriminate Hx].
  destruct (movSwapPtr_correct 0 (swap_scene 1) w' x E Ex) as (_ & _ & x' & Hx' & H & _).
  rewrite Hx' in Hr. rewrite Hr in H. exists w', x'. split; [reflexivity|].
  split; [exact Hx'|]. split; [exact Hr|]. apply H.
Defined.

(** With two VCs per port the search is not complete: [swap_ptr.vcid] is not
    wrapped around, so that only VC 0 of the later ports is looked at.  Here a
    VC of the east port holds a flit, and the pointer becomes invalid. *)
Lemma movSwapPtr_misses_a_vc :
  match Router_movSwapPtr 0 two_vc_scene with
  | Ok (_, w') =>
      match vget (net_m_routers w') 0 with
      | Some x' => sp_valid (rt_swap_ptr x') = false
      | None => False
      end ∧ length (resident w') = 1%nat
  | Abort _ => False
  end.
Proof. vm_compute. done. Qed.
