(* ===== verification/SwapTurns.v ===== *)
(** * The turns of the routers

    Routers initiate swaps in turns: over every run of the network, the swaps
    that are initiated in a cycle are those of a single router, and every router
    has its turn again and again. *)

From S2P Require Import Prelude BinaryHeap NetDestModel CommonTypes GarnetState FlitBuffer Channels RoutingUnitModel SwapModel UnitsModel SwitchAllocatorModel MessageBufferModel NetworkInterfaceModel BuildModel TopologyModel SimpleNetworkModel Scenarios SystemModel StateLemmas Wiring Ownership SwapExchange RouterTheory SystemTheory SwapTheory.

(** ** What initiates a swap *)
Definition swaps_initiated (w : GNet) : Z := st_m_total_initiated_swaps (net_stats w).
Definition pace (w : GNet) : Z * Z := (swaps_initiated w, net_cycle w).
Definition paced : relation GNet := keeps pace.
#[export] Instance paced_preorder : PreOrder paced := keeps_preorder _.

Ltac paced_prim := apply preserves_modify; intros ?; reflexivity.
Tactic Notation "pres_paced" := pres by paced_prim.

Lemma paced_movSwapPtr r : preserves paced (Router_movSwapPtr r).
Proof. pres_paced. Qed.
Lemma paced_validate r : preserves paced (Router_validate_swap_ptr r).
Proof. pres_paced. Qed.
Lemma paced_outportNotLocal r : preserves paced (Router_outportNotLocal r).
Proof. pres_paced. Qed.
Lemma paced_InputUnit_wakeup r i : preserves paced (InputUnit_wakeup r i).
Proof. pres_paced. Qed.
Lemma paced_OutputUnit_wakeup r o : preserves paced (OutputUnit_wakeup r o).
Proof. pres_paced. Qed.
Lemma paced_SwitchAllocator_wakeup r : preserves paced (SwitchAllocator_wakeup r).
Proof. pres_paced. Qed.
Lemma paced_CrossbarSwitch_wakeup r : preserves paced (CrossbarSwitch_wakeup r).
Proof. pres_paced. Qed.

(** It is the turn of router [r]. *)
Definition has_turn (w : GNet) (r : Z) : Prop :=
  ∃ x, vget (net_m_routers w) r = Some x ∧
    is_myTurn_at (net_cycle w) (cf_m_whenToSwap (net_cfg w)) (vsize (net_m_routers w)) (rt_m_id x) = true.

Lemma initiate_once r w a w' :
  Router_initiate_swap r w = Ok (a, w') → swaps_initiated w' = swaps_initiated w + 1.
Proof.
  intros [(_ & _ & C)|(x & bu & bd & t & q & lu & ld & ld' & w1 & w2 & k & k' & _ & _ & _ & _
    & _ & (_ & _ & _ & C1) & _ & _ & (_ & _ & _ & C2) & (_ & _ & C3) & _)]%initiate_swap_Ok;
    unfold swaps_initiated, swap_counters in *; simpl in *.
  - injection C as ???. lia.
  - injection C1 as ???. injection C2 as ???. injection C3 as ???. lia.
Qed.

Lemma turn_read r w t w' : Router_is_myTurn r w = Ok (t, w') → w' = w ∧ (t = true → has_turn w r).
Proof.
  unfold Router_is_myTurn. rewrite (bind_run _ _ _ _ _ eq_refl). intros H.
  apply bind_Ok in H as ([] & w1 & Ha & H). unfold assertM in Ha. destruct (cf_m_interswap _); [|done]. injection Ha as <-.
  do 3 rewrite (bind_run _ _ _ _ _ eq_refl) in H. apply bind_Ok in H as (x & w1 & [Hx ->]%get_router_Ok & [= <- <-]).
  split; [done|]. intros Ht. by exists x.
Qed.

Lemma static_routers w w' r x :
  static w w' → vget (net_m_routers w') r = Some x →
  ∃ y, vget (net_m_routers w) r = Some y ∧ rt_m_id y = rt_m_id x.
Proof.
  intros H [Hr Hx]%vget_Some. unfold static, keeps, net_static in H. injection H as _ E _ _ _.
  pose proof (f_equal (lookup (Z.to_nat r)) E) as El. rewrite !list_lookup_fmap, Hx in El. simpl in El.
  destruct (net_m_routers w !! Z.to_nat r) as [y|] eqn:Hy; [|done]. injection El as El. exists y.
  split; [by apply vget_Some|]. by rewrite El.
Qed.
Lemma static_count w w' : static w w' → vsize (net_m_routers w') = vsize (net_m_routers w).
Proof.
  intros H. unfold static, keeps, net_static in H. injection H as _ E _ _ _. unfold vsize.
  pose proof (f_equal length E) as El. rewrite !length_fmap in El. by rewrite El.
Qed.
Lemma static_has_turn w w' r :
  static w w' → net_cycle w' = net_cycle w → has_turn w' r → has_turn w r.
Proof.
  intros Hs Hc (x & Hx & Ht). destruct (static_routers _ _ _ _ Hs Hx) as (y & Hy & Ei). exists y. split; [done|].
  rewrite Ei, <- (static_count _ _ Hs), <- Hc. unfold static, keeps, net_static in Hs. injection Hs as Ecfg _ _ _ _.
  by rewrite <- Ecfg.
Qed.

(** A wake-up of a router initiates no swap, or one, and that in its turn. *)
Definition one_in_turn (w : GNet) (r : Z) (w' : GNet) : Prop :=
  swaps_initiated w' = swaps_initiated w ∨ (swaps_initiated w' = swaps_initiated w + 1 ∧ has_turn w r).

Lemma swap_phase_one r w a w' : Router_swap_phase r w = Ok (a, w') → one_in_turn w r w'.
Proof.
  intros H. unfold Router_swap_phase in H. apply bind_Ok in H as (x & w1 & [_ ->]%get_router_Ok & H).
  apply bind_Ok in H as ([] & w1 & Hv & H).
  assert (Hw1 : paced w w1 ∧ static w w1).
  { split; revert Hv; [apply (fun P : preserves paced _ => P w tt w1)|apply (fun P : preserves static _ => P w tt w1)];
      [pres by first [apply paced_validate|paced_prim]|pres_static]. }
  destruct Hw1 as [Hp Hs]. injection Hp as Hi Hc. apply bind_Ok in H as (t & w2 & [-> Ht]%turn_read & H).
  apply bind_Ok in H as (y & w2 & [_ ->]%get_router_Ok & H). cbv zeta in H.
  destruct (t && sp_valid (rt_swap_ptr y)) eqn:E; [|left; injection H as _ <-; done].
  apply andb_true_iff in E as [-> _].
  apply bind_Ok in H as (u & w2 & [-> _]%get_input_Ok & H).
  apply bind_Ok in H as ([] & w2 & H1 & H). apply bind_Ok in H as ([] & w3 & H2 & H).
  assert (Hp2 : paced w1 w3).
  { transitivity w2; [apply (preserves_assertM paced _ _ _ _ _ H1)|apply (preserves_assertM paced _ _ _ _ _ H2)]. }
  apply bind_Ok in H as (go & w4 & H3%paced_outportNotLocal & H). apply bind_Ok in H as ([] & w5 & H4 & H%paced_movSwapPtr).
  injection Hp2 as Hi2 _. injection H3 as Hi3 _. injection H as Hi5 _. unfold one_in_turn.
  destruct go; [right|left; injection H4 as <-; lia]. apply initiate_once in H4. split; [lia|].
  eapply static_has_turn; [exact Hs|done|by apply Ht].
Qed.

Lemma Router_wakeup_one r w a w' : Router_wakeup r w = Ok (a, w') → one_in_turn w r w'.
Proof.
  intros H. unfold Router_wakeup in H. rewrite (bind_run _ _ _ _ _ eq_refl) in H.
  apply bind_Ok in H as ([] & w1 & Hs & H).
  assert (Hone : one_in_turn w r w1).
  { destruct (cf_m_interswap _); [by eapply swap_phase_one|]. injection Hs as <-. by left. }
  assert (Hp : paced w1 w').
  { revert H. match goal with |- ?m w1 = _ → _ => cut (preserves paced m); [intros P E; exact (P _ _ _ E)|] end.
    pres by first [apply paced_InputUnit_wakeup|apply paced_OutputUnit_wakeup|apply paced_SwitchAllocator_wakeup
                  |apply paced_CrossbarSwitch_wakeup|paced_prim]. }
  injection Hp as Hi _. unfold one_in_turn in *. by rewrite Hi.
Qed.

(** ** Steps of the network *)
Section Steps.
Context `{MT : MachineTypes} `{LS : LinkSort}.

(** The step is a wake-up of router [r]. *)
Definition router_step (w : GNet) (r : Z) (w' : GNet) : Prop :=
  ∃ i, net_eventq w !! i = Some (now w, CRouter r) ∧ Router_wakeup r (remove_event i w) = Ok (tt, w').

Lemma router_step_step w r w' : router_step w r w' → step w w'.
Proof. intros (i & Hq & Hrun). by eapply (step_event w i (CRouter r)). Qed.

Lemma step_initiates w w' :
  step w w' → swaps_initiated w' ≠ swaps_initiated w →
  ∃ r, router_step w r w' ∧ swaps_initiated w' = swaps_initiated w + 1 ∧ has_turn w r.
Proof.
  intros Hs Hne. destruct Hs as [i c w' Hq Hrun| |b m d w' Hrun|b w' Hrun]; cycle 1.
  - done.
  - destruct Hne. assert (P : preserves paced (controller_enqueue b m d)) by pres_paced. by injection (P _ _ _ Hrun).
  - destruct Hne. assert (P : preserves paced (controller_dequeue b)) by pres_paced. by injection (P _ _ _ Hrun).
  - destruct c as [r|l|n|c|s|s t]; simpl in Hrun.
    + exists r. split; [by exists i|]. destruct (Router_wakeup_one _ _ _ _ Hrun) as [|[Hi Ht]]; [done|]. split; [done|].
      destruct Ht as (x & Hx & Ht). by exists x.
    + destruct Hne. assert (P : preserves paced (NetworkLink_wakeup l)) by pres_paced. by injection (P _ _ _ Hrun).
    + destruct Hne. assert (P : preserves paced (NetworkInterface_wakeup n)) by pres_paced. by injection (P _ _ _ Hrun).
    + by injection Hrun as <-.
    + destruct Hne. assert (P : preserves paced (PerfectSwitch_wakeup s)) by pres_paced. by injection (P _ _ _ Hrun).
    + destruct Hne. assert (P : preserves paced (Throttle_wakeup s t)) by pres_paced. by injection (P _ _ _ Hrun).
Qed.

(** Routers know their numbers. *)
Definition numbered (w : GNet) : Prop := ∀ r x, vget (net_m_routers w) r = Some x → rt_m_id x = r.

Lemma has_turn_unique w w' r r' :
  numbered w → static w w' → net_cycle w' = net_cycle w → has_turn w r → has_turn w' r' → r = r'.
Proof.
  intros Hn Hs Hc (x & Hx & Ht) Ht'. apply (static_has_turn w w' r' Hs Hc) in Ht' as (y & Hy & Ht').
  rewrite (Hn _ _ Hx) in Ht. rewrite (Hn _ _ Hy) in Ht'. unfold is_myTurn_at in *. lia.
Qed.

Lemma numbered_static w w' : static w w' → numbered w → numbered w'.
Proof. intros Hs Hn r x Hx. destruct (static_routers _ _ _ _ Hs Hx) as (y & Hy & <-). by apply Hn. Qed.
End Steps.

(** ** Turns come back *)
Lemma turns_come_back tdm n start i :
  0 < tdm → 0 < n → 0 ≤ start → 0 ≤ i < n →
  ∃ c, start ≤ c < start + tdm * n ∧
    ∀ c', start ≤ c' < start + tdm * n → is_myTurn_at c' tdm n i = bool_decide (c' = c).
Proof.
  intros Ht Hn Hs Hi. unfold is_myTurn_at. set (P := tdm * n). assert (0 < P) by (unfold P; nia).
  assert (n ≤ P) by (unfold P; nia).
  pose proof (Z.mod_pos_bound start P ltac:(lia)) as Hm. pose proof (Z.div_mod start P ltac:(lia)) as Hd.
  set (k := if start mod P <=? i then start / P else start / P + 1).
  exists (k * P + i). assert (Hk : start ≤ k * P + i < start + P).
  { unfold k. destruct (Z.leb_spec (start mod P) i); lia. }
  split; [done|]. intros c' Hc'. pose proof (Z.div_mod c' P ltac:(lia)) as Hd'.
  pose proof (Z.mod_pos_bound c' P ltac:(lia)) as Hm'. case_bool_decide as Hc.
  - rewrite Hc, Z.add_comm, Z.mod_add, Z.mod_small by lia. lia.
  - apply Z.eqb_neq. intros E. apply Hc. rewrite E in Hd'. assert (c' / P = k) by nia. nia.
Qed.

Lemma run_is_myTurn w r x :
  cf_m_interswap (net_cfg w) = true → vget (net_m_routers w) r = Some x →
  Router_is_myTurn r w =
    Ok (is_myTurn_at (net_cycle w) (cf_m_whenToSwap (net_cfg w)) (vsize (net_m_routers w)) (rt_m_id x), w).
Proof.
  intros He Hx. unfold Router_is_myTurn. rewrite (bind_run _ _ _ _ _ eq_refl). rewrite (bind_run _ _ _ tt w).
  2:{ unfold assertM. by rewrite He. }
  do 3 rewrite (bind_run _ _ _ _ _ eq_refl). rewrite (bind_run _ _ _ x w); [done|]. by apply get_router_Ok.
Qed.

(** C15.  Swaps in turns.  In every run of a network whose routers know their
    numbers, only a wake-up of a router initiates a swap, at most one, and all
    swaps that are initiated in the same cycle are those of the same router.  And
    the turns are fair: there is a period such that in every interval of that
    length each router has its turn in exactly one cycle. *)
Theorem swaps_take_turns `{MT : MachineTypes} `{LS : LinkSort} w :
  numbered w →
  (∀ w1 w1', reachable w w1 → step w1 w1' → swaps_initiated w1' ≠ swaps_initiated w1 →
     ∃ r, router_step w1 r w1' ∧ swaps_initiated w1' = swaps_initiated w1 + 1 ∧
       ∀ w2 w2', reachable w1' w2 → step w2 w2' → net_cycle w2 = net_cycle w1 →
         swaps_initiated w2' ≠ swaps_initiated w2 → router_step w2 r w2') ∧
  (cf_m_interswap (net_cfg w) = true → 0 < cf_m_whenToSwap (net_cfg w) →
   ∃ P, 0 < P ∧ ∀ start r, 0 ≤ start → 0 ≤ r < vsize (net_m_routers w) →
     ∃ c, start ≤ c < start + P ∧
       ∀ c', start ≤ c' < start + P →
         Router_is_myTurn r (w <| net_cycle := c' |>) = Ok (bool_decide (c' = c), w <| net_cycle := c' |>)).
Proof.
  intros Hn. split.
  - intros w1 w1' Hr Hs Hne. destruct (step_initiates w1 w1' Hs Hne) as (r & Hst & Hone & Ht).
    exists r. split; [done|]. split; [done|]. intros w2 w2' Hr2 Hs2 Hc Hne2.
    destruct (step_initiates w2 w2' Hs2 Hne2) as (r' & Hst' & _ & Ht').
    assert (E : r = r'); [|by rewrite E].
    assert (S1 : static w w1) by (by apply (reachable_rel static)).
    assert (S2 : static w1 w2).
    { transitivity w1'; [|by apply (reachable_rel static)]. apply (reachable_rel static). eapply reach_step; [apply reach_refl|done]. }
    apply (has_turn_unique w1 w2); [by eapply numbered_static|done..].
  - intros He Htdm. set (n := vsize (net_m_routers w)).
    destruct (decide (n = 0)) as [E0|]; [exists 1; split; [lia|]; intros start r _ Hr; lia|].
    assert (0 < n) by (unfold n, vsize in *; lia).
    exists (cf_m_whenToSwap (net_cfg w) * n). split; [nia|]. intros start r Hst Hr.
    destruct (vget_lookup _ _ Hr) as [x Hx].
    destruct (turns_come_back (cf_m_whenToSwap (net_cfg w)) n start r) as (c & Hc & Hall); [done..|].
    exists c. split; [done|]. intros c' Hc'. rewrite (run_is_myTurn _ r x) by done. rewrite (Hn r x Hx).
    simpl. fold n. by rewrite Hall.
Qed.

Lemma first_due_Some w i c : first_due w = Some (i, c) → net_eventq w !! i = Some (now w, c).
Proof. intros [_ Hq]%due_at_Some. by rewrite Nat.sub_0_r in Hq. Qed.

Lemma swaps_take_turns_witness :
  ∃ w' P, swaps_initiated w' = 1 ∧ router_step swap_system 0 w' ∧ 0 < P ∧
    ∃ c, 100 ≤ c < 100 + P ∧
      Router_is_myTurn 3 (swap_system <| net_cycle := c |>) = Ok (true, swap_system <| net_cycle := c |>).
Proof.
  assert (Hb : match first_due swap_system with
               | Some (i, CRouter 0) => match Router_wakeup 0 (remove_event i swap_system) with
                                        | Ok (_, w') => swaps_initiated w' = 1 | Abort _ => False end
               | _ => False end) by (vm_compute; reflexivity).
  assert (Hnum : forallb (λ i, match vget (net_m_routers swap_system) i with
                               | Some x => rt_m_id x =? i | None => false end) (zrange 0 4) = true) by (vm_compute; reflexivity).
  assert (Hsize : vsize (net_m_routers swap_system) = 4) by (vm_compute; reflexivity).
  assert (H0 : swaps_initiated swap_system = 0) by (vm_compute; reflexivity).
  destruct (swaps_take_turns (MT := sample_types 4) (LS := stable_sort) swap_system) as [H1 H2].
  { intros r x Hx. pose proof (vget_Some_lt _ _ _ Hx) as Hr. rewrite Hsize in Hr.
    rewrite forallb_forall in Hnum. specialize (Hnum r). rewrite Hx in Hnum. apply Z.eqb_eq. apply Hnum.
    apply list_elem_of_In, elem_of_zrange. exact Hr. }
  destruct (first_due swap_system) as [[i c]|] eqn:Hd; [|destruct Hb].
  destruct c as [r| | | | |]; [|destruct Hb..]. destruct r as [|r|r]; [|destruct Hb..].
  destruct (Router_wakeup 0 (remove_event i swap_system)) as [[[] w']|] eqn:E; [|destruct Hb].
  destruct H2 as (P & HP & H2); [vm_compute; reflexivity|vm_compute; reflexivity|].
  destruct (H2 100 3) as (c & Hc & Hall); [lia|rewrite Hsize; lia|].
  exists w', P. split; [exact Hb|].
  assert (Hq : net_eventq swap_system !! i = Some (now swap_system, CRouter 0)).
  { exact (first_due_Some _ _ _ Hd). }
  assert (Hst : router_step swap_system 0 w') by (exists i; split; [exact Hq|exact E]).
  destruct (H1 swap_system w') as (r & Hr & _).
  - apply reach_refl.
  - exact (router_step_step _ _ _ Hst).
  - rewrite Hb, H0. discriminate.
  - split; [exact Hst|]. split; [exact HP|]. exists c. split; [exact Hc|].
    rewrite (Hall c Hc), bool_decide_eq_true_2 by reflexivity. reflexivity.
Defined.
