(* ===== verification/FloatExact.v ===== *)
(** * Exact floating-point results

    A floating-point operation whose exact result has few enough bits is not
    rounded.  [canon a e] is the normal number of value [a * 2 ^ e]; the lemmas
    say which operations of [SpecFloat], the specification of IEEE 754 in the
    standard library, yield it. *)

From Stdlib Require Import Floats.SpecFloat.
From S2P Require Import Prelude.

Lemma digits2_log2 p : Zpos (digits2_pos p) = Z.log2 (Zpos p) + 1.
Proof.
  induction p as [p IH|p IH|]; simpl digits2_pos; [| |done]; rewrite Pos2Z.inj_succ, IH.
  - rewrite Pos2Z.inj_xI, Z.log2_succ_double by lia. lia.
  - rewrite Pos2Z.inj_xO, Z.log2_double by lia. lia.
Qed.
Lemma Zdigits2_log2 a : 0 < a → Zdigits2 a = Z.log2 a + 1.
Proof. intros Ha. destruct a as [|p|p]; [lia|apply digits2_log2|lia]. Qed.

(** Shifting out zeroes. *)
Lemma shr_1_even a : 0 < a → shr_1 {| shr_m := a * 2; shr_r := false; shr_s := false |} = {| shr_m := a; shr_r := false; shr_s := false |}.
Proof. intros Ha. destruct a as [|p|p]; [lia| |lia]. rewrite Z.mul_comm. done. Qed.

Lemma shr_zeroes p a :
  0 < a → SpecFloat.iter_pos shr_1 p {| shr_m := a * 2 ^ Zpos p; shr_r := false; shr_s := false |} = {| shr_m := a; shr_r := false; shr_s := false |}.
Proof.
  revert a. induction p as [p IH|p IH|]; intros a Ha; cbn [SpecFloat.iter_pos].
  - rewrite Pos2Z.inj_xI, Z.pow_add_r, Z.mul_assoc by lia. change (2 ^ 1) with 2.
    assert (0 < 2 ^ Zpos p) by lia.
    rewrite shr_1_even by nia. replace (2 * Zpos p) with (Zpos p + Zpos p) by lia. rewrite Z.pow_add_r, Z.mul_assoc by lia.
    rewrite (IH (a * 2 ^ Zpos p)) by nia. by apply IH.
  - replace (Zpos p~0) with (Zpos p + Zpos p) by lia. rewrite Z.pow_add_r, Z.mul_assoc by lia.
    assert (0 < 2 ^ Zpos p) by lia. rewrite (IH (a * 2 ^ Zpos p)) by nia. by apply IH.
  - by apply shr_1_even.
Qed.

Lemma iter_xO_Z p d : Zpos (Pos.iter xO p d) = Zpos p * 2 ^ Zpos d.
Proof.
  induction d as [|d IH] using Pos.peano_ind; [simpl; lia|].
  rewrite Pos.iter_succ, Pos2Z.inj_succ, Z.pow_succ_r by lia. rewrite Pos2Z.inj_xO, IH. lia.
Qed.

Lemma shifted m s : 0 < s → match s with Z0 => m | Zpos _ => Z.shiftl m s | Zneg _ => 0 end = m * 2 ^ s.
Proof. intros Hs. destruct s; [lia| |lia]. by rewrite Z.shiftl_mul_pow2. Qed.
Lemma div_eucl_pair a b : Z.div_eucl a b = (a / b, a mod b).
Proof. unfold Z.div, Z.modulo. by destruct (Z.div_eucl a b). Qed.
Lemma new_location_0 n : new_location n 0 = loc_Exact.
Proof. unfold new_location. by destruct (Z.even n). Qed.

Section Exact.
Context (prec emax : Z) (Hprec : 1 < prec).

(** The mantissa has all its bits, the exponent is in range. *)
Record normal (m e : Z) : Prop := {
  nm_bits : 2 ^ (prec - 1) ≤ m < 2 ^ prec;
  nm_min : emin prec emax ≤ e;
  nm_max : e ≤ emax - prec;
}.

Lemma normal_pos m e : normal m e → 0 < m.
Proof. intros [Hm _ _]. assert (0 < 2 ^ (prec - 1)) by (apply Z.pow_pos_nonneg; lia). lia. Qed.
Lemma normal_log2 m e : normal m e → Z.log2 m = prec - 1.
Proof. intros H. pose proof (normal_pos m e H). destruct H as [Hm _ _]. apply Z.log2_unique; [lia|]. by rewrite <- Z.add_1_r, Z.sub_add. Qed.

Lemma shr_fexp_exact m e j :
  normal m e → 0 ≤ j →
  shr_fexp prec emax (m * 2 ^ j) (e - j) loc_Exact = ({| shr_m := m; shr_r := false; shr_s := false |}, e).
Proof.
  intros Hn Hj. pose proof (normal_pos m e Hn) as Hp. assert (0 < 2 ^ j) by (apply Z.pow_pos_nonneg; lia).
  unfold shr_fexp, shr_record_of_loc. rewrite Zdigits2_log2 by nia. rewrite Z.log2_mul_pow2 by lia.
  rewrite (normal_log2 m e Hn). unfold fexp. destruct Hn as [_ Hmin _].
  replace (Z.max (j + (prec - 1) + 1 + (e - j) - prec) (emin prec emax) - (e - j)) with j by lia.
  destruct j as [|j|j]; [|unfold shr; rewrite shr_zeroes by done; f_equal; lia|lia].
  simpl. rewrite Z.mul_1_r. f_equal. lia.
Qed.

Lemma round_exact s m e j :
  normal m e → 0 ≤ j →
  binary_round_aux prec emax s (m * 2 ^ j) (e - j) loc_Exact = S754_finite s (Z.to_pos m) e.
Proof.
  intros Hn Hj. unfold binary_round_aux. rewrite shr_fexp_exact by done. simpl.
  pose proof (shr_fexp_exact m e 0 Hn ltac:(lia)) as E. rewrite Z.mul_1_r, Z.sub_0_r in E. rewrite E. simpl.
  pose proof (normal_pos m e Hn). destruct Hn as [_ _ Hmax]. destruct m as [|m|m]; [lia| |lia].
  by destruct (Z.leb_spec e (emax - prec)); [|lia].
Qed.

(** [M * 2 ^ E] and [m * 2 ^ e] are the same number. *)
Definition same_value (M E m e : Z) : Prop := ∃ s t, 0 ≤ s ∧ 0 ≤ t ∧ M * 2 ^ s = m * 2 ^ t ∧ E - s = e - t.

Lemma same_value_cases M E m e :
  same_value M E m e → (E ≤ e ∧ M = m * 2 ^ (e - E)) ∨ (e < E ∧ m = M * 2 ^ (E - e)).
Proof.
  intros (s & t & Hs & Ht & Hv & He). destruct (Z.le_gt_cases E e) as [Hle|Hgt]; [left|right]; (split; [done|]).
  - replace (e - E) with (t - s) by lia. apply (Z.mul_reg_r _ _ (2 ^ s)); [apply Z.pow_nonzero; lia|].
    rewrite Hv, <- Z.mul_assoc, <- Z.pow_add_r by lia. f_equal. f_equal. lia.
  - replace (E - e) with (s - t) by lia. apply (Z.mul_reg_r _ _ (2 ^ t)); [apply Z.pow_nonzero; lia|].
    rewrite <- Hv, <- Z.mul_assoc, <- Z.pow_add_r by lia. f_equal. f_equal. lia.
Qed.

Lemma binary_round_exact M E m e :
  normal m e → same_value (Zpos M) E m e → binary_round prec emax false M E = S754_finite false (Z.to_pos m) e.
Proof.
  intros Hn Hv. pose proof (normal_log2 m e Hn) as Hl. pose proof (normal_pos m e Hn) as Hp.
  unfold binary_round, shl_align. rewrite digits2_log2.
  destruct (same_value_cases _ _ _ _ Hv) as [[Hle EM]|[Hgt Em]].
  - assert (Hlog : Z.log2 (Zpos M) = prec - 1 + (e - E)) by (rewrite EM, Z.log2_mul_pow2; lia).
    rewrite Hlog. unfold fexp. pose proof (nm_min m e Hn).
    replace (Z.max (prec - 1 + (e - E) + 1 + E - prec) (emin prec emax) - E) with (e - E) by lia.
    destruct (e - E) as [|d|d] eqn:Hd; [| |lia].
    + rewrite EM. replace E with (e - 0) by lia. by apply round_exact.
    + rewrite EM. replace E with (e - Zpos d) by lia. by apply round_exact.
  - assert (Hlog : Z.log2 (Zpos M) = prec - 1 - (E - e)).
    { assert (Z.log2 m = Z.log2 (Zpos M) + (E - e)) by (rewrite Em, Z.log2_mul_pow2; lia). lia. }
    rewrite Hlog. unfold fexp. pose proof (nm_min m e Hn).
    replace (Z.max (prec - 1 - (E - e) + 1 + E - prec) (emin prec emax)) with e by lia.
    destruct (e - E) as [|d|d] eqn:Hd; [lia|lia|].
    rewrite iter_xO_Z. replace (Zpos d) with (E - e) by lia. rewrite <- Em.
    pose proof (round_exact false m e 0 Hn ltac:(lia)) as Er. by rewrite Z.mul_1_r, Z.sub_0_r in Er.
Qed.

(** ** The normal number of value [a * 2 ^ e] *)
Definition pad (a : Z) : Z := prec - 1 - Z.log2 a.
Definition canon (a e : Z) : spec_float := S754_finite false (Z.to_pos (a * 2 ^ pad a)) (e - pad a).

(** The value is representable. *)
Definition fits (a e : Z) : Prop := 0 < a < 2 ^ prec ∧ emin prec emax + prec ≤ e ≤ emax - prec.

Lemma pad_bounds a : 0 < a < 2 ^ prec → 0 ≤ pad a < prec.
Proof.
  intros Ha. unfold pad. pose proof (Z.log2_nonneg a). assert (Z.log2 a < prec) by (apply Z.log2_lt_pow2; lia). lia.
Qed.
Lemma canon_normal a e : fits a e → normal (a * 2 ^ pad a) (e - pad a).
Proof.
  intros [Ha He]. pose proof (pad_bounds a Ha) as Hp. pose proof (Z.log2_spec a ltac:(lia)) as Hl.
  assert (E1 : 2 ^ (prec - 1) = 2 ^ Z.log2 a * 2 ^ pad a).
  { rewrite <- Z.pow_add_r by (pose proof (Z.log2_nonneg a); lia). f_equal. unfold pad. lia. }
  assert (E2 : 2 ^ prec = 2 ^ Z.succ (Z.log2 a) * 2 ^ pad a).
  { rewrite <- Z.pow_add_r by (pose proof (Z.log2_nonneg a); lia). f_equal. unfold pad. lia. }
  assert (0 < 2 ^ pad a) by (apply Z.pow_pos_nonneg; lia). split; [nia|lia|lia].
Qed.

Lemma normalize_exact M E a e s :
  0 < M → fits a e → same_value M E a e → binary_normalize prec emax M E s = canon a e.
Proof.
  intros HM Hf (i & j & Hi & Hj & Hv & He). destruct M as [|M|M]; [lia| |lia].
  apply binary_round_exact; [by apply canon_normal|]. pose proof (pad_bounds a (proj1 Hf)).
  exists (i + pad a), j. split_and!; [lia|lia| |lia].
  rewrite Z.pow_add_r, Z.mul_assoc, Hv by lia. lia.
Qed.

Lemma normalize_int a s : fits a 0 → binary_normalize prec emax a 0 s = canon a 0.
Proof. intros Hf. apply normalize_exact; [apply Hf|done|]. exists 0, 0. lia. Qed.

Lemma canon_pow2 k e : 0 ≤ k < prec → canon (2 ^ k) e = canon 1 (e + k).
Proof.
  intros Hk. unfold canon, pad. rewrite Z.log2_pow2, Z.log2_1 by lia. rewrite <- Z.pow_add_r by lia.
  f_equal; [f_equal; rewrite Z.mul_1_l; f_equal; lia|lia].
Qed.

(** ** Operations *)
Lemma SFmul_exact a e b f :
  fits a e → fits b f → fits (a * b) (e + f) → SFmul prec emax (canon a e) (canon b f) = canon (a * b) (e + f).
Proof.
  intros Ha Hb Hab. pose proof (canon_normal a e Ha) as Na. pose proof (canon_normal b f Hb) as Nb.
  pose proof (canon_normal _ _ Hab) as Nab. pose proof (normal_pos _ _ Na). pose proof (normal_pos _ _ Nb).
  unfold canon, SFmul. rewrite Pos2Z.inj_mul, !Z2Pos.id by lia. simpl xorb.
  set (j := pad a + pad b - pad (a * b)).
  assert (Hj : 0 ≤ j).
  { unfold j, pad. pose proof (Z.log2_mul_below a b ltac:(lia) ltac:(lia)).
    pose proof (pad_bounds _ (proj1 Ha)). pose proof (pad_bounds _ (proj1 Hb)).
    assert (Z.log2 (a * b) ≤ Z.log2 a + Z.log2 b + 1) by (apply Z.log2_mul_above; lia).
    pose proof (pad_bounds _ (proj1 Hab)). unfold pad in *. lia. }
  replace (a * 2 ^ pad a * (b * 2 ^ pad b)) with (a * b * 2 ^ pad (a * b) * 2 ^ j).
  - replace (e - pad a + (f - pad b)) with (e + f - pad (a * b) - j) by (unfold j; lia).
    by apply round_exact.
  - pose proof (pad_bounds _ (proj1 Ha)). pose proof (pad_bounds _ (proj1 Hb)). pose proof (pad_bounds _ (proj1 Hab)).
    rewrite <- Z.mul_assoc, <- Z.pow_add_r by lia. replace (pad (a * b) + j) with (pad a + pad b) by (unfold j; lia).
    rewrite Z.pow_add_r by lia. lia.
Qed.

(** Division by a power of two. *)
Lemma SFdiv_pow2 a e k :
  fits a e → fits 1 k → fits a (e - k) → SFdiv prec emax (canon a e) (canon 1 k) = canon a (e - k).
Proof.
  intros Ha Hk Hak. pose proof (canon_normal a e Ha) as Na. pose proof (canon_normal 1 k Hk) as Nk.
  pose proof (canon_normal _ _ Hak) as Nak. pose proof (normal_pos _ _ Na) as Pa. pose proof (normal_pos _ _ Nk) as Pk.
  unfold canon, SFdiv, SFdiv_core_binary. rewrite !Z2Pos.id by lia. simpl xorb.
  rewrite !Zdigits2_log2 by done. rewrite (normal_log2 _ _ Na), (normal_log2 _ _ Nk).
  set (m := a * 2 ^ pad a) in *. set (e1 := e - pad a) in *. set (e2 := k - pad 1) in *.
  assert (Hm2 : 1 * 2 ^ pad 1 = 2 ^ (prec - 1)) by (unfold pad; rewrite Z.log2_1, Z.sub_0_r; lia). rewrite Hm2.
  assert (Hmin : emin prec emax ≤ e1 - e2 - prec).
  { destruct Hak as [Hra Hre]. unfold e1, e2. pose proof (pad_bounds a Hra). pose proof (pad_bounds 1 (proj1 Hk)).
    unfold pad in *. rewrite Z.log2_1 in *. lia. }
  unfold fexp. replace (Z.min _ (e1 - e2)) with (e1 - e2 - prec) by lia.
  replace (e1 - e2 - (e1 - e2 - prec)) with prec by lia.
  rewrite shifted by lia.
  assert (Hq : m * 2 ^ prec = (m * 2) * 2 ^ (prec - 1)).
  { replace (2 ^ prec) with (2 * 2 ^ (prec - 1)) by (rewrite <- Z.pow_succ_r by lia; f_equal; lia). lia. }
  assert (0 < 2 ^ (prec - 1)) by (apply Z.pow_pos_nonneg; lia).
  rewrite Hq, div_eucl_pair, Z.div_mul, Z.mod_mul by lia. rewrite new_location_0.
  replace (e1 - e2 - prec) with (e - k - pad a - 1) by (unfold e1, e2, pad; rewrite Z.log2_1; lia).
  by apply (round_exact false m (e - k - pad a) 1).
Qed.

Lemma shl_align_Z m e ez : ez ≤ e → Zpos (fst (shl_align m e ez)) = Zpos m * 2 ^ (e - ez).
Proof.
  intros Hle. unfold shl_align. destruct (ez - e) as [|d|d] eqn:Hd; [|lia|].
  - simpl. replace (e - ez) with 0 by lia. lia.
  - simpl. rewrite iter_xO_Z. f_equal. f_equal. lia.
Qed.

(** One minus a fraction. *)
Lemma SFsub_one a k :
  0 ≤ k < prec → fits a (- k) → a < 2 ^ k → fits (2 ^ k - a) (- k) →
  SFsub prec emax (canon 1 0) (canon a (- k)) = canon (2 ^ k - a) (- k).
Proof.
  intros Hk Ha Hlt Hd. destruct Ha as [Ha Hae]. pose proof (pad_bounds a Ha) as Hp.
  assert (Hp1 : pad 1 = prec - 1) by (unfold pad; rewrite Z.log2_1; lia).
  assert (0 < 2 ^ pad a) by (apply Z.pow_pos_nonneg; lia). assert (0 < 2 ^ (prec - 1)) by (apply Z.pow_pos_nonneg; lia).
  assert (Hpk : prec - 1 ≤ k + pad a).
  { unfold pad. assert (Z.log2 a < k) by (apply Z.log2_lt_pow2; lia). lia. }
  set (R := canon (2 ^ k - a) (- k)). unfold canon, SFsub. rewrite Hp1. cbv zeta.
  replace (Z.min (0 - (prec - 1)) (- k - pad a)) with (- k - pad a) by lia.
  unfold cond_Zopp. rewrite !shl_align_Z by lia. rewrite !Z2Pos.id by nia.
  replace (- k - pad a - (- k - pad a)) with 0 by lia.
  replace (1 * 2 ^ (prec - 1) * 2 ^ (0 - (prec - 1) - (- k - pad a))) with (2 ^ k * 2 ^ pad a).
  2:{ rewrite Z.mul_1_l, <- !Z.pow_add_r by lia. f_equal. lia. }
  apply normalize_exact; [nia|done|]. exists 0, (pad a). split_and!; [lia|lia|simpl; lia|lia].
Qed.

(** Comparison. *)
Lemma SFltb_exact a e b f :
  fits a e → fits b f → e ≤ f → SFltb (canon a e) (canon b f) = (a <? b * 2 ^ (f - e)).
Proof.
  intros Ha Hb Hef. pose proof (canon_normal a e Ha) as Na. pose proof (canon_normal b f Hb) as Nb.
  pose proof (normal_pos _ _ Na). pose proof (normal_pos _ _ Nb).
  pose proof (pad_bounds a (proj1 Ha)) as Hpa. pose proof (pad_bounds b (proj1 Hb)) as Hpb.
  assert (Hpow : 2 ^ prec = 2 * 2 ^ (prec - 1)) by (rewrite <- Z.pow_succ_r by lia; f_equal; lia).
  assert (0 < 2 ^ pad a) by (apply Z.pow_pos_nonneg; lia).
  pose proof (nm_bits _ _ Na) as Ba. pose proof (nm_bits _ _ Nb) as Bb.
  assert (Hscale : (a <? b * 2 ^ (f - e)) = (a * 2 ^ pad a <? b * 2 ^ (f - e + pad a))).
  { rewrite Z.pow_add_r by lia. destruct (Z.ltb_spec a (b * 2 ^ (f - e))); symmetry; [apply Z.ltb_lt|apply Z.ltb_ge]; nia. }
  rewrite Hscale. unfold SFltb, SFcompare, canon.
  destruct (Z.compare_spec (e - pad a) (f - pad b)) as [Heq|Hlt|Hgt].
  - replace (f - e + pad a) with (pad b) by lia. change (Pos.compare_cont Eq) with Pos.compare.
    unfold Z.ltb. rewrite <- (Z2Pos.id (a * 2 ^ pad a)) at 2 by done. rewrite <- (Z2Pos.id (b * 2 ^ pad b)) at 2 by done. done.
  - symmetry. apply Z.ltb_lt. replace (f - e + pad a) with (pad b + 1 + (f - pad b - (e - pad a) - 1)) by lia.
    rewrite (Z.pow_add_r 2 (pad b + 1)), (Z.pow_add_r 2 (pad b)) by lia.
    assert (1 ≤ 2 ^ (f - pad b - (e - pad a) - 1)) by (apply (Z.pow_le_mono_r 2 0); lia). nia.
  - symmetry. apply Z.ltb_ge.
    assert (E : b * 2 ^ pad b = b * 2 ^ (f - e + pad a) * 2 * 2 ^ (e - pad a - (f - pad b) - 1)).
    { rewrite <- !Z.mul_assoc. f_equal. rewrite <- (Z.pow_1_r 2) at 3. rewrite <- !Z.pow_add_r by lia. f_equal. lia. }
    assert (1 ≤ 2 ^ (e - pad a - (f - pad b) - 1)) by (apply (Z.pow_le_mono_r 2 0); lia).
    assert (0 < 2 ^ (f - e + pad a)) by (apply Z.pow_pos_nonneg; lia). destruct Ha, Hb. nia.
Qed.
End Exact.
