(* ===== verification/OccupancyTheory.v ===== *)
(** * The occupancy threshold

    A router does not swap while too few of the VCs at the port are occupied.
    The test of [outportNotLocal] is a floating-point expression; for powers of
    two it decides exactly what the formula says. *)

From Stdlib Require Import Floats.SpecFloat.
From S2P Require Import Prelude CommonTypes GarnetState SwapModel FloatExact.

#[local] Abbreviation fits64 := (fits 53 1024).
#[local] Abbreviation canon64 := (canon 53).








(** For five VCs rounding matters: one occupied VC out of five is exactly 20
    percent, and counts as less. *)
Lemma occupancy_rounding : occupancy_below 4 5 20 = true.
Proof. vm_compute. done. Qed.
