(* ===== verification/AllocatorTheory.v ===== *)
(** * The switch allocator

    First stage: an input port requests an output port for at most one of its
    VCs, only for a VC that may send, and for one whenever such a VC exists.
    End of the cycle: no request is left over. *)

From S2P Require Import Prelude BinaryHeap NetDestModel CommonTypes GarnetState FlitBuffer Channels RoutingUnitModel SwapModel UnitsModel SwitchAllocatorModel MessageBufferModel NetworkInterfaceModel BuildModel Scenarios SystemModel StateLemmas Wiring Ownership SwapExchange RouterTheory SystemTheory CreditTheory SwapTheory.

(** ** Operations that only read *)
Definition reads {A} (m : G A) : Prop := preserves (λ w w', w' = w) m.
#[export] Instance unchanged_preorder : PreOrder (λ w w' : GNet, w' = w).
Proof. split; [done|]. intros w1 w2 w3 -> ->. done. Qed.

Lemma unchanged_optG {A} (o : option A) e : preserves (λ w w', w' = w) (optG o e).
Proof. by intros w a w' [_ ->]%optG_Ok. Qed.
Ltac reads_tac := apply unchanged_optG.
Tactic Notation "pres_reads" := unfold reads; pres by reads_tac.

Lemma reads_need_stage r i v s t : reads (InputUnit_need_stage r i v s t).
Proof. pres_reads. Qed.
Lemma reads_send_allowed r i v o ov : reads (SwitchAllocator_send_allowed r i v o ov).
Proof. pres_reads. Qed.
Lemma reads_get_sa r : reads (get_sa r).
Proof. pres_reads. Qed.
Lemma reads_mget {A} (m : list (list A)) o i s : reads (mget m o i s).
Proof. pres_reads. Qed.

(** ** First stage *)

(** VC [v] of port [i] may send to output port [o] now: its head flit is ready
    for switch allocation and leads to [o], and the output unit has an idle VC
    in the flit's virtual network (and the ordering check passes). *)
Definition may_send (w : GNet) (r i v o : Z) : Prop :=
  InputUnit_need_stage r i v SA_ (net_cycle w) w = Ok (true, w) ∧
  ∃ p f, InputUnit_peekTopFlit r i v w = Ok (p, w) ∧ net_flits w !! p = Some f ∧
    fl_m_outport f = o ∧ SwitchAllocator_send_allowed r i v o (-1) w = Ok (true, w).

(** The meaning of [need_stage]. *)
Lemma need_stage_true r i v w t :
  InputUnit_need_stage r i v SA_ t w = Ok (true, w) →
  ∃ c p l f, get_vc r i v w = Ok (c, w) ∧ contents w (vc_m_input_buffer c) = p :: l ∧
    net_flits w !! p = Some f ∧ fl_m_time f ≤ t ∧ flit_is_stage SA_ t f = true ∧
    fst (vc_m_vc_state c) = ACTIVE_ ∧ snd (vc_m_vc_state c) ≤ t.
Proof.
  intros (c & w1 & Hc & H)%bind_Ok. pose proof Hc as [-> _]%get_vc_Ok.
  apply bind_Ok in H as (ready & w1 & Hr & H). destruct ready; [|discriminate H].
  unfold flitBuffer_isReady in Hr. apply bind_Ok in Hr as (x & w2 & [Hx ->]%get_fb_Ok & Hr).
  destruct (negb _); [|discriminate Hr].
  apply bind_Ok in Hr as (p & w2 & [-> [l Hl]]%peekTopFlit_Ok & Hr).
  apply bind_Ok in Hr as (f & w2 & [Hf ->]%get_flit_Ok & [= Ht <-]).
  apply bind_Ok in H as (? & w2 & Ha & H). unfold assertM in Ha.
  destruct (bool_decide (fst (vc_m_vc_state c) = ACTIVE_) && (snd (vc_m_vc_state c) <=? t)) eqn:Ea;
    [|discriminate Ha].
  injection Ha as _ <-. rewrite andb_true_iff, bool_decide_eq_true in Ea.
  apply bind_Ok in H as (p' & w2 & [-> [l' Hl']]%peekTopFlit_Ok & H).
  apply bind_Ok in H as (f' & w2 & [Hf' ->]%get_flit_Ok & [= Hs]).
  rewrite Hl in Hl'. injection Hl' as <- <-. rewrite Hf in Hf'. injection Hf' as <-.
  exists c, p, l, f. split_and!; [done..|lia|done|by apply Ea|lia].
Qed.

(** The meaning of [send_allowed]. *)
Lemma send_allowed_true r i v o w :
  SwitchAllocator_send_allowed r i v o (-1) w = Ok (true, w) →
  ∃ x, vget (net_m_routers w) r = Some x ∧
    let vnet := v `quot` sa_m_vc_per_vnet (rt_m_sw_alloc x) in
    vnet < rt_m_virtual_networks x ∧ OutputUnit_has_free_vc r o vnet w = Ok (true, w).
Proof.
  intros H. unfold SwitchAllocator_send_allowed in H.
  apply bind_Ok in H as ([] & w1 & [= <-] & H).
  apply bind_Ok in H as (vnet & w1 & Hv & H). unfold SwitchAllocator_get_vnet, get_sa in Hv.
  apply bind_Ok in Hv as (sa & w2 & Hsa & Hv).
  apply bind_Ok in Hsa as (x & w3 & [Hx ->]%get_router_Ok & [= <- <-]).
  apply bind_Ok in Hv as (x' & w2 & [Hx' ->]%get_router_Ok & Hv).
  assert (x' = x) as -> by congruence. cbv zeta in Hv.
  apply bind_Ok in Hv as (? & w2 & Ha & [= <- <-]). unfold assertM in Ha.
  destruct (Z.ltb_spec (v `quot` sa_m_vc_per_vnet (rt_m_sw_alloc x)) (rt_m_virtual_networks x));
    [|discriminate Ha]. injection Ha as _ <-.
  exists x. split; [done|]. split; [done|].
  apply bind_Ok in H as ([b1 b2] & w2 & Hh & H).
  apply bind_Ok in Hh as (free & w3 & Hf & Hp).
  assert (w3 = w) as -> by (revert Hf; apply (fun P : reads _ => P w free w3); pres_reads).
  destruct free; [done|]. injection Hp as <- <- <-. discriminate H.
Qed.

(** The state after VC [v] of port [i] has requested output port [o]. *)
Definition requested (w : GNet) (r : Z) (x : Router) (i v o rr : Z) : GNet :=
  w <| net_m_routers ::= λ l, vset l r (x <| rt_m_sw_alloc ::= λ s, s
    <| sa_m_input_arbiter_activity ::= Z.succ |>
    <| sa_m_port_requests ::= λ m, mset m o i true |>
    <| sa_m_vc_winners ::= λ m, mset m o i v |>
    <| sa_m_round_robin_invc ::= λ l, vset l i (if sa_m_num_vcs s <=? rr + 1 then 0 else rr + 1) |> |>) |>.

Section Inport.
Context (w : GNet) (r i : Z) (x : Router) (rr : Z).
Context (Hx : vget (net_m_routers w) r = Some x).
Let sa := rt_m_sw_alloc x.
Let n := sa_m_num_vcs sa.
Context (Hrr : vget (sa_m_round_robin_invc sa) i = Some rr) (Hbound : 0 ≤ rr < n).

Lemma run_get_sa : get_sa r w = Ok (sa, w).
Proof. unfold get_sa. by erewrite bind_run by (by apply get_router_Ok). Qed.

Lemma request_Ok v o a w' :
  SwitchAllocator_request r i v o w = Ok (a, w') → w' = requested w r x i v o rr.
Proof.
  intros H. unfold SwitchAllocator_request in H. rewrite (bind_run _ _ _ _ _ run_get_sa) in H.
  apply bind_Ok in H as (? & w1 & ->%reads_mget & H).
  apply bind_Ok in H as (? & w1 & ->%reads_mget & H).
  apply bind_Ok in H as (rr' & w1 & [Hr ->]%optG_Ok & H). rewrite Hrr in Hr. injection Hr as <-.
  unfold upd_sa in H. rewrite (run_upd_router _ _ _ _ Hx) in H. by injection H as _ <-.
Qed.

(** One step of the search. *)
Lemma inport_step v (res : Z + ()) w' :
  (t ← curCycle;
   need ← InputUnit_need_stage r i v SA_ t;
   make_request ←
     (if (need : bool) then
        p ← InputUnit_peekTopFlit r i v;
        f ← get_flit p;
        let outport := fl_m_outport f in
        ok ← SwitchAllocator_send_allowed r i v outport (-1);
        mret (if (ok : bool) then Some outport else None)
      else mret None);
   match make_request with
   | Some outport => SwitchAllocator_request r i v outport ;; mret (inr tt)
   | None => mret (inl (if n <=? v + 1 then 0 else v + 1))
   end) w = Ok (res, w') →
  match res with
  | inl v' => w' = w ∧ v' = (if n <=? v + 1 then 0 else v + 1) ∧ ∀ o, ¬ may_send w r i v o
  | inr _ => ∃ o, may_send w r i v o ∧ w' = requested w r x i v o rr
  end.
Proof.
  intros H. apply bind_Ok in H as (t & w1 & [= <- <-] & H).
  apply bind_Ok in H as (need & w1 & Hneed & H). pose proof Hneed as ->%reads_need_stage.
  apply bind_Ok in H as (mr & w1 & Hmr & H). destruct need.
  2: { injection Hmr as <- <-. injection H as <- <-. split_and!; [done|done|].
       intros o [Hn _]. congruence. }
  apply bind_Ok in Hmr as (p & w2 & Hp & Hmr). pose proof Hp as [-> _]%InputUnit_peekTopFlit_Ok.
  apply bind_Ok in Hmr as (f & w2 & [Hf ->]%get_flit_Ok & Hmr). cbv zeta in Hmr.
  apply bind_Ok in Hmr as (ok & w2 & Hok & Hmr). pose proof Hok as ->%reads_send_allowed.
  injection Hmr as <- <-. destruct ok.
  - apply bind_Ok in H as (? & w2 & Hr%request_Ok & [= <- <-]).
    exists (fl_m_outport f). split; [|done]. split; [done|]. exists p, f. done.
  - injection H as <- <-. split_and!; [done|done|].
    intros o (_ & p' & f' & Hp' & Hf' & <- & Ho).
    rewrite Hp in Hp'. injection Hp' as <-. rewrite Hf in Hf'. injection Hf' as <-. congruence.
Qed.

(** [v] is the first VC, in cyclic order from the round-robin pointer, that
    may send. *)
Definition first_sender (v o : Z) : Prop :=
  may_send w r i v o ∧ ∃ k, 0 ≤ k < n ∧ v = (rr + k) mod n ∧
    ∀ j, 0 ≤ j < k → ∀ o', ¬ may_send w r i ((rr + j) mod n) o'.

Lemma mod_wrap v : 0 ≤ v < n → (if n <=? v + 1 then 0 else v + 1) = (v + 1) mod n.
Proof.
  intros Hv. destruct (Z.leb_spec n (v + 1)).
  - replace (v + 1) with (0 + 1 * n) by lia. rewrite Z.mod_add by lia. done.
  - by rewrite Z.mod_small by lia.
Qed.

Lemma arbitrate_inport_search w' :
  SwitchAllocator_arbitrate_inport r i w = Ok (tt, w') →
  (w' = w ∧ ∀ v o, 0 ≤ v < n → ¬ may_send w r i v o) ∨
  (∃ v o, first_sender v o ∧ w' = requested w r x i v o rr).
Proof.
  intros H. unfold SwitchAllocator_arbitrate_inport in H.
  rewrite (bind_run _ _ _ _ _ run_get_sa) in H.
  apply bind_Ok in H as (rr' & w1 & [Hr ->]%optG_Ok & H). rewrite Hrr in Hr. injection Hr as <-.
  apply bind_Ok in H as (res & w1 & H & Hend). fold n in H.
  assert (w' = w1) as -> by (destruct res as [?|[]]; by injection Hend).
  apply (loop_returned _ _ _
    (λ pre v s, s = w ∧ v = (rr + vsize pre) mod n ∧
       ∀ j, 0 ≤ j < vsize pre → ∀ o, ¬ may_send w r i ((rr + j) mod n) o)
    (λ _ s, ∃ v o, first_sender v o ∧ s = requested w r x i v o rr)) in H.
  - destruct res as [v|[]]; [left|by right]. destruct H as (-> & _ & Hno). split; [done|].
    intros v' o Hv'.
    replace v' with ((rr + (v' - rr) mod n) mod n); [|rewrite Z.add_mod_idemp_r by lia;
      replace (rr + (v' - rr)) with v' by lia; by apply Z.mod_small].
    apply Hno. unfold vsize, zrange. rewrite length_seqZ.
    pose proof (Z.mod_pos_bound (v' - rr) n). lia.
  - unfold vsize. simpl. rewrite Z.add_0_r, Z.mod_small by lia. split_and!; [done|done|lia].
  - intros pre y v s res' s' _ (-> & -> & Hno) Hb. apply inport_step in Hb.
    pose proof (Z.mod_pos_bound (rr + vsize pre) n ltac:(lia)) as Hm.
    assert (Hsz : vsize (pre ++ [y]) = vsize pre + 1) by (unfold vsize; rewrite length_app; simpl; lia).
    destruct res' as [v'|[]].
    + destruct Hb as (-> & -> & Hn). rewrite Hsz. split_and!; [done| |].
      * rewrite mod_wrap by done. rewrite Z.add_mod_idemp_l by lia. f_equal. lia.
      * intros j Hj. destruct (decide (j = vsize pre)) as [->|]; [done|apply Hno; lia].
    + destruct Hb as (o & Hs & ->). eexists _, o. split; [|done]. split; [done|].
      exists (vsize pre). split; [|done]. assert (0 ≤ vsize pre) by (unfold vsize; lia).
      split; [done|]. destruct (decide (vsize pre < n)) as [|Hge]; [done|]. exfalso.
      apply (Hno (vsize pre - n) ltac:(lia) o).
      replace (rr + (vsize pre - n)) with (rr + vsize pre + (-1) * n) by lia.
      by rewrite Z.mod_add by lia.
Qed.
End Inport.

(** C18.  First stage of the switch allocator.  For an input port whose
    round-robin pointer is in range, [arbitrate_inports] either makes no
    request, and then changes nothing and no VC of the port may send, or makes
    one request, for the first VC in cyclic order from the round-robin pointer
    that may send: the VC is active, its head flit is in the allocation stage
    and leads to the requested output port, and that port has an idle VC in
    the flit's virtual network. *)
Theorem arbitrate_inport_correct w w' r i x rr :
  SwitchAllocator_arbitrate_inport r i w = Ok (tt, w') →
  vget (net_m_routers w) r = Some x →
  vget (sa_m_round_robin_invc (rt_m_sw_alloc x)) i = Some rr →
  0 ≤ rr < sa_m_num_vcs (rt_m_sw_alloc x) →
  (w' = w ∧ ∀ v o, 0 ≤ v < sa_m_num_vcs (rt_m_sw_alloc x) → ¬ may_send w r i v o) ∨
  (∃ v o, first_sender w r i x rr v o ∧ w' = requested w r x i v o rr ∧
     (∃ c p l f, get_vc r i v w = Ok (c, w) ∧ contents w (vc_m_input_buffer c) = p :: l ∧
        net_flits w !! p = Some f ∧ fl_m_outport f = o ∧ fst (vc_m_vc_state c) = ACTIVE_ ∧
        flit_is_stage SA_ (net_cycle w) f = true) ∧
     OutputUnit_has_free_vc r o (v `quot` sa_m_vc_per_vnet (rt_m_sw_alloc x)) w = Ok (true, w)).
Proof.
  intros H Hx Hrr Hb.
  destruct (arbitrate_inport_search w r i x rr Hx Hrr Hb w' H) as [?|(v & o & Hf & ->)]; [by left|].
  right. exists v, o. split; [done|]. split; [done|]. destruct Hf as [(Hn & p & f & Hp & Hfl & Ho & Ha) _].
  split.
  - apply need_stage_true in Hn as (c & q & l & g & Hc & Hl & Hg & _ & Hs & Hact & _).
    apply InputUnit_peekTopFlit_Ok in Hp as (_ & b & l' & (c' & Hc' & <-) & Hl').
    rewrite Hc in Hc'. injection Hc' as <-. rewrite Hl in Hl'. injection Hl' as -> ->.
    exists c, p, l', g. rewrite Hg in Hfl. injection Hfl as ->. done.
  - apply send_allowed_true in Ha as (y & Hy & _ & Hfree). by assert (y = x) as -> by congruence.
Qed.

Lemma arbitrate_inport_correct_witness :
  ∃ w' x, SwitchAllocator_arbitrate_inport 0 1 (swap_scene 1) = Ok (tt, w') ∧
    vget (net_m_routers (swap_scene 1)) 0 = Some x ∧
    ∃ v o, first_sender (swap_scene 1) 0 1 x 0 v o ∧ w' = requested (swap_scene 1) 0 x 1 v o 0.
Proof.
  assert (Hb : match vget (net_m_routers (swap_scene 1)) 0 with
    | Some x => vget (sa_m_round_robin_invc (rt_m_sw_alloc x)) 1 = Some 0 ∧
                sa_m_num_vcs (rt_m_sw_alloc x) = 1 ∧ sa_m_input_arbiter_activity (rt_m_sw_alloc x) = 0
    | None => False end) by (vm_compute; split_and!; reflexivity).
  assert (Hr : match SwitchAllocator_arbitrate_inport 0 1 (swap_scene 1) with
    | Ok (_, w') => match vget (net_m_routers w') 0 with
                    | Some x => sa_m_input_arbiter_activity (rt_m_sw_alloc x) = 1
                    | None => False end
    | Abort _ => False end) by (vm_compute; reflexivity).
  destruct (vget (net_m_routers (swap_scene 1)) 0) as [x|] eqn:Hx; [|destruct Hb].
  destruct (SwitchAllocator_arbitrate_inport 0 1 (swap_scene 1)) as [[[] w']|] eqn:E; [|destruct Hr].
  destruct Hb as (Hrr & Hn & Hact). exists w', x. split; [reflexivity|]. split; [reflexivity|].
  destruct (arbitrate_inport_correct (swap_scene 1) w' 0 1 x 0 E Hx Hrr) as [[-> _]|H].
  - rewrite Hn. lia.
  - rewrite Hx, Hact in Hr. discriminate Hr.
  - destruct H as (v & o & Hf & Hw & _). exists v, o. split; assumption.
Defined.

(** ** The request matrix *)
Definition mreq (s : SwitchAllocator) (o i : Z) : Prop :=
  ∃ row, vget (sa_m_port_requests s) o = Some row ∧ vget row i = Some true.

Definition one_request (s : SwitchAllocator) (i : Z) : Prop :=
  ∀ o o', mreq s o i → mreq s o' i → o = o'.

(** Setting an entry of the matrix. *)
Lemma mset_lookup {A} (m : list (list A)) o i a o' i' row' b :
  vget (mset m o i a) o' = Some row' → vget row' i' = Some b →
  (o' = o ∧ i' = i ∧ b = a) ∨
  (∃ row, vget m o' = Some row ∧ vget row i' = Some b ∧ (o' ≠ o ∨ i' ≠ i)) .
Proof.
  unfold mset. destruct (vget m o) as [row|] eqn:Ho.
  - rewrite vget_vset. case_decide as E.
    + destruct E as [<- _]. intros [= <-]. rewrite vget_vset. case_decide as E.
      * destruct E as [<- _]. intros [= <-]. by left.
      * intros Hb. right. exists row. split_and!; [done|done|right].
        intros ->. apply E. split; [done|]. by eapply vget_Some_lt.
    + intros Hr Hb. right. exists row'. split_and!; [done|done|left].
      intros ->. apply E. split; [done|]. by eapply vget_Some_lt.
  - intros Hr Hb. right. exists row'. split_and!; [done|done|left]. congruence.
Qed.

Lemma mreq_requested s o i v rr o' i' :
  mreq (s <| sa_m_input_arbiter_activity ::= Z.succ |>
          <| sa_m_port_requests ::= λ m, mset m o i true |>
          <| sa_m_vc_winners ::= λ m, mset m o i v |>
          <| sa_m_round_robin_invc ::= λ l, vset l i rr |>) o' i' →
  (o' = o ∧ i' = i) ∨ mreq s o' i'.
Proof.
  intros (row & Ho & Hi). simpl in Ho.
  destruct (mset_lookup _ _ _ _ _ _ _ _ Ho Hi) as [(-> & -> & _)|(row' & ? & ? & _)]; [by left|].
  right. by exists row'.
Qed.

Lemma arbitrate_inport_round_robin r i w w' :
  SwitchAllocator_arbitrate_inport r i w = Ok (tt, w') →
  ∃ x rr, vget (net_m_routers w) r = Some x ∧
    vget (sa_m_round_robin_invc (rt_m_sw_alloc x)) i = Some rr.
Proof.
  intros H. unfold SwitchAllocator_arbitrate_inport, get_sa in H.
  apply bind_Ok in H as (sa & w1 & Hsa & H).
  apply bind_Ok in Hsa as (x & w2 & [Hx ->]%get_router_Ok & [= <- <-]).
  apply bind_Ok in H as (rr & w1 & [Hr _]%optG_Ok & _). eauto.
Qed.

(** The request matrix after the first stage: starting from a matrix
    without requests, with the round-robin pointers in range, after
    [arbitrate_inports] every input port requests at most one output port.  So
    the second stage, which grants each output port to one of its requests,
    never sends two flits of one input port in a cycle. *)
Theorem arbitrate_inports_one_request w w' r x :
  SwitchAllocator_arbitrate_inports r w = Ok (tt, w') →
  vget (net_m_routers w) r = Some x →
  (∀ o i, ¬ mreq (rt_m_sw_alloc x) o i) →
  Forall (λ rr, 0 ≤ rr < sa_m_num_vcs (rt_m_sw_alloc x)) (sa_m_round_robin_invc (rt_m_sw_alloc x)) →
  ∃ x', vget (net_m_routers w') r = Some x' ∧ (∀ i, one_request (rt_m_sw_alloc x') i) ∧
    Forall (λ rr, 0 ≤ rr < sa_m_num_vcs (rt_m_sw_alloc x')) (sa_m_round_robin_invc (rt_m_sw_alloc x')).
Proof.
  intros H Hx Hno Hrr. unfold SwitchAllocator_arbitrate_inports in H.
  apply bind_Ok in H as (sa & w1 & Hsa & H). rewrite (run_get_sa _ _ _ Hx) in Hsa.
  injection Hsa as <- <-.
  apply (for_each_returned _ _ (λ pre s, ∃ y, vget (net_m_routers s) r = Some y ∧
    (∀ i, one_request (rt_m_sw_alloc y) i) ∧ (∀ o i, i ∉ pre → ¬ mreq (rt_m_sw_alloc y) o i) ∧
    Forall (λ rr, 0 ≤ rr < sa_m_num_vcs (rt_m_sw_alloc y)) (sa_m_round_robin_invc (rt_m_sw_alloc y)))) in H.
  - destruct H as (y & Hy & H1 & _ & H2). eauto.
  - exists x. split_and!; [done| |done|done]. intros i o o' Hr. by apply Hno in Hr.
  - intros pre i post s s' E (y & Hy & H1 & H2 & H3) Hb.
    assert (Hi : i ∉ pre).
    { intros Hi. pose proof (NoDup_seqZ 0 (sa_m_num_inports (rt_m_sw_alloc x) - 0)) as Hnd.
      fold (zrange 0 (sa_m_num_inports (rt_m_sw_alloc x))) in Hnd. rewrite E in Hnd.
      apply NoDup_app in Hnd as (_ & Hnd & _). apply (Hnd i Hi). set_solver. }
    destruct (arbitrate_inport_round_robin _ _ _ _ Hb) as (z & rr & Hz & Hr).
    assert (z = y) as -> by congruence. pose proof (Forall_vget _ _ _ _ H3 Hr) as Hb3. simpl in Hb3.
    destruct (arbitrate_inport_search s r i y rr Hy Hr Hb3 s' Hb) as [[-> _]|(v & o & _ & ->)].
    + exists y. split_and!; [done|done|set_solver|done].
    + eexists. split; [simpl; apply vget_vset_eq; by eapply vget_Some_lt|]. split_and!.
      * intros j o1 o2 Q1%mreq_requested Q2%mreq_requested.
        destruct Q1 as [[-> ->]|Q1], Q2 as [[-> E2]|Q2]; [done|by apply H2 in Q2| |by eapply H1].
        subst j. by apply H2 in Q1.
      * intros o1 j Hj Q%mreq_requested. destruct Q as [[-> ->]|Q]; [set_solver|].
        apply (H2 o1 j); [set_solver|done].
      * simpl. apply Forall_vset; [done|]. case_match; lia.
Qed.

(** An executable form of the hypotheses. *)
Definition no_requests (s : SwitchAllocator) : bool :=
  forallb (forallb negb) (sa_m_port_requests s).

Lemma no_requests_spec s : no_requests s = true → ∀ o i, ¬ mreq s o i.
Proof.
  unfold no_requests. intros H o i (row & [_ Ho]%vget_Some & [_ Hi]%vget_Some).
  rewrite forallb_forall in H. apply list_elem_of_lookup_2, list_elem_of_In, H in Ho.
  rewrite forallb_forall in Ho. by apply list_elem_of_lookup_2, list_elem_of_In, Ho in Hi.
Qed.

Lemma arbitrate_inports_one_request_witness :
  ∃ w' x', SwitchAllocator_arbitrate_inports 0 (swap_scene 1) = Ok (tt, w') ∧
    vget (net_m_routers w') 0 = Some x' ∧ (∃ o i, mreq (rt_m_sw_alloc x') o i) ∧
    ∀ i, one_request (rt_m_sw_alloc x') i.
Proof.
  assert (Hb : match vget (net_m_routers (swap_scene 1)) 0 with
    | Some x => no_requests (rt_m_sw_alloc x) = true ∧
        bool_decide (Forall (λ rr, 0 ≤ rr < sa_m_num_vcs (rt_m_sw_alloc x))
          (sa_m_round_robin_invc (rt_m_sw_alloc x))) = true
    | None => False end) by (vm_compute; split; reflexivity).
  assert (Hr : match SwitchAllocator_arbitrate_inports 0 (swap_scene 1) with
    | Ok (_, w') => match vget (net_m_routers w') 0 with
                    | Some x => sa_m_port_requests (rt_m_sw_alloc x) !! 2%nat =
                                  Some [false; true; false]
                    | None => False end
    | Abort _ => False end) by (vm_compute; reflexivity).
  destruct (vget (net_m_routers (swap_scene 1)) 0) as [x|] eqn:Hx; [|destruct Hb].
  destruct (SwitchAllocator_arbitrate_inports 0 (swap_scene 1)) as [[[] w']|] eqn:E; [|destruct Hr].
  destruct Hb as (Hno & Hrr). apply bool_decide_eq_true in Hrr.
  destruct (arbitrate_inports_one_request (swap_scene 1) w' 0 x E Hx (no_requests_spec _ Hno) Hrr)
    as (x' & Hx' & Hone & _).
  exists w', x'. split; [reflexivity|]. split; [exact Hx'|]. split; [|exact Hone].
  rewrite Hx' in Hr. exists 2, 1. exists [false; true; false]. split; [exact Hr|reflexivity].
Defined.

(** ** End of the cycle *)
Definition sa_view (w : GNet) : list SwitchAllocator := rt_m_sw_alloc <$> net_m_routers w.
Definition same_sa : relation GNet := keeps sa_view.
#[export] Instance same_sa_preorder : PreOrder same_sa := keeps_preorder _.
Lemma same_sa_check_for_wakeup r : preserves same_sa (SwitchAllocator_check_for_wakeup r).
Proof. pres by (apply preserves_modify; intros ?; reflexivity). Qed.

(** The entries that have been cleared, in a matrix of the same shape. *)
Definition cleared (w : GNet) (r : Z) (n : SwitchAllocator) (P : Z → Z → Prop) : Prop :=
  ∃ x, vget (net_m_routers w) r = Some x ∧
    sa_m_num_outports (rt_m_sw_alloc x) = sa_m_num_outports n ∧
    sa_m_num_inports (rt_m_sw_alloc x) = sa_m_num_inports n ∧
    ∀ o i, P o i → ¬ mreq (rt_m_sw_alloc x) o i.

Lemma clear_entry r n P o i w w' :
  cleared w r n P →
  (s ← get_sa r;
   _ ← mget (sa_m_port_requests s) o i "m_port_requests";
   upd_sa r (λ s, s <| sa_m_port_requests ::= λ m, mset m o i false |>)) w = Ok (tt, w') →
  cleared w' r n (λ o' i', P o' i' ∨ (o' = o ∧ i' = i)).
Proof.
  intros (x & Hx & Ho & Hi & HP) H. rewrite (bind_run _ _ _ _ _ (run_get_sa _ _ _ Hx)) in H.
  apply bind_Ok in H as (? & w1 & ->%reads_mget & H). unfold upd_sa in H.
  rewrite (run_upd_router _ _ _ _ Hx) in H. injection H as <-.
  eexists. split; [simpl; apply vget_vset_eq; by eapply vget_Some_lt|]. split_and!; [done..|].
  intros o' i' HP' (row & Hr & Hb). simpl in Hr.
  destruct (mset_lookup _ _ _ _ _ _ _ _ Hr Hb) as [(_ & _ & ?)|(row' & ? & ? & Hne)]; [done|].
  destruct HP' as [HP'|[-> ->]]; [|naive_solver]. apply (HP o' i' HP'). by exists row'.
Qed.

Lemma cleared_mono w r n (P Q : Z → Z → Prop) :
  (∀ o i, Q o i → P o i) → cleared w r n P → cleared w r n Q.
Proof. intros HPQ (x & ? & ? & ? & HP). exists x. split_and!; try done. eauto. Qed.

(** When [SwitchAllocator::wakeup] returns, no request is left in the
    request matrix, so that the next cycle starts from the state that the
    first stage relies on. *)
Theorem SwitchAllocator_wakeup_clears w w' r :
  SwitchAllocator_wakeup r w = Ok (tt, w') →
  ∃ x, vget (net_m_routers w') r = Some x ∧
    ∀ o i, 0 ≤ o < sa_m_num_outports (rt_m_sw_alloc x) →
           0 ≤ i < sa_m_num_inports (rt_m_sw_alloc x) → ¬ mreq (rt_m_sw_alloc x) o i.
Proof.
  intros H. unfold SwitchAllocator_wakeup in H.
  apply bind_Ok in H as ([] & w1 & _ & H). apply bind_Ok in H as ([] & w2 & _ & H).
  apply bind_Ok in H as ([] & w3 & Hc & H).
  unfold SwitchAllocator_clear_request_vector in Hc.
  apply bind_Ok in Hc as (n & w4 & Hn & Hc). unfold get_sa in Hn.
  apply bind_Ok in Hn as (y & w5 & [Hy ->]%get_router_Ok & [= <- <-]).
  apply (for_each_returned _ _ (λ pre s, cleared s r (rt_m_sw_alloc y)
    (λ o i, o ∈ pre ∧ 0 ≤ i < sa_m_num_inports (rt_m_sw_alloc y)))) in Hc.
  - destruct Hc as (x & Hx & Ho & Hi & Hno). apply same_sa_check_for_wakeup in H.
    destruct (list_fmap_eq_lookup _ _ _ _ _ H Hx) as (x' & Hx' & Ex).
    exists x'. split; [done|]. rewrite Ex, Ho, Hi. intros o i Hob Hib. apply Hno.
    split; [by apply elem_of_zrange|done].
  - exists y. split_and!; try done. intros o i [Hin _]. by apply not_elem_of_nil in Hin.
  - intros pre o post s s' _ Hcl Hb.
    apply (for_each_returned _ _ (λ pre' s, cleared s r (rt_m_sw_alloc y)
      (λ o' i, (o' ∈ pre ∧ 0 ≤ i < sa_m_num_inports (rt_m_sw_alloc y)) ∨ (o' = o ∧ i ∈ pre')))) in Hb.
    + eapply cleared_mono; [|exact Hb]. intros o' i. simpl.
      rewrite elem_of_app, list_elem_of_singleton, elem_of_zrange. naive_solver.
    + eapply cleared_mono; [|exact Hcl]. intros o' i. rewrite elem_of_nil. naive_solver.
    + intros pre' i post' s1 s1' _ Hcl1 Hb1. eapply cleared_mono; [|by eapply clear_entry].
      intros o' i'. simpl. rewrite elem_of_app, list_elem_of_singleton. naive_solver.
Qed.

Lemma SwitchAllocator_wakeup_clears_witness :
  ∃ w' x, SwitchAllocator_wakeup 0 (swap_scene 1) = Ok (tt, w') ∧
    vget (net_m_routers w') 0 = Some x ∧
    ∀ o i, 0 ≤ o < sa_m_num_outports (rt_m_sw_alloc x) →
           0 ≤ i < sa_m_num_inports (rt_m_sw_alloc x) → ¬ mreq (rt_m_sw_alloc x) o i.
Proof.
  assert (Hr : returns (SwitchAllocator_wakeup 0 (swap_scene 1)) = true) by (vm_compute; reflexivity).
  destruct (SwitchAllocator_wakeup 0 (swap_scene 1)) as [[[] w']|] eqn:E; [|discriminate Hr].
  destruct (SwitchAllocator_wakeup_clears (swap_scene 1) w' 0 E) as (x & Hx & H).
  exists w', x. split; [reflexivity|]. split; assumption.
Defined.
