(* ===== verification/BufferTheory.v ===== *)
(** * The queues are priority queues

    A flit buffer returns its flits in the order of time and flit number; a
    message buffer returns its messages in the order of arrival tick and
    message counter, so that messages with the same arrival tick leave in the
    order in which they came. *)

From Stdlib Require Import Sorting.Sorted.
From S2P Require Import Prelude BinaryHeap NetDestModel CommonTypes GarnetState FlitBuffer Channels RoutingUnitModel SwapModel UnitsModel SwitchAllocatorModel MessageBufferModel NetworkInterfaceModel BuildModel Scenarios SystemModel StateLemmas QueueLemmas Wiring.

(** ** Flit buffers *)

(** C21.  A flit buffer is a priority queue: inserting live flits into an empty
    buffer and removing as many yields the same flits, sorted by time and, for
    equal times, by flit number; the buffer is empty again. *)
Theorem flitBuffer_sorts b ps w :
  wf_fb w b → contents w b = [] → Forall (λ p, is_Some (net_flits w !! p)) ps →
  wp (for_each ps (flitBuffer_insert b) ;; drain (length ps) b)
     (λ out w', out ≡ₚ ps ∧ StronglySorted (earlier (net_flits w)) out ∧ contents w' b = []) w.
Proof.
  intros Hw He Hl. apply wp_bind. eapply wp_mono; [by apply fill_wf|].
  intros _ w1 (Hw1 & Hc1 & Hf1). rewrite He, app_nil_r in Hc1.
  eapply wp_mono; [apply drain_sorted; [done|by rewrite Hc1]|].
  intros out w2 (Ho & Hs & Hc2). rewrite Hf1 in Hs. split_and!; [by rewrite Ho|done|done].
Qed.

(** Three flits with times 5, 3, 5 and numbers 1, 0, 0 and an empty buffer. *)
Definition buffer_scene : GNet :=
  after (_ ← new_flit ((flit_ctor 1 0 0 (sample_route 3) 1 None 5));
         _ ← new_flit ((flit_ctor 0 0 0 (sample_route 3) 1 None 3));
         _ ← new_flit ((flit_ctor 0 0 0 (sample_route 3) 1 None 5));
         new_fb flitBuffer_ctor)
    (empty_net (net_cfg (sample_mesh 2 2 1 XY_ 1)) (λ _, 0%N)).

Lemma flitBuffer_sorts_witness :
  wp (for_each [0; 1; 2]%nat (flitBuffer_insert 3) ;; drain 3 3)
     (λ out w', out ≡ₚ [0; 1; 2]%nat ∧ StronglySorted (earlier (net_flits buffer_scene)) out ∧
                contents w' 3 = []) buffer_scene.
Proof.
  apply (flitBuffer_sorts 3 [0; 1; 2]%nat buffer_scene).
  - split; [vm_compute; eexists; reflexivity|].
    assert (E : contents buffer_scene 3 = []) by (vm_compute; reflexivity). rewrite E.
    split; [apply is_heap_nil|constructor].
  - vm_compute. reflexivity.
  - repeat constructor; vm_compute; eexists; reflexivity.
Defined.

(** ** Message buffers *)

(** [MessageBuffer::enqueue] without randomization: a message that is not
    already queued, enqueued with a positive delay into a buffer whose FIFO
    discipline allows it, is in the buffer afterwards with the arrival tick
    [current_time + delta] and the next counter value; the buffer is still
    ordered, the other messages are unchanged, the buffer's consumer is going to
    be woken at the arrival tick, and if it is a switch of the simple network,
    its count of pending messages is one higher. *)
Lemma MessageBuffer_enqueue_correct w b x p m c t delta :
  mb_at w b x → net_msgs w !! p = Some m → p ∉ mb_m_prio_heap x →
  0 < delta → msg_m_LastEnqueueTime m ≤ t → mb_m_consumer x = Some c →
  event_ok (net_m_switches w) (Some c) (mb_m_vnet_id x) →
  cf_randomization (net_cfg w) = false → mb_m_randomization x = false →
  (mb_m_strict_fifo x = true → mb_m_last_arrival_time x ≤ t + delta) →
  wp (MessageBuffer_enqueue b p t delta)
     (λ _ w', ∃ x' m', mb_at w' b x' ∧ mb_m_prio_heap x' ≡ₚ p :: mb_m_prio_heap x ∧
        net_msgs w' = <[p := m']> (net_msgs w) ∧ msg_m_LastEnqueueTime m' = t + delta ∧
        msg_m_msg_counter m' = mb_m_msg_counter x + 1 ∧ msg_payload m' = msg_payload m ∧
        (alreadyScheduled c (t + delta) w = true ∨ (t + delta, c) ∈ net_eventq w') ∧
        net_m_switches w' = bump_pending (Some c) (mb_m_vnet_id x) 1 (net_m_switches w)) w.
Proof.
  intros [Hx Hh] Hm Hp Hd Hle Hc Hev Hr1 Hr2 Hfifo. apply (wp_enqueue _ x _ _ m); [done..|by rewrite Hc| |].
  { unfold enq_ok. simpl. destruct (mb_m_strict_fifo x); auto. }
  intros w' [(a & last & _ & Ha & _ & Emsg & Ecore & Hsch) Esw _].
  rewrite (Ha (conj Hr1 Hr2)) in *. clear Ha.
  assert (Hc' : vget (cores w') b = Some (enqueued_core (net_msgs w') p last (mb_core x))).
  { rewrite Ecore. apply vget_vset_eq. by eapply vget_Some_lt, vget_cores. }
  apply vget_cores_inv in Hc' as (x' & Hx' & Hcx). injection Hcx as Hheap _ _ _ _ _.
  exists x'. eexists. split_and!; [split; [done|]| |exact Emsg|done..|by auto|by rewrite Esw, Hc].
  - rewrite Hheap. apply push_heap_heap; [apply _|]. eapply is_heap_same_key; [|exact Hh].
    intros q Hq. unfold same_key, msg_at. rewrite Emsg, lookup_insert_ne; [done|]. by intros ->.
  - rewrite Hheap, push_heap_perm. simpl. by rewrite Permutation_app_comm.
Qed.

(** A buffer with one message that arrives at tick 5, and a new message. *)
Definition message_scene : GNet :=
  after (_ ← new_msg ((sample_message 3) <| msg_m_LastEnqueueTime := 5 |> <| msg_m_msg_counter := 1 |>);
         _ ← new_msg (sample_message 2);
         modify (λ w, w <| net_mbufs := [(MessageBuffer_ctor 0 false false)
           <| mb_m_consumer := Some (CNI 0) |> <| mb_m_prio_heap := [0%nat] |>
           <| mb_m_msg_counter := 1 |>] |>))
    (empty_net (net_cfg (sample_mesh 2 2 1 XY_ 1)) (λ _, 0%N)).

Lemma message_scene_at :
  mb_at message_scene 0 ((MessageBuffer_ctor 0 false false)
    <| mb_m_consumer := Some (CNI 0) |> <| mb_m_prio_heap := [0%nat] |> <| mb_m_msg_counter := 1 |>).
Proof.
  split; [vm_compute; reflexivity|]. intros i p q Hi Hp Hq. simpl in Hq.
  destruct i as [|[|i]]; simpl in *; [lia|done|done].
Qed.

(** [MessageBuffer::dequeue] of a buffer whose first message has arrived
    returns that message's total delay and removes it; the message is the
    earliest of the buffer by arrival tick and, among equal ticks, by counter;
    the rest of the buffer is kept and is still ordered. *)
Lemma MessageBuffer_dequeue_earliest w b x p tl m t :
  mb_at w b x → mb_m_prio_heap x = p :: tl → net_msgs w !! p = Some m →
  msg_m_LastEnqueueTime m ≤ t →
  Forall (sooner (net_msgs w) p) (p :: tl) ∧
  wp (MessageBuffer_dequeue b t true)
     (λ delay w', delay = msg_m_DelayedTicks m + (t - msg_m_LastEnqueueTime m) ∧
        ∃ x', mb_at w' b x' ∧ mb_m_prio_heap x' ≡ₚ tl) w.
Proof.
  intros [Hx Hh] Hl Hm Ht. split.
  { apply Forall_lookup. intros i q Hq. apply msgptr_greater_false.
    rewrite Hl in Hh. eapply heap_front_le; [apply _|exact Hh|exact Hq]. }
  apply (wp_dequeue _ x _ p tl m); [done..|]. intros w' [Emsg Ecore _]. split; [done|].
  assert (Hc' : vget (cores w') b = Some (dequeued_core (net_msgs w') (mb_core x))).
  { rewrite Ecore. apply vget_vset_eq. by eapply vget_Some_lt, vget_cores. }
  apply vget_cores_inv in Hc' as (x' & Hx' & Hcx). injection Hcx as Hheap _ _ _ _ _.
  exists x'. split; [split; [done|]|]; rewrite Hheap, Hl.
  - apply pop_heap_heap; [apply _|]. rewrite Emsg. rewrite Hl in Hh.
    eapply is_heap_same_key; [|exact Hh]. intros q _. by apply same_key_delay.
  - destruct (pop_heap_back (msgptr_greater (net_msgs w')) p tl) as (l' & -> & Hp).
    by rewrite removelast_last.
Qed.

(** C22.  A message buffer is a queue ordered by arrival.  Without randomization,
    a message that is not already queued, enqueued with a positive delay into a
    buffer whose FIFO discipline allows it, is in the buffer afterwards with the
    arrival tick [t + delta] and the next counter value; the other messages are
    unchanged, the consumer is going to be woken at that tick, and a switch of the
    simple network counts one more pending message.  [dequeue] of a buffer whose
    first message has arrived removes the earliest message by arrival tick and
    counter and returns its total delay.  The buffer stays ordered in both. *)
Theorem MessageBuffer_is_a_queue w b x :
  mb_at w b x →
  (∀ p m c t delta,
    net_msgs w !! p = Some m → p ∉ mb_m_prio_heap x →
    0 < delta → msg_m_LastEnqueueTime m ≤ t → mb_m_consumer x = Some c →
    event_ok (net_m_switches w) (Some c) (mb_m_vnet_id x) →
    cf_randomization (net_cfg w) = false → mb_m_randomization x = false →
    (mb_m_strict_fifo x = true → mb_m_last_arrival_time x ≤ t + delta) →
    wp (MessageBuffer_enqueue b p t delta)
       (λ _ w', ∃ x' m', mb_at w' b x' ∧ mb_m_prio_heap x' ≡ₚ p :: mb_m_prio_heap x ∧
          net_msgs w' = <[p := m']> (net_msgs w) ∧ msg_m_LastEnqueueTime m' = t + delta ∧
          msg_m_msg_counter m' = mb_m_msg_counter x + 1 ∧ msg_payload m' = msg_payload m ∧
          (alreadyScheduled c (t + delta) w = true ∨ (t + delta, c) ∈ net_eventq w') ∧
          net_m_switches w' = bump_pending (Some c) (mb_m_vnet_id x) 1 (net_m_switches w)) w) ∧
  (∀ p tl m t,
    mb_m_prio_heap x = p :: tl → net_msgs w !! p = Some m → msg_m_LastEnqueueTime m ≤ t →
    Forall (sooner (net_msgs w) p) (p :: tl) ∧
    wp (MessageBuffer_dequeue b t true)
       (λ delay w', delay = msg_m_DelayedTicks m + (t - msg_m_LastEnqueueTime m) ∧
          ∃ x', mb_at w' b x' ∧ mb_m_prio_heap x' ≡ₚ tl) w).
Proof.
  intros Hx. split; intros.
  - by apply MessageBuffer_enqueue_correct.
  - by apply (MessageBuffer_dequeue_earliest w b x p tl m t).
Qed.

Lemma MessageBuffer_is_a_queue_witness :
  wp (MessageBuffer_enqueue 0 1 2 1)
     (λ _ w', ∃ x' m', mb_at w' 0 x' ∧ mb_m_prio_heap x' ≡ₚ [1; 0]%nat ∧
        net_msgs w' = <[1%nat := m']> (net_msgs message_scene) ∧ msg_m_LastEnqueueTime m' = 3)
     message_scene ∧
  wp (MessageBuffer_dequeue 0 7 true)
     (λ delay w', delay = 2 ∧ ∃ x', mb_at w' 0 x' ∧ mb_m_prio_heap x' ≡ₚ []) message_scene.
Proof.
  destruct (MessageBuffer_is_a_queue message_scene 0 _ message_scene_at) as [He Hd]. split.
  - eapply wp_mono.
    + apply (He 1%nat (sample_message 2) (CNI 0) 2 1); [| |lia|simpl; lia|reflexivity|exact I| |reflexivity|discriminate].
      * vm_compute. reflexivity.
      * simpl. apply not_elem_of_cons. split; [lia|apply not_elem_of_nil].
      * vm_compute. reflexivity.
    + simpl. intros _ w' (x' & m' & H1 & H2 & H3 & H4 & _). exists x', m'. auto.
  - assert (Hm : net_msgs message_scene !! 0%nat =
      Some ((sample_message 3) <| msg_m_LastEnqueueTime := 5 |> <| msg_m_msg_counter := 1 |>))
      by (vm_compute; reflexivity).
    destruct (Hd 0%nat [] _ 7 eq_refl Hm) as [_ H]; [simpl; lia|].
    eapply wp_mono; [exact H|]. intros delay w' [-> Hx']. split; [reflexivity|exact Hx'].
Defined.
