(* ===== verification/InterfaceTheory.v ===== *)
(** * The network interface

    Allocation of virtual channels for injected packets, the virtual network
    of a VC, and destination sets. *)

From S2P Require Import Prelude BinaryHeap NetDestModel CommonTypes GarnetState FlitBuffer Channels RoutingUnitModel SwapModel UnitsModel SwitchAllocatorModel MessageBufferModel NetworkInterfaceModel BuildModel Scenarios SystemModel StateLemmas.

Lemma get_ni_run n w x : vget (net_m_nis w) n = Some x → get_ni n w = Ok (x, w).
Proof.
  intros Hx. apply bind_Ok. exists (Some x), w. split; [unfold gets; by rewrite Hx|by apply optG_Ok].
Qed.

Lemma wp_get_ni n w x Q : vget (net_m_nis w) n = Some x → Q x w → wp (get_ni n) Q w.
Proof. intros Hx. apply wp_run. by apply get_ni_run. Qed.

Lemma wp_upd_ni n f w x (Q : () → GNet → Prop) :
  vget (net_m_nis w) n = Some x →
  (∀ w', w' = w <| net_m_nis ::= λ l, vset l n (f x) |> → vget (net_m_nis w') n = Some (f x) → Q tt w') →
  wp (upd_ni n f) Q w.
Proof.
  intros Hx HQ. unfold upd_ni. apply wp_bind, (wp_get_ni _ _ x); [done|].
  apply wp_modify, HQ; [done|]. simpl. apply vget_vset_eq. by eapply vget_Some_lt.
Qed.

(** ** [calculateVC] *)
Section CalculateVC.
Context (w : GNet) (n vnet : Z) (x : NetworkInterface) (a busy : Z).
Let k := ni_m_vc_per_vnet x.
Let base := vnet * k.
Context (Hx : vget (net_m_nis w) n = Some x) (Hk : 0 < k) (Hbase : 0 ≤ base).
Context (Htab : base + k ≤ vsize (ni_m_out_vc_state x)).
Context (Ha : vget (ni_m_vc_allocator x) vnet = Some a) (Hab : 0 ≤ a < k).
Context (Hbusy : vget (ni_vc_busy_counter x) vnet = Some busy).

Definition ni_idle (vc : Z) : bool :=
  match vget (ni_m_out_vc_state x) vc with
  | Some s => OutVcState_isInState IDLE_ (net_cycle w) s
  | None => false
  end.

(** After [j] probes. *)
Definition probed (j : Z) (s : GNet) : Prop :=
  s = w <| net_m_nis := net_m_nis s |> ∧
  (∃ y, vget (net_m_nis s) n = Some y ∧ ni_m_out_vc_state y = ni_m_out_vc_state x ∧
     ni_m_vc_per_vnet y = k ∧ ni_vc_busy_counter y = ni_vc_busy_counter x ∧
     ni_m_deadlock_threshold y = ni_m_deadlock_threshold x ∧
     vget (ni_m_vc_allocator y) vnet = Some ((a + j) mod k)) ∧
  ∀ i, 0 ≤ i < j → ni_idle (base + (a + i) mod k) = false.

Definition granted (vc : Z) (s : GNet) : Prop :=
  ni_idle vc = true ∧ base ≤ vc < base + k ∧
  ∃ y, vget (net_m_nis s) n = Some y ∧ vget (ni_vc_busy_counter y) vnet = Some 0 ∧
       ni_m_out_vc_state y = ni_m_out_vc_state x.

Lemma wp_probe j s :
  0 ≤ j → probed j s →
  wp (calculateVC_probe n vnet)
     (λ r s', match r with inl _ => probed (j + 1) s' | inr vc => granted vc s' end) s.
Proof.
  intros Hj (Hs & (y & Hy & E1 & E2 & E3 & E4 & E5) & Hno). unfold calculateVC_probe.
  apply wp_bind, (wp_get_ni _ _ y); [done|]. apply wp_bind. unfold vgetG. rewrite E5.
  apply wp_ret, wp_bind, (wp_upd_ni _ _ _ y); [done|]. intros s1 Es1 Hy1.
  apply wp_bind, wp_gets. set (vc := vnet * ni_m_vc_per_vnet y + (a + j) mod k).
  pose proof (Z.mod_pos_bound (a + j) k Hk) as Hm.
  assert (Hvc : vc = base + (a + j) mod k) by (unfold vc, base; by rewrite E2).
  destruct (vget_lookup (ni_m_out_vc_state x) vc) as [o Ho]; [lia|].
  apply wp_bind. unfold ni_get_outvc. apply wp_bind, (wp_get_ni _ _ _ _ Hy1). simpl.
  rewrite E1. unfold vgetG. rewrite Ho. apply wp_ret.
  assert (Ec : net_cycle s1 = net_cycle w) by (rewrite Es1; simpl; rewrite Hs; done).
  assert (Hid : ni_idle vc = OutVcState_isInState IDLE_ (net_cycle s1) o)
    by (unfold ni_idle; by rewrite Ho, Ec).
  rewrite <- Hid. destruct (ni_idle vc) eqn:Ei.
  - apply wp_bind. rewrite E3, Hbusy. apply wp_ret, wp_bind, (wp_upd_ni _ _ _ _ _ Hy1).
    intros s2 Es2 Hy2. apply wp_ret. split_and!; [done|lia|lia|]. eexists. split; [exact Hy2|].
    simpl. split; [|done]. rewrite E3. apply vget_vset_eq. by eapply vget_Some_lt.
  - apply wp_ret. split_and!.
    + rewrite Es1, Hs. by destruct w.
    + eexists. split; [exact Hy1|]. simpl. split_and!; [done..|]. rewrite vget_vset_eq; [|by eapply vget_Some_lt].
      f_equal. rewrite E2. rewrite Z.add_assoc. destruct (Z.eqb_spec ((a + j) mod k + 1) k) as [E|E].
      * symmetry. rewrite <- Z.add_mod_idemp_l by lia. rewrite E. by apply Z.mod_same; lia.
      * symmetry. rewrite <- Z.add_mod_idemp_l by lia. apply Z.mod_small. lia.
    + intros i Hi. destruct (decide (i = j)) as [->|]; [by rewrite <- Hvc|apply Hno; lia].
Qed.

Lemma calculateVC_run :
  (∃ vc s, NetworkInterface_calculateVC n vnet w = Ok (vc, s) ∧ granted vc s) ∨
  ((∀ vc, base ≤ vc < base + k → ni_idle vc = false) ∧
   ((busy + 1 ≤ ni_m_deadlock_threshold x ∧ ∃ s, NetworkInterface_calculateVC n vnet w = Ok (-1, s)) ∨
    (ni_m_deadlock_threshold x < busy + 1 ∧
     NetworkInterface_calculateVC n vnet w = Abort (Panic "Possible network deadlock")))).
Proof.
  unfold NetworkInterface_calculateVC. erewrite bind_run by (by apply get_ni_run). fold k.
  assert (H : wp (loop (zrange 0 k) tt (λ _ _, calculateVC_probe n vnet))
    (λ r s, match r with inl _ => probed k s | inr vc => granted vc s end) w).
  { assert (Hsz : vsize (zrange 0 k) = k) by (unfold vsize, zrange; rewrite length_seqZ; lia).
    eapply wp_mono; [apply (wp_loop _ _ _ (λ pre _ s, probed (vsize pre) s) granted)|];
      [| |by intros [[]|vc] s; rewrite ?Hsz].
    - split_and!; [by destruct w| |unfold vsize; simpl; lia]. exists x. split_and!; try done.
      unfold vsize. simpl. rewrite Z.add_0_r, Z.mod_small by lia. done.
    - intros pre i post [] s _ Hp.
      replace (vsize (pre ++ [i])) with (vsize pre + 1) by (unfold vsize; rewrite length_app; simpl; lia).
      apply wp_probe; [unfold vsize; lia|done]. }
  apply wp_Ok in H as (res & s & Hrun & Hres). rewrite (bind_run _ _ _ _ _ Hrun).
  destruct res as [[]|vc]; [right|left; by exists vc, s].
  destruct Hres as (_ & (y & Hy & E1 & E2 & E3 & E4 & _) & Hno). split.
  { intros vc Hvc. replace vc with (base + (a + (vc - base - a) mod k) mod k).
    - apply Hno. apply Z.mod_pos_bound. lia.
    - rewrite Z.add_mod_idemp_r by lia. replace (a + (vc - base - a)) with (vc - base) by lia.
      rewrite Z.mod_small by lia. lia. }
  erewrite bind_run by (by apply get_ni_run).
  rewrite (bind_run _ _ _ busy s) by (unfold vgetG; by rewrite E3, Hbusy).
  unfold upd_ni. erewrite bind_run; [|erewrite bind_run by (by apply get_ni_run); done].
  rewrite E4. destruct (Z.ltb_spec (ni_m_deadlock_threshold x) (busy + 1)); [right|left]; split;
    first [lia|done|by eexists].
Qed.
End CalculateVC.

(** C24.  [calculateVC] picks a VC for a new packet: if a VC of the virtual
    network is idle, it returns an idle one of that network and resets the
    network's busy counter; if none is idle, it returns -1 as long as the busy
    counter does not exceed the deadlock threshold, and stops the simulation
    with "Possible network deadlock" when it does. *)
Theorem calculateVC_correct w n vnet x a busy :
  let k := ni_m_vc_per_vnet x in
  let base := vnet * k in
  vget (net_m_nis w) n = Some x → 0 < k → 0 ≤ base → base + k ≤ vsize (ni_m_out_vc_state x) →
  vget (ni_m_vc_allocator x) vnet = Some a → 0 ≤ a < k →
  vget (ni_vc_busy_counter x) vnet = Some busy →
  match NetworkInterface_calculateVC n vnet w with
  | Ok (vc, w') =>
      if decide (vc = -1) then
        (∀ v, base ≤ v < base + k → ni_idle w x v = false) ∧ busy + 1 ≤ ni_m_deadlock_threshold x
      else base ≤ vc < base + k ∧ ni_idle w x vc = true ∧
           ∃ y, vget (net_m_nis w') n = Some y ∧ vget (ni_vc_busy_counter y) vnet = Some 0
  | Abort e => e = Panic "Possible network deadlock" ∧ ni_m_deadlock_threshold x < busy + 1 ∧
      ∀ v, base ≤ v < base + k → ni_idle w x v = false
  end.
Proof.
  intros k base Hx Hk Hb Ht Ha Hab Hbusy.
  destruct (calculateVC_run w n vnet x a busy Hx Hk Hb Ht Ha Hab Hbusy)
    as [(vc & s & -> & Hi & Hr & y & Hy & Hz & _)|[Hno [[Hle [s ->]]|[Hlt ->]]]].
  - fold k base in Hr. rewrite decide_False by lia. split_and!; [lia|lia|done|eauto].
  - rewrite decide_True by done. done.
  - done.
Qed.

Lemma calculateVC_correct_witness :
  ∃ vc w', NetworkInterface_calculateVC 0 0 (sample_mesh 2 2 2 XY_ 1) = Ok (vc, w') ∧ 0 ≤ vc < 2.
Proof.
  assert (Hb : match vget (net_m_nis (sample_mesh 2 2 2 XY_ 1)) 0 with
    | Some x => ni_m_vc_per_vnet x = 2 ∧ vsize (ni_m_out_vc_state x) = 2 ∧
                vget (ni_m_vc_allocator x) 0 = Some 0 ∧ vget (ni_vc_busy_counter x) 0 = Some 0
    | None => False end) by (vm_compute; split_and!; reflexivity).
  assert (Hr : match NetworkInterface_calculateVC 0 0 (sample_mesh 2 2 2 XY_ 1) with
    | Ok (vc, _) => vc ≠ -1 | Abort _ => False end) by (vm_compute; discriminate).
  destruct (vget (net_m_nis (sample_mesh 2 2 2 XY_ 1)) 0) as [x|] eqn:Hx; [|destruct Hb].
  destruct Hb as (Hk & Hs & Ha & Hbusy).
  pose proof (calculateVC_correct (sample_mesh 2 2 2 XY_ 1) 0 0 x 0 0 Hx) as H.
  rewrite Hk in H. specialize (H ltac:(lia) ltac:(lia) ltac:(lia) Ha ltac:(lia) Hbusy).
  destruct (NetworkInterface_calculateVC 0 0 (sample_mesh 2 2 2 XY_ 1)) as [[vc w']|]; [|destruct Hr].
  rewrite decide_False in H by exact Hr. exists vc, w'. split; [reflexivity|]. lia.
Defined.
