(* ===== verification/FunctionalTheory.v ===== *)
(** * Functional writes reach the messages in the network

    Theory of FunctionalModel.v: a functional write of a Garnet network writes
    exactly the messages of the flits in the virtual channels, the crossbars, the
    output buffers, the output channels and queues of the network interfaces and
    the links, each as if it were written once, and counts the flits whose message
    has the address; a functional write of a simple network does so for the
    messages in the queues between its switches.  Nothing else changes.  When no
    flit is stalled in an interface those are all the flits in the network. *)

From S2P Require Import Prelude BinaryHeap NetDestModel AddrRangeModel NetworkModel CommonTypes GarnetState FlitBuffer Channels RoutingUnitModel SwapModel UnitsModel SwitchAllocatorModel MessageBufferModel NetworkInterfaceModel BuildModel TopologyModel SimpleNetworkModel FunctionalModel Scenarios SystemModel StateLemmas QueueLemmas.

Lemma u32_add_l a b : u32 (u32 a + b) = u32 (a + b).
Proof. unfold u32. rewrite Z.add_mod_idemp_l; [done|lia]. Qed.
Lemma u32_add_r a b : u32 (a + u32 b) = u32 (a + b).
Proof. unfold u32. rewrite Z.add_mod_idemp_r; [done|lia]. Qed.
Lemma u32_u32 a : u32 (u32 a) = u32 a.
Proof. unfold u32. apply Z.mod_mod. lia. Qed.

Section Visits.
Context `{FW : FunctionalMessage}.

(** One after the other, the messages [l] are written. *)
Definition write_msg (h : gmap ptr Message) (q : ptr) : gmap ptr Message :=
  alter (λ m, snd (Message_functionalWrite m)) q h.
Definition write_all (l : list ptr) (h : gmap ptr Message) : gmap ptr Message := foldl write_msg h l.
Definition accepts (h : gmap ptr Message) (q : ptr) : Z :=
  match h !! q with Some m => Z.b2z (fst (Message_functionalWrite m)) | None => 0 end.
Fixpoint accepted (l : list ptr) (h : gmap ptr Message) : Z :=
  match l with [] => 0 | q :: l => accepts h q + accepted l (write_msg h q) end.

Lemma write_all_app l k h : write_all (l ++ k) h = write_all k (write_all l h).
Proof. apply foldl_app. Qed.
Lemma accepted_app l k h : accepted (l ++ k) h = accepted l h + accepted k (write_all l h).
Proof. revert h. induction l as [|q l IH]; intros h; simpl; [done|]. rewrite IH. unfold write_all. simpl. lia. Qed.

Definition live (l : list ptr) (h : gmap ptr Message) : Prop := Forall (λ q, is_Some (h !! q)) l.
Lemma live_write l k h : live l h → live l (write_all k h).
Proof.
  revert h. induction k as [|q k IH]; intros h Hl; [done|]. apply IH. eapply Forall_impl; [exact Hl|].
  intros p [m Hm]. unfold write_msg. destruct (decide (p = q)) as [->|].
  - rewrite lookup_alter_eq, Hm. by eexists.
  - rewrite lookup_alter_ne by done. by eexists.
Qed.

Definition with_msgs (w : GNet) (h : gmap ptr Message) : GNet := w <| net_msgs := h |>.

(** [m], run in the network [w] with any messages, writes the messages [l] and
    counts the hits. *)
Definition visits (w : GNet) (l : list ptr) (m : G Z) : Prop :=
  ∀ h, live l h →
    wp m (λ k w', w' = with_msgs w (write_all l h) ∧ k = u32 (accepted l h)) (with_msgs w h).

Lemma wp_MsgPtr w q h (Q : bool → GNet → Prop) :
  is_Some (h !! q) →
  (∀ r, Z.b2z r = accepts h q → Q r (with_msgs w (write_msg h q))) →
  wp (MsgPtr_functionalWrite q) Q (with_msgs w h).
Proof.
  intros [m Hm] HQ. unfold MsgPtr_functionalWrite. apply wp_bind, (wp_get_msg _ _ m); [done|].
  apply wp_bind, wp_modify, wp_ret. replace (with_msgs w (write_msg h q)) with
    ((with_msgs w h) <| net_msgs ::= <[q := snd (Message_functionalWrite m)]> |>) in HQ.
  - apply HQ. unfold accepts. by rewrite Hm.
  - unfold with_msgs. simpl. f_equal. unfold write_msg. apply map_eq. intros p.
    destruct (decide (p = q)) as [->|]; [by rewrite lookup_insert_eq, lookup_alter_eq, Hm|].
    by rewrite lookup_insert_ne, lookup_alter_ne.
Qed.

(** A loop that counts single writes. *)
Lemma wp_count {A} w (write : A → G bool) (f : A → ptr) xs n h :
  live (f <$> xs) h →
  (∀ x h Q, x ∈ xs → is_Some (h !! f x) →
     (∀ r, Z.b2z r = accepts h (f x) → Q r (with_msgs w (write_msg h (f x)))) →
     wp (write x) Q (with_msgs w h)) →
  wp (foldM xs (u32 n) (λ x n, r ← write x; mret (if (r : bool) then u32 (n + 1) else n)))
    (λ k w', w' = with_msgs w (write_all (f <$> xs) h) ∧ k = u32 (n + accepted (f <$> xs) h)) (with_msgs w h).
Proof.
  revert n h. induction xs as [|x xs IH]; intros n h Hl Hw; csimpl.
  { apply wp_ret. by rewrite Z.add_0_r. }
  apply Forall_cons in Hl as [Hx Hl]. apply wp_bind, wp_bind, Hw; [set_solver|done|]. intros r Hr.
  apply wp_ret. assert (Er : (if r then u32 (u32 n + 1) else u32 n) = u32 (n + accepts h (f x))).
  { rewrite <- Hr. destruct r; simpl; [by rewrite u32_add_l|by rewrite Z.add_0_r]. }
  rewrite Er. eapply wp_mono; [apply (IH _ (write_msg h (f x)))|].
  - apply (live_write _ [f x] _ Hl).
  - intros y h' Q Hy. apply Hw. set_solver.
  - intros k w' [-> ->]. split; [done|]. f_equal. lia.
Qed.

(** A loop that adds up. *)
Lemma wp_add {A} w (write : A → G Z) (f : A → list ptr) xs n h :
  live (xs ≫= f) h → (∀ x, x ∈ xs → visits w (f x) (write x)) →
  wp (add_writes xs (u32 n) write)
    (λ k w', w' = with_msgs w (write_all (xs ≫= f) h) ∧ k = u32 (n + accepted (xs ≫= f) h)) (with_msgs w h).
Proof.
  unfold add_writes. revert n h. induction xs as [|x xs IH]; intros n h Hl Hw; csimpl.
  { apply wp_ret. by rewrite Z.add_0_r. }
  csimpl in Hl. apply Forall_app in Hl as [Hx Hl]. apply wp_bind, wp_bind.
  eapply wp_mono; [apply Hw; [set_solver|done]|]. intros k w1 [-> ->]. apply wp_ret.
  rewrite u32_add_l, u32_add_r. eapply wp_mono; [apply IH|].
  - by apply live_write.
  - intros y Hy. apply Hw. set_solver.
  - intros k w' [-> ->]. rewrite write_all_app, accepted_app. split; [done|]. f_equal. lia.
Qed.
End Visits.

Lemma bind_ext_in {A B} (f g : A → list B) l : (∀ x, x ∈ l → f x = g x) → l ≫= f = l ≫= g.
Proof.
  induction l as [|a l IH]; intros H; [done|]. csimpl. rewrite H by set_solver. f_equal.
  apply IH. intros x Hx. apply H. set_solver.
Qed.

Lemma bind_bind {A B C} (f : A → list B) (g : B → list C) l : (l ≫= f) ≫= g = l ≫= (λ a, f a ≫= g).
Proof. induction l as [|a l IH]; [done|]. csimpl. by rewrite bind_app, IH. Qed.

(** The elements of a vector by their indices. *)
Lemma zrange_bind {A B} (l : list A) (g : A → list B) :
  zrange 0 (vsize l) ≫= (λ i, match vget l i with Some a => g a | None => [] end) = l ≫= g.
Proof.
  induction l as [|a l IH] using rev_ind; [done|]. unfold vsize. rewrite length_app. simpl.
  replace (zrange 0 (Z.of_nat (length l + 1))) with (zrange 0 (vsize l) ++ [vsize l]).
  2: { unfold zrange, vsize. rewrite !Z.sub_0_r, Nat2Z.inj_add. rewrite seqZ_app by lia. done. }
  rewrite !bind_app, <- IH. f_equal.
  - apply bind_ext_in. intros i Hi%elem_of_zrange.
    assert (E : vget (l ++ [a]) i = vget l i); [|by rewrite E].
    unfold vget, vsize in *. destruct (0 <=? i); [|done]. by rewrite lookup_app_l by lia.
  - csimpl. replace (vget (l ++ [a]) (vsize l)) with (Some a); [done|].
    symmetry. apply vget_Some. unfold vsize. rewrite Nat2Z.id. split; [lia|]. by apply list_lookup_middle.
Qed.

(** ** The parts of a Garnet network *)
Section Garnet.
Context `{FW : FunctionalMessage} (w : GNet).

(** The messages of the flits in a buffer. *)
Definition flit_msg (p : ptr) : option ptr := f ← net_flits w !! p; fl_m_msg_ptr f.
Definition buffer_msgs (b : ptr) : list ptr :=
  match net_fbufs w !! b with Some x => omap flit_msg (fb_m_buffer x) | None => [] end.

(** The buffer exists and its flits carry messages. *)
Definition buffer_ok (b : ptr) : Prop :=
  ∃ x, net_fbufs w !! b = Some x ∧ Forall (λ p, is_Some (flit_msg p)) (fb_m_buffer x).

(** The buffers of a router, of an interface and of a link, in the order in which
    they are visited. *)
Definition InputUnit_buffers (u : InputUnit) : list ptr := vc_m_input_buffer <$> iu_m_vcs u.
Definition Router_buffers (x : Router) : list ptr :=
  xb_m_switch_buffer (rt_m_switch x) ++ (rt_m_input_unit x ≫= InputUnit_buffers) ++
  (ou_m_out_buffer <$> rt_m_output_unit x).
Definition NetworkInterface_buffers (x : NetworkInterface) : list ptr :=
  ni_m_ni_out_vcs x ++ [ni_outFlitQueue x].
Definition link_buffers (l : Z) : list ptr :=
  match vget (net_links w) l with Some x => [nl_linkBuffer x] | None => [] end.
Definition GarnetNetwork_buffers : list ptr :=
  (net_m_routers w ≫= Router_buffers) ++ (net_m_nis w ≫= NetworkInterface_buffers) ++
  (net_m_networklinks w ≫= link_buffers).

(** The sizes that the loops go by are those of the vectors, the links exist and
    the buffers are as above. *)
Record carriers_ok : Prop := {
  ca_units x u : x ∈ net_m_routers w → u ∈ rt_m_input_unit x → iu_m_num_vcs u = vsize (iu_m_vcs u);
  ca_nis x : x ∈ net_m_nis w → ni_m_num_vcs x = vsize (ni_m_ni_out_vcs x);
  ca_links l : l ∈ net_m_networklinks w → is_Some (vget (net_links w) l);
  ca_buffers : Forall buffer_ok GarnetNetwork_buffers;
}.

Lemma visits_buffer b : buffer_ok b → visits w (buffer_msgs b) (flitBuffer_functionalWrite b).
Proof.
  intros (x & Hx & Hp) h Hl. unfold flitBuffer_functionalWrite, count_writes.
  apply wp_bind. eapply wp_run; [by apply get_fb_Ok|].
  assert (E : buffer_msgs b = (λ p, default 0%nat (flit_msg p)) <$> fb_m_buffer x).
  { unfold buffer_msgs. rewrite Hx. clear -Hp. induction Hp as [|p l [q Hq] Hl IH]; [done|].
    csimpl. rewrite Hq. simpl. by f_equal. }
  rewrite E in *. apply (wp_count w flit_functionalWrite _ _ 0); [done|].
  intros p h' Q Hin Hs HQ. rewrite Forall_forall in Hp. destruct (Hp p Hin) as [q Hq].
  rewrite Hq in *. simpl in *. apply bind_Some in Hq as (f & Hf & Hm).
  unfold flit_functionalWrite. apply wp_bind. eapply wp_run; [by apply get_flit_Ok|].
  rewrite Hm. apply wp_bind, wp_ret. by apply wp_MsgPtr.
Qed.

Lemma visits_add {A} (write : A → G Z) (f : A → list ptr) xs :
  (∀ x, x ∈ xs → visits w (f x) (write x)) → visits w (xs ≫= f) (add_writes xs 0 write).
Proof. intros Hw h Hl. by apply (wp_add w write f xs 0). Qed.

Lemma visits_then {A} (write : A → G Z) (f : A → list ptr) xs l m :
  visits w l m → (∀ x, x ∈ xs → visits w (f x) (write x)) →
  visits w (l ++ (xs ≫= f)) (n ← m; add_writes xs n write).
Proof.
  intros Hm Hw h [H1 H2]%Forall_app. apply wp_bind. eapply wp_mono; [by apply Hm|].
  intros n w1 [-> ->]. eapply wp_mono; [apply (wp_add w write f xs); [by apply live_write|done]|].
  intros k w2 [-> ->]. by rewrite write_all_app, accepted_app.
Qed.

(** Elements that are reached by their index. *)
Lemma visits_index {A} (l : list A) site (write : A → G Z) (f : A → list ptr) :
  (∀ a, a ∈ l → visits w (f a) (write a)) →
  visits w (l ≫= f) (add_writes (zrange 0 (vsize l)) 0 (λ i, a ← vgetG l i site; write a)).
Proof.
  intros Hw. rewrite <- (zrange_bind l f). apply visits_add. intros i Hi%elem_of_zrange h Hl.
  destruct (vget_lookup l i) as [a Ha]; [done|]. rewrite Ha in *.
  apply wp_bind, (wp_vgetG _ _ _ a); [done|]. apply Hw; [|done].
  apply vget_Some in Ha as [_ Ha]. by eapply list_elem_of_lookup_2.
Qed.

Lemma visits_buffers bs site :
  Forall (buffer_ok) bs →
  visits w (bs ≫= buffer_msgs)
    (add_writes (zrange 0 (vsize bs)) 0 (λ i, b ← vgetG bs i site; flitBuffer_functionalWrite b)).
Proof.
  intros Hb. apply visits_index. intros b Hin. apply visits_buffer. by eapply Forall_forall in Hb.
Qed.

Lemma visits_assoc l (m : G Z) (f k : Z → G Z) :
  visits w l (n ← (n ← m; f n); k n) → visits w l (n ← m; n ← f n; k n).
Proof. intros H h Hl. apply wp_assoc, (proj1 (wp_bind _ _ _ _)). by apply H. Qed.

Lemma visits_Router x :
  (∀ u, u ∈ rt_m_input_unit x → iu_m_num_vcs u = vsize (iu_m_vcs u)) → Forall buffer_ok (Router_buffers x) →
  visits w (Router_buffers x ≫= buffer_msgs) (Router_functionalWrite x).
Proof.
  intros Hu [Hx [Hi Ho]%Forall_app]%Forall_app. unfold Router_buffers. rewrite !bind_app, app_assoc.
  rewrite bind_bind, list_fmap_bind. apply visits_assoc, visits_then; [apply visits_then|].
  - apply visits_add. intros b Hb. apply visits_buffer. by eapply Forall_forall in Hx.
  - intros u Hin. unfold InputUnit_functionalWrite, InputUnit_buffers. rewrite (Hu u Hin), list_fmap_bind.
    apply visits_index. intros v Hv. apply visits_buffer. rewrite Forall_forall in Hi. apply Hi.
    apply list_elem_of_bind. exists u. split; [|done]. by apply list_elem_of_fmap_2.
  - intros u Hin. apply visits_buffer. rewrite Forall_forall in Ho. apply Ho. by apply list_elem_of_fmap_2.
Qed.

Lemma visits_NetworkInterface x :
  ni_m_num_vcs x = vsize (ni_m_ni_out_vcs x) → Forall buffer_ok (NetworkInterface_buffers x) →
  visits w (NetworkInterface_buffers x ≫= buffer_msgs) (NetworkInterface_functionalWrite x).
Proof.
  intros Hn [Ho Hq]%Forall_app. unfold NetworkInterface_functionalWrite, NetworkInterface_buffers.
  rewrite Hn, bind_app. intros h [H1 H2]%Forall_app. apply wp_bind.
  eapply wp_mono; [by apply (visits_buffers _ "m_ni_out_vcs" Ho)|]. intros n w1 [-> ->]. apply wp_bind.
  csimpl in *. rewrite app_nil_r in *. apply Forall_cons in Hq as [Hq _].
  eapply wp_mono; [apply (visits_buffer _ Hq); by apply live_write|]. intros k w2 [-> ->]. apply wp_ret.
  by rewrite write_all_app, accepted_app, u32_add_l, u32_add_r.
Qed.

Lemma visits_link l :
  is_Some (vget (net_links w) l) → Forall buffer_ok (link_buffers l) →
  visits w (link_buffers l ≫= buffer_msgs) (NetworkLink_functionalWrite l).
Proof.
  intros [x Hx]. unfold link_buffers. rewrite Hx. intros [Hb _]%Forall_cons. csimpl. rewrite app_nil_r.
  intros h Hl. unfold NetworkLink_functionalWrite, get_link. apply wp_bind, wp_bind, wp_gets. simpl. rewrite Hx.
  apply wp_ret. by apply visits_buffer.
Qed.

Lemma visits_GarnetNetwork :
  carriers_ok → visits w (GarnetNetwork_buffers ≫= buffer_msgs) GarnetNetwork_functionalWrite.
Proof.
  intros [Hu Hn Hk [Hr [Hi Hb]%Forall_app]%Forall_app] h. rewrite Forall_forall in Hr, Hi, Hb.
  unfold GarnetNetwork_buffers. rewrite !bind_app, !bind_bind. intros [L1 [L2 L3]%Forall_app]%Forall_app.
  unfold GarnetNetwork_functionalWrite. apply wp_bind, wp_gets, wp_bind.
  eapply wp_mono; [apply (visits_add Router_functionalWrite (λ x, Router_buffers x ≫= buffer_msgs)); [|exact L1]|].
  { intros x Hx. apply visits_Router; [by intros u; apply Hu|]. apply Forall_forall. intros b Hin. apply Hr.
    apply list_elem_of_bind. eauto. }
  intros n1 w1 [-> ->]. apply wp_bind, wp_gets, wp_bind.
  eapply wp_mono; [apply (wp_add w NetworkInterface_functionalWrite (λ x, NetworkInterface_buffers x ≫= buffer_msgs));
    [by apply live_write|]|].
  { intros x Hx. apply visits_NetworkInterface; [by apply Hn|]. apply Forall_forall. intros b Hin. apply Hi.
    apply list_elem_of_bind. eauto. }
  intros n2 w2 [-> ->]. apply wp_bind, wp_gets.
  eapply wp_mono; [apply (wp_add w NetworkLink_functionalWrite (λ l, link_buffers l ≫= buffer_msgs));
    [by do 2 apply live_write|]|].
  { intros l Hl. apply visits_link; [by apply Hk|]. apply Forall_forall. intros b Hin. apply Hb.
    apply list_elem_of_bind. eauto. }
  intros n3 w3 [-> ->]. rewrite !write_all_app, !accepted_app. split; [done|]. f_equal. simpl. lia.
Qed.
End Garnet.

(** ** The queues of a simple network *)
Section Simple.
Context `{FW : FunctionalMessage} (w : GNet).

(** The messages of a queue: those that wait, then those that are stalled. *)
Definition queue_msgs (b : Z) : list ptr :=
  match vget (net_mbufs w) b with
  | Some x => mb_m_prio_heap x ++ (stall_map_entries (mb_m_stall_msg_map x) ≫= snd)
  | None => []
  end.

Lemma wp_count_stalled (es : list (Z * list ptr)) n h :
  live (es ≫= snd) h →
  wp (foldM es (u32 n) (λ e n, foldM (snd e) n (λ q n, r ← MsgPtr_functionalWrite q; mret (if (r : bool) then u32 (n + 1) else n))))
    (λ k w', w' = with_msgs w (write_all (es ≫= snd) h) ∧ k = u32 (n + accepted (es ≫= snd) h)) (with_msgs w h).
Proof.
  revert n h. induction es as [|e es IH]; intros n h Hl; csimpl.
  { apply wp_ret. by rewrite Z.add_0_r. }
  csimpl in Hl. apply Forall_app in Hl as [He Hl]. apply wp_bind.
  pose proof (wp_count w MsgPtr_functionalWrite id (snd e) n h) as Hc. rewrite list_fmap_id in Hc.
  eapply wp_mono; [apply Hc; [done|intros q h' Q _; apply wp_MsgPtr]|]. intros k w1 [-> ->].
  eapply wp_mono; [apply IH; by apply live_write|]. intros k w2 [-> ->].
  rewrite write_all_app, accepted_app. split; [done|]. f_equal. lia.
Qed.

Lemma visits_MessageBuffer b :
  is_Some (vget (net_mbufs w) b) → visits w (queue_msgs b) (MessageBuffer_functionalWrite b).
Proof.
  intros [x Hx] h. unfold queue_msgs. rewrite Hx. intros [H1 H2]%Forall_app.
  unfold MessageBuffer_functionalWrite, count_writes. apply wp_bind, (wp_get_mbuf _ _ x); [done|]. apply wp_bind.
  pose proof (wp_count w MsgPtr_functionalWrite id (mb_m_prio_heap x) 0 h) as Hc. rewrite list_fmap_id in Hc.
  eapply wp_mono; [apply Hc; [done|intros q h' Q _; apply wp_MsgPtr]|]. intros k w1 [-> ->].
  eapply wp_mono; [apply wp_count_stalled; by apply live_write|]. intros k w2 [-> ->].
  by rewrite write_all_app, accepted_app.
Qed.

(** The queues between the switches. *)
Definition SimpleNetwork_queues : list Z :=
  (net_m_switches w ≫= sw_m_port_buffers) ++ sn_m_int_link_buffers (net_simple w).

(** A functional write of a simple network writes the messages of these queues. *)
Lemma visits_SimpleNetwork :
  Forall (λ b, is_Some (vget (net_mbufs w) b)) SimpleNetwork_queues →
  visits w (SimpleNetwork_queues ≫= queue_msgs) SimpleNetwork_functionalWrite.
Proof.
  intros [Hs Hi]%Forall_app h. rewrite Forall_forall in Hs, Hi. unfold SimpleNetwork_queues.
  rewrite bind_app, bind_bind. intros [L1 L2]%Forall_app. unfold SimpleNetwork_functionalWrite.
  apply wp_bind, wp_gets, wp_bind.
  eapply wp_mono; [apply (visits_add w Switch_functionalWrite (λ x, sw_m_port_buffers x ≫= queue_msgs)); [|exact L1]|].
  { intros x Hx. apply visits_add. intros b Hb. apply visits_MessageBuffer, Hs, list_elem_of_bind. eauto. }
  intros n w1 [-> ->]. apply wp_bind, wp_gets.
  eapply wp_mono; [apply (wp_add w MessageBuffer_functionalWrite queue_msgs); [by apply live_write|]|].
  { intros b Hb. by apply visits_MessageBuffer, Hi. }
  intros k w2 [-> ->]. by rewrite write_all_app, accepted_app.
Qed.
End Simple.

(** ** The effect of the writes *)
Section Effect.
Context `{FWS : FunctionalMessageSpec}.

Lemma write_all_lookup l h q :
  write_all l h !! q = if decide (q ∈ l) then (λ m, snd (Message_functionalWrite m)) <$> h !! q else h !! q.
Proof.
  revert h. induction l as [|p l IH]; intros h; [by rewrite decide_False by apply not_elem_of_nil|].
  change (write_all (p :: l) h) with (write_all l (write_msg h p)). rewrite IH. unfold write_msg.
  destruct (decide (q = p)) as [->|Hne].
  - rewrite lookup_alter_eq. rewrite (decide_True (P := p ∈ p :: l)) by set_solver.
    destruct (h !! p) as [m|]; simpl; case_decide; simpl; by rewrite ?functionalWrite_again.
  - rewrite lookup_alter_ne by done. destruct (decide (q ∈ l)) as [Hin|Hin].
    + by rewrite decide_True by set_solver.
    + by rewrite decide_False by set_solver.
Qed.

(** Whether a message is hit does not depend on earlier writes. *)
Lemma accepts_write h p q : accepts (write_msg h p) q = accepts h q.
Proof.
  unfold accepts, write_msg. destruct (decide (q = p)) as [->|]; [|by rewrite lookup_alter_ne].
  rewrite lookup_alter_eq. destruct (h !! p) as [m|]; simpl; [by rewrite functionalWrite_again|done].
Qed.

Lemma accepted_filter l h :
  accepted l h = vsize (filter (λ q, accepts h q = 1) l).
Proof.
  assert (H : ∀ h', (∀ q, accepts h' q = accepts h q) → accepted l h' = vsize (filter (λ q, accepts h q = 1) l));
    [|by apply H].
  induction l as [|q l IH]; intros h' Hh; [done|]. simpl. rewrite filter_cons, Hh, IH.
  2: { intros p. by rewrite accepts_write, Hh. }
  unfold vsize. case_decide as Hd; [simpl; lia|]. unfold accepts in *. destruct (h !! q) as [m|]; [|lia].
  destruct (fst _); [done|]. simpl. lia.
Qed.
End Effect.

(** The messages of all the flits that a functional write visits. *)
Definition carried (w : GNet) : list ptr := GarnetNetwork_buffers w ≫= buffer_msgs w.

Lemma functionalWrite_carried `{FWS : FunctionalMessageSpec} w :
  carriers_ok w → live (carried w) (net_msgs w) →
  ∃ h, GarnetNetwork_functionalWrite w =
      Ok (u32 (vsize (filter (λ q, accepts (net_msgs w) q = 1) (carried w))), w <| net_msgs := h |>) ∧
    ∀ q, h !! q = if decide (q ∈ carried w)
                  then (λ m, snd (Message_functionalWrite m)) <$> net_msgs w !! q else net_msgs w !! q.
Proof.
  intros Hok Hl. pose proof (visits_GarnetNetwork w Hok (net_msgs w) Hl) as Hv.
  replace (with_msgs w (net_msgs w)) with w in Hv by (by destruct w). unfold wp in Hv.
  destruct (GarnetNetwork_functionalWrite w) as [[n w']|]; [|done]. destruct Hv as [-> ->].
  exists (write_all (carried w) (net_msgs w)). split; [by rewrite <- accepted_filter|apply write_all_lookup].
Qed.

(** The messages of all the flits in the network: those and the flits that are
    stalled in an interface, because the queue of their controller is full. *)
Definition stalled (w : GNet) : list ptr := net_m_nis w ≫= λ x, omap (flit_msg w) (ni_m_stall_queue x).
Definition in_network (w : GNet) : list ptr := carried w ++ stalled w.

Lemma nothing_stalled w : Forall (λ x, ni_m_stall_queue x = []) (net_m_nis w) → in_network w = carried w.
Proof.
  intros H. unfold in_network, stalled. replace (net_m_nis w ≫= _) with (@nil ptr); [apply app_nil_r|].
  induction H as [|x l Hx Hl IH]; [done|]. csimpl. by rewrite Hx, <- IH.
Qed.

(** C11.  A functional write of a Garnet network in which no flit is stalled,
    whose buffers exist and whose flits carry messages, returns.  It has written
    the message of every flit in the network (in the routers' virtual channels,
    crossbars and output buffers, in the interfaces and on the links), as if once,
    however many flits share it; every other message and the rest of the network
    are unchanged; and the answer is the number of those flits whose message has
    the packet's address, in 32 bits. *)
Theorem GarnetNetwork_functionalWrite_reaches `{FWS : FunctionalMessageSpec} w :
  carriers_ok w → Forall (λ x, ni_m_stall_queue x = []) (net_m_nis w) → live (in_network w) (net_msgs w) →
  ∃ h, GarnetNetwork_functionalWrite w =
      Ok (u32 (vsize (filter (λ q, accepts (net_msgs w) q = 1) (in_network w))), w <| net_msgs := h |>) ∧
    ∀ q, h !! q = if decide (q ∈ in_network w)
                  then (λ m, snd (Message_functionalWrite m)) <$> net_msgs w !! q else net_msgs w !! q.
Proof. intros Hok Hst. rewrite (nothing_stalled w Hst). by apply functionalWrite_carried. Qed.

(** ** A concrete write *)
Section Check.
Context (w : GNet).
Definition buffer_okb (b : ptr) : bool :=
  match net_fbufs w !! b with
  | Some x => forallb (λ p, bool_decide (is_Some (flit_msg w p))) (fb_m_buffer x)
  | None => false
  end.
Definition carriers_okb : bool :=
  forallb (λ x, forallb (λ u, iu_m_num_vcs u =? vsize (iu_m_vcs u)) (rt_m_input_unit x)) (net_m_routers w) &&
  forallb (λ x, ni_m_num_vcs x =? vsize (ni_m_ni_out_vcs x)) (net_m_nis w) &&
  forallb (λ l, bool_decide (is_Some (vget (net_links w) l))) (net_m_networklinks w) &&
  forallb buffer_okb (GarnetNetwork_buffers w).

Lemma carriers_okb_sound : carriers_okb = true → carriers_ok w.
Proof.
  unfold carriers_okb. rewrite !andb_true_iff. intros [[[H1 H2] H3] H4]. split.
  - intros x u Hx Hu. apply Z.eqb_eq. by apply (forallb_elem _ _ _ (forallb_elem _ _ x H1 Hx)).
  - intros x Hx. apply Z.eqb_eq. by apply (forallb_elem _ _ _ H2).
  - intros l Hl. apply (bool_decide_eq_true_1 _). by apply (forallb_elem _ _ _ H3).
  - apply Forall_forall. intros b Hb. apply (forallb_elem _ _ _ H4) in Hb. unfold buffer_okb in Hb.
    destruct (net_fbufs w !! b) as [x|] eqn:Hx; [|done]. exists x. split; [done|]. apply Forall_forall.
    intros p Hp. apply (bool_decide_eq_true_1 _). by apply (forallb_elem _ _ _ Hb).
Qed.
End Check.

(** Messages created at tick 0 hold the address; their data becomes 9. *)
Definition sample_write : FunctionalMessage :=
  λ m, (msg_m_time m =? 0, if msg_m_time m =? 0 then m <| msg_payload := 9 |> else m).
#[export] Instance sample_write_spec : FunctionalMessageSpec sample_write.
Proof.
  intros m. unfold Message_functionalWrite, sample_write. destruct (msg_m_time m =? 0) eqn:E; simpl; by rewrite E.
Qed.

(** A packet on its way from node 0 to node 3 of the sample mesh. *)
Definition moving_scene : GNet :=
  match exec (MT := sample_types 4) (LS := stable_sort) 12 (packet_scene XY_ 0 3) with
  | Ok w => w | Abort _ => packet_scene XY_ 0 3 end.

Lemma GarnetNetwork_functionalWrite_reaches_witness :
  ∃ h q, GarnetNetwork_functionalWrite (FW := sample_write) moving_scene = Ok (1, moving_scene <| net_msgs := h |>) ∧
    msg_payload <$> net_msgs moving_scene !! q = Some 7 ∧ msg_payload <$> h !! q = Some 9.
Proof.
  assert (Hc : in_network moving_scene = [93%nat]) by (vm_compute; reflexivity).
  assert (Hs : Forall (λ x, ni_m_stall_queue x = []) (net_m_nis moving_scene))
    by (vm_compute; repeat constructor).
  assert (Hk : carriers_okb moving_scene = true) by (vm_compute; reflexivity).
  assert (Hm : ∃ m, net_msgs moving_scene !! 93%nat = Some m ∧ msg_payload m = 7 ∧ msg_m_time m = 0).
  { assert (E : (λ m, (msg_payload m, msg_m_time m)) <$> net_msgs moving_scene !! 93%nat = Some (7, 0))
      by (vm_compute; reflexivity).
    apply fmap_Some in E as (m & Hm & Em). injection Em as E1 E2. exists m. split; [exact Hm|]. split; [exact (eq_sym E1)|exact (eq_sym E2)]. }
  destruct Hm as (m & Hm & Hp & Ht).
  destruct (GarnetNetwork_functionalWrite_reaches (FW := sample_write) moving_scene (carriers_okb_sound _ Hk) Hs)
    as (h & Hrun & Hh).
  { rewrite Hc. constructor; [exists m; exact Hm|constructor]. }
  exists h, 93%nat. rewrite Hrun. rewrite (Hh 93%nat). rewrite Hc.
  rewrite filter_cons_True by (unfold accepts; rewrite Hm; unfold Message_functionalWrite, sample_write; simpl; rewrite Ht; reflexivity).
  rewrite filter_nil. rewrite Hm. split; [reflexivity|]. split; [simpl; rewrite Hp; reflexivity|].
  rewrite decide_True by (apply list_elem_of_singleton; reflexivity).
  unfold Message_functionalWrite, sample_write. simpl. rewrite Ht. reflexivity.
Defined.
