(* ===== verification/NetDestTheory.v ===== *)
(** * Correctness of destination sets

    [NetDest] against its abstract view, a set of machines: [mem] is membership,
    [wf_dest] the representation invariant.  The theorems cover what the network
    uses: membership, adding and removing a machine, intersection (routing
    table), difference, and the node numbers of a multicast message. *)

From stdpp Require Import sorting.
From S2P Require Import Prelude BinaryHeap NetDestModel CommonTypes GarnetState FlitBuffer Channels RoutingUnitModel SwapModel UnitsModel SwitchAllocatorModel MessageBufferModel NetworkInterfaceModel BuildModel Scenarios SystemModel.

#[export] Instance MachineID_eq_dec : EqDecision MachineID.
Proof. solve_decision. Defined.

(** ** Bits of one [Set] *)
Definition wf_set (n : Z) (s : BitSet) : Prop :=
  set_m_nSize s = n ∧ 0 ≤ n ≤ NUMBER_BITS_PER_SET ∧ 0 ≤ set_bits s ∧
  ∀ i, n ≤ i → Z.testbit (set_bits s) i = false.

Lemma bit_in_range_Ok n i : n ≤ NUMBER_BITS_PER_SET → 0 ≤ i < n → bit_in_range i = Ok tt.
Proof.
  intros. unfold bit_in_range. destruct (Z.leb_spec 0 i), (Z.ltb_spec i NUMBER_BITS_PER_SET);
    [done|lia..].
Qed.

Lemma Set_isElement_Ok n s i :
  wf_set n s → 0 ≤ i < n → Set_isElement i s = Ok (Z.testbit (set_bits s) i).
Proof. intros (_ & ? & _) ?. unfold Set_isElement. by rewrite (bit_in_range_Ok n) by lia. Qed.

Lemma wf_set_add n s i :
  wf_set n s → 0 ≤ i < n → wf_set n (s <| set_bits ::= λ b, Z.setbit b i |>).
Proof.
  intros (? & ? & ? & Hs) ?. repeat split; simpl; try done; try lia.
  - rewrite Z.setbit_spec'. apply Z.lor_nonneg. split; [done|]. apply Z.pow_nonneg. lia.
  - intros j ?. rewrite Z.setbit_neq by lia. auto.
Qed.

Lemma wf_set_ldiff n s b : wf_set n s → 0 ≤ b → wf_set n (s <| set_bits ::= λ x, Z.ldiff x b |>).
Proof.
  intros (? & ? & ? & Hs) ?. repeat split; simpl; try done; try lia.
  - apply Z.ldiff_nonneg. by left.
  - intros j ?. by rewrite Z.ldiff_spec, Hs.
Qed.

Lemma testbit_lt n s i : wf_set n s → Z.testbit (set_bits s) i = true → 0 ≤ i < n.
Proof.
  intros (_ & _ & _ & Hs) Ht. destruct (Z.le_gt_cases n i) as [Hi|Hi].
  - by rewrite Hs in Ht.
  - split; [|done]. apply Z.nlt_ge. intros ?. by rewrite Z.testbit_neg_r in Ht.
Qed.

(** A nonempty intersection has a common bit. *)
Lemma land_common a b : 0 ≤ a → Z.land a b ≠ 0 ↔ ∃ i, Z.testbit a i = true ∧ Z.testbit b i = true.
Proof.
  intros Ha. split.
  - intros Hn. assert (Hp : 0 < Z.land a b).
    { assert (0 ≤ Z.land a b) by (apply Z.land_nonneg; by left). lia. }
    exists (Z.log2 (Z.land a b)). apply Z.bit_log2 in Hp. rewrite Z.land_spec in Hp.
    by apply andb_true_iff in Hp.
  - intros (i & H1 & H2) H0. assert (H : Z.testbit (Z.land a b) i = true)
      by (by rewrite Z.land_spec, H1, H2).
    rewrite H0 in H. by rewrite Z.bits_0 in H.
Qed.

(** ** The abstract view of a [NetDest] *)
Definition mem (m : MachineID) (d : NetDest) : bool :=
  match vget (nd_m_bits d) (mid_type m) with
  | Some s => Z.testbit (set_bits s) (mid_num m)
  | None => false
  end.

Section NetDestTheory.
Context `{MTS : MachineTypesSpec}.

Definition valid_machine (m : MachineID) : Prop :=
  0 ≤ mid_type m < MachineType_NUM ∧ 0 ≤ mid_num m < MachineType_base_count (mid_type m).

Definition wf_dest (d : NetDest) : Prop :=
  NetDest_getSize d = MachineType_NUM ∧
  ∀ i s, vget (nd_m_bits d) i = Some s → wf_set (MachineType_base_count i) s.

(** The number of a machine's node in the network. *)
Definition node_number (m : MachineID) : Z := MachineType_base_number (mid_type m) + mid_num m.

Lemma wf_component d m :
  wf_dest d → valid_machine m →
  ∃ s, vget (nd_m_bits d) (mid_type m) = Some s ∧ wf_set (MachineType_base_count (mid_type m)) s.
Proof.
  intros [Hn Hs] [Ht _]. destruct (vget_lookup (nd_m_bits d) (mid_type m)) as [s E].
  { unfold NetDest_getSize in Hn. lia. }
  exists s. eauto.
Qed.

Lemma vecIndex_Ok d m : wf_dest d → valid_machine m → NetDest_vecIndex m d = Ok (mid_type m).
Proof.
  intros [Hn _] [Ht _]. unfold NetDest_vecIndex. rewrite Hn, mt_level by lia.
  by destruct (Z.ltb_spec (mid_type m) MachineType_NUM); [|lia].
Qed.

Lemma vgetO_Ok {A} (l : list A) i site a : vget l i = Some a → vgetO l i site = Ok a.
Proof. unfold vgetO. by intros ->. Qed.

Lemma mem_valid d m : wf_dest d → mem m d = true → valid_machine m.
Proof.
  intros [Hn Hs] Hm. unfold mem in Hm.
  destruct (vget (nd_m_bits d) (mid_type m)) as [s|] eqn:E; [|done].
  split; [|eauto using testbit_lt]. apply vget_Some_lt in E. unfold NetDest_getSize in Hn. lia.
Qed.

Lemma NetDest_isElement_mem d m :
  wf_dest d → valid_machine m → NetDest_isElement m d = Ok (mem m d).
Proof.
  intros Hd Hm. destruct (wf_component d m Hd Hm) as (s & E & Hs).
  unfold NetDest_isElement, mem. rewrite (vecIndex_Ok d m Hd Hm). unfold mbind, outcome_bind.
  rewrite (vgetO_Ok _ _ _ _ E), E. eapply Set_isElement_Ok; [done|apply Hm].
Qed.

(** Replacing the component of one machine type. *)
Definition put_set (d : NetDest) (t : Z) (s : BitSet) : NetDest := mkNetDest (vset (nd_m_bits d) t s).

Lemma wf_put_set d t s :
  wf_dest d → wf_set (MachineType_base_count t) s → wf_dest (put_set d t s).
Proof.
  intros [Hn Hs] Hw. split; [by unfold NetDest_getSize, put_set; simpl; rewrite vsize_vset|].
  intros i s'. simpl. rewrite vget_vset. case_decide as E; [|by apply Hs].
  destruct E as [<- _]. by intros [= <-].
Qed.

Lemma mem_put_set d t s m :
  0 ≤ t < NetDest_getSize d →
  mem m (put_set d t s) = if decide (mid_type m = t) then Z.testbit (set_bits s) (mid_num m) else mem m d.
Proof.
  intros Ht. unfold mem, put_set. simpl. rewrite vget_vset.
  destruct (decide (mid_type m = t)) as [->|]; [by rewrite decide_True by done|].
  rewrite decide_False by naive_solver. done.
Qed.

Lemma NetDest_add_Ok d m s :
  wf_dest d → valid_machine m → vget (nd_m_bits d) (mid_type m) = Some s →
  NetDest_add m d =
    Ok (put_set d (mid_type m) (s <| set_bits ::= λ b, Z.setbit b (mid_num m) |>)).
Proof.
  intros Hd Hm E. destruct (wf_component d m Hd Hm) as (s' & E' & Hs). simplify_eq.
  destruct Hs as (Hsz & Hb & _). destruct (Hm) as [_ Hnum].
  unfold NetDest_add, vupdO, Set_add, assertO. rewrite (vecIndex_Ok d m Hd Hm).
  unfold mbind, outcome_bind. rewrite !(vgetO_Ok _ _ _ _ E), Hsz.
  destruct (Z.ltb_spec (mid_num m) (MachineType_base_count (mid_type m))); [|lia].
  by rewrite (bit_in_range_Ok (MachineType_base_count (mid_type m))) by lia.
Qed.

Lemma NetDest_remove_Ok d m s :
  wf_dest d → valid_machine m → vget (nd_m_bits d) (mid_type m) = Some s →
  NetDest_remove m d =
    Ok (put_set d (mid_type m) (s <| set_bits ::= λ b, Z.clearbit b (mid_num m) |>)).
Proof.
  intros Hd Hm E. destruct (wf_component d m Hd Hm) as (s' & E' & Hs). simplify_eq.
  destruct Hs as (Hsz & Hb & _). destruct (Hm) as [_ Hnum].
  unfold NetDest_remove, vupdO, Set_remove. rewrite (vecIndex_Ok d m Hd Hm).
  unfold mbind, outcome_bind. rewrite !(vgetO_Ok _ _ _ _ E).
  by rewrite (bit_in_range_Ok (MachineType_base_count (mid_type m))) by lia.
Qed.

Lemma mem_type_range d m : wf_dest d → valid_machine m → 0 ≤ mid_type m < NetDest_getSize d.
Proof. intros [-> _] [? _]. done. Qed.

(** Within one component the machine is its number. *)
Lemma same_type_eq m m' : mid_type m' = mid_type m → (m' = m ↔ mid_num m' = mid_num m).
Proof. destruct m, m'. simpl. intros ->. split; [by intros [= ->]|by intros ->]. Qed.

Lemma NetDest_add_mem d m :
  wf_dest d → valid_machine m →
  ∃ d', NetDest_add m d = Ok d' ∧ wf_dest d' ∧
    ∀ m', valid_machine m' → mem m' d' = bool_decide (m' = m) || mem m' d.
Proof.
  intros Hd Hm. destruct (wf_component d m Hd Hm) as (s & E & Hs).
  pose proof (mem_type_range d m Hd Hm) as Ht. destruct (Hm) as [_ Hnum].
  eexists. split; [by apply NetDest_add_Ok|]. split; [by apply wf_put_set, wf_set_add|].
  intros m' [_ Hm']. rewrite mem_put_set by done.
  case_decide as Hty; [|rewrite bool_decide_false by congruence; done].
  unfold mem. rewrite Hty, E. simpl. rewrite (bool_decide_ext _ _ (same_type_eq _ _ Hty)).
  case_bool_decide as Hn; [rewrite Hn, Z.setbit_eq by lia; done|by rewrite Z.setbit_neq by lia].
Qed.

Lemma NetDest_remove_mem d m :
  wf_dest d → valid_machine m →
  ∃ d', NetDest_remove m d = Ok d' ∧ wf_dest d' ∧
    ∀ m', valid_machine m' → mem m' d' = negb (bool_decide (m' = m)) && mem m' d.
Proof.
  intros Hd Hm. destruct (wf_component d m Hd Hm) as (s & E & Hs).
  pose proof (mem_type_range d m Hd Hm) as Ht.
  eexists. split; [by apply NetDest_remove_Ok|].
  split; [apply wf_put_set, wf_set_ldiff; [done..|apply Z.shiftl_nonneg; lia]|].
  intros m' [_ Hm']. rewrite mem_put_set by done.
  case_decide as Hty; [|rewrite bool_decide_false by congruence; done].
  unfold mem. rewrite Hty, E. simpl. rewrite (bool_decide_ext _ _ (same_type_eq _ _ Hty)).
  case_bool_decide as Hn; [by rewrite Hn, Z.clearbit_eq|by rewrite Z.clearbit_neq by lia].
Qed.

(** ** Componentwise operations *)
Lemma zipO_Ok {A B C} (f : A → B → outcome C) (g : A → B → C) l k :
  length l = length k →
  (∀ (i : nat) a b, l !! i = Some a → k !! i = Some b → f a b = Ok (g a b)) →
  zipO f l k = Ok (zip_with g l k).
Proof.
  revert k. induction l as [|a l IH]; intros [|b k] Hl Hf; simpl in *; try done.
  unfold mbind, outcome_bind. rewrite (Hf O a b) by done.
  rewrite IH; [done|lia|]. intros i. apply (Hf (S i)).
Qed.

Lemma vget_zip_with {A B C} (g : A → B → C) l k i :
  vget (zip_with g l k) i =
    match vget l i, vget k i with Some a, Some b => Some (g a b) | _, _ => None end.
Proof.
  unfold vget. destruct (0 <=? i); [|done]. rewrite lookup_zip_with.
  by destruct (l !! Z.to_nat i), (k !! Z.to_nat i).
Qed.

Lemma wf_lookup d (i : nat) s :
  wf_dest d → nd_m_bits d !! i = Some s → wf_set (MachineType_base_count (Z.of_nat i)) s.
Proof. intros [_ Hs] E. apply Hs. apply vget_Some. rewrite Nat2Z.id. split; [lia|done]. Qed.

Lemma wf_length d e : wf_dest d → wf_dest e → length (nd_m_bits d) = length (nd_m_bits e).
Proof. intros [Hd _] [He _]. unfold NetDest_getSize, vsize in *. lia. Qed.

Lemma wf_getSize_eqb d e : wf_dest d → wf_dest e → (NetDest_getSize d =? NetDest_getSize e) = true.
Proof. intros [-> _] [-> _]. apply Z.eqb_refl. Qed.

(** The result of an operation that combines the bits of every component. *)
Definition combine (op : Z → Z → Z) (d e : NetDest) : NetDest :=
  mkNetDest (zip_with (λ s t, s <| set_bits ::= λ b, op b (set_bits t) |>) (nd_m_bits d) (nd_m_bits e)).

Lemma wf_combine op d e :
  (∀ a b, 0 ≤ a → 0 ≤ b → 0 ≤ op a b) →
  (∀ a b i, Z.testbit a i = false → Z.testbit b i = false → Z.testbit (op a b) i = false) →
  wf_dest d → wf_dest e → wf_dest (combine op d e).
Proof.
  intros Hop Hb Hd He. pose proof (wf_length d e Hd He) as Hl. destruct Hd as [Hn Hd], He as [_ He].
  split.
  - unfold NetDest_getSize, vsize, combine in *. simpl. rewrite length_zip_with. lia.
  - intros i s. simpl. rewrite vget_zip_with.
    destruct (vget (nd_m_bits d) i) eqn:E1, (vget (nd_m_bits e) i) eqn:E2; try done.
    intros [= <-]. destruct (Hd _ _ E1) as (? & ? & ? & ?), (He _ _ E2) as (_ & _ & ? & ?).
    split; [done|]. split; [done|]. split; simpl; auto.
Qed.

Lemma mem_combine op (f : bool → bool → bool) d e m :
  (∀ a b i, Z.testbit (op a b) i = f (Z.testbit a i) (Z.testbit b i)) → f false false = false →
  wf_dest d → wf_dest e → mem m (combine op d e) = f (mem m d) (mem m e).
Proof.
  intros Hop Hf Hd He. pose proof (wf_length d e Hd He) as Hl. unfold mem. simpl.
  rewrite vget_zip_with.
  assert (Hi : is_Some (vget (nd_m_bits d) (mid_type m)) ↔ is_Some (vget (nd_m_bits e) (mid_type m))).
  { unfold vget. destruct (0 <=? mid_type m); [|done]. by rewrite !lookup_lt_is_Some, Hl. }
  destruct (vget (nd_m_bits d) (mid_type m)) as [s|] eqn:E1,
    (vget (nd_m_bits e) (mid_type m)) as [s'|] eqn:E2; simpl; rewrite ?Hop; try done.
  - destruct (proj1 Hi) as [? ?]; [by eexists|done].
  - destruct (proj2 Hi) as [? ?]; [by eexists|done].
Qed.

Lemma zipO_combine (f : BitSet → BitSet → outcome BitSet) op d e :
  (∀ s t, set_m_nSize s = set_m_nSize t →
     f s t = Ok (s <| set_bits ::= λ b, op b (set_bits t) |>)) →
  wf_dest d → wf_dest e → zipO f (nd_m_bits d) (nd_m_bits e) = Ok (nd_m_bits (combine op d e)).
Proof.
  intros Hf Hd He. apply zipO_Ok; [by apply wf_length|]. intros i s t H1 H2. apply Hf.
  destruct (wf_lookup _ _ _ Hd H1) as [-> _], (wf_lookup _ _ _ He H2) as [-> _]. done.
Qed.

Lemma NetDest_removeNetDest_Ok d e :
  wf_dest d → wf_dest e → NetDest_removeNetDest e d = Ok (combine Z.ldiff d e).
Proof.
  intros Hd He. unfold NetDest_removeNetDest, assertO. rewrite wf_getSize_eqb by done.
  unfold mbind, outcome_bind. rewrite (zipO_combine _ Z.ldiff) by
    (try done; intros s t E; unfold Set_removeSet, assertO; rewrite E, Z.eqb_refl; done).
  done.
Qed.

Lemma NetDest_addNetDest_Ok d e :
  wf_dest d → wf_dest e → NetDest_addNetDest e d = Ok (combine Z.lor d e).
Proof.
  intros Hd He. unfold NetDest_addNetDest, assertO. rewrite wf_getSize_eqb by done.
  unfold mbind, outcome_bind. rewrite (zipO_combine _ Z.lor) by
    (try done; intros s t E; unfold Set_addSet, assertO; rewrite E, Z.eqb_refl; done).
  done.
Qed.

Lemma forall2O_Ok {A B} (f : A → B → outcome bool) (g : A → B → bool) l k :
  length l = length k →
  (∀ (i : nat) a b, l !! i = Some a → k !! i = Some b → f a b = Ok (g a b)) →
  forall2O f l k = Ok (forallb (λ p, g (fst p) (snd p)) (zip l k)).
Proof.
  revert k. induction l as [|a l IH]; intros [|b k] Hl Hf; simpl in *; try done.
  unfold mbind, outcome_bind. rewrite (Hf O a b) by done. destruct (g a b); [|done].
  apply IH; [lia|]. intros i. apply (Hf (S i)).
Qed.

(** Pairs of components are the pairs of sets of one machine type. *)
Lemma elem_of_zip_vget {A B} (l : list A) (k : list B) a b :
  (a, b) ∈ zip l k ↔ ∃ t, vget l t = Some a ∧ vget k t = Some b.
Proof.
  rewrite list_elem_of_lookup. split.
  - intros [i (? & ? & [= -> ->] & H1 & H2)%lookup_zip_with_Some].
    exists (Z.of_nat i). rewrite !vget_Some, Nat2Z.id. naive_solver lia.
  - intros (t & [Ht H1]%vget_Some & [_ H2]%vget_Some). exists (Z.to_nat t).
    apply lookup_zip_with_Some. eauto.
Qed.

Lemma NetDest_intersection_spec d e :
  wf_dest d → wf_dest e →
  ∃ b, NetDest_intersectionIsNotEmpty e d = Ok b ∧
    (b = true ↔ ∃ m, mem m d = true ∧ mem m e = true).
Proof.
  intros Hd He. unfold NetDest_intersectionIsNotEmpty, assertO. rewrite wf_getSize_eqb by done.
  eexists. split; [done|]. rewrite existsb_exists. split.
  - intros ([s s'] & Hin%list_elem_of_In & Hn). apply elem_of_zip_vget in Hin as (t & H1 & H2).
    apply negb_true_iff, Z.eqb_neq in Hn. simpl in Hn.
    apply land_common in Hn as (i & Hi1 & Hi2); [|by destruct (proj2 Hd _ _ H1) as (_ & _ & ? & _)].
    exists (mkMachineID t i). unfold mem. simpl. by rewrite H1, H2.
  - intros ([t i] & H1 & H2). unfold mem in H1, H2. simpl in *.
    destruct (vget (nd_m_bits d) t) as [s|] eqn:E1; [|done].
    destruct (vget (nd_m_bits e) t) as [s'|] eqn:E2; [|done].
    exists (s, s'). split; [by apply list_elem_of_In, elem_of_zip_vget; eauto|].
    apply negb_true_iff, Z.eqb_neq. simpl. apply land_common; [|eauto].
    by destruct (proj2 Hd _ _ E1) as (_ & _ & ? & _).
Qed.

Lemma lor_absorb a b : Z.lor a b = a ↔ ∀ i, Z.testbit b i = true → Z.testbit a i = true.
Proof.
  split.
  - intros E i Hb. rewrite <- E, Z.lor_spec, Hb. apply orb_true_r.
  - intros H. apply Z.bits_inj'. intros i _. rewrite Z.lor_spec.
    destruct (Z.testbit b i) eqn:E; [rewrite (H i E); done|apply orb_false_r].
Qed.

Lemma NetDest_isSuperset_spec d e :
  wf_dest d → wf_dest e →
  ∃ b, NetDest_isSuperset e d = Ok b ∧ (b = true ↔ ∀ m, mem m e = true → mem m d = true).
Proof.
  intros Hd He. unfold NetDest_isSuperset, assertO. rewrite wf_getSize_eqb by done.
  unfold mbind, outcome_bind.
  rewrite (forall2O_Ok _ (λ s t, Z.lor (set_bits s) (set_bits t) =? set_bits s)).
  2: by apply wf_length.
  2: { intros i s t H1 H2. unfold Set_isSuperset, assertO.
       destruct (wf_lookup _ _ _ Hd H1) as [-> _], (wf_lookup _ _ _ He H2) as [-> _].
       by rewrite Z.eqb_refl. }
  eexists. split; [done|]. rewrite forallb_forall. split.
  - intros H [t i] Hm. unfold mem in *. simpl in *.
    destruct (vget (nd_m_bits e) t) as [s'|] eqn:E2; [|done].
    destruct (vget (nd_m_bits d) t) as [s|] eqn:E1.
    + assert (Hin : (s, s') ∈ zip (nd_m_bits d) (nd_m_bits e)) by (apply elem_of_zip_vget; eauto).
      apply list_elem_of_In, H, Z.eqb_eq in Hin. simpl in Hin. by eapply lor_absorb.
    + exfalso. apply vget_Some_lt in E2. apply eq_None_not_Some in E1. apply E1, vget_lookup.
      pose proof (wf_length d e Hd He). unfold vsize in *. lia.
  - intros H [s s'] Hin%list_elem_of_In. apply elem_of_zip_vget in Hin as (t & H1 & H2).
    apply Z.eqb_eq, lor_absorb. intros i Hi. specialize (H (mkMachineID t i)).
    unfold mem in H. simpl in H. rewrite H1, H2 in H. auto.
Qed.

(** ** The node numbers of a destination set *)
Lemma foldl_outcome {A B} (body : list B → A → outcome (list B)) (h : A → list B) xs v :
  (∀ x v, x ∈ xs → body v x = Ok (v ++ h x)) →
  foldl (λ acc x, v ← acc; body v x) (Ok v) xs = Ok (v ++ (xs ≫= h)).
Proof.
  revert v. induction xs as [|x xs IH]; intros v Hb; simpl; [by rewrite app_nil_r|].
  unfold mbind at 1, outcome_bind at 1. rewrite Hb by set_solver.
  rewrite IH by set_solver. by rewrite <- app_assoc.
Qed.

Definition set_nodes (base : Z) (s : BitSet) : list Z :=
  zrange 0 (set_m_nSize s) ≫= λ j, if Z.testbit (set_bits s) j then [base + j] else [].

Definition dest_nodes (d : NetDest) : list Z :=
  zrange 0 (NetDest_getSize d) ≫= λ t,
    match vget (nd_m_bits d) t with
    | Some s => set_nodes (MachineType_base_number t) s
    | None => []
    end.

Lemma Set_allDest_Ok n base s : wf_set n s → Set_allDest base s = Ok (set_nodes base s).
Proof.
  intros Hs. unfold Set_allDest, set_nodes.
  rewrite (foldl_outcome _ (λ j, if Z.testbit (set_bits s) j then [base + j] else [])); [done|].
  intros j v [? Hj]%elem_of_zrange. rewrite (proj1 Hs) in Hj. unfold mbind, outcome_bind.
  rewrite (Set_isElement_Ok n) by done.
  destruct (Z.testbit (set_bits s) j); by rewrite ?app_nil_r.
Qed.

Lemma NetDest_getAllDest_Ok d : wf_dest d → NetDest_getAllDest d = Ok (dest_nodes d).
Proof.
  intros [Hn Hd]. unfold NetDest_getAllDest, dest_nodes.
  erewrite foldl_outcome; [done|]. intros t v Ht%elem_of_zrange.
  destruct (vget_lookup (nd_m_bits d) t) as [s E]; [done|].
  unfold mbind, outcome_bind. rewrite (vgetO_Ok _ _ _ _ E).
  by rewrite (Set_allDest_Ok _ _ _ (Hd _ _ E)), E.
Qed.

Lemma elem_of_set_nodes n base s x :
  wf_set n s → x ∈ set_nodes base s ↔ ∃ j, Z.testbit (set_bits s) j = true ∧ x = base + j.
Proof.
  intros Hs. unfold set_nodes. rewrite list_elem_of_bind. split.
  - intros (j & Hx & _). destruct (Z.testbit (set_bits s) j) eqn:E; [|by apply not_elem_of_nil in Hx].
    apply list_elem_of_singleton in Hx. eauto.
  - intros (j & E & ->). exists j. rewrite E. split; [by apply list_elem_of_singleton|].
    apply elem_of_zrange. rewrite (proj1 Hs). by eapply testbit_lt.
Qed.

Lemma elem_of_dest_nodes d x :
  wf_dest d → x ∈ dest_nodes d ↔ ∃ m, mem m d = true ∧ x = node_number m.
Proof.
  intros [Hn Hd]. unfold dest_nodes. rewrite list_elem_of_bind. split.
  - intros (t & Hx & _). destruct (vget (nd_m_bits d) t) as [s|] eqn:E; [|by apply not_elem_of_nil in Hx].
    apply (elem_of_set_nodes _ _ _ _ (Hd _ _ E)) in Hx as (j & Hj & ->).
    exists (mkMachineID t j). unfold mem. simpl. by rewrite E.
  - intros ([t j] & Hm & ->). unfold mem in Hm. simpl in Hm.
    destruct (vget (nd_m_bits d) t) as [s|] eqn:E; [|done].
    exists t. rewrite E. split; [apply (elem_of_set_nodes _ _ _ _ (Hd _ _ E)); eauto|].
    apply elem_of_zrange. by apply vget_Some_lt in E.
Qed.

(** Blocks of increasing numbers in increasing ranges. *)
Lemma sorted_blocks (H : Z → list Z) (B : Z → Z) lo hi :
  (∀ i, lo ≤ i < hi → B i ≤ B (i + 1) ∧ StronglySorted Z.lt (H i) ∧
     ∀ x, x ∈ H i → B i ≤ x < B (i + 1)) →
  StronglySorted Z.lt (zrange lo hi ≫= H) ∧ ∀ x, x ∈ zrange lo hi ≫= H → B lo ≤ x.
Proof.
  remember (Z.to_nat (hi - lo)) as k eqn:Hk. revert lo Hk.
  induction k as [|k IH]; intros lo Hk Hb.
  { rewrite zrange_nil by lia. simpl. split; [constructor|]. by intros x ?%not_elem_of_nil. }
  rewrite zrange_cons by lia. simpl.
  destruct (IH (lo + 1)) as [IHs IHl]; [lia|intros; apply Hb; lia|].
  destruct (Hb lo) as (Hm & Hs & Hr); [lia|]. split.
  - apply StronglySorted_app_2; [|done..]. intros x y Hx%Hr Hy%IHl. lia.
  - intros x [Hx%Hr|Hx%IHl]%elem_of_app; lia.
Qed.

Lemma set_nodes_sorted base s : StronglySorted Z.lt (set_nodes base s).
Proof.
  unfold set_nodes. apply (sorted_blocks _ (λ j, base + j)). intros j _.
  split; [lia|]. destruct (Z.testbit (set_bits s) j); simpl.
  - split; [repeat constructor|]. intros x ->%list_elem_of_singleton. lia.
  - split; [constructor|]. by intros x ?%not_elem_of_nil.
Qed.

Lemma dest_nodes_sorted d : wf_dest d → StronglySorted Z.lt (dest_nodes d).
Proof.
  intros [Hn Hd]. unfold dest_nodes. apply (sorted_blocks _ MachineType_base_number). intros t Ht.
  rewrite Hn in Ht. rewrite mt_number_S by lia. pose proof (mt_count_nonneg t Ht).
  split; [lia|]. destruct (vget (nd_m_bits d) t) as [s|] eqn:E.
  - split; [apply set_nodes_sorted|].
    intros x (j & Hj & ->)%(elem_of_set_nodes _ _ _ _ (Hd _ _ E)).
    pose proof (testbit_lt _ _ _ (Hd _ _ E) Hj). lia.
  - split; [constructor|]. by intros x ?%not_elem_of_nil.
Qed.

(** [getAllDest] returns the node numbers of exactly the machines of the
    set, in increasing order and so without repetition: a multicast message
    becomes one packet for each of its destinations. *)
Theorem NetDest_getAllDest_correct d :
  wf_dest d →
  ∃ l, NetDest_getAllDest d = Ok l ∧ StronglySorted Z.lt l ∧
    ∀ n, n ∈ l ↔ ∃ m, mem m d = true ∧ n = node_number m.
Proof.
  intros Hd. exists (dest_nodes d). split; [by apply NetDest_getAllDest_Ok|].
  split; [by apply dest_nodes_sorted|]. intros n. by apply elem_of_dest_nodes.
Qed.

(** ** The destination set of one node *)
Lemma base_number_mono a b :
  0 ≤ a → a ≤ b → b ≤ MachineType_NUM → MachineType_base_number a ≤ MachineType_base_number b.
Proof.
  intros Ha Hab. revert b Hab. refine (Zlt_lower_bound_ind _ a _).
  intros c IH Hc Hn. destruct (decide (c = a)) as [->|]; [lia|].
  specialize (IH (c - 1) ltac:(lia) ltac:(lia)). replace c with (c - 1 + 1) by lia. rewrite mt_number_S by lia.
  assert (0 ≤ MachineType_base_count (c - 1)) by (apply mt_count_nonneg; lia). lia.
Qed.

Lemma node_number_range m :
  valid_machine m →
  MachineType_base_number (mid_type m) ≤ node_number m < MachineType_base_number (mid_type m + 1).
Proof. intros [? ?]. unfold node_number. rewrite mt_number_S by lia. lia. Qed.

(** Different machines have different numbers. *)
Lemma node_number_inj m m' :
  valid_machine m → valid_machine m' → node_number m = node_number m' → m = m'.
Proof.
  intros Hm Hm' E. pose proof (node_number_range m Hm). pose proof (node_number_range m' Hm').
  assert (Ht : mid_type m = mid_type m').
  { destruct (Hm) as [? _], (Hm') as [? _].
    destruct (Z.lt_total (mid_type m) (mid_type m')) as [?|[?|?]]; [|done|].
    - pose proof (base_number_mono (mid_type m + 1) (mid_type m')). lia.
    - pose proof (base_number_mono (mid_type m' + 1) (mid_type m)). lia. }
  destruct m as [t n], m' as [t' n']. simpl in Ht. subst. unfold node_number in E. simpl in E.
  f_equal. lia.
Qed.

Lemma find_first_pure {A} (p : A → bool) xs : find_first (λ x, Ok (p x)) xs = Ok (first_such p xs).
Proof. induction xs as [|x xs IH]; [done|]. simpl. by destruct (p x). Qed.

(** The empty destination set. *)
Definition no_dest : NetDest :=
  mkNetDest ((λ t, mkBitSet (MachineType_base_count t) 0) <$> zrange 0 MachineType_NUM).

Lemma vget_no_dest t :
  0 ≤ t < MachineType_NUM → vget (nd_m_bits no_dest) t = Some (mkBitSet (MachineType_base_count t) 0).
Proof.
  intros Ht. apply vget_Some. split; [lia|]. simpl. rewrite list_lookup_fmap. unfold zrange.
  rewrite lookup_seqZ_lt by lia. simpl. do 2 f_equal; f_equal; lia.
Qed.

Definition sizes_ok : Prop :=
  ∀ t, 0 ≤ t < MachineType_NUM → MachineType_base_count t ≤ NUMBER_BITS_PER_SET.

Lemma wf_sizes_ok d : wf_dest d → sizes_ok.
Proof.
  intros [Hn Hd] t Ht. destruct (vget_lookup (nd_m_bits d) t) as [s E].
  { unfold NetDest_getSize in Hn. lia. }
  by destruct (Hd _ _ E) as (_ & [_ ?] & _).
Qed.

Lemma NetDest_resize_Ok : sizes_ok → NetDest_resize = Ok no_dest.
Proof.
  intros Hs. unfold NetDest_resize, no_dest. pose proof mt_num_pos.
  rewrite (mt_level MachineType_NUM) by lia. unfold assertO. rewrite Z.eqb_refl.
  unfold mbind, outcome_bind.
  match goal with |- context [match ?g (zrange _ _) with _ => _ end] => set (go := g) end.
  assert (Hgo : ∀ xs, (∀ t, t ∈ xs → 0 ≤ t < MachineType_NUM) →
    go xs = Ok ((λ t, mkBitSet (MachineType_base_count t) 0) <$> xs)).
  { intros xs. induction xs as [|t xs IH]; intros Hx; [done|]. simpl.
    unfold Set_setSize. destruct (Z.ltb_spec NUMBER_BITS_PER_SET (MachineType_base_count t)).
    - pose proof (Hs t (Hx t ltac:(set_solver))). lia.
    - rewrite IH by set_solver. done. }
  rewrite Hgo by (intros t; apply elem_of_zrange). done.
Qed.

Lemma wf_no_dest : sizes_ok → wf_dest no_dest.
Proof.
  intros Hs. pose proof mt_num_pos. assert (Hl : NetDest_getSize no_dest = MachineType_NUM).
  { unfold NetDest_getSize, vsize. simpl. rewrite length_fmap. unfold zrange. rewrite length_seqZ. lia. }
  split; [done|]. intros t s E.
  assert (Ht : 0 ≤ t < MachineType_NUM) by (rewrite <- Hl; by apply vget_Some_lt in E).
  rewrite vget_no_dest in E by done. simplify_eq. pose proof (mt_count_nonneg t Ht).
  pose proof (Hs t Ht). repeat split; simpl; try lia. intros. apply Z.bits_0.
Qed.

Lemma mem_no_dest m : mem m no_dest = false.
Proof.
  unfold mem. destruct (vget (nd_m_bits no_dest) (mid_type m)) as [s|] eqn:E; [|done].
  apply vget_Some in E as [_ E]. simpl in E. rewrite list_lookup_fmap in E.
  apply fmap_Some in E as (t & _ & ->). apply Z.bits_0.
Qed.

Lemma NetDest_AND_Ok d e :
  wf_dest d → wf_dest e → NetDest_AND e d = Ok (combine Z.land d e).
Proof.
  intros Hd He. unfold NetDest_AND, assertO. rewrite wf_getSize_eqb by done.
  unfold mbind, outcome_bind. rewrite NetDest_resize_Ok by (by eapply wf_sizes_ok).
  rewrite (zipO_combine _ Z.land).
  - unfold inrangeO. destruct (wf_no_dest (wf_sizes_ok d Hd)) as [-> _].
    pose proof (proj1 Hd) as Hn. rewrite Hn, Z.leb_refl. unfold combine at 2. simpl.
    rewrite drop_ge; [by rewrite app_nil_r|]. rewrite length_fmap, length_zip_with.
    unfold zrange. rewrite length_seqZ. pose proof (wf_length d e Hd He).
    unfold NetDest_getSize, vsize in *. lia.
  - intros s t E. unfold Set_AND, assertO. rewrite E, Z.eqb_refl. destruct s. simpl in *. by subst.
  - done.
  - done.
Qed.

Lemma mem_lor d e m : wf_dest d → wf_dest e → mem m (combine Z.lor d e) = mem m d || mem m e.
Proof. apply mem_combine; [apply Z.lor_spec|done]. Qed.
Lemma wf_lor d e : wf_dest d → wf_dest e → wf_dest (combine Z.lor d e).
Proof.
  apply wf_combine; [intros; apply Z.lor_nonneg; auto|]. intros a b i H1 H2. by rewrite Z.lor_spec, H1, H2.
Qed.
Lemma mem_land d e m : wf_dest d → wf_dest e → mem m (combine Z.land d e) = mem m d && mem m e.
Proof. apply mem_combine; [apply Z.land_spec|done]. Qed.
Lemma mem_ldiff d e m : wf_dest d → wf_dest e → mem m (combine Z.ldiff d e) = mem m d && negb (mem m e).
Proof. apply (mem_combine _ (λ a b, a && negb b)); [apply Z.ldiff_spec|done]. Qed.
Lemma wf_land d e : wf_dest d → wf_dest e → wf_dest (combine Z.land d e).
Proof.
  apply wf_combine; [intros; apply Z.land_nonneg; auto|]. intros a b i H1 H2. by rewrite Z.land_spec, H1.
Qed.
Lemma wf_ldiff d e : wf_dest d → wf_dest e → wf_dest (combine Z.ldiff d e).
Proof.
  apply wf_combine; [intros; apply Z.ldiff_nonneg; auto|]. intros a b i H1 H2. by rewrite Z.ldiff_spec, H1.
Qed.

(** [count] is zero exactly for the empty set. *)
Lemma Set_count_0 s :
  Set_count s = 0 ↔ ∀ i, 0 ≤ i < NUMBER_BITS_PER_SET → Z.testbit (set_bits s) i = false.
Proof.
  unfold Set_count, vsize. split.
  - intros E i Hi. destruct (filter _ _) as [|y l] eqn:Ef; [|simpl in E; lia].
    apply not_true_is_false. intros Ht. assert (H : i ∈ @nil Z); [|by apply elem_of_nil in H].
    rewrite <- Ef. apply list_elem_of_filter. split; [done|by apply elem_of_zrange].
  - intros E. destruct (filter _ _) as [|y l] eqn:Ef; [done|].
    assert (H : y ∈ y :: l) by set_solver. rewrite <- Ef in H.
    apply list_elem_of_filter in H as [H1 H2%elem_of_zrange]. by rewrite E in H1.
Qed.

Lemma NetDest_count_0 d : wf_dest d → (NetDest_count d = 0 ↔ ∀ m, mem m d = false).
Proof.
  intros Hd. unfold NetDest_count.
  assert (Hc : ∀ l c, 0 ≤ c → c ≤ foldl (λ c s, c + Set_count s) c l ∧
    (foldl (λ c s, c + Set_count s) c l = c ↔ ∀ s, s ∈ l → Set_count s = 0)).
  { induction l as [|s l IH]; intros c Hc; simpl; [split; [lia|set_solver]|].
    assert (0 ≤ Set_count s) by (unfold Set_count, vsize; lia).
    destruct (IH (c + Set_count s)) as [H1 H2]; [lia|]. split; [lia|].
    split; [intros E s'; rewrite elem_of_cons|intros E].
    - assert (Set_count s = 0) by lia. intros [->|]; [done|]. apply H2; [lia|done].
    - rewrite (E s) in * by set_solver. rewrite Z.add_0_r in *. apply H2. set_solver. }
  rewrite (proj2 (Hc (nd_m_bits d) 0 ltac:(lia))). clear Hc.
  split.
  - intros E m. apply not_true_is_false. intros Hm. pose proof (mem_valid _ _ Hd Hm) as [Ht Hn].
    pose proof (wf_sizes_ok d Hd _ Ht). unfold mem in Hm.
    destruct (vget (nd_m_bits d) (mid_type m)) as [s|] eqn:Es; [|done].
    apply vget_Some in Es as [_ Es%list_elem_of_lookup_2].
    rewrite (proj1 (Set_count_0 s) (E s Es)) in Hm; [done|lia].
  - intros E s [i Hs]%list_elem_of_lookup. apply Set_count_0. intros j Hj.
    specialize (E (mkMachineID (Z.of_nat i) j)). unfold mem in E. simpl in E.
    assert (Hv : vget (nd_m_bits d) (Z.of_nat i) = Some s) by (apply vget_Some; rewrite Nat2Z.id; split; [lia|done]).
    by rewrite Hv in E.
Qed.

Lemma clear_no_dest : NetDest_clear no_dest = no_dest.
Proof. unfold NetDest_clear, no_dest. simpl. by rewrite <- list_fmap_compose. Qed.

Lemma first_such_machine m :
  valid_machine m →
  first_such (λ t, (MachineType_base_number t <=? node_number m) &&
                   (node_number m <? MachineType_base_number (t + 1))) (zrange 0 MachineType_NUM)
  = Some (mid_type m).
Proof.
  intros Hm. pose proof (node_number_range m Hm) as Hr. destruct (Hm) as [Ht _].
  set (p := λ t, _). pose proof (first_such_zrange p 0 MachineType_NUM) as Hf.
  destruct (first_such p (zrange 0 MachineType_NUM)) as [t|].
  - destruct Hf as (Hb & Hp & _). f_equal. apply andb_true_iff in Hp as [H1%Z.leb_le H2%Z.ltb_lt].
    destruct (Z.lt_total t (mid_type m)) as [?|[?|?]]; [|done|].
    + pose proof (base_number_mono (t + 1) (mid_type m)). lia.
    + pose proof (base_number_mono (mid_type m + 1) t). lia.
  - exfalso. specialize (Hf (mid_type m) Ht). unfold p in Hf.
    apply andb_false_iff in Hf as [Hf%Z.leb_gt|Hf%Z.ltb_ge]; lia.
Qed.

Lemma sorted_singleton (l : list Z) x :
  StronglySorted Z.lt l → (∀ n, n ∈ l ↔ n = x) → l = [x].
Proof.
  intros Hs Hl. destruct l as [|a [|b l]].
  - exfalso. by apply (not_elem_of_nil x), Hl.
  - f_equal. apply Hl. set_solver.
  - exfalso. assert (a = x) by (apply Hl; set_solver). assert (b = x) by (apply Hl; set_solver).
    subst. apply StronglySorted_inv in Hs as [_ Hs]. apply Forall_cons in Hs as [? _]. lia.
Qed.

(** Splitting a multicast message: for every destination of a message, the
    set that [flitisizeMessage] builds from the node number contains that
    machine and no other, and its only node number is the given one. *)
Theorem personal_dest_roundtrip d m :
  wf_dest d → mem m d = true →
  ∃ p, personal_dest (node_number m) = Ok (Some p) ∧ wf_dest p ∧
    (∀ m', valid_machine m' → mem m' p = bool_decide (m' = m)) ∧
    NetDest_getAllDest p = Ok [node_number m].
Proof.
  intros Hd Hmd. pose proof (mem_valid d m Hd Hmd) as Hm. pose proof (wf_sizes_ok d Hd) as Hsz.
  destruct (NetDest_add_mem no_dest m (wf_no_dest Hsz) Hm) as (p & Ha & Hp & Hmem).
  assert (Hmem' : ∀ m', valid_machine m' → mem m' p = bool_decide (m' = m)).
  { intros m' Hv. by rewrite Hmem, mem_no_dest, orb_false_r. }
  exists p. split_and!; try done.
  - unfold personal_dest. rewrite (NetDest_resize_Ok Hsz). unfold mbind, outcome_bind.
    rewrite find_first_pure, (first_such_machine m Hm), clear_no_dest.
    replace (mkMachineID (mid_type m) (node_number m - MachineType_base_number (mid_type m))) with m.
    + by rewrite Ha.
    + destruct m as [t n]. unfold node_number. simpl. f_equal. lia.
  - rewrite (NetDest_getAllDest_Ok p Hp). f_equal. apply sorted_singleton; [by apply dest_nodes_sorted|].
    intros n. rewrite (elem_of_dest_nodes p n Hp). split.
    + intros (m' & Hm' & ->). rewrite Hmem' in Hm' by eauto using mem_valid.
      apply bool_decide_eq_true in Hm'. by subst.
    + intros ->. exists m. rewrite Hmem' by done. by rewrite bool_decide_true.
Qed.
End NetDestTheory.

(** ** A concrete system

    Two machine types with three and two machines, and a message for the first
    machine of each type. *)
Definition two_types : MachineTypes :=
  {| MachineType_NUM := 2;
     MachineType_base_level := λ m, m;
     MachineType_from_base_level := λ m, m;
     MachineType_base_number := λ m, if m =? 0 then 0 else if m =? 1 then 3 else 5;
     MachineType_base_count := λ m, if m =? 0 then 3 else 2 |}.

#[export] Instance two_types_spec : MachineTypesSpec two_types.
Proof.
  split; simpl; try done.
  - intros m Hm. assert (m = 0 ∨ m = 1) as [-> | ->] by lia; done.
  - intros m _. by destruct (m =? 0).
Qed.

Definition multicast : NetDest := mkNetDest [mkBitSet 3 1; mkBitSet 2 1].

Lemma small_set_wf n b : b ∈ [0; 1; 2; 3] → n ∈ [2; 3] → wf_set n (mkBitSet n b).
Proof.
  intros Hb Hn. set_unfold in Hb. set_unfold in Hn.
  unfold wf_set, NUMBER_BITS_PER_SET. simpl. split_and!; try lia. intros i Hi.
  destruct (decide (b = 0)) as [->|]; [apply Z.bits_0|].
  apply Z.bits_above_log2; [lia|]. apply Z.log2_lt_pow2; [lia|].
  apply Z.lt_le_trans with (2 ^ 2); [lia|]. apply Z.pow_le_mono_r; lia.
Qed.

Lemma small_dest_wf b c :
  b ∈ [0; 1; 2; 3] → c ∈ [0; 1; 2; 3] →
  wf_dest (MT := two_types) (mkNetDest [mkBitSet 3 b; mkBitSet 2 c]).
Proof.
  intros Hb Hc. split; [done|]. intros t s [Ht E]%vget_Some.
  assert (t = 0 ∨ t = 1) as [-> | ->] by (apply lookup_lt_Some in E; simpl in E; lia);
    simpl in E; simplify_eq; apply small_set_wf; set_solver.
Qed.

Lemma NetDest_getAllDest_correct_witness :
  ∃ l, NetDest_getAllDest (MT := two_types) multicast = Ok l ∧ l = [0; 3] ∧ StronglySorted Z.lt l.
Proof.
  destruct (NetDest_getAllDest_correct (MT := two_types) multicast) as (l & Hl & Hs & _).
  - by apply small_dest_wf; set_solver.
  - exists l. split; [exact Hl|]. split; [|exact Hs]. vm_compute in Hl. congruence.
Defined.
