(* ===== verification/NetDestSets.v ===== *)
(** * Destination sets as finite sets

    The set of machines that a [NetDest] stands for, as a [gset], and the
    operations of [NetDest] as operations on it.  A destination set is a list of
    bit sets, one per machine type; [machines] lists its elements in the order in
    which [smallestElement] looks for them. *)

From stdpp Require Import sorting.
From S2P Require Import Prelude NetDestModel NetDestTheory.

#[export] Instance MachineID_countable : Countable MachineID.
Proof.
  refine (inj_countable' (λ m, (mid_type m, mid_num m)) (λ p, mkMachineID p.1 p.2) _). by intros [].
Defined.

(** The order of the machines: by type, then by number. *)
Definition mid_le (m m' : MachineID) : Prop :=
  mid_type m < mid_type m' ∨ (mid_type m = mid_type m' ∧ mid_num m ≤ mid_num m').

Definition bits_of (s : BitSet) : list Z :=
  filter (λ i, Z.testbit (set_bits s) i = true) (zrange 0 NUMBER_BITS_PER_SET).
Fixpoint machines (t : Z) (l : list BitSet) : list MachineID :=
  match l with [] => [] | s :: l => (mkMachineID t <$> bits_of s) ++ machines (t + 1) l end.

Definition members (d : NetDest) : gset MachineID := list_to_set (machines 0 (nd_m_bits d)).

Lemma elem_of_bits_of s i :
  i ∈ bits_of s ↔ Z.testbit (set_bits s) i = true ∧ 0 ≤ i < NUMBER_BITS_PER_SET.
Proof. unfold bits_of. by rewrite list_elem_of_filter, elem_of_zrange. Qed.

Lemma elem_of_machines m t l :
  m ∈ machines t l ↔
  t ≤ mid_type m ∧ ∃ s, l !! Z.to_nat (mid_type m - t) = Some s ∧ mid_num m ∈ bits_of s.
Proof.
  revert t. induction l as [|s l IH]; intros t; csimpl; [set_solver|].
  rewrite elem_of_app, IH, list_elem_of_fmap. split.
  - intros [(i & -> & Hi)|(Ht & s' & Hs & Hm)]; simpl; split; try lia.
    + exists s. by rewrite Z.sub_diag.
    + exists s'. split; [|done]. replace (Z.to_nat (mid_type m - t)) with (S (Z.to_nat (mid_type m - (t + 1)))) by lia. done.
  - intros (Ht & s' & Hs & Hm). destruct (decide (mid_type m = t)) as [E|].
    + left. exists (mid_num m). rewrite E, Z.sub_diag in Hs. simpl in Hs. simplify_eq. by destruct m.
    + right. split; [lia|]. exists s'. split; [|done].
      replace (Z.to_nat (mid_type m - t)) with (S (Z.to_nat (mid_type m - (t + 1)))) in Hs by lia. done.
Qed.

Lemma NoDup_machines t l : NoDup (machines t l).
Proof.
  revert t. induction l as [|s l IH]; intros t; simpl; [constructor|]. apply NoDup_app. split_and!.
  - apply NoDup_fmap_2; [by intros ?? [=]|]. apply NoDup_filter, NoDup_seqZ.
  - intros m (i & -> & _)%list_elem_of_fmap [Hm _]%elem_of_machines. simpl in Hm. lia.
  - apply IH.
Qed.

Lemma count_machines t l c : foldl (λ c s, c + Set_count s) c l = c + vsize (machines t l).
Proof.
  revert t c. induction l as [|s l IH]; intros t c; simpl; [unfold vsize; simpl; lia|].
  rewrite (IH (t + 1)). unfold vsize, Set_count. fold (bits_of s). rewrite length_app, length_fmap. unfold vsize. lia.
Qed.

Lemma NetDest_count_size d : NetDest_count d = Z.of_nat (size (members d)).
Proof.
  unfold NetDest_count, members. rewrite (count_machines 0), size_list_to_set by apply NoDup_machines. done.
Qed.

Section NetDestSets.
Context `{MTS : MachineTypesSpec}.
Implicit Types d e : NetDest.

Lemma elem_of_members d m : wf_dest d → m ∈ members d ↔ mem m d = true.
Proof.
  intros Hd. unfold members. rewrite elem_of_list_to_set, elem_of_machines, Z.sub_0_r. split.
  - intros (Ht & s & Hs & [Hb _]%elem_of_bits_of). unfold mem.
    by rewrite (proj2 (vget_Some _ _ _) (conj Ht Hs)).
  - intros Hm. pose proof (mem_valid d m Hd Hm) as [Ht Hn]. split; [lia|]. unfold mem in Hm.
    destruct (vget (nd_m_bits d) (mid_type m)) as [s|] eqn:E; [|done].
    pose proof E as [_ Es]%vget_Some. exists s. split; [done|]. apply elem_of_bits_of. split; [done|].
    pose proof (wf_sizes_ok d Hd _ Ht). lia.
Qed.

Lemma members_valid d m : wf_dest d → m ∈ members d → valid_machine m.
Proof. intros Hd Hm%elem_of_members; [|done]. by eapply mem_valid. Qed.

Lemma members_isElement d m :
  wf_dest d → valid_machine m → NetDest_isElement m d = Ok (bool_decide (m ∈ members d)).
Proof.
  intros Hd Hm. rewrite NetDest_isElement_mem by done. f_equal. apply Bool.eq_iff_eq_true.
  by rewrite bool_decide_eq_true, elem_of_members.
Qed.

Lemma members_add d m :
  wf_dest d → valid_machine m →
  ∃ d', NetDest_add m d = Ok d' ∧ wf_dest d' ∧ members d' = {[m]} ∪ members d.
Proof.
  intros Hd Hm. destruct (NetDest_add_mem d m Hd Hm) as (d' & E & Hd' & Hmem). exists d'. split_and!; try done.
  apply set_eq. intros m'. rewrite elem_of_union, elem_of_singleton, !elem_of_members by done.
  destruct (decide (m' = m)) as [->|Hne].
  { rewrite Hmem by done. rewrite bool_decide_eq_true_2 by done. simpl. naive_solver. }
  split.
  - intros Hm'. rewrite Hmem, bool_decide_eq_false_2 in Hm' by eauto using mem_valid. by right.
  - intros [|Hm']; [done|]. rewrite Hmem by (by apply (mem_valid d)). rewrite Hm'. apply orb_true_r.
Qed.

Lemma members_remove d m :
  wf_dest d → valid_machine m →
  ∃ d', NetDest_remove m d = Ok d' ∧ wf_dest d' ∧ members d' = members d ∖ {[m]}.
Proof.
  intros Hd Hm. destruct (NetDest_remove_mem d m Hd Hm) as (d' & E & Hd' & Hmem). exists d'. split_and!; try done.
  apply set_eq. intros m'. rewrite elem_of_difference, elem_of_singleton, !elem_of_members by done. split.
  - intros Hm'. rewrite Hmem in Hm' by (by apply (mem_valid d')). case_bool_decide; naive_solver.
  - intros [Hm' Hne]. by rewrite Hmem, Hm', bool_decide_eq_false_2 by (eauto using mem_valid).
Qed.

Lemma members_isSuperset d e :
  wf_dest d → wf_dest e → NetDest_isSuperset e d = Ok (bool_decide (members e ⊆ members d)).
Proof.
  intros Hd He. destruct (NetDest_isSuperset_spec d e Hd He) as (b & -> & Hb). f_equal.
  apply Bool.eq_iff_eq_true. rewrite bool_decide_eq_true, Hb. split.
  - intros H m. rewrite !elem_of_members by done. apply H.
  - intros H m. rewrite <- !elem_of_members by done. apply H.
Qed.

Lemma members_isEmpty d : wf_dest d → NetDest_isEmpty d = bool_decide (members d = ∅).
Proof.
  intros Hd. apply Bool.eq_iff_eq_true. rewrite bool_decide_eq_true. unfold NetDest_isEmpty. rewrite forallb_forall. split.
  - intros H. apply elem_of_equiv_empty_L. intros m Hm%elem_of_members; [|done]. unfold mem in Hm.
    destruct (vget (nd_m_bits d) (mid_type m)) as [s|] eqn:E; [|done].
    apply vget_Some in E as [_ E%list_elem_of_lookup_2%list_elem_of_In]. apply H in E. unfold Set_isEmpty in E.
    apply Z.eqb_eq in E. by rewrite E, Z.bits_0 in Hm.
  - intros H s [i Hs]%list_elem_of_In%list_elem_of_lookup. apply Z.eqb_eq, Z.bits_inj'. intros j Hj. rewrite Z.bits_0.
    apply not_true_is_false. intros Hb. apply (not_elem_of_empty (C := gset MachineID) (mkMachineID (Z.of_nat i) j)).
    rewrite <- H. apply elem_of_members; [done|]. unfold mem. simpl.
    rewrite (proj2 (vget_Some _ _ s)); [done|]. split; [lia|]. by rewrite Nat2Z.id.
Qed.

Lemma members_no_dest : sizes_ok → members no_dest = ∅.
Proof.
  intros Hs. apply elem_of_equiv_empty_L. intros m Hm%elem_of_members; [|by apply wf_no_dest].
  by rewrite mem_no_dest in Hm.
Qed.

(** [smallestElement] returns the first machine of the order. *)
Lemma find_first_ext {A} (test : A → outcome bool) (p : A → bool) xs :
  (∀ x, x ∈ xs → test x = Ok (p x)) → find_first test xs = Ok (first_such p xs).
Proof.
  induction xs as [|x xs IH]; intros H; simpl; [done|]. rewrite H by set_solver.
  unfold mbind, outcome_bind. destruct (p x); [done|]. apply IH. set_solver.
Qed.

Lemma first_bit n s :
  wf_set n s →
  match find_first (λ j, Set_isElement j s) (zrange 0 (set_m_nSize s)) with
  | Ok (Some j) => j ∈ bits_of s ∧ ∀ k, k ∈ bits_of s → j ≤ k
  | Ok None => bits_of s = []
  | Abort _ => False
  end.
Proof.
  intros Hs. pose proof Hs as (Hn & Hle & _). rewrite Hn, (find_first_ext _ (Z.testbit (set_bits s))).
  2:{ intros j Hj%elem_of_zrange. by apply (Set_isElement_Ok n). }
  pose proof (first_such_zrange (Z.testbit (set_bits s)) 0 n) as Hf.
  destruct (first_such _ _) as [j|].
  - destruct Hf as (Hj & Hb & Hmin). split; [apply elem_of_bits_of; split; [done|lia]|].
    intros k [Hk Hk0]%elem_of_bits_of. apply Z.nlt_ge. intros Hlt. by rewrite Hmin in Hk by lia.
  - destruct (bits_of s) as [|j l] eqn:E; [done|]. assert (Hj : j ∈ bits_of s) by (rewrite E; left).
    apply elem_of_bits_of in Hj as [Hj _]. rewrite Hf in Hj by (by eapply testbit_lt). done.
Qed.

Definition least (m : MachineID) (l : list MachineID) : Prop := m ∈ l ∧ ∀ m', m' ∈ l → mid_le m m'.

Definition smallest (m : MachineID) (s : gset MachineID) : Prop :=
  m ∈ s ∧ ∀ m', m' ∈ s → mid_le m m'.
Lemma members_least d m : least m (machines 0 (nd_m_bits d)) ↔ smallest m (members d).
Proof. unfold least, smallest, members. by setoid_rewrite elem_of_list_to_set. Qed.

Lemma members_smallest d :
  wf_dest d →
  match NetDest_smallestElement d with
  | Ok m => least m (machines 0 (nd_m_bits d))
  | Abort _ => members d = ∅
  end.
Proof.
  intros Hd. unfold NetDest_smallestElement, assertO. rewrite NetDest_count_size.
  destruct (Z.ltb_spec 0 (Z.of_nat (size (members d)))) as [_|Hc]; unfold mbind, outcome_bind.
  2:{ apply leibniz_equiv, size_empty_inv. lia. }
  match goal with |- match ?g 0 _ with _ => _ end => set (go := g) end.
  assert (Hgo : ∀ l t, 0 ≤ t → t + vsize l ≤ MachineType_NUM →
    (∀ i s, l !! i = Some s → wf_set (MachineType_base_count (t + Z.of_nat i)) s) →
    match go t l with Ok m => least m (machines t l) | Abort _ => machines t l = [] end).
  { intros l. induction l as [|s l IH]; intros t Ht Hn Hw; [done|]. simpl.
    unfold vsize in *. simpl in Hn. pose proof (first_bit _ s (Hw O s eq_refl)) as Hf.
    destruct (find_first _ _) as [[j|]|]; [|rewrite Hf; simpl|done].
    - destruct Hf as [Hj Hmin]. rewrite mt_from_level by lia. split; [apply elem_of_app; left; by apply list_elem_of_fmap_2|].
      intros m' [(k & -> & Hk)%list_elem_of_fmap|[Hm _]%elem_of_machines]%elem_of_app; [right|left; simpl; lia].
      split; [done|by apply Hmin].
    - apply IH; [lia..|]. intros i s' Hs'. specialize (Hw (S i) s' Hs'). by replace (t + 1 + Z.of_nat i) with (t + Z.of_nat (S i)) by lia. }
  specialize (Hgo (nd_m_bits d) 0 ltac:(lia)). destruct Hd as [Hn Hw]. unfold NetDest_getSize in Hn.
  specialize (Hgo ltac:(lia)). unfold members. destruct (go _ _); [|rewrite Hgo; [done|]]; [apply Hgo|];
    intros i s Hs; apply (Hw (Z.of_nat i)), vget_Some; rewrite Nat2Z.id; split; [lia|done|lia|done].
Qed.

(** Operations that combine two sets bit by bit. *)
Lemma members_combine op d e (X : gset MachineID) :
  wf_dest (combine op d e) → (∀ m, mem m (combine op d e) = true ↔ m ∈ X) → members (combine op d e) = X.
Proof. intros Hw H. apply set_eq. intros m. by rewrite elem_of_members. Qed.

Lemma members_union d e : wf_dest d → wf_dest e → members (combine Z.lor d e) = members d ∪ members e.
Proof.
  intros Hd He. apply members_combine; [by apply wf_lor|]. intros m.
  by rewrite mem_lor, orb_true_iff, elem_of_union, !elem_of_members.
Qed.
Lemma members_difference d e : wf_dest d → wf_dest e → members (combine Z.ldiff d e) = members d ∖ members e.
Proof.
  intros Hd He. apply members_combine; [by apply wf_ldiff|]. intros m.
  by rewrite mem_ldiff, andb_true_iff, negb_true_iff, <- not_true_iff_false, elem_of_difference, !elem_of_members.
Qed.
Lemma members_intersection d e : wf_dest d → wf_dest e → members (combine Z.land d e) = members d ∩ members e.
Proof.
  intros Hd He. apply members_combine; [by apply wf_land|]. intros m.
  by rewrite mem_land, andb_true_iff, elem_of_intersection, !elem_of_members.
Qed.

Lemma members_meet d e :
  wf_dest d → wf_dest e →
  NetDest_intersectionIsNotEmpty e d = Ok (bool_decide (members d ∩ members e ≠ ∅)).
Proof.
  intros Hd He. destruct (NetDest_intersection_spec d e Hd He) as (b & -> & Hb). f_equal.
  apply Bool.eq_iff_eq_true. rewrite bool_decide_eq_true, Hb. split.
  - intros (m & H1 & H2). rewrite <- elem_of_members in H1, H2 by done. set_solver.
  - intros [m [H1 H2]%elem_of_intersection]%set_choose_L. exists m. by rewrite <- !elem_of_members.
Qed.

(** C25.  A destination set is a finite set of machines, whatever the bits: its
    operations return, keep the representation invariant, and are membership,
    insertion, removal, union, difference, intersection, inclusion, the tests for
    a common element and for emptiness, the number of elements, and the first
    element in the order of types and numbers. *)
Theorem NetDest_refines_gset d e m :
  wf_dest d → wf_dest e → valid_machine m →
  NetDest_isElement m d = Ok (bool_decide (m ∈ members d)) ∧
  (∃ d', NetDest_add m d = Ok d' ∧ wf_dest d' ∧ members d' = {[m]} ∪ members d) ∧
  (∃ d', NetDest_remove m d = Ok d' ∧ wf_dest d' ∧ members d' = members d ∖ {[m]}) ∧
  (∃ d', NetDest_addNetDest e d = Ok d' ∧ wf_dest d' ∧ members d' = members d ∪ members e) ∧
  (∃ d', NetDest_removeNetDest e d = Ok d' ∧ wf_dest d' ∧ members d' = members d ∖ members e) ∧
  (∃ d', NetDest_AND e d = Ok d' ∧ wf_dest d' ∧ members d' = members d ∩ members e) ∧
  NetDest_isSuperset e d = Ok (bool_decide (members e ⊆ members d)) ∧
  NetDest_intersectionIsNotEmpty e d = Ok (bool_decide (members d ∩ members e ≠ ∅)) ∧
  NetDest_isEmpty d = bool_decide (members d = ∅) ∧
  NetDest_count d = Z.of_nat (size (members d)) ∧
  match NetDest_smallestElement d with
  | Ok m' => smallest m' (members d)
  | Abort _ => members d = ∅
  end.
Proof.
  intros Hd He Hm. split_and!.
  - by apply members_isElement.
  - by apply members_add.
  - by apply members_remove.
  - exists (combine Z.lor d e). split_and!; [by apply NetDest_addNetDest_Ok|by apply wf_lor|by apply members_union].
  - exists (combine Z.ldiff d e).
    split_and!; [by apply NetDest_removeNetDest_Ok|by apply wf_ldiff|by apply members_difference].
  - exists (combine Z.land d e). split_and!; [by apply NetDest_AND_Ok|by apply wf_land|by apply members_intersection].
  - by apply members_isSuperset.
  - by apply members_meet.
  - by apply members_isEmpty.
  - apply NetDest_count_size.
  - pose proof (members_smallest d Hd) as H. destruct (NetDest_smallestElement d); [by apply members_least|done].
Qed.
End NetDestSets.

Lemma NetDest_refines_gset_witness :
  ∃ d', NetDest_add (MT := two_types) (mkMachineID 0 2) multicast = Ok d' ∧
    members d' = {[mkMachineID 0 2; mkMachineID 0 0; mkMachineID 1 0]} ∧ NetDest_count multicast = 2 ∧
    NetDest_isSuperset (mkNetDest [mkBitSet 3 3; mkBitSet 2 0]) multicast = Ok false.
Proof.
  destruct (NetDest_refines_gset (MT := two_types) multicast (mkNetDest [mkBitSet 3 3; mkBitSet 2 0]) (mkMachineID 0 2))
    as (_ & (d' & Ha & _ & Hm) & _ & _ & _ & _ & Hs & _ & _ & Hc & _).
  - by apply small_dest_wf; set_solver.
  - by apply small_dest_wf; set_solver.
  - by split.
  - exists d'. split; [exact Ha|]. split; [rewrite Hm; apply (bool_decide_eq_true_1 _); vm_compute; reflexivity|].
    split; [rewrite Hc; vm_compute; reflexivity|rewrite Hs; vm_compute; reflexivity].
Defined.
