(* ===== verification/SimpleSplit.v ===== *)
(** * Splitting a multicast message over the output links

    The routing loop of [PerfectSwitch::operateMessageBuffer] (simple network):
    what every output link gets, as a relation on destination sets, and that the
    loop computes it. *)

From S2P Require Import Prelude BinaryHeap NetDestModel AddrRangeModel NetworkModel CommonTypes GarnetState FlitBuffer Channels RoutingUnitModel SwapModel UnitsModel SwitchAllocatorModel MessageBufferModel NetworkInterfaceModel BuildModel TopologyModel SimpleNetworkModel NetDestTheory.

Section Split.
Context `{MTS : MachineTypesSpec}.

Definition meets (e d : NetDest) : Prop := ∃ m, mem m d = true ∧ mem m e = true.

(** [splits es d ps r]: the links with table entries [es], looked at in this
    order, take the parts [ps] of the destinations [d] and leave [r]. *)
Inductive splits : list (Z * NetDest) → NetDest → list (Z * NetDest) → NetDest → Prop :=
  | splits_nil d : splits [] d [] d
  | splits_take l e es d ps r :
      meets e d → splits es (combine Z.ldiff d e) ps r →
      splits ((l, e) :: es) d ((l, combine Z.land d e) :: ps) r
  | splits_skip l e es d ps r :
      ¬ meets e d → splits es d ps r → splits ((l, e) :: es) d ps r.

(** The table entry of the link at place [i] of the order. *)
Definition round_entry (table : list NetDest) (order : list LinkOrder) (i : Z) : option (Z * NetDest) :=
  l ← vget order i; e ← vget table (lo_m_link l); Some (lo_m_link l, e).

Lemma split_links_splits table order rounds es links dests d :
  Forall2 (λ i p, round_entry table order i = Some p) rounds es →
  Forall (λ p, wf_dest (snd p)) es → wf_dest d →
  ∃ ps r, split_links table order rounds links dests d =
            Ok (links ++ (fst <$> ps), dests ++ (snd <$> ps), r) ∧ splits es d ps r.
Proof.
  intros Hr. revert links dests d. induction Hr as [|i [l e] rounds es Hi _ IH]; intros links dests d He Hd.
  { exists [], d. simpl. rewrite !app_nil_r. split; [done|constructor]. }
  apply Forall_cons in He as [He Hes]. simpl in He.
  unfold round_entry in Hi. destruct (vget order i) as [o|] eqn:Eo; [|done]. simpl in Hi.
  destruct (vget table (lo_m_link o)) as [e'|] eqn:Ee; [|done]. simpl in Hi. simplify_eq.
  simpl. unfold mbind, outcome_bind. rewrite (vgetO_Ok _ _ _ _ Eo), (vgetO_Ok _ _ _ _ Ee).
  destruct (NetDest_intersection_spec d e Hd He) as (b & -> & Hb). destruct b.
  - rewrite NetDest_AND_Ok, NetDest_removeNetDest_Ok by done.
    destruct (IH (links ++ [lo_m_link o]) (dests ++ [combine Z.land d e]) (combine Z.ldiff d e))
      as (ps & r & -> & Hs); [done|by apply wf_ldiff|].
    exists ((lo_m_link o, combine Z.land d e) :: ps), r. simpl. rewrite <- !app_assoc. simpl.
    split; [done|]. constructor; [|done]. by apply Hb.
  - destruct (IH links dests d Hes Hd) as (ps & r & -> & Hs). exists ps, r. split; [done|].
    constructor; [|done]. intros Hm%Hb. done.
Qed.

Lemma splits_wf es d ps r :
  splits es d ps r → Forall (λ p, wf_dest (snd p)) es → wf_dest d →
  Forall (λ p, wf_dest (snd p)) ps ∧ wf_dest r.
Proof.
  induction 1 as [|l e es d ps r _ _ IH|l e es d ps r _ _ IH]; intros Hes Hd; [done|..];
    apply Forall_cons in Hes as [He Hes]; simpl in *.
  - destruct (IH Hes) as [H1 H2]; [by apply wf_ldiff|]. split; [|done]. constructor; [by apply wf_land|done].
  - by apply IH.
Qed.

(** The links that take a destination, in the order in which they are looked at. *)
Definition takers (m : MachineID) (ps : list (Z * NetDest)) : list Z :=
  fst <$> filter (λ p, mem m (snd p) = true) ps.

(** Every destination goes to the first link whose entry contains it, and only
    there; what no entry contains is left. *)
Lemma splits_exact es d ps r m :
  splits es d ps r → Forall (λ p, wf_dest (snd p)) es → wf_dest d →
  takers m ps = (if mem m d then take 1 (takers m es) else []) ∧
  mem m r = mem m d && bool_decide (takers m es = []).
Proof.
  unfold takers.
  induction 1 as [d|l e es d ps r Hm _ IH|l e es d ps r Hm _ IH]; intros Hes Hd;
    [by rewrite andb_true_r; destruct (mem m d)|..];
    apply Forall_cons in Hes as [He Hes]; simpl in He.
  - destruct (IH Hes) as [H1 H2]; [by apply wf_ldiff|]. rewrite !filter_cons. simpl.
    rewrite mem_ldiff in H1, H2 by done. rewrite mem_land by done.
    destruct (mem m d), (mem m e); cbn [andb negb] in *;
      rewrite ?(decide_True _ _ eq_refl), ?decide_False by done; csimpl;
      by rewrite ?H1, ?H2, ?take_0.
  - destruct (IH Hes Hd) as [H1 H2]. rewrite filter_cons. simpl.
    destruct (mem m e) eqn:Ee; [rewrite decide_True by done|by rewrite decide_False by done]. simpl.
    assert (Ed : mem m d = false) by (apply not_true_is_false; intros Ed; apply Hm; by exists m).
    by rewrite H1, H2, Ed.
Qed.

(** A part is not empty, and within the entry of its link. *)
Lemma splits_parts es d ps r l d' :
  splits es d ps r → Forall (λ p, wf_dest (snd p)) es → wf_dest d → (l, d') ∈ ps →
  (∃ m, mem m d' = true) ∧ ∃ e, (l, e) ∈ es ∧ ∀ m, mem m d' = true → mem m e = true.
Proof.
  induction 1 as [d|l0 e es d ps r Hm _ IH|l0 e es d ps r Hm _ IH]; intros Hes Hd; [by intros ?%elem_of_nil|..];
    apply Forall_cons in Hes as [He Hes]; simpl in He.
  - rewrite elem_of_cons. intros [[= -> ->]|Hin].
    + split; [destruct Hm as (m & H1 & H2); exists m; by rewrite mem_land, H1, H2|].
      exists e. split; [set_solver|]. intros m. rewrite mem_land by done. by intros [_ ?]%andb_true_iff.
    + destruct (IH Hes) as (H1 & e' & H2 & H3); [by apply wf_ldiff|done|]. split; [done|].
      exists e'. split; [set_solver|done].
  - intros Hin. destruct (IH Hes Hd Hin) as (H1 & e' & H2 & H3). split; [done|]. exists e'. split; [set_solver|done].
Qed.

Lemma splits_links es d ps r : splits es d ps r → (fst <$> ps) `sublist_of` (fst <$> es).
Proof. induction 1; simpl; by constructor. Qed.
End Split.
