(* ===== verification/SimpleInvariant.v ===== *)
(** * The invariant of a simple network

    What holds of the queues, switches and throttles of a running simple
    network (network/simple) between two wake-ups, and how enqueueing and
    dequeueing a message change it.  The wiring is described by a plan: which
    machines the messages of a queue may be addressed to, and the delay that the
    writer of a queue uses. *)

From stdpp Require Import sorting.
From S2P Require Import Prelude BinaryHeap NetDestModel AddrRangeModel NetworkModel CommonTypes GarnetState FlitBuffer Channels RoutingUnitModel SwapModel UnitsModel SwitchAllocatorModel MessageBufferModel NetworkInterfaceModel BuildModel TopologyModel SimpleNetworkModel Scenarios SystemModel StateLemmas QueueLemmas Wiring NetDestTheory SimpleSplit.

(** ** All queued messages *)
Definition queued (w : GNet) : list ptr := concat (qc_heap <$> cores w).

(** What a queued message stands for: its payload and its destinations. *)
Definition delivery (h : gmap ptr Message) (p : ptr) : Z * NetDest :=
  (msg_payload (msg_at h p), msg_Destination (msg_at h p)).
Definition deliveries (w : GNet) : list (Z * NetDest) := delivery (net_msgs w) <$> queued w.

(** The payloads that are on their way to a machine. *)
Definition addressed (m : MachineID) (l : list (Z * NetDest)) : list Z :=
  fst <$> filter (λ d, mem m (snd d) = true) l.
Definition copies (m : MachineID) (w : GNet) : list Z := addressed m (deliveries w).

#[export] Instance addressed_Permutation m : Proper ((≡ₚ) ==> (≡ₚ)) (addressed m).
Proof. intros l l' Hl. unfold addressed. by rewrite Hl. Qed.
Lemma addressed_app m l l' : addressed m (l ++ l') = addressed m l ++ addressed m l'.
Proof. unfold addressed. by rewrite filter_app, fmap_app. Qed.

Lemma concat_vset {A} (l : list (list A)) b x y :
  vget l b = Some x → x ++ concat (vset l b y) ≡ₚ y ++ concat l.
Proof.
  intros [Hb Hl]%vget_Some. unfold vset. destruct (Z.leb_spec 0 b); [|lia].
  generalize dependent (Z.to_nat b). clear. intros i. revert i.
  induction l as [|z l IH]; intros [|i] Hl; simpl in *; try done.
  - simplify_eq. solve_Permutation.
  - rewrite (Permutation_app_swap_app x), (IH i Hl), (Permutation_app_swap_app y). done.
Qed.

Lemma queued_vset w w' b q q' :
  vget (cores w) b = Some q → cores w' = vset (cores w) b q' →
  qc_heap q ++ queued w' ≡ₚ qc_heap q' ++ queued w.
Proof.
  intros Hq E. unfold queued. rewrite E, vset_fmap. apply concat_vset.
  apply vget_Some in Hq as [Hb Hq]. apply vget_Some. by rewrite list_lookup_fmap, Hq.
Qed.

Lemma elem_of_queued w p : p ∈ queued w ↔ ∃ b q, vget (cores w) b = Some q ∧ p ∈ qc_heap q.
Proof.
  unfold queued. rewrite list_elem_of_In, in_concat. setoid_rewrite <- list_elem_of_In. split.
  - intros (l & (q & -> & [i Hq]%list_elem_of_lookup)%list_elem_of_fmap & Hp). exists (Z.of_nat i), q.
    rewrite vget_Some, Nat2Z.id. split; [split; [lia|done]|done].
  - intros (b & q & [_ Hq%list_elem_of_lookup_2]%vget_Some & Hp). exists (qc_heap q).
    split; [apply list_elem_of_fmap; eauto|done].
Qed.

Section Invariant.
Context `{MTS : MachineTypesSpec}.

Record Plan := mkPlan { pl_cover : Z → MachineID → Prop; pl_delay : Z → Z }.
Context (P : Plan).

Definition msg_ok (m : Message) : Prop :=
  wf_dest (msg_Destination m) ∧ msg_MessageSize m ≠ MessageSizeType_NUM.

(** No message is queued twice, queued messages are live and well formed, every
    queue is ordered, holds messages for the machines of its plan, and accepts
    the next message of its writer. *)
Record queues_ok (w : GNet) : Prop := {
  qk_nodup : NoDup (queued w);
  qk_live p : p ∈ queued w → ∃ m, net_msgs w !! p = Some m ∧ msg_ok m;
  qk_fresh p : is_Some (net_msgs w !! p) → (p < net_next w)%nat;
  qk_heap b q : vget (cores w) b = Some q → is_heap (msgptr_greater (net_msgs w)) (qc_heap q);
  qk_cover b q p m : vget (cores w) b = Some q → p ∈ qc_heap q →
    mem m (msg_Destination (msg_at (net_msgs w) p)) = true → pl_cover P b m;
  qk_fifo b q : vget (cores w) b = Some q → enq_ok (net_cfg w) q (now w + pl_delay P b);
}.

(** Changing a message that is not queued. *)
Lemma msg_at_insert_ne h p m q : p ≠ q → msg_at (<[p := m]> h) q = msg_at h q.
Proof. intros. unfold msg_at. by rewrite lookup_insert_ne. Qed.
Lemma msg_at_insert h p m : msg_at (<[p := m]> h) p = m.
Proof. unfold msg_at. by rewrite lookup_insert_eq. Qed.

Lemma is_heap_insert_ne h p m l :
  p ∉ l → is_heap (msgptr_greater h) l → is_heap (msgptr_greater (<[p := m]> h)) l.
Proof.
  intros Hp. apply is_heap_same_key. intros q Hq. unfold same_key.
  rewrite msg_at_insert_ne; [done|]. by intros ->.
Qed.

Lemma queues_put w p m w' :
  queues_ok w → p ∉ queued w → (p < net_next w')%nat → (net_next w ≤ net_next w')%nat →
  net_msgs w' = <[p := m]> (net_msgs w) → cores w' = cores w → net_cycle w' = net_cycle w →
  net_cfg w' = net_cfg w →
  queues_ok w' ∧ queued w' = queued w ∧ deliveries w' = deliveries w.
Proof.
  intros Hok Hp Hlt Hle Emsg Ecore Ecy Ecfg.
  assert (Eq : queued w' = queued w) by (unfold queued; by rewrite Ecore).
  assert (Hne : ∀ q, q ∈ queued w → p ≠ q) by (intros q Hq ->; done).
  assert (Hin : ∀ b q r, vget (cores w) b = Some q → r ∈ qc_heap q → r ∈ queued w)
    by (intros; apply elem_of_queued; eauto).
  split_and!; [|done|].
  - split; rewrite ?Eq, ?Ecore, ?Emsg.
    + apply Hok.
    + intros q Hq. rewrite lookup_insert_ne by auto. by apply Hok.
    + intros q Hq. destruct (decide (p = q)) as [<-|Hpq]; [done|].
      rewrite lookup_insert_ne in Hq by done. apply (qk_fresh _ Hok) in Hq. lia.
    + intros b q Hq. apply is_heap_insert_ne; [|by eapply qk_heap]. intros Hq'.
      apply Hp. by eapply Hin.
    + intros b q r mm Hq Hr. rewrite msg_at_insert_ne by eauto. by eapply qk_cover.
    + intros b q Hq. unfold now. rewrite Ecy, Ecfg. by apply Hok.
  - unfold deliveries. rewrite Eq, Emsg. apply list_fmap_ext. intros i q Hq%list_elem_of_lookup_2.
    unfold delivery. by rewrite msg_at_insert_ne by auto.
Qed.

(** A message is in one queue only. *)
Lemma queued_disjoint w b c q r p :
  NoDup (queued w) → b ≠ c → vget (cores w) b = Some q → vget (cores w) c = Some r →
  p ∈ qc_heap q → p ∉ qc_heap r.
Proof.
  intros Hnd Hbc Hq Hr Hp Hp'.
  assert (Hhq : vget (qc_heap <$> cores w) b = Some (qc_heap q)).
  { apply vget_Some in Hq as [? Hq]. apply vget_Some. by rewrite list_lookup_fmap, Hq. }
  pose proof (concat_vset _ _ _ [] Hhq) as Hperm. simpl in Hperm. unfold queued in Hnd.
  rewrite <- Hperm in Hnd. apply NoDup_app in Hnd as (_ & Hd & _). apply (Hd p Hp).
  rewrite list_elem_of_In, in_concat. exists (qc_heap r). rewrite <- !list_elem_of_In. split; [|done].
  apply vget_Some in Hr as [Hc Hr]. rewrite list_elem_of_lookup. exists (Z.to_nat c).
  assert (H : vget (vset (qc_heap <$> cores w) b []) c = Some (qc_heap r)); [|by apply vget_Some in H as [_ ?]].
  rewrite vget_vset_ne by done. apply vget_Some. by rewrite list_lookup_fmap, Hr.
Qed.

(** A step that changes one queue, and messages that are in no other queue. *)
Lemma queues_step w w' b q' :
  queues_ok w → cores w' = vset (cores w) b q' → net_cycle w' = net_cycle w → net_cfg w' = net_cfg w →
  NoDup (queued w') → (∀ p, p ∈ queued w' → ∃ m, net_msgs w' !! p = Some m ∧ msg_ok m) →
  (∀ p, is_Some (net_msgs w' !! p) → (p < net_next w')%nat) →
  (∀ c q p, c ≠ b → vget (cores w) c = Some q → p ∈ qc_heap q →
     msg_at (net_msgs w') p = msg_at (net_msgs w) p) →
  is_heap (msgptr_greater (net_msgs w')) (qc_heap q') →
  (∀ p m, p ∈ qc_heap q' → mem m (msg_Destination (msg_at (net_msgs w') p)) = true → pl_cover P b m) →
  enq_ok (net_cfg w) q' (now w + pl_delay P b) → queues_ok w'.
Proof.
  intros Hok Ecore Ecy Ecfg Hnd Hlive Hfresh Hsame Hheap Hcov Hfifo.
  assert (Hc : ∀ c q, vget (cores w') c = Some q → (c = b ∧ q = q') ∨ (c ≠ b ∧ vget (cores w) c = Some q)).
  { intros c q. rewrite Ecore, vget_vset. case_decide as Hd; [intros [= <-]; left; naive_solver|].
    intros Hq. right. split; [|done]. intros ->. apply Hd. split; [done|]. by eapply vget_Some_lt. }
  split; [done|done|done|..].
  - intros c q [[-> ->]|[Hne Hq]]%Hc; [done|]. eapply is_heap_same_key; [|by eapply qk_heap].
    intros p Hp. unfold same_key. by rewrite (Hsame c q p).
  - intros c q p m [[-> ->]|[Hne Hq]]%Hc Hp; [by apply Hcov|].
    rewrite (Hsame c q p) by done. by eapply qk_cover.
  - intros c q Hcq. unfold now. rewrite Ecy, Ecfg. destruct (Hc c q Hcq) as [[-> ->]|[Hne Hq]]; [done|].
    by apply Hok.
Qed.

(** [dequeue]: the message leaves the queues, and nothing else does. *)
Lemma queues_dequeue w b x p tl m t w' :
  queues_ok w → vget (net_mbufs w) b = Some x → mb_m_prio_heap x = p :: tl →
  net_msgs w !! p = Some m → dequeued b x p m t w w' →
  queues_ok w' ∧ queued w ≡ₚ p :: queued w' ∧
  deliveries w ≡ₚ (msg_payload m, msg_Destination m) :: deliveries w' ∧
  ∃ q', vget (cores w') b = Some q' ∧ qc_heap q' ≡ₚ tl.
Proof.
  intros Hok Hx Hl Hm [Emsg Ecore Erest]. injection Erest as En Ecy Ecfg _ _.
  pose proof (vget_cores _ _ _ Hx) as Hq. set (q' := dequeued_core (net_msgs w') (mb_core x)) in *.
  assert (Hheap : qc_heap q' ≡ₚ tl).
  { simpl. rewrite Hl. destruct (pop_heap_back (msgptr_greater (net_msgs w')) p tl) as (l' & -> & Hp).
    by rewrite removelast_last. }
  assert (Hperm : queued w ≡ₚ p :: queued w').
  { pose proof (queued_vset w w' b _ q' Hq Ecore) as Hpm. rewrite Hheap in Hpm. simpl in Hpm.
    rewrite Hl in Hpm. symmetry. apply (Permutation_app_inv_l tl). rewrite <- Hpm. solve_Permutation. }
  assert (Hat : ∀ r, r ≠ p → msg_at (net_msgs w') r = msg_at (net_msgs w) r)
    by (intros r Hr; rewrite Emsg; by apply msg_at_insert_ne).
  assert (Hdel : ∀ r, delivery (net_msgs w') r = delivery (net_msgs w) r).
  { intros r. unfold delivery. destruct (decide (r = p)) as [->|Hne]; [|by rewrite Hat].
    rewrite Emsg, msg_at_insert. unfold msg_at. by rewrite Hm. }
  split_and!.
  - eapply (queues_step w w' b q'); try done.
    + pose proof (qk_nodup _ Hok) as Hnd. rewrite Hperm in Hnd. by apply NoDup_cons in Hnd as [_ ?].
    + intros r Hr. destruct (qk_live _ Hok r) as (mr & Hmr & Hmo); [rewrite Hperm; by apply elem_of_cons; right|].
      rewrite Emsg. destruct (decide (p = r)) as [<-|].
      * rewrite lookup_insert_eq. eexists. split; [done|]. by simplify_eq.
      * rewrite lookup_insert_ne by done. eauto.
    + intros r Hr. rewrite En. apply (qk_fresh _ Hok). rewrite Emsg in Hr.
      destruct (decide (p = r)) as [<-|]; [by eexists|by rewrite lookup_insert_ne in Hr].
    + intros c q r Hc Hcq Hr. apply Hat. intros ->.
      eapply (queued_disjoint w c b); [by apply Hok|done..|]. simpl. rewrite Hl. by apply elem_of_cons; left.
    + simpl. rewrite Hl. apply pop_heap_heap; [apply _|]. rewrite <- Hl.
      eapply is_heap_same_key; [|by apply (qk_heap _ Hok b (mb_core x))].
      intros r _. rewrite Emsg. by apply same_key_delay.
    + intros r mm Hr Hmm. eapply (qk_cover _ Hok b (mb_core x) r); [done| |].
      * simpl. rewrite Hl. rewrite Hheap in Hr. by apply elem_of_cons; right.
      * pose proof (Hdel r) as [= _ E]. by rewrite <- E.
    + by apply (qk_fifo _ Hok b (mb_core x)).
  - done.
  - unfold deliveries. rewrite Hperm. simpl. rewrite (list_fmap_ext _ (delivery (net_msgs w')) (queued w')).
    + unfold delivery at 1, msg_at. by rewrite Hm.
    + intros i r _. by rewrite Hdel.
  - exists q'. split; [|done]. rewrite Ecore. apply vget_vset_eq. by eapply vget_Some_lt.
Qed.

(** [enqueue] of a message that is in no queue, by the writer of the queue. *)
Lemma queues_enqueue w b x p m w' :
  queues_ok w → vget (net_mbufs w) b = Some x → p ∉ queued w → net_msgs w !! p = Some m → msg_ok m →
  (∀ mm, mem mm (msg_Destination m) = true → pl_cover P b mm) →
  enqueued b x p m (now w) (pl_delay P b) w w' →
  queues_ok w' ∧ queued w' ≡ₚ p :: queued w ∧
  deliveries w' ≡ₚ (msg_payload m, msg_Destination m) :: deliveries w ∧
  (∀ r, r ≠ p → net_msgs w' !! r = net_msgs w !! r) ∧
  ∃ q', vget (cores w') b = Some q' ∧ qc_heap q' ≡ₚ p :: mb_m_prio_heap x.
Proof.
  intros Hok Hx Hp Hm Hmo Hcov [(a & last & _ & _ & Hen & Emsg & Ecore & _) _ Erest].
  injection Erest as En Ecy Ecfg _. pose proof (vget_cores _ _ _ Hx) as Hq.
  set (q' := enqueued_core (net_msgs w') p last (mb_core x)) in *.
  assert (Hheap : qc_heap q' ≡ₚ p :: mb_m_prio_heap x)
    by (simpl; rewrite push_heap_perm; by rewrite Permutation_app_comm).
  assert (Hperm : queued w' ≡ₚ p :: queued w).
  { pose proof (queued_vset w w' b _ q' Hq Ecore) as Hpm. rewrite Hheap in Hpm. simpl in Hpm.
    apply (Permutation_app_inv_l (mb_m_prio_heap x)). rewrite Hpm. solve_Permutation. }
  assert (Hne : ∀ r, r ∈ queued w → r ≠ p) by (intros r Hr ->; done).
  assert (Hin : ∀ r, r ∈ mb_m_prio_heap x → r ∈ queued w)
    by (intros r Hr; apply elem_of_queued; eauto).
  assert (Hat : ∀ r, r ≠ p → msg_at (net_msgs w') r = msg_at (net_msgs w) r)
    by (intros r Hr; rewrite Emsg; by apply msg_at_insert_ne).
  split_and!.
  - eapply (queues_step w w' b q'); try done.
    + rewrite Hperm. constructor; [done|apply Hok].
    + intros r. rewrite Hperm, elem_of_cons, Emsg. intros [->|Hr].
      * rewrite lookup_insert_eq. by eexists.
      * rewrite lookup_insert_ne by (symmetry; auto). by apply Hok.
    + intros r Hr. rewrite En. apply (qk_fresh _ Hok). rewrite Emsg in Hr.
      destruct (decide (p = r)) as [<-|]; [by eexists|by rewrite lookup_insert_ne in Hr].
    + intros c q r Hc Hcq Hr. apply Hat, Hne, elem_of_queued. eauto.
    + apply push_heap_heap; [apply _|]. rewrite Emsg. apply is_heap_insert_ne; [auto|].
      by apply (qk_heap _ Hok b (mb_core x)).
    + intros r mm. rewrite Hheap, elem_of_cons. intros [->|Hr].
      * rewrite Emsg, msg_at_insert. apply Hcov.
      * rewrite Hat by auto. by apply (qk_cover _ Hok b (mb_core x)).
  - done.
  - unfold deliveries. rewrite Hperm. simpl. rewrite (list_fmap_ext _ (delivery (net_msgs w)) (queued w)).
    + unfold delivery at 1. by rewrite Emsg, msg_at_insert.
    + intros i r Hr%list_elem_of_lookup_2. unfold delivery. by rewrite Hat by auto.
  - intros r Hr. by rewrite Emsg, lookup_insert_ne.
  - exists q'. split; [|done]. rewrite Ecore. apply vget_vset_eq. by eapply vget_Some_lt.
Qed.

(** ** The wiring *)
Definition core_static (q : QCore) :=
  (qc_consumer q, qc_vnet q, qc_fifo q, qc_randomization q).
Definition pswitch_static (y : PerfectSwitch) :=
  (ps_m_in y, ps_m_out y, ps_m_routing_table y, ps_m_virtual_networks y,
   length (ps_m_link_order y), length (ps_m_pending_message_count y)).
Definition throttle_static (y : Throttle) :=
  (th_m_in y, th_m_out y, th_m_vnets y, length (th_m_units_remaining y),
   th_m_link_bandwidth_multiplier y, th_m_endpoint_bandwidth y, th_m_link_latency y).
Definition switch_static (x : Switch) :=
  (pswitch_static (sw_m_perfect_switch x), throttle_static <$> sw_m_throttles x).
Definition simple_static (w : GNet) :=
  (core_static <$> cores w, net_cycle w, net_cfg w, switch_static <$> net_m_switches w, net_simple w).

(** The input queues of a switch belong to it and hold what its tables cover;
    its output queues lead to throttles, and their plan covers the table entry of
    their port. *)
Record pswitch_wired (w : GNet) (s : Z) (y : PerfectSwitch) : Prop := {
  pw_order : length (ps_m_link_order y) = length (ps_m_routing_table y);
  pw_outs : length (ps_m_routing_table y) = length (ps_m_out y);
  pw_tables : Forall wf_dest (ps_m_routing_table y);
  pw_pending : vsize (ps_m_pending_message_count y) = ps_m_virtual_networks y;
  pw_ordered : ps_m_virtual_networks y ≤ vsize (cf_m_ordered (net_cfg w));
  pw_in i row v b : vget (ps_m_in y) i = Some row → vget row v = Some (Some b) →
    v < ps_m_virtual_networks y ∧
    (∃ q, vget (cores w) b = Some q ∧ qc_consumer q = Some (CPerfectSwitch s) ∧ qc_vnet q = v) ∧
    ∀ m, pl_cover P b m → ∃ e, e ∈ ps_m_routing_table y ∧ mem m e = true;
  pw_out o row e v : vget (ps_m_out y) o = Some row → vget (ps_m_routing_table y) o = Some e →
    0 ≤ v < ps_m_virtual_networks y →
    ∃ b q s' t', vget row v = Some b ∧ vget (cores w) b = Some q ∧
      qc_consumer q = Some (CThrottle s' t') ∧ pl_delay P b = cf_clockPeriod (net_cfg w) ∧
      ∀ m, mem m e = true → pl_cover P b m;
}.

(** A throttle has one queue in and possibly one out per virtual network, no
    queue is on both sides, and what comes in may go out. *)
Record throttle_wired (w : GNet) (y : Throttle) : Prop := {
  tw_outs : length (th_m_in y) = length (th_m_out y);
  tw_vnets : vsize (th_m_in y) = th_m_vnets y;
  tw_units : length (th_m_in y) = length (th_m_units_remaining y);
  tw_bandwidth : 0 < Throttle_getLinkBandwidth y;
  tw_latency : 0 < th_m_link_latency y;
  tw_nodup : NoDup (th_m_in y);
  tw_in v b : vget (th_m_in y) v = Some b →
    ∃ q s' t', vget (cores w) b = Some q ∧ qc_consumer q = Some (CThrottle s' t');
  tw_out v b c : vget (th_m_in y) v = Some b → vget (th_m_out y) v = Some (Some c) →
    (c ∉ th_m_in y) ∧
    (∃ q, vget (cores w) c = Some q ∧ event_ok (net_m_switches w) (qc_consumer q) (qc_vnet q)) ∧
    pl_delay P c = th_m_link_latency y * cf_clockPeriod (net_cfg w) ∧
    ∀ m, pl_cover P b m → pl_cover P c m;
}.

Definition wired (w : GNet) : Prop :=
  (0 < cf_clockPeriod (net_cfg w) ∧ 0 ≤ cf_m_control_msg_size (net_cfg w) ∧
   0 ≤ cf_m_data_msg_size (net_cfg w)) ∧
  ∀ s x, vget (net_m_switches w) s = Some x →
    pswitch_wired w s (sw_m_perfect_switch x) ∧
    ∀ t y, vget (sw_m_throttles x) t = Some y → throttle_wired w y.

(** Objects at the same place of two vectors with the same images. *)
Lemma vget_same_image {A B} (f : A → B) l k i x :
  f <$> k = f <$> l → vget k i = Some x → ∃ y, vget l i = Some y ∧ f x = f y.
Proof.
  intros E Hk. assert (H : vget (f <$> l) i = Some (f x)) by (by rewrite <- E, vget_fmap, Hk).
  rewrite vget_fmap in H. apply fmap_Some in H as (y & Hy & Hf). eauto.
Qed.

Lemma event_ok_same sws sws' c v :
  switch_static <$> sws' = switch_static <$> sws → event_ok sws c v → event_ok sws' c v.
Proof.
  destruct c as [[]|]; try done. simpl. intros E (x & Hx & Hv).
  destruct (vget_same_image switch_static sws' sws s x (eq_sym E) Hx) as (x' & Hx' & Es).
  exists x'. split; [done|]. injection Es as _ _ _ _ _ Hl _. unfold vsize in *. by rewrite <- Hl.
Qed.

Lemma wired_same w w' :
  core_static <$> cores w' = core_static <$> cores w → net_cfg w' = net_cfg w →
  switch_static <$> net_m_switches w' = switch_static <$> net_m_switches w → wired w → wired w'.
Proof.
  intros Ec Ecfg Es [Hp Hw]. split; [by rewrite Ecfg|].
  assert (Hcore : ∀ b q, vget (cores w) b = Some q → ∃ q', vget (cores w') b = Some q' ∧
    core_static q = core_static q') by (intros; by eapply vget_same_image).
  intros s x' Hx'. destruct (vget_same_image switch_static _ _ _ _ Es Hx') as (x & Hx & Ex).
  destruct (Hw s x Hx) as [[] Ht]. split.
  - injection Ex as E1 E2 E3 E4 E5 E6 _.
    split; unfold vsize in *; rewrite ?E1, ?E2, ?E3, ?E4, ?E5, ?E6, ?Ecfg; try done.
    + intros i row v b Hi Hv. destruct (pw_in0 i row v b Hi Hv) as (? & (q & Hq & Hc & Hn) & ?).
      split; [done|]. split; [|done]. destruct (Hcore b q Hq) as (q' & Hq' & [= C1 C2 _ _]).
      exists q'. by rewrite <- C1, <- C2.
    + intros o row e v Ho He Hv. destruct (pw_out0 o row e v Ho He Hv) as (b & q & s' & t' & Hb & Hq & Hc & Hr).
      destruct (Hcore b q Hq) as (q' & Hq' & [= C1 C2 _ _]). exists b, q', s', t'. by rewrite <- C1.
  - intros t y' Hy'. injection Ex as _ _ _ _ _ _ Eth.
    destruct (vget_same_image throttle_static _ _ _ _ Eth Hy') as (y & Hy & Ey).
    destruct (Ht t y Hy) as []. injection Ey as E1 E2 E3 E4 E5 E6 E7.
    split; unfold vsize, Throttle_getLinkBandwidth in *; rewrite ?E1, ?E2, ?E3, ?E4, ?E5, ?E6, ?E7, ?Ecfg; try done.
    + intros v b Hv. destruct (tw_in0 v b Hv) as (q & s' & t' & Hq & Hc).
      destruct (Hcore b q Hq) as (q' & Hq' & [= C1 _ _ _]). exists q', s', t'. by rewrite <- C1.
    + intros v b c Hv Hc. destruct (tw_out0 v b c Hv Hc) as (? & (q & Hq & Hev) & ? & ?).
      split; [done|]. split; [|done]. destruct (Hcore c q Hq) as (q' & Hq' & [= C1 C2 _ _]).
      exists q'. rewrite <- C1, <- C2. split; [done|]. by eapply event_ok_same.
Qed.

Lemma wired_static w w' : simple_static w' = simple_static w → wired w → wired w'.
Proof. intros E. injection E as Ec _ Ecfg Es _. by apply wired_same. Qed.

(** ** The counts of pending messages *)
Definition sumZ (l : list Z) : Z := foldr Z.add 0 l.

(** The messages in the queues of virtual network [v] that switch [s] reads. *)
Definition waiting (s v : Z) (q : QCore) : Z :=
  if decide (qc_consumer q = Some (CPerfectSwitch s) ∧ qc_vnet q = v) then vsize (qc_heap q) else 0.
Definition pend (w : GNet) (s v : Z) : Z := sumZ (waiting s v <$> cores w).

Record switch_counted (w : GNet) (s : Z) (x : Switch) : Prop := {
  sc_links : (lo_m_link <$> ps_m_link_order (sw_m_perfect_switch x)) ≡ₚ
             zrange 0 (vsize (ps_m_routing_table (sw_m_perfect_switch x)));
  sc_round : 0 ≤ ps_m_round_robin_start (sw_m_perfect_switch x) <
             Z.max 1 (vsize (ps_m_in (sw_m_perfect_switch x)));
  sc_pending v : 0 ≤ v < ps_m_virtual_networks (sw_m_perfect_switch x) →
    vget (ps_m_pending_message_count (sw_m_perfect_switch x)) v = Some (pend w s v);
  sc_units t y : vget (sw_m_throttles x) t = Some y → Forall (Z.le 0) (th_m_units_remaining y);
}.
Definition counted (w : GNet) : Prop :=
  ∀ s x, vget (net_m_switches w) s = Some x → switch_counted w s x.

(** The invariant between two wake-ups. *)
Definition simple_ok (w : GNet) : Prop := queues_ok w ∧ wired w ∧ counted w.

Lemma sumZ_vset l b x y : vget l b = Some x → sumZ (vset l b y) = sumZ l - x + y.
Proof.
  intros [Hb Hl]%vget_Some. unfold vset. destruct (Z.leb_spec 0 b); [|lia].
  generalize dependent (Z.to_nat b). clear. intros i. revert i.
  induction l as [|z l IH]; intros [|i] Hl; simpl in *; simplify_eq; [lia|]. rewrite (IH i Hl). lia.
Qed.

Lemma pend_vset w w' b q q' s v :
  vget (cores w) b = Some q → cores w' = vset (cores w) b q' →
  pend w' s v = pend w s v - waiting s v q + waiting s v q'.
Proof.
  intros Hq E. unfold pend. rewrite E, vset_fmap. apply sumZ_vset. by rewrite vget_fmap, Hq.
Qed.

Lemma add_pending_static v k x : switch_static (add_pending v k x) = switch_static x.
Proof. unfold switch_static, pswitch_static, add_pending. simpl. by rewrite length_vset. Qed.

(** The length of one queue changes by [k], and its reader is told. *)
Lemma counted_bump w w' b q q' k :
  counted w → wired w → vget (cores w) b = Some q → cores w' = vset (cores w) b q' →
  qc_consumer q' = qc_consumer q → qc_vnet q' = qc_vnet q →
  vsize (qc_heap q') = vsize (qc_heap q) + k → event_ok (net_m_switches w) (qc_consumer q) (qc_vnet q) →
  net_m_switches w' = bump_pending (qc_consumer q) (qc_vnet q) k (net_m_switches w) → counted w'.
Proof.
  intros Hc Hw Hq Ecore Econs Evnet Hk Hev Esw s x' Hx'.
  assert (Hpend : ∀ s v, pend w' s v = pend w s v +
    (if decide (qc_consumer q = Some (CPerfectSwitch s) ∧ qc_vnet q = v) then k else 0)).
  { intros s0 v. rewrite (pend_vset w w' b q q') by done. unfold waiting. rewrite Econs, Evnet.
    case_decide; lia. }
  unfold bump_pending in Esw. destruct (qc_consumer q) as [[]|] eqn:Ecq; rewrite Esw in Hx'.
  5: { destruct Hev as (x & Hx & Hv). rewrite Hx in Hx'. rewrite vget_vset in Hx'. case_decide as Hd.
    - destruct Hd as [<- _]. injection Hx' as <-. destruct (Hc _ _ Hx) as [H1 H2 H3 H4]. split; [done|done| |done].
      intros v Hv'. simpl in *. rewrite Hpend, vget_vset. specialize (H3 v Hv'). case_decide as Hd.
      + destruct Hd as [<- _]. rewrite H3, decide_True by done. done.
      + rewrite decide_False; [by rewrite Z.add_0_r|]. intros [_ <-]. by apply Hd.
    - destruct (Hc _ _ Hx') as [H1 H2 H3 H4]. split; [done|done| |done]. intros v Hv'. rewrite Hpend.
      rewrite decide_False; [rewrite Z.add_0_r; by apply H3|]. intros [[= ->] _]. apply Hd.
      split; [done|]. by eapply vget_Some_lt. }
  all: destruct (Hc _ _ Hx') as [H1 H2 H3 H4]; (split; [done|done| |done]); intros v Hv'; rewrite Hpend;
    rewrite decide_False by naive_solver; rewrite Z.add_0_r; by apply H3.
Qed.
End Invariant.
