(* ===== verification/SimpleScene.v ===== *)
(** * A concrete simple network

    One switch with two nodes, built by the operations of the network, and a
    message for both nodes.  The states of its run before the switch is woken and
    before the throttles are woken satisfy the invariant. *)

From stdpp Require Import sorting.
From S2P Require Import Prelude BinaryHeap NetDestModel AddrRangeModel NetworkModel CommonTypes GarnetState FlitBuffer Channels RoutingUnitModel SwapModel UnitsModel SwitchAllocatorModel MessageBufferModel NetworkInterfaceModel BuildModel TopologyModel SimpleNetworkModel Scenarios SystemModel StateLemmas QueueLemmas Wiring NetDestTheory SimpleSplit SimpleInvariant.

(** The first machine of type 0 is at node 0, that of type 1 at node 1. *)
Definition to_node0 : NetDest := mkNetDest [mkBitSet 3 1; mkBitSet 2 0].
Definition to_node1 : NetDest := mkNetDest [mkBitSet 3 0; mkBitSet 2 1].

Definition star_config : NetConfig :=
  (net_cfg (sample_mesh 2 2 1 XY_ 1)) <| cf_clockPeriod := 1000 |>.
Definition star_network : Network :=
  mkNetwork 2 1 8 72 ["request"%string] [[Some 0]; [Some 1]] [[Some 4]; [Some 5]] [false] [].

(** Queues 0 and 1 lead to the switch, 2 and 3 to its throttles, 4 and 5 to the
    controllers. *)
Definition star_build : G () :=
  modify (λ w, w <| net_mbufs := replicate 6 (MessageBuffer_ctor 0 true false) |>) ;;
  SimpleNetwork_ctor 0 16 false [Switch_ctor 0 1 [2; 3]] [] ;;
  Switch_init 0 ;;
  SimpleNetwork_makeExtInLink star_network 0 0 ;;
  SimpleNetwork_makeExtInLink star_network 1 0 ;;
  SimpleNetwork_makeExtOutLink star_network 0 0 1 1000 to_node0 ;;
  SimpleNetwork_makeExtOutLink star_network 0 1 1 1000 to_node1 ;;
  MessageBuffer_setConsumer 4 (CController 0) ;;
  MessageBuffer_setConsumer 5 (CController 1).

(** Node 0 sends a message to both nodes, and a cycle passes. *)
Definition star_message : Message := mkMessage 0 0 0 0 multicast MessageSizeType_Control 7.
Definition star_scene : GNet :=
  tick (after (star_build ;; controller_enqueue 0 star_message 1000) (empty_net star_config (λ n, N.of_nat n))).

(** The switch has sent the message on, and a cycle passes. *)
Definition star_sent : GNet :=
  tick (after (PerfectSwitch_wakeup (MT := two_types) (LS := stable_sort) 0) star_scene).

(** What the queues carry, and the delay of their writers. *)
Definition star_plan : Plan :=
  mkPlan (λ b m, if (b =? 0) || (b =? 1) then mem m to_node0 = true ∨ mem m to_node1 = true
                 else if (b =? 2) || (b =? 4) then mem m to_node0 = true else mem m to_node1 = true)
    (λ _, 1000).

(** Looking an element up in a given vector. *)
Lemma vget_from {A} (l : list A) b q : vget l b = Some q → vget l (b - 0) = Some q.
Proof. by rewrite Z.sub_0_r. Qed.
Lemma vget_cons_from {A} (a : A) l b k q :
  vget (a :: l) (b - k) = Some q → (b = k ∧ q = a) ∨ vget l (b - Z.succ k) = Some q.
Proof.
  intros [Hb Hl]%vget_Some. destruct (decide (b = k)) as [->|Hne].
  - left. split; [done|]. rewrite Z.sub_diag in Hl. by injection Hl.
  - right. apply vget_Some. split; [lia|].
    replace (Z.to_nat (b - k)) with (S (Z.to_nat (b - Z.succ k))) in Hl by lia. done.
Qed.
Lemma vget_nil_from {A} b (q : A) : vget [] b = Some q → False.
Proof. intros [_ H]%vget_Some. by rewrite lookup_nil in H. Qed.
Ltac vcases_from H :=
  first [ exfalso; exact (vget_nil_from _ _ H)
        | apply vget_cons_from in H; destruct H as [[-> H]|H];
            [try discriminate H; try (injection H as H); subst; simpl Z.succ|simpl Z.succ in H; vcases_from H] ].
Ltac vcases H := apply vget_from in H; vcases_from H.

Lemma testbit_1 n : Z.testbit 1 n = true → n = 0.
Proof.
  intros H. destruct (decide (n < 0)); [by rewrite Z.testbit_neg_r in H|].
  destruct (decide (n = 0)); [done|]. by rewrite Z.bits_above_log2 in H by (simpl; lia).
Qed.

Lemma multicast_nodes m : mem m multicast = true → mem m to_node0 = true ∨ mem m to_node1 = true.
Proof.
  unfold mem. simpl. intros H. destruct (vget [mkBitSet 3 1; mkBitSet 2 1] (mid_type m)) as [s|] eqn:E; [|done].
  destruct m as [t n]. simpl in *. vcases E; simpl in *; auto.
Qed.

Lemma star_dests_wf :
  wf_dest (MT := two_types) multicast ∧ wf_dest (MT := two_types) to_node0 ∧ wf_dest (MT := two_types) to_node1.
Proof. split_and!; apply small_dest_wf; set_solver. Qed.

Ltac known t H :=
  let l := eval vm_compute in t in assert (H : t = l) by (vm_compute; reflexivity).

Lemma star_scene_wired : wired (MT := two_types) star_plan star_scene.
Proof.
  split; [vm_compute; split_and!; congruence|]. intros s x Hx.
  known (net_m_switches star_scene) Es. known (cores star_scene) Ec. known (cf_clockPeriod (net_cfg star_scene)) Ep.
  known (cf_m_ordered (net_cfg star_scene)) Eo. generalize dependent star_scene. intros w Hx Es Ec Ep Eo.
  rewrite Es in Hx. vcases Hx. split.
  - split; try (rewrite ?Eo; done).
    + apply Forall_cons. split; [apply star_dests_wf|]. apply Forall_cons. split; [apply star_dests_wf|by constructor].
    + intros i row v b Hi Hv. simpl in Hi. vcases Hi; vcases Hv; simplify_eq; rewrite Ec;
        (split; [done|]); (split; [by eexists|]); simpl; intros m [Hm|Hm]; eexists; (split; [|exact Hm]); set_solver.
    + intros o row e v Ho He Hv. simpl in Ho, He, Hv. assert (v = 0) as -> by lia. rewrite Ep, Ec.
      vcases Ho; cbn in He; injection He as <-.
      * exists 2. eexists _, _, _. split_and!; [done|done|done|done|]. by simpl.
      * exists 3. eexists _, _, _. split_and!; [done|done|done|done|]. by simpl.
  - intros t y Hy. simpl in Hy.
    vcases Hy; (split; try done; [by repeat constructor; set_solver| |]); simpl; rewrite Ec;
      [intros v b Hv; vcases Hv; by eexists _, _, _| |intros v b Hv; vcases Hv; by eexists _, _, _|];
      intros v b c Hv Hc; vcases Hv; cbn in Hc; injection Hc as <-; rewrite Ep; (split_and!; [set_solver|by eexists|done|done]).
Qed.

(** The counts of the one switch of the scenes. *)
Lemma star_counted w x :
  net_m_switches w = [x] →
  (lo_m_link <$> ps_m_link_order (sw_m_perfect_switch x)) = [0; 1] →
  vsize (ps_m_routing_table (sw_m_perfect_switch x)) = 2 → vsize (ps_m_in (sw_m_perfect_switch x)) = 2 →
  0 ≤ ps_m_round_robin_start (sw_m_perfect_switch x) < 2 → ps_m_virtual_networks (sw_m_perfect_switch x) = 1 →
  ps_m_pending_message_count (sw_m_perfect_switch x) = [pend w 0 0] →
  Forall (λ y, th_m_units_remaining y = [0]) (sw_m_throttles x) → counted w.
Proof.
  intros Ex El Et Ei Hr Ev Ep Hu s x' Hx'. rewrite Ex in Hx'. vcases Hx'. split.
  - by rewrite El, Et.
  - rewrite Ei. lia.
  - rewrite Ev. intros v Hv. assert (v = 0) as -> by lia. by rewrite Ep.
  - intros t y [_ Hy]%vget_Some. rewrite Forall_lookup in Hu. rewrite (Hu _ _ Hy). by repeat constructor.
Qed.

(** Queues with at most one message. *)
Lemma star_queues w :
  NoDup (queued w) → Forall (λ p, ∃ m, net_msgs w !! p = Some m ∧ msg_ok (MT := two_types) m) (queued w) →
  (∀ p, is_Some (net_msgs w !! p) → (p < net_next w)%nat) →
  (∀ b q, vget (cores w) b = Some q → (length (qc_heap q) ≤ 1)%nat ∧ qc_last_arrival q ≤ now w + 1000 ∧
     ∀ p m, p ∈ qc_heap q → mem m (msg_Destination (msg_at (net_msgs w) p)) = true → pl_cover star_plan b m) →
  queues_ok (MT := two_types) star_plan w.
Proof.
  intros Hnd Hlive Hfresh Hq. split; [done|by apply Forall_forall|done|..].
  - intros b q Hb i p p' Hi Hp Hp'. destruct (Hq b q Hb) as [Hl _]. apply lookup_lt_Some in Hp, Hp'. lia.
  - intros b q p m Hb. by destruct (Hq b q Hb) as (_ & _ & Hc); apply Hc.
  - intros b q Hb. right; right; right. by destruct (Hq b q Hb) as (_ & Hl & _).
Qed.

Lemma star_messages (h : gmap ptr Message) n :
  Forall (λ pm, (fst pm < n)%nat) (map_to_list h) → ∀ p, is_Some (h !! p) → (p < n)%nat.
Proof.
  intros Hl p [m Hm]. rewrite Forall_forall in Hl. apply (Hl (p, m)). by apply elem_of_map_to_list.
Qed.

Lemma star_scene_ok : simple_ok (MT := two_types) star_plan star_scene.
Proof.
  split_and!; [|apply star_scene_wired|].
  - known (cores star_scene) Ec. known (now star_scene) En. known (map_to_list (net_msgs star_scene)) El.
    known (net_msgs star_scene !! 0%nat) E0. known (net_next star_scene) Ex.
    revert Ec En El E0 Ex. generalize star_scene. intros w Ec En El E0 Ex. apply star_queues.
    + unfold queued. rewrite Ec. apply NoDup_singleton.
    + unfold queued. rewrite Ec. apply Forall_cons. split; [|by constructor]. eexists. split; [exact E0|].
      split; [|done]. apply star_dests_wf.
    + apply star_messages. rewrite El, Ex. by repeat constructor.
    + rewrite Ec, En. intros b q Hb. vcases Hb; (split_and!; [simpl; lia|simpl; lia|]); intros p m Hp; simpl in Hp;
        try (by apply elem_of_nil in Hp). apply list_elem_of_singleton in Hp as ->. unfold msg_at. rewrite E0.
      apply multicast_nodes.
  - known (net_m_switches star_scene) Es. known (pend star_scene 0 0) Ep. revert Es Ep. generalize star_scene. intros w Es Ep.
    eapply star_counted; [exact Es|try done..]; [by rewrite Ep|by repeat constructor].
Qed.

Lemma star_sent_ok : simple_ok (MT := two_types) star_plan star_sent.
Proof.
  split_and!.
  - known (cores star_sent) Ec. known (now star_sent) En. known (map_to_list (net_msgs star_sent)) El.
    known (net_msgs star_sent !! 0%nat) E0. known (net_msgs star_sent !! 2%nat) E2.
    known (net_next star_sent) Ex. revert Ec En El E0 E2 Ex. generalize star_sent.
    intros w Ec En El E0 E2 Ex. apply star_queues.
    + unfold queued. rewrite Ec. apply NoDup_cons. split; [by intros ?%list_elem_of_singleton|apply NoDup_singleton].
    + unfold queued. rewrite Ec. apply Forall_cons. split; [|apply Forall_cons; split; [|by constructor]];
        (eexists; split; [eassumption|]; split; [|done]); apply star_dests_wf.
    + apply star_messages. rewrite El, Ex. by repeat constructor.
    + rewrite Ec, En. intros b q Hb. vcases Hb; (split_and!; [simpl; lia|simpl; lia|]); intros p m Hp; simpl in Hp;
        try (by apply elem_of_nil in Hp); apply list_elem_of_singleton in Hp as ->; unfold msg_at;
        rewrite ?E0, ?E2; done.
  - apply (wired_same (MT := two_types) star_plan star_scene); [vm_compute; reflexivity..|apply star_scene_wired].
  - known (net_m_switches star_sent) Es. known (pend star_sent 0 0) Ep. revert Es Ep. generalize star_sent. intros w Es Ep.
    eapply star_counted; [exact Es|try done..]; [by rewrite Ep|by repeat constructor].
Qed.

(** The scenes are compared by name in the proofs that use them. *)
#[global] Strategy opaque [star_scene star_sent].
