(* ===== verification/SimpleSwitchTheory.v ===== *)
(** * The switches of the simple network

    Theory of [PerfectSwitch] (network/simple/PerfectSwitch.cc): a wake-up
    returns, keeps the invariant of SimpleInvariant.v, and for every machine the
    messages on their way to it are the same before and after; the shortcut on
    the count of pending messages changes nothing. *)

From stdpp Require Import sorting.
From S2P Require Import Prelude BinaryHeap NetDestModel AddrRangeModel NetworkModel CommonTypes GarnetState FlitBuffer Channels RoutingUnitModel SwapModel UnitsModel SwitchAllocatorModel MessageBufferModel NetworkInterfaceModel BuildModel TopologyModel SimpleNetworkModel Scenarios SystemModel StateLemmas QueueLemmas Wiring NetDestTheory SimpleSplit SimpleInvariant SimpleScene.

(** ** The wiring does not change *)
Definition keeps_wiring : relation GNet := keeps simple_static.
#[export] Instance keeps_wiring_preorder : PreOrder keeps_wiring := keeps_preorder simple_static.

Lemma wiring_upd_mbuf b f :
  (∀ x, core_static (mb_core (f x)) = core_static (mb_core x)) → preserves keeps_wiring (upd_mbuf b f).
Proof.
  intros Hf w [] w' (x & w1 & Hx & [= <-])%bind_Ok. unfold get_mbuf in Hx.
  apply bind_Ok in Hx as (o & w2 & [= <- <-] & [Hx ->]%optG_Ok).
  unfold keeps_wiring, keeps, simple_static, cores. simpl. rewrite <- !list_fmap_compose.
  rewrite (vset_map_same _ _ _ x); [done|done|apply Hf].
Qed.

Lemma wiring_upd_switch s f :
  (∀ x, switch_static (f x) = switch_static x) → preserves keeps_wiring (upd_switch s f).
Proof.
  intros Hf w [] w' (x & w1 & Hx & [= <-])%bind_Ok. unfold get_switch in Hx.
  apply bind_Ok in Hx as (o & w2 & [= <- <-] & [Hx ->]%optG_Ok).
  unfold keeps_wiring, keeps, simple_static. simpl. by rewrite (vset_map_same _ _ _ x).
Qed.

Lemma get_throttle_Ok s t w y w' :
  get_throttle s t w = Ok (y, w') ↔
  w' = w ∧ ∃ x, vget (net_m_switches w) s = Some x ∧ vget (sw_m_throttles x) t = Some y.
Proof.
  unfold get_throttle, get_switch. rewrite bind_Ok. setoid_rewrite bind_Ok. split.
  - intros (x & w1 & (o & w2 & [= <- <-] & [? ->]%optG_Ok) & [? ->]%optG_Ok). eauto.
  - intros (-> & x & Hx & Hy). exists x, w. split; [|by apply optG_Ok].
    exists (Some x), w. split; [unfold gets; by rewrite Hx|by apply optG_Ok].
Qed.

Lemma wiring_upd_throttle s t f :
  (∀ y, throttle_static (f y) = throttle_static y) → preserves keeps_wiring (upd_throttle s t f).
Proof.
  intros Hf w [] w' (y & w1 & (-> & x & Hx & Hy)%get_throttle_Ok & Hu)%bind_Ok.
  apply bind_Ok in Hu as (x' & w1 & Hx' & [= <-]). unfold get_switch in Hx'.
  apply bind_Ok in Hx' as (o & w2 & [= <- <-] & [Hx' ->]%optG_Ok). simplify_eq.
  unfold keeps_wiring, keeps, simple_static. simpl. rewrite (vset_map_same _ _ _ x); [done..|].
  unfold switch_static. simpl. by rewrite (vset_map_same _ _ _ y).
Qed.

Create HintDb wiring.
#[export] Hint Extern 1 (preserves keeps_wiring (upd_mbuf _ _)) =>
  apply wiring_upd_mbuf; intros ?; reflexivity : wiring.
Ltac same_lengths :=
  intros ?; unfold switch_static, pswitch_static, throttle_static; simpl;
  rewrite ?length_vset, ?(Permutation_length (sort_links_perm _)); reflexivity.
#[export] Hint Extern 1 (preserves keeps_wiring (upd_pswitch _ _)) =>
  apply wiring_upd_switch; same_lengths : wiring.
#[export] Hint Extern 1 (preserves keeps_wiring (upd_switch _ _)) =>
  apply wiring_upd_switch; same_lengths : wiring.
#[export] Hint Extern 1 (preserves keeps_wiring (upd_throttle _ _ _)) =>
  apply wiring_upd_throttle; same_lengths : wiring.
Lemma wiring_optG {A} (o : option A) e : preserves keeps_wiring (optG o e).
Proof. destruct o; [apply preserves_ret, _ | apply preserves_fail]. Qed.
#[export] Hint Resolve wiring_optG : wiring.
Ltac wiring_prim := apply preserves_modify; intros ?; reflexivity.
Tactic Notation "pres_wiring" := pres by first [solve [auto 2 with nocore wiring] | wiring_prim].

Section Wiring.
Context `{MT : MachineTypes} `{LSS : LinkSortSpec}.

Lemma wiring_order_links s vnet t : preserves keeps_wiring (PerfectSwitch_order_links s vnet t).
Proof. pres_wiring. Qed.
Lemma wiring_enqueue b p t d : preserves keeps_wiring (MessageBuffer_enqueue b p t d).
Proof. pres_wiring. Qed.
Lemma wiring_dequeue b t d : preserves keeps_wiring (MessageBuffer_dequeue b t d).
Proof. pres_wiring. Qed.
End Wiring.
#[export] Hint Resolve wiring_order_links wiring_enqueue wiring_dequeue : wiring.

Section Wakeups.
Context `{MT : MachineTypes} `{LSS : LinkSortSpec}.

Lemma wiring_route_message s b vnet t : preserves keeps_wiring (PerfectSwitch_route_message s b vnet t).
Proof. pres_wiring. Qed.
Lemma wiring_PerfectSwitch_wakeup s : preserves keeps_wiring (PerfectSwitch_wakeup s).
Proof. pres_wiring. Qed.
Lemma wiring_Throttle_wakeup s t : preserves keeps_wiring (Throttle_wakeup s t).
Proof. pres_wiring. Qed.
End Wakeups.

(** ** The order of the links *)
Definition set_order (lo : list LinkOrder) (x : Switch) : Switch :=
  x <| sw_m_perfect_switch ::= λ y, y <| ps_m_link_order := lo |> |>.

(** Only the link order of switch [s] has changed, and it still names every
    link once. *)
Definition reordered (s : Z) (x : Switch) (w w' : GNet) : Prop :=
  ∃ lo, net_core w' = net_core (w <| net_m_switches ::= λ l, vset l s (set_order lo x) |>) ∧
    (lo_m_link <$> lo) ≡ₚ zrange 0 (vsize (ps_m_routing_table (sw_m_perfect_switch x))).

Definition links_upto (pre : list Z) (n : nat) (lo : list LinkOrder) : Prop :=
  length lo = n ∧ ∀ i, i ∈ pre → lo_m_link <$> vget lo i = Some i.

Lemma links_upto_set pre n lo i value :
  links_upto pre n lo → 0 ≤ i < Z.of_nat n → i ∉ pre →
  links_upto (pre ++ [i]) n (vset lo i (mkLinkOrder i value)).
Proof.
  intros [Hl Hpre] Hi Hni. split; [by rewrite length_vset|]. intros j. rewrite elem_of_app, list_elem_of_singleton.
  intros [Hj| ->].
  - rewrite vget_vset_ne by (intros ->; done). by apply Hpre.
  - rewrite vget_vset_eq; [done|]. unfold vsize. lia.
Qed.

Lemma links_upto_all n lo :
  links_upto (zrange 0 (Z.of_nat n)) n lo → (lo_m_link <$> lo) = zrange 0 (Z.of_nat n).
Proof.
  intros [Hl Hall]. apply list_eq. intros i. unfold zrange.
  destruct (decide (i < n)%nat) as [Hi|Hi].
  - specialize (Hall (Z.of_nat i) ltac:(apply elem_of_zrange; lia)).
    rewrite lookup_seqZ_lt by lia. rewrite <- vget_fmap in Hall. apply vget_Some in Hall as [_ Hall].
    rewrite Nat2Z.id in Hall. by rewrite Hall.
  - trans (@None Z); [|symmetry]; apply lookup_ge_None_2; rewrite ?length_fmap, ?length_seqZ; lia.
Qed.

Section Order.
Context `{MT : MachineTypes} `{LSS : LinkSortSpec}.

Lemma wp_link_value (x : PerfectSwitch) out t w (Q : Z → GNet → Prop) :
  (∀ v, 0 ≤ v < ps_m_virtual_networks x → ∃ row b, vget (ps_m_out x) out = Some row ∧
     vget row v = Some b ∧ is_Some (vget (cores w) b)) →
  (∀ a w', net_core w' = net_core w → Q a w') → wp (PerfectSwitch_link_value x out t) Q w.
Proof.
  intros Hq HQ. unfold PerfectSwitch_link_value. apply wp_bind.
  eapply wp_mono; [apply (wp_foldM _ _ _ (λ _ _ w', net_core w' = net_core w)); [done|]|].
  - intros _ v len w1 Hv%elem_of_zrange E. destruct (Hq v Hv) as (row & b & Hr & Hb & q & Hc).
    apply wp_bind, (wp_vgetG _ _ _ row); [done|]. apply wp_bind, (wp_vgetG _ _ _ b); [done|].
    apply wp_bind, (wp_getSize _ _ _ q); [by injection E as -> |]. intros a w2 E2. apply wp_ret. congruence.
  - intros len w1 E. apply wp_bind, wp_random_between; [lia|]. intros a w2 _ E2. apply wp_ret, HQ. congruence.
Qed.

(** A loop that assigns every entry of the order. *)
Lemma wp_assign_order s x n w (value : Z → G Z) :
  vget (net_m_switches w) s = Some x → n = length (ps_m_link_order (sw_m_perfect_switch x)) →
  (∀ i w1 (Q : Z → GNet → Prop), 0 ≤ i < Z.of_nat n → cores w1 = cores w →
     (∀ a w2, net_core w2 = net_core w1 → Q a w2) → wp (value i) Q w1) →
  wp (for_each (zrange 0 (Z.of_nat n)) (λ out, v ← value out;
        upd_pswitch s (λ x, x <| ps_m_link_order ::= λ l, vset l out (mkLinkOrder out v) |>)))
     (λ _ w', ∃ lo, net_core w' = net_core (w <| net_m_switches ::= λ l, vset l s (set_order lo x) |>) ∧
        (lo_m_link <$> lo) = zrange 0 (Z.of_nat n)) w.
Proof.
  intros Hx Hn Hval. pose proof (vget_Some_lt _ _ _ Hx) as Hs.
  set (I := λ pre w', ∃ lo, net_core w' = net_core (w <| net_m_switches ::= λ l, vset l s (set_order lo x) |>) ∧
    links_upto pre n lo).
  eapply wp_mono; [apply (wp_for_each _ _ I)|].
  - exists (ps_m_link_order (sw_m_perfect_switch x)). split; [|split; [done|by intros i ?%elem_of_nil]].
    unfold net_core. simpl. rewrite vset_same; [done|]. rewrite Hx. by destruct x as [? [] ? ? ?].
  - intros pre i post w1 Hpre (lo & E & Hlo).
    assert (Hi : i ∈ zrange 0 (Z.of_nat n)) by (rewrite Hpre; set_solver).
    assert (Hni : i ∉ pre).
    { intros Hin. pose proof (NoDup_seqZ 0 (Z.of_nat n - 0)) as Hnd. unfold zrange in Hpre. rewrite Hpre in Hnd.
      apply NoDup_app in Hnd as (_ & Hd & _). apply (Hd i Hin). set_solver. }
    apply elem_of_zrange in Hi. apply wp_bind, Hval; [done|by injection E|]. intros a w2 E2.
    assert (Hsw : net_m_switches w2 = vset (net_m_switches w) s (set_order lo x)).
    { rewrite E in E2. by injection E2. }
    eapply wp_upd_switch; [rewrite Hsw; by apply vget_vset_eq|].
    exists (vset lo i (mkLinkOrder i a)). split; [|by apply links_upto_set].
    rewrite E in E2. unfold net_core in *. injection E2 as F1 F2 F3 F4 F5 _ F7. simpl in *.
    rewrite Hsw, vset_vset. unfold cores in *. simpl. by rewrite F1, F2, F3, F4, F5, F7.
  - intros [] w' (lo & E & Hlo). exists lo. split; [done|by apply links_upto_all].
Qed.

Context (P : Plan) `{MTS : !MachineTypesSpec MT}.

Lemma wp_order_links s vnet t w x (Q : () → GNet → Prop) :
  wired P w → counted w → vget (net_m_switches w) s = Some x →
  0 ≤ vnet < ps_m_virtual_networks (sw_m_perfect_switch x) →
  (∀ w', reordered s x w w' → Q tt w') → wp (PerfectSwitch_order_links s vnet t) Q w.
Proof.
  intros [_ Hw] Hc Hx Hv HQ. destruct (Hw s x Hx) as [[] _]. destruct (Hc s x Hx) as [Hlinks _ _ _].
  unfold PerfectSwitch_order_links. apply wp_bind, wp_gets. destruct (sn_m_adaptive_routing _).
  2: { apply wp_ret, HQ. eexists. split; [|exact Hlinks]. unfold net_core. simpl.
       rewrite vset_same; [done|]. rewrite Hx. by destruct x as [? [] ? ? ?]. }
  apply wp_bind, (wp_get_pswitch _ _ x); [done|]. apply wp_bind, wp_gets.
  destruct (vget_lookup (cf_m_ordered (net_cfg w)) vnet) as [ordered Ho]; [lia|].
  apply wp_bind, (wp_vgetG _ _ _ ordered); [done|].
  assert (Hlen : vsize (ps_m_out (sw_m_perfect_switch x)) =
    Z.of_nat (length (ps_m_link_order (sw_m_perfect_switch x)))) by (unfold vsize; congruence).
  assert (Htab : vsize (ps_m_routing_table (sw_m_perfect_switch x)) =
    Z.of_nat (length (ps_m_link_order (sw_m_perfect_switch x)))) by (unfold vsize; congruence).
  rewrite Hlen. destruct ordered.
  - eapply wp_mono; [exact (wp_assign_order s x _ w (λ _, mret 0) Hx eq_refl (λ i w1 Q' _ _ HQ', wp_ret 0 Q' w1 (HQ' 0 w1 eq_refl)))|].
    intros [] w' (lo & E & El). apply HQ. exists lo. split; [done|]. by rewrite Htab, El.
  - apply wp_bind. eapply wp_mono; [apply wp_assign_order; [done|done|]|].
    + intros i w1 Q' Hi Ec HQ'. apply wp_link_value; [|done]. intros v Hv'.
      destruct (vget_lookup (ps_m_out (sw_m_perfect_switch x)) i) as [row Hr]; [lia|].
      destruct (vget_lookup (ps_m_routing_table (sw_m_perfect_switch x)) i) as [e He]; [lia|].
      destruct (pw_out i row e v Hr He Hv') as (b & q & _ & _ & Hb & Hq & _).
      exists row, b. rewrite Ec. eauto.
    + intros [] w' (lo & E & El).
      assert (Hsw : net_m_switches w' = vset (net_m_switches w) s (set_order lo x)) by (by injection E).
      eapply wp_upd_switch; [rewrite Hsw; apply vget_vset_eq; by eapply vget_Some_lt|].
      apply HQ. exists (sort_links lo). split; [|by rewrite sort_links_perm, El, Htab].
      unfold net_core in *. injection E as F1 F2 F3 F4 F5 _ F7. simpl in *.
      rewrite Hsw, vset_vset. unfold cores in *. simpl. by rewrite F1, F2, F3, F4, F5, F7.
Qed.
End Order.

(** ** Sending the copies *)
Definition queue (w : GNet) (b : Z) : list ptr := default [] (qc_heap <$> vget (cores w) b).

Lemma zrange_split n pre i post : zrange 0 n = pre ++ i :: post → i = vsize pre.
Proof.
  intros E. assert (H : zrange 0 n !! length pre = Some i) by (rewrite E; by apply list_lookup_middle).
  unfold zrange in H. apply lookup_seqZ in H as [-> _]. unfold vsize. lia.
Qed.

Section Send.
Context `{MT : MachineTypes} `{LSS : LinkSortSpec} (P : Plan) `{MTS : !MachineTypesSpec MT}.

Lemma queues_ok_core w w' :
  cores w' = cores w → net_msgs w' = net_msgs w → net_next w' = net_next w →
  net_cycle w' = net_cycle w → net_cfg w' = net_cfg w → queues_ok P w → queues_ok P w'.
Proof.
  intros Ec Em En Ecy Ecf [H1 H2 H3 H4 H5 H6].
  assert (Eq : queued w' = queued w) by (unfold queued; by rewrite Ec).
  split; rewrite ?Eq, ?Ec, ?Em, ?En; auto.
  intros b q Hq. unfold now. rewrite Ecy, Ecf. by apply H6.
Qed.

Lemma deliveries_core w w' :
  cores w' = cores w → net_msgs w' = net_msgs w → deliveries w' = deliveries w.
Proof. intros Ec Em. unfold deliveries, queued. by rewrite Ec, Em. Qed.

Lemma counted_core w w' :
  cores w' = cores w → net_m_switches w' = net_m_switches w → counted w → counted w'.
Proof.
  intros Ec Es Hc s x. rewrite Es. intros Hx. destruct (Hc s x Hx) as [H1 H2 H3 H4].
  split; [done|done| |done]. intros v Hv. unfold pend. rewrite Ec. by apply H3.
Qed.

(** The readers of the queues other than throttles are not concerned. *)
Definition keeps_inputs (w w' : GNet) : Prop :=
  ∀ b q s, vget (cores w) b = Some q → qc_consumer q = Some (CPerfectSwitch s) →
    vget (cores w') b = Some q.
#[export] Instance keeps_inputs_preorder : PreOrder keeps_inputs.
Proof.
  split; [by intros w b q s|]. intros w1 w2 w3 H1 H2 b q s Hq Hc. eapply H2; [by eapply H1|done].
Qed.

(** One copy: the message [p0], in no queue, goes to link [l] with the
    destinations [d]. *)
Definition sent (p0 : ptr) (m0 : Message) (d : NetDest) (w w' : GNet) : Prop :=
  queues_ok P w' ∧ counted w' ∧ net_m_switches w' = net_m_switches w ∧ net_next w' = net_next w ∧
  deliveries w' ≡ₚ (msg_payload m0, d) :: deliveries w ∧ queued w' ≡ₚ p0 :: queued w ∧
  (∀ r, r ≠ p0 → net_msgs w' !! r = net_msgs w !! r) ∧ keeps_inputs w w'.

Lemma wp_send_one s x vnet p0 m0 l e d w :
  queues_ok P w → wired P w → counted w → vget (net_m_switches w) s = Some x →
  0 ≤ vnet < ps_m_virtual_networks (sw_m_perfect_switch x) →
  p0 ∉ queued w → net_msgs w !! p0 = Some m0 → msg_ok m0 → msg_m_LastEnqueueTime m0 ≤ now w →
  vget (ps_m_routing_table (sw_m_perfect_switch x)) l = Some e → wf_dest d →
  (∀ mm, mem mm d = true → mem mm e = true) →
  wp (m ← get_msg p0; put_msg p0 (m <| msg_Destination := d |>) ;;
      b ← PerfectSwitch_out_queue s l vnet; delta ← cyclesToTicks 1;
      MessageBuffer_enqueue b p0 (now w) delta) (λ _ w', sent p0 m0 d w w') w.
Proof.
  intros Hok [Hper Hw] Hc Hx Hv Hp Hm [_ Hsz] Hle He Hd Hsub.
  apply wp_bind, (wp_get_msg _ _ m0); [done|]. set (m1 := m0 <| msg_Destination := d |>).
  apply wp_bind, wp_modify. set (w1 := w <| net_msgs ::= <[p0 := m1]> |>).
  destruct (queues_put P w p0 m1 w1) as (Hok1 & Eq1 & Ed1); try done.
  { simpl. apply (qk_fresh _ _ Hok). by eexists. }
  destruct (Hw s x Hx) as [[] _].
  destruct (vget_lookup (ps_m_out (sw_m_perfect_switch x)) l) as [row Hr].
  { apply vget_Some_lt in He. unfold vsize in *. lia. }
  destruct (pw_out l row e vnet Hr He Hv) as (b & q & s' & t' & Hb & Hq & Hcons & Hdel & Hcov).
  apply wp_bind. unfold PerfectSwitch_out_queue. apply wp_bind, (wp_get_pswitch _ _ x); [done|].
  apply wp_bind, (wp_vgetG _ _ _ row); [done|]. apply (wp_vgetG _ _ _ b); [done|].
  apply wp_bind. unfold cyclesToTicks. apply wp_bind, wp_gets, wp_ret.
  change (net_cfg w1) with (net_cfg w). rewrite Z.mul_1_l, <- Hdel.
  destruct (vget_cores_inv w b q Hq) as (xb & Hxb & <-). simpl in Hcons.
  assert (Hm1 : net_msgs w1 !! p0 = Some m1) by apply lookup_insert_eq.
  apply (wp_enqueue _ xb _ _ m1); [done|done|lia|done|by rewrite Hcons| |].
  { change (net_cfg w1) with (net_cfg w). by apply (qk_fifo _ _ Hok). }
  intros w2 Hen. pose proof Hen as [_ Esw Erest]. injection Erest as En _ _ _.
  change (now w) with (now w1) in Hen.
  destruct (queues_enqueue P w1 b xb p0 m1 w2) as (Hok2 & Eq2 & Ed2 & Hother & q2 & Hq2 & Hh2);
    try done; [by intros; apply Hcov, Hsub|].
  rewrite Hcons in Esw. simpl in Esw. rewrite Eq1 in Eq2. rewrite Ed1 in Ed2.
  destruct Hen as [(a & last & _ & _ & _ & _ & Ecore & _) _ _].
  change (cores w1) with (cores w) in *.
  split_and!; [done| |done|done|done|done| |].
  - eapply (counted_bump P w w2 b _ _ 1); [done|by split|exact Hq|exact Ecore|done|done| | |].
    + unfold vsize. simpl. rewrite (Permutation_length (push_heap_perm _ _)), length_app. simpl. lia.
    + simpl. by rewrite Hcons.
    + simpl. by rewrite Hcons.
  - intros r Hrp. rewrite Hother by done. by apply lookup_insert_ne.
  - intros b' q' s0 Hq' Hc'. rewrite Ecore, vget_vset_ne; [done|]. intros <-. rewrite Hq in Hq'.
    simplify_eq. simpl in Hc'. by rewrite Hcons in Hc'.
Qed.

(** The link is one of the switch, and its part is within its table entry. *)
Definition part_ok (x : Switch) (pd : Z * NetDest) : Prop :=
  ∃ e, vget (ps_m_routing_table (sw_m_perfect_switch x)) (fst pd) = Some e ∧ wf_dest (snd pd) ∧
    ∀ mm, mem mm (snd pd) = true → mem mm e = true.

(** A private copy of the message, in no queue. *)
Definition copy_of (p : ptr) (m : Message) (un : option ptr) (t : Z) (w : GNet) : Prop :=
  ∃ u mu, un = Some u ∧ u ≠ p ∧ (u ∉ queued w) ∧ net_msgs w !! u = Some mu ∧
    msg_payload mu = msg_payload m ∧ msg_ok mu ∧ msg_m_LastEnqueueTime mu ≤ t.

Lemma keeps_wiring_now w w' : keeps_wiring w w' → now w' = now w.
Proof. intros E. injection E as _ Ecy Ecf _ _. unfold now. by rewrite Ecy, Ecf. Qed.

Definition send_inv (p : ptr) (m : Message) (un : option ptr) (n : nat) (ps : list (Z * NetDest))
    (w : GNet) (k : nat) (w' : GNet) : Prop :=
  queues_ok P w' ∧ counted w' ∧ keeps_wiring w w' ∧ keeps_inputs w w' ∧
  net_m_switches w' = net_m_switches w ∧
  deliveries w' ≡ₚ ((λ pd, (msg_payload m, snd pd)) <$> take k ps) ++ deliveries w ∧
  (k = 0%nat → w' = w) ∧ ((1 < n)%nat → copy_of p m un (now w) w').

Lemma send_inv_step s x vnet p m un ps w w' k l d :
  wired P w → vget (net_m_switches w) s = Some x →
  0 ≤ vnet < ps_m_virtual_networks (sw_m_perfect_switch x) →
  p ∉ queued w → net_msgs w !! p = Some m → msg_ok m → msg_m_LastEnqueueTime m ≤ now w →
  ps !! k = Some (l, d) → part_ok x (l, d) → send_inv p m un (length ps) ps w k w' →
  wp (p0 ← (if 0 <? Z.of_nat k then u ← optG un (NullDeref "unmodified_msg_ptr"); Message_clone u
            else mret p);
      d ← vgetG (snd <$> ps) (Z.of_nat k) "output_link_destinations";
      m ← get_msg p0; put_msg p0 (m <| msg_Destination := d |>) ;;
      b ← PerfectSwitch_out_queue s l vnet; delta ← cyclesToTicks 1;
      MessageBuffer_enqueue b p0 (now w) delta) (λ _ w'', send_inv p m un (length ps) ps w (S k) w'') w'.
Proof.
  intros Hw Hx Hv Hp Hm Hmo Hle Hk (e & He & Hd & Hsub) (Hok & Hc & Hs & Hi & Esw & Edel & H0 & Hun).
  set (body := (_ ≫= _)). assert (Hpres : preserves keeps_wiring body) by (unfold body; pres_wiring).
  assert (Hrun : wp body (λ _ w'', ∃ p0 m0 w1, sent p0 m0 d w1 w'' ∧ msg_payload m0 = msg_payload m ∧
    deliveries w1 = deliveries w' ∧ net_m_switches w1 = net_m_switches w' ∧ keeps_inputs w' w1 ∧
    ((1 < length ps)%nat → copy_of p m un (now w) w1 ∧ un ≠ Some p0)) w').
  2: { eapply wp_mono; [exact (wp_and_preserves _ _ _ _ Hrun Hpres)|].
    intros [] w'' [(p0 & m0 & w1 & (K1 & K2 & K3 & K4 & K5 & K6 & K7 & K8) & Epay & Ed & Es1 & Hi1 & Hu) Hs'].
    split_and!; try done.
    - by transitivity w'.
    - by transitivity w'; [|transitivity w1].
    - by rewrite K3, Es1.
    - rewrite (take_S_r _ _ _ Hk), fmap_app, <- app_assoc, K5, Ed, Edel, Epay. solve_Permutation.
    - intros Hn. destruct (Hu Hn) as [(u & mu & -> & Hup & Huq & Hum & Hu4 & Hu5 & Hu6) Hne].
      exists u, mu. assert (u ≠ p0) by congruence. split_and!; try done.
      + rewrite K6. by apply not_elem_of_cons.
      + by rewrite K7. }
  unfold body. clear body Hpres. pose proof Hs as Hnow%keeps_wiring_now.
  assert (Hw' : wired P w') by (by eapply wired_static).
  assert (Hsend : ∀ p0 m0 w1, queues_ok P w1 → keeps_wiring w' w1 → counted w1 →
    net_m_switches w1 = net_m_switches w' → p0 ∉ queued w1 → net_msgs w1 !! p0 = Some m0 → msg_ok m0 →
    msg_m_LastEnqueueTime m0 ≤ now w →
    wp (d ← vgetG (snd <$> ps) (Z.of_nat k) "output_link_destinations";
        m ← get_msg p0; put_msg p0 (m <| msg_Destination := d |>) ;;
        b ← PerfectSwitch_out_queue s l vnet; delta ← cyclesToTicks 1;
        MessageBuffer_enqueue b p0 (now w) delta) (λ _ w'', sent p0 m0 d w1 w'') w1).
  { intros p0 m0 w1 Hok1 Hs1 Hc1 Es1 Hp0 Hm0 Hmo0 Ht0. apply wp_bind, (wp_vgetG _ _ _ d).
    { apply vget_Some. rewrite Nat2Z.id, list_lookup_fmap, Hk. split; [lia|done]. }
    rewrite <- Hnow, <- (keeps_wiring_now w' w1) by done.
    apply (wp_send_one s x vnet p0 m0 l e d); try done; [by eapply wired_static|by rewrite Es1, Esw|].
    by rewrite (keeps_wiring_now w' w1), Hnow. }
  destruct k as [|k].
  - rewrite (H0 eq_refl) in *. apply wp_bind, wp_ret. eapply wp_mono; [by apply (Hsend p m)|].
    intros [] w'' Hsent. exists p, m, w. split_and!; try done.
    intros Hn. split; [by apply Hun|]. destruct (Hun Hn) as (u & mu & -> & ? & _). congruence.
  - assert (Hn : (1 < length ps)%nat) by (apply lookup_lt_Some in Hk; lia).
    destruct (Hun Hn) as (u & mu & -> & Hup & Huq & Hum & Hu4 & Hu5 & Hu6).
    change (0 <? Z.of_nat (S k)) with true. cbn match. apply wp_bind, wp_bind, wp_ret.
    unfold Message_clone, new_msg. apply wp_bind, (wp_get_msg _ _ mu); [done|].
    apply wp_bind, wp_gets, wp_bind, wp_modify, wp_ret. set (p0 := net_next w').
    set (w1 := w' <| net_next := S p0 |> <| net_msgs ::= <[p0 := mu]> |>).
    assert (Hfresh : net_msgs w' !! p0 = None).
    { destruct (net_msgs w' !! p0) eqn:E; [|done]. pose proof (qk_fresh _ _ Hok p0 ltac:(by eexists)).
      unfold p0 in *. lia. }
    assert (Hpq : p0 ∉ queued w').
    { intros (? & Hlive & _)%(qk_live _ _ Hok). congruence. }
    assert (Hup0 : u ≠ p0) by (intros ->; congruence).
    destruct (queues_put P w' p0 mu w1) as (Hok1 & Eq1 & Ed1); try done; [simpl; lia..|].
    eapply wp_mono; [apply (Hsend p0 mu w1 Hok1 eq_refl (counted_core w' w1 eq_refl eq_refl Hc) eq_refl Hpq); [apply lookup_insert_eq|done..]|].
    intros [] w'' Hsent. exists p0, mu, w1. split_and!; try done.
    + by intros b q s0.
    + intros _. split; [|congruence]. exists u, mu. split_and!; try done. simpl. by rewrite lookup_insert_ne.
Qed.

Lemma wp_send s x vnet p m un ps w :
  queues_ok P w → wired P w → counted w → vget (net_m_switches w) s = Some x →
  0 ≤ vnet < ps_m_virtual_networks (sw_m_perfect_switch x) →
  p ∉ queued w → net_msgs w !! p = Some m → msg_ok m → msg_m_LastEnqueueTime m ≤ now w →
  Forall (part_ok x) ps → ((1 < length ps)%nat → copy_of p m un (now w) w) →
  wp (PerfectSwitch_send s vnet (now w) p un (fst <$> ps) (snd <$> ps))
    (λ _ w', send_inv p m un (length ps) ps w (length ps) w') w.
Proof.
  intros Hok Hw Hc Hx Hv Hp Hm Hmo Hle Hps Hun. unfold PerfectSwitch_send.
  eapply wp_mono; [apply (wp_for_each _ _ (λ pre w', send_inv p m un (length ps) ps w (length pre) w'))|].
  - by split_and!.
  - intros pre i post w' Hpre Hinv. pose proof (zrange_split _ _ _ _ Hpre) as ->.
    assert (Hi : vsize pre ∈ zrange 0 (vsize (fst <$> ps))) by (rewrite Hpre; set_solver).
    apply elem_of_zrange in Hi. unfold vsize in Hi. rewrite length_fmap in Hi.
    destruct (lookup_lt_is_Some_2 ps (length pre) ltac:(lia)) as [[l d] Hk].
    apply wp_bind, (wp_vgetG _ _ _ l).
    { apply vget_Some. unfold vsize. rewrite Nat2Z.id, list_lookup_fmap, Hk. split; [lia|done]. }
    rewrite length_app, Nat.add_1_r. rewrite Forall_lookup in Hps. pose proof (Hps _ _ Hk) as Hpart.
    by apply (send_inv_step s x vnet p m un ps w w' (length pre) l d).
  - intros [] w'. unfold zrange. rewrite length_seqZ. unfold vsize. rewrite length_fmap.
    by replace (Z.to_nat (Z.of_nat (length ps) - 0)) with (length ps) by lia.
Qed.

(** [b] is an input queue of switch [s] for virtual network [vnet]. *)
Definition input_queue (w : GNet) (s vnet b : Z) : Prop :=
  ∃ x i row, vget (net_m_switches w) s = Some x ∧
    vget (ps_m_in (sw_m_perfect_switch x)) i = Some row ∧ vget row vnet = Some (Some b).

Lemma input_queue_wired w s vnet b :
  wired P w → input_queue w s vnet b →
  ∃ x q, vget (net_m_switches w) s = Some x ∧ vget (cores w) b = Some q ∧
    qc_consumer q = Some (CPerfectSwitch s) ∧ qc_vnet q = vnet ∧
    0 ≤ vnet < ps_m_virtual_networks (sw_m_perfect_switch x) ∧
    ∀ m, pl_cover P b m → ∃ e, e ∈ ps_m_routing_table (sw_m_perfect_switch x) ∧ mem m e = true.
Proof.
  intros [_ Hw] (x & i & row & Hx & Hi & Hb). destruct (Hw s x Hx) as [Hp _].
  destruct (pw_in _ _ _ _ Hp i row vnet b Hi Hb) as (Hv & (q & Hq & Hc & Hn) & Hcov).
  pose proof (vget_Some_lt _ _ _ Hb). exists x, q. split_and!; first [done|lia].
Qed.

Lemma input_queue_static w w' s vnet b :
  keeps_wiring w w' → input_queue w s vnet b → input_queue w' s vnet b.
Proof.
  intros E (x & i & row & Hx & Hi & Hb). injection E as _ _ _ Es _.
  destruct (vget_same_image switch_static _ _ _ _ (eq_sym Es) Hx) as (x' & Hx' & Ex).
  injection Ex as E1 _ _ _ _ _ _. exists x', i, row. by rewrite <- E1.
Qed.

(** Taking the first message out of an input queue, with its count. *)
Lemma wp_take s vnet b q p tl m w :
  simple_ok P w → input_queue w s vnet b → vget (cores w) b = Some q → qc_heap q = p :: tl →
  net_msgs w !! p = Some m → msg_m_LastEnqueueTime m ≤ now w →
  wp (PerfectSwitch_dequeue s b vnet (now w))
    (λ _ w', (simple_ok P w' ∧ queued w ≡ₚ p :: queued w' ∧ length (queue w' b) = length tl ∧
       deliveries w ≡ₚ (msg_payload m, msg_Destination m) :: deliveries w' ∧
       net_msgs w' = <[p := dequeued_msg (now w) m]> (net_msgs w) ∧ net_next w' = net_next w) ∧
       keeps_wiring w w') w.
Proof.
  intros (Hok & Hw & Hc) Hin Hq Hl Hm Ht. apply wp_and_preserves; [|pres_wiring].
  destruct (input_queue_wired w s vnet b Hw Hin) as (x & q0 & Hx & Hq0 & Hcons & Hn & Hv & _). simplify_eq.
  destruct (vget_cores_inv w b q Hq) as (xb & Hxb & <-). simpl in Hcons, Hl.
  unfold PerfectSwitch_dequeue. apply wp_bind, (wp_dequeue _ xb _ p tl m); [done..|]. intros w1 Hd.
  destruct (queues_dequeue P w b xb p tl m (now w) w1) as (Hok1 & Hperm & Hdel & q1 & Hq1 & Hh1); try done.
  destruct Hd as [Emsg Ecore Erest]. injection Erest as En Ecy Ecf Esw Esi.
  apply wp_bind, (wp_get_pswitch _ _ x); [by rewrite Esw|].
  pose proof (sc_pending _ _ _ (Hc s x Hx) _ Hv) as Hpd. apply wp_bind. eapply wp_vgetG; [exact Hpd|].
  apply (wp_upd_switch _ _ _ x); [by rewrite Esw|]. set (w2 := w1 <| net_m_switches := _ |>).
  assert (Hw2 : simple_static w2 = simple_static w).
  { unfold simple_static. change (cores w2) with (cores w1). simpl. rewrite Ecore, Ecy, Ecf, Esi, Esw.
    rewrite !vset_fmap, !vset_same; [done| |].
    - rewrite vget_fmap, Hx. simpl. unfold switch_static, pswitch_static. simpl. by rewrite length_vset.
    - by rewrite vget_fmap, Hq. }
  unfold simple_ok. split_and!.
  - by apply (queues_ok_core w1).
  - by eapply wired_static.
  - eapply (counted_bump P w w2 b _ _ (-1)); [done|done|exact Hq|exact Ecore|done|done| | |].
    + unfold vsize. rewrite Ecore, vget_vset_eq in Hq1 by (by eapply vget_Some_lt). simplify_eq.
      rewrite (Permutation_length Hh1). simpl. rewrite Hl. simpl. lia.
    + simpl. rewrite Hcons. exists x. split; [done|].
      rewrite (pw_pending _ _ _ _ (proj1 (proj2 Hw s x Hx))). simpl in Hv. lia.
    + simpl. rewrite Hcons. simpl. rewrite Esw, Hx. unfold add_pending. simpl.
      do 3 f_equal. simpl in Hpd. by rewrite Hpd.
  - done.
  - unfold queue. change (cores w2) with (cores w1). rewrite Hq1. simpl. by rewrite (Permutation_length Hh1).
  - done.
  - done.
  - done.
Qed.

(** ** Choosing the links *)
Lemma round_entries table lo :
  (lo_m_link <$> lo) ≡ₚ zrange 0 (vsize table) →
  ∃ es, Forall2 (λ i pd, round_entry table lo i = Some pd) (zrange 0 (vsize table)) es ∧
    ∀ l e, (l, e) ∈ es ↔ vget table l = Some e.
Proof.
  intros Hperm. assert (Hlen : vsize lo = vsize table).
  { apply Permutation_length in Hperm. rewrite length_fmap in Hperm. unfold zrange in Hperm.
    rewrite length_seqZ in Hperm. unfold vsize in *. lia. }
  assert (Hin : ∀ o, o ∈ lo → is_Some (vget table (lo_m_link o))).
  { intros o Ho. apply vget_lookup. apply elem_of_zrange. rewrite <- Hperm. by apply list_elem_of_fmap_2. }
  exists ((λ o, (lo_m_link o, default (mkNetDest []) (vget table (lo_m_link o)))) <$> lo). split.
  - rewrite <- Hlen. apply Forall2_same_length_lookup_2.
    { rewrite length_fmap. unfold zrange, vsize. rewrite length_seqZ. lia. }
    intros k i pd Hi Hpd. unfold zrange in Hi. apply lookup_seqZ in Hi as [-> Hk].
    rewrite list_lookup_fmap in Hpd. apply fmap_Some in Hpd as (o & Ho & ->).
    assert (Hv : vget lo (0 + Z.of_nat k) = Some o).
    { apply vget_Some. replace (Z.to_nat (0 + Z.of_nat k)) with k by lia. split; [lia|done]. }
    unfold round_entry. rewrite Hv. simpl. destruct (Hin o) as [e He]; [by eapply list_elem_of_lookup_2|].
    by rewrite He.
  - intros l e. rewrite list_elem_of_fmap. split.
    + intros (o & [= -> ->] & Ho). destruct (Hin o Ho) as [e He]. by rewrite He.
    + intros He. assert (Hl : l ∈ lo_m_link <$> lo).
      { rewrite Hperm. apply elem_of_zrange. by eapply vget_Some_lt. }
      apply list_elem_of_fmap in Hl as (o & -> & Ho). exists o. by rewrite He.
Qed.

Lemma addressed_parts m c ps :
  addressed m ((λ pd : Z * NetDest, (c, snd pd)) <$> ps) = (λ _, c) <$> takers m ps.
Proof.
  unfold addressed, takers. induction ps as [|[l d] ps IH]; [done|]. csimpl. rewrite !filter_cons.
  simpl. case_decide; csimpl; [by f_equal|done].
Qed.

(** A split of covered destinations: nothing is left, and the copies for a
    machine are those of the message itself. *)
Lemma split_covered x lo d :
  (lo_m_link <$> lo) ≡ₚ zrange 0 (vsize (ps_m_routing_table (sw_m_perfect_switch x))) →
  Forall wf_dest (ps_m_routing_table (sw_m_perfect_switch x)) → wf_dest d →
  (∀ m, mem m d = true → ∃ e, e ∈ ps_m_routing_table (sw_m_perfect_switch x) ∧ mem m e = true) →
  ∃ ps r, split_links (ps_m_routing_table (sw_m_perfect_switch x)) lo
            (zrange 0 (vsize (ps_m_routing_table (sw_m_perfect_switch x)))) [] [] d
          = Ok (fst <$> ps, snd <$> ps, r) ∧
    NetDest_count r = 0 ∧ Forall (part_ok x) ps ∧
    ∀ m c, addressed m ((λ pd, (c, snd pd)) <$> ps) = addressed m [(c, d)].
Proof.
  set (table := ps_m_routing_table _). intros Hperm Hwf Hd Hcov.
  destruct (round_entries table lo Hperm) as (es & Hes & Hel).
  assert (Hwfs : Forall (λ pd, wf_dest (snd pd)) es).
  { apply Forall_forall. intros [l e] [_ He%list_elem_of_lookup_2]%Hel%vget_Some.
    by eapply Forall_forall in Hwf. }
  destruct (split_links_splits table lo _ es [] [] d Hes Hwfs Hd) as (ps & r & Hrun & Hsp).
  exists ps, r. destruct (splits_wf _ _ _ _ Hsp Hwfs Hd) as [Hps Hr].
  assert (Htk : ∀ m, mem m d = true → takers m es ≠ []).
  { intros m (e & [l Hl]%list_elem_of_lookup & Hm)%Hcov E.
    assert (Hin : (Z.of_nat l, e) ∈ es) by (apply Hel, vget_Some; rewrite Nat2Z.id; split; [lia|done]).
    assert (H : Z.of_nat l ∈ takers m es); [|by rewrite E in H; apply elem_of_nil in H].
    unfold takers. apply list_elem_of_fmap. exists (Z.of_nat l, e). split; [done|]. by apply list_elem_of_filter. }
  split_and!; [done| | |].
  - apply NetDest_count_0; [done|]. intros m. destruct (splits_exact _ _ _ _ m Hsp Hwfs Hd) as [_ ->].
    destruct (mem m d) eqn:Em; [|done]. by apply bool_decide_eq_false, Htk.
  - apply Forall_forall. intros [l d'] Hin. destruct (splits_parts _ _ _ _ _ _ Hsp Hwfs Hd Hin) as (_ & e & He & Hsub).
    exists e. simpl. split_and!; [by apply Hel| |done]. rewrite Forall_forall in Hps. by apply (Hps _ Hin).
  - intros m c. rewrite addressed_parts. destruct (splits_exact _ _ _ _ m Hsp Hwfs Hd) as [-> _].
    unfold addressed. rewrite filter_cons. simpl. destruct (mem m d) eqn:Em; [|by rewrite decide_False].
    rewrite decide_True by done. pose proof (Htk m Em). by destruct (takers m es).
Qed.

Lemma reordered_ok s x w w' :
  simple_ok P w → vget (net_m_switches w) s = Some x → reordered s x w w' →
  simple_ok P w' ∧ keeps_wiring w w' ∧ cores w' = cores w ∧ net_msgs w' = net_msgs w ∧ net_next w' = net_next w ∧
  ∃ lo, vget (net_m_switches w') s = Some (set_order lo x) ∧
    (lo_m_link <$> lo) ≡ₚ zrange 0 (vsize (ps_m_routing_table (sw_m_perfect_switch x))).
Proof.
  intros (Hok & Hw & Hc) Hx (lo & E & Hlo). unfold net_core in E. injection E as E1 E2 E3 E4 E5 E6 E7.
  change (cores _) with (cores w) in E1 at 2. simpl in *.
  assert (Hlen : length lo = length (ps_m_link_order (sw_m_perfect_switch x))).
  { apply Permutation_length in Hlo. rewrite length_fmap in Hlo. unfold zrange in Hlo.
    rewrite length_seqZ in Hlo. destruct (proj2 Hw s x Hx) as [[] _]. unfold vsize in *. lia. }
  assert (Hs : keeps_wiring w w').
  { unfold keeps_wiring, keeps, simple_static. rewrite E1, E4, E5, E6, E7, vset_fmap, vset_same; [done|].
    rewrite vget_fmap, Hx. simpl. unfold switch_static, pswitch_static. simpl. by rewrite Hlen. }
  split_and!; [split_and!| | | | |].
  - by apply (queues_ok_core w).
  - by eapply wired_static.
  - intros s' x'. rewrite E6, vget_vset. case_decide as Hd.
    + destruct Hd as [<- _]. intros [= <-]. destruct (Hc s x Hx) as [H1 H2 H3 H4]. split; simpl; try done.
      intros v Hv. unfold pend. rewrite E1. by apply H3.
    + intros Hx'. destruct (Hc s' x' Hx') as [H1 H2 H3 H4]. split; try done.
      intros v Hv. unfold pend. rewrite E1. by apply H3.
  - done.
  - done.
  - done.
  - done.
  - exists lo. split; [|done]. rewrite E6. apply vget_vset_eq. by eapply vget_Some_lt.
Qed.

Lemma wp_enough s x vnet t ps w (Q : bool → GNet → Prop) :
  wired P w → vget (net_m_switches w) s = Some x →
  0 ≤ vnet < ps_m_virtual_networks (sw_m_perfect_switch x) → Forall (part_ok x) ps →
  (∀ a w', net_core w' = net_core w → Q a w') →
  wp (PerfectSwitch_enough s vnet t (fst <$> ps)) Q w.
Proof.
  intros [_ Hw] Hx Hv Hps HQ. destruct (Hw s x Hx) as [[] _]. unfold PerfectSwitch_enough.
  eapply wp_mono; [apply (wp_foldM _ _ _ (λ _ _ w', net_core w' = net_core w)); [done|]|intros a w'; apply HQ].
  intros _ l enough w1 Hl E. apply list_elem_of_fmap in Hl as (pd & -> & Hin). rewrite Forall_forall in Hps.
  destruct (Hps pd Hin) as (e & He & _). destruct (vget_lookup (ps_m_out (sw_m_perfect_switch x)) (fst pd)) as [row Hr].
  { apply vget_Some_lt in He. unfold vsize in *. lia. }
  destruct (pw_out (fst pd) row e vnet Hr He Hv) as (b & q & _ & _ & Hb & Hq & _).
  unfold net_core in E. injection E as E1 E2 E3 E4 E5 E6 E7.
  apply wp_bind. unfold PerfectSwitch_out_queue. apply wp_bind, (wp_get_pswitch _ _ x); [by rewrite E6|].
  apply wp_bind, (wp_vgetG _ _ _ row); [done|]. apply (wp_vgetG _ _ _ b); [done|].
  apply wp_bind, (wp_areNSlotsAvailable _ _ _ _ q); [by rewrite E1|]. intros a w2 E'. apply wp_ret.
  rewrite E'. unfold net_core. by rewrite E1, E2, E3, E4, E5, E6, E7.
Qed.

(** ** One message *)
Lemma core_wiring w w' : net_core w' = net_core w → keeps_wiring w w'.
Proof.
  intros E. injection E as E1 E2 E3 E4 E5 E6 E7. unfold keeps_wiring, keeps, simple_static.
  by rewrite E1, E4, E5, E6, E7.
Qed.

Lemma simple_ok_core w w' : net_core w' = net_core w → simple_ok P w → simple_ok P w'.
Proof.
  intros E (Hok & Hw & Hc). pose proof (core_wiring _ _ E) as Hs. injection E as E1 E2 E3 E4 E5 E6 E7.
  split_and!; [by apply (queues_ok_core w)|by eapply wired_static|by apply (counted_core w)].
Qed.

(** What one round, and so a whole wake-up, promises. *)
Definition conserves (w w' : GNet) : Prop :=
  simple_ok P w' ∧ keeps_wiring w w' ∧ ∀ m, copies m w' ≡ₚ copies m w.

Lemma conserves_refl w : simple_ok P w → conserves w w.
Proof. done. Qed.
Lemma conserves_trans w1 w2 w3 : conserves w1 w2 → conserves w2 w3 → conserves w1 w3.
Proof.
  intros (_ & K1 & C1) (H & K2 & C2). split_and!; [done|by transitivity w2|].
  intros m. by rewrite C2, C1.
Qed.
Lemma conserves_core w w' : simple_ok P w → net_core w' = net_core w → conserves w w'.
Proof.
  intros Hok E. split_and!; [by eapply simple_ok_core|by apply core_wiring|].
  intros m. injection E as E1 E2 _ _ _ _ _. unfold copies. by rewrite (deliveries_core w w').
Qed.

(** The private copy that is made when the message goes down several links. *)
Lemma wp_private_copy p m n w :
  simple_ok P w → p ∈ queued w → net_msgs w !! p = Some m →
  wp (if 1 <? Z.of_nat n then p0 ← Message_clone p; mret (Some p0) else mret None)
    (λ un w1, simple_ok P w1 ∧ keeps_wiring w w1 ∧ cores w1 = cores w ∧ deliveries w1 = deliveries w ∧
       net_m_switches w1 = net_m_switches w ∧ net_msgs w1 !! p = Some m ∧
       ((1 < n)%nat → ∃ u, un = Some u ∧ u ≠ p ∧ (u ∉ queued w) ∧ net_msgs w1 !! u = Some m)) w.
Proof.
  intros Hok Hp Hm. destruct (Z.ltb_spec 1 (Z.of_nat n)).
  2: { apply wp_ret. split_and!; try done. lia. }
  unfold Message_clone, new_msg. apply wp_bind, wp_bind, (wp_get_msg _ _ m); [done|].
  apply wp_bind, wp_gets, wp_bind, wp_modify, wp_ret, wp_ret. set (u := net_next w).
  set (w1 := w <| net_next := S u |> <| net_msgs ::= <[u := m]> |>). destruct Hok as (Hqk & Hw & Hc).
  assert (Hu : u ∉ queued w).
  { intros (mu & Hlive & _)%(qk_live _ _ Hqk). pose proof (qk_fresh _ _ Hqk u ltac:(by eexists)). unfold u in *. lia. }
  destruct (queues_put P w u m w1) as (Hok1 & Eq1 & Ed1); try done; [simpl; lia..|].
  assert (Hup : u ≠ p) by (intros ->; done).
  split_and!; [split_and!; [done|by eapply (wired_static P w w1)|by apply (counted_core w w1)]|done|done|done|done| |].
  - simpl. by rewrite lookup_insert_ne.
  - intros _. exists u. split_and!; [done|done|done|]. apply lookup_insert_eq.
Qed.

(** The second half of a round: the message leaves its queue and its copies are
    sent. *)
Lemma wp_forward s vnet b q p tl m x ps w :
  simple_ok P w → input_queue w s vnet b → vget (cores w) b = Some q → qc_heap q = p :: tl →
  net_msgs w !! p = Some m → msg_ok m → msg_m_LastEnqueueTime m ≤ now w →
  vget (net_m_switches w) s = Some x → Forall (part_ok x) ps →
  (∀ mm c, addressed mm ((λ pd, (c, snd pd)) <$> ps) = addressed mm [(c, msg_Destination m)]) →
  wp (un ← (if 1 <? vsize (fst <$> ps) then p0 ← Message_clone p; mret (Some p0) else mret None);
      PerfectSwitch_dequeue s b vnet (now w) ;;
      PerfectSwitch_send s vnet (now w) p un (fst <$> ps) (snd <$> ps) ;; mret (inl tt : () + ()))
    (λ r w', r = inl tt ∧ conserves w w' ∧ (length (queue w' b) < length (queue w b))%nat) w.
Proof.
  intros Hok Hin Hq Hl Hm Hmo Ht Hx Hps Haddr. unfold vsize. rewrite length_fmap.
  assert (Hpq : p ∈ queued w) by (apply elem_of_queued; exists b, q; rewrite Hl; split; [done|set_solver]).
  apply wp_bind. eapply wp_mono; [by apply (wp_private_copy p m)|].
  intros un w1 (Hok1 & Hs1 & Ec1 & Ed1 & Esw1 & Hm1 & Hun). rewrite <- (keeps_wiring_now _ _ Hs1) in *.
  rewrite <- Ec1 in Hq. assert (Hqd : queued w1 = queued w) by (unfold queued; by rewrite Ec1).
  assert (Hin1 : input_queue w1 s vnet b) by (by eapply input_queue_static).
  apply wp_bind. eapply wp_mono; [by apply (wp_take s vnet b q p tl m w1)|].
  intros [] w2 [((Hqk2 & Hw2 & Hc2) & Hperm & Hlen & Hdel & Emsg & _) Hs2].
  rewrite <- (keeps_wiring_now _ _ Hs2) in *.
  destruct (vget_same_image switch_static _ _ _ _ (eq_sym (f_equal (λ p, p.1.2) Hs2))
    (eq_trans (f_equal (λ l, vget l s) Esw1) Hx)) as (x2 & Hx2 & Ex2).
  assert (Hps2 : Forall (part_ok x2) ps).
  { injection Ex2 as _ _ E3 _ _ _ _. eapply Forall_impl; [exact Hps|]. intros pd (e & He & Hpd).
    exists e. by rewrite <- E3. }
  destruct (input_queue_wired w2 s vnet b Hw2 (input_queue_static _ _ _ _ _ Hs2 Hin1))
    as (x2' & q2 & Hx2' & Hq2 & Hcons2 & _ & Hv2 & _). simplify_eq.
  assert (Hpq2 : (p ∉ queued w2) ∧ ∀ r, r ∉ queued w1 → r ∉ queued w2).
  { destruct Hok1 as (Hqk1 & _ & _). pose proof (qk_nodup _ _ Hqk1) as Hnd. rewrite Hperm in Hnd.
    apply NoDup_cons in Hnd as [Hnd _]. split; [done|]. intros r. rewrite Hperm, not_elem_of_cons. by intros [_ ?]. }
  apply wp_bind. eapply wp_mono.
  - apply (wp_send s x2 vnet p (dequeued_msg (now w2) m) un ps w2 Hqk2 Hw2 Hc2 Hx2 Hv2 (proj1 Hpq2));
      [rewrite Emsg; apply lookup_insert_eq|done|done|done|].
    intros Hn. destruct (Hun Hn) as (u & -> & Hup & Huq & Hum). exists u, m. split_and!; try done.
    + apply Hpq2. by rewrite Hqd.
    + rewrite Emsg. by rewrite lookup_insert_ne.
  - intros [] w3 (Hqk3 & Hc3 & Hs3 & Hi3 & _ & Hdel3 & _). apply wp_ret. split; [done|]. split.
    + split_and!; [split_and!; [done|by eapply wired_static|done]|by transitivity w1; [|transitivity w2]|].
      intros mm. unfold copies. rewrite Hdel3, firstn_all, addressed_app, <- Ed1, Hdel. simpl msg_payload.
      rewrite (Haddr mm (msg_payload m)), <- addressed_app. done.
    + unfold queue at 1. rewrite (Hi3 b q2 s Hq2 Hcons2). unfold queue in Hlen. rewrite Hq2 in Hlen.
      simpl in *. rewrite Hlen. unfold queue. rewrite <- Ec1, Hq. simpl. rewrite Hl. simpl. lia.
Qed.

Lemma wp_route_message s vnet b w :
  simple_ok P w → input_queue w s vnet b →
  wp (PerfectSwitch_route_message s b vnet (now w))
    (λ r w', conserves w w' ∧
       match r with inl _ => (length (queue w' b) < length (queue w b))%nat | inr _ => True end) w.
Proof.
  intros Hok Hin. pose proof Hok as (Hqk & Hw & Hc).
  destruct (input_queue_wired w s vnet b Hw Hin) as (x & q & Hx & Hq & Hcons & Hn & Hv & Hcov).
  unfold PerfectSwitch_route_message. apply wp_bind, (wp_isReady _ _ _ q); [done| |].
  { apply Forall_forall. intros p Hp. destruct (qk_live _ _ Hqk p) as (m & Hm & _); [|by eexists].
    apply elem_of_queued. eauto. }
  destruct (qc_heap q) as [|p tl] eqn:Hl; [by apply wp_ret|].
  assert (Hpq : p ∈ queued w) by (apply elem_of_queued; exists b, q; rewrite Hl; split; [done|set_solver]).
  destruct (qk_live _ _ Hqk p Hpq) as (m & Hm & Hmo). unfold msg_at. rewrite Hm. simpl.
  destruct (Z.leb_spec (msg_m_LastEnqueueTime m) (now w)) as [Ht|]; [|by apply wp_ret]. simpl.
  apply wp_bind, (wp_peekMsgPtr _ _ q p tl); [done..|]. apply wp_bind, (wp_get_msg _ _ m); [done|].
  apply wp_bind, (wp_get_pswitch _ _ x); [done|]. destruct (proj2 Hw s x Hx) as [Hpw _].
  apply wp_bind, wp_assertM; [unfold vsize; rewrite (pw_order _ _ _ _ Hpw); apply Z.eqb_refl|].
  apply wp_bind, wp_assertM.
  { unfold vsize. rewrite (pw_order _ _ _ _ Hpw), (pw_outs _ _ _ _ Hpw). apply Z.eqb_refl. }
  apply wp_bind, (wp_order_links P _ _ _ _ x); [done..|]. intros w1 Hre.
  destruct (reordered_ok s x w w1 Hok Hx Hre) as (Hok1 & Hs1 & Ec1 & Em1 & En1 & lo & Hx1 & Hlo).
  rewrite <- (keeps_wiring_now _ _ Hs1) in *. apply wp_bind, (wp_get_pswitch _ _ (set_order lo x)); [done|].
  destruct (split_covered (set_order lo x) lo (msg_Destination m)) as (ps & r & Hsplit & Hcount & Hparts & Haddr);
    [done|by apply (pw_tables _ _ _ _ Hpw)|apply Hmo| |].
  { intros mm Hmm. apply Hcov. eapply (qk_cover _ _ Hqk b q p); [done|rewrite Hl; set_solver|].
    unfold msg_at. by rewrite Hm. }
  apply wp_bind. eapply wp_lift; [exact Hsplit|]. cbn match.
  apply wp_bind, wp_assertM; [by apply Z.eqb_eq|].
  apply wp_bind, (wp_enough _ (set_order lo x)); [apply Hok1|done|done|done|].
  intros enough w2 E2.
  assert (Hc12 : conserves w w1).
  { split_and!; [done|done|]. intros mm. unfold copies. by rewrite (deliveries_core w w1). }
  pose proof (conserves_core w1 w2 Hok1 E2) as (Hok2 & Hs2 & Hcp2).
  pose proof E2 as E2'. injection E2' as F1 F2 F3 F4 F5 F6 F7. rewrite <- (keeps_wiring_now _ _ Hs2) in *.
  destruct enough; simpl.
  - eapply wp_mono; [apply (wp_forward s vnet b q p tl m (set_order lo x) ps w2); try done|].
    + by eapply input_queue_static, input_queue_static.
    + by rewrite F1, Ec1.
    + by rewrite F2, Em1.
    + by rewrite F6.
    + intros res w3 (-> & Hcons3 & Hlen). split.
      * eapply conserves_trans; [done|]. by eapply conserves_trans.
      * unfold queue in *. by rewrite F1, Ec1 in Hlen.
  - apply wp_bind, wp_scheduleEvent. intros w3 E3. apply wp_ret. split; [|done].
    eapply conserves_trans; [done|]. eapply conserves_trans; [done|]. by apply conserves_core.
Qed.

Lemma wp_operateMessageBuffer s vnet b w :
  simple_ok P w → input_queue w s vnet b →
  wp (PerfectSwitch_operateMessageBuffer s b vnet) (λ _ w', conserves w w') w.
Proof.
  intros Hok Hin. unfold PerfectSwitch_operateMessageBuffer, clockEdge, curCycle, config.
  apply wp_bind, wp_bind, wp_gets, wp_bind, wp_gets, wp_ret. rewrite Z.add_0_r. fold (now w).
  destruct (input_queue_wired w s vnet b (proj1 (proj2 Hok)) Hin) as (x & q & _ & Hq & _).
  destruct (vget_cores_inv w b q Hq) as (xb & Hxb & <-). apply wp_bind, (wp_get_mbuf _ _ xb); [done|].
  apply (wp_while_loop _ _ _ _ (λ _ w', conserves w w') (λ _ w', length (queue w' b))).
  - by apply conserves_refl.
  - unfold queue. rewrite Hq. simpl. lia.
  - intros [] w1 Hc1. pose proof Hc1 as (Hok1 & Hs1 & _). rewrite <- (keeps_wiring_now _ _ Hs1).
    eapply wp_mono; [apply wp_route_message; [done|by eapply input_queue_static]|].
    intros [[]|[]] w2 [Hc2 Hlen]; [split; [|done]|]; by eapply conserves_trans.
Qed.

(** Changing the round robin pointer or the wake-up counter. *)
Lemma conserves_upd_pswitch s x f w :
  simple_ok P w → vget (net_m_switches w) s = Some x →
  (∀ y, pswitch_static (f y) = pswitch_static y ∧ ps_m_link_order (f y) = ps_m_link_order y ∧
        ps_m_pending_message_count (f y) = ps_m_pending_message_count y) →
  0 ≤ ps_m_round_robin_start (f (sw_m_perfect_switch x)) < Z.max 1 (vsize (ps_m_in (sw_m_perfect_switch x))) →
  conserves w (w <| net_m_switches ::= λ l, vset l s (x <| sw_m_perfect_switch ::= f |>) |>).
Proof.
  intros (Hqk & Hw & Hc) Hx Hf Hr. set (w' := w <| net_m_switches ::= _ |>).
  destruct (Hf (sw_m_perfect_switch x)) as (Es & El & Ep).
  assert (Hs : keeps_wiring w w').
  { unfold keeps_wiring, keeps, simple_static. change (cores w') with (cores w). simpl.
    rewrite vset_fmap, vset_same; [done|]. rewrite vget_fmap, Hx. simpl. unfold switch_static. simpl. by rewrite Es. }
  split_and!; [split_and!| |].
  - by apply (queues_ok_core w).
  - by eapply wired_static.
  - intros s' x'. simpl. rewrite vget_vset. case_decide as Hd.
    + destruct Hd as [<- _]. intros [= <-]. destruct (Hc s x Hx) as [H1 H2 H3 H4].
      injection Es as E1 E2 E3 E4 _ _. split; simpl; rewrite ?E1, ?E3, ?E4, ?El, ?Ep; done.
    + intros Hx'. by destruct (Hc s' x' Hx') as [H1 H2 H3 H4].
  - done.
  - done.
Qed.

(** ** The input ports in turn *)
Lemma next_incoming_range n i : 0 < n → 0 ≤ i < n → 0 ≤ next_incoming n i < n.
Proof. intros. unfold next_incoming. destruct (Z.leb_spec n (i + 1)); lia. Qed.

Lemma wp_scan s x vnet incoming w :
  simple_ok P w → vget (net_m_switches w) s = Some x → 0 ≤ vnet →
  0 ≤ incoming < Z.max 1 (vsize (ps_m_in (sw_m_perfect_switch x))) →
  wp (PerfectSwitch_scan s vnet (vsize (ps_m_in (sw_m_perfect_switch x))) incoming)
    (λ _ w', conserves w w') w.
Proof.
  intros Hok Hx Hv Hinc. set (n := vsize _) in *. unfold PerfectSwitch_scan. apply wp_bind.
  eapply wp_mono; [apply (wp_foldM _ _ _ (λ _ i w', conserves w w' ∧ 0 ≤ i < Z.max 1 n))|by intros i w' [? _]; apply wp_ret].
  { split; [by apply conserves_refl|done]. }
  intros _ z i w1 Hz%elem_of_zrange [Hc1 Hi]. pose proof (next_incoming_range n i ltac:(lia) ltac:(lia)) as Hni.
  pose proof Hc1 as (Hok1 & Hs1 & _). pose proof Hs1 as Hs1'. injection Hs1' as _ _ _ Es _.
  destruct (vget_same_image switch_static _ _ _ _ (eq_sym Es) Hx) as (x1 & Hx1 & Ex). injection Ex as Ein _ _ _ _ _ _.
  apply wp_bind, (wp_get_pswitch _ _ x1); [done|].
  destruct (vget_lookup (ps_m_in (sw_m_perfect_switch x1)) (next_incoming n i)) as [row Hrow].
  { rewrite <- Ein. done. }
  apply wp_bind, (wp_vgetG _ _ _ row); [done|]. apply wp_bind. destruct (Z.leb_spec (vsize row) vnet).
  { apply wp_ret, wp_ret. split; [done|lia]. }
  destruct (vget_lookup row vnet) as [o Ho]; [lia|]. apply wp_bind, (wp_vgetG _ _ _ o); [done|].
  destruct o as [b|].
  - eapply wp_mono; [apply wp_operateMessageBuffer; [done|by exists x1, (next_incoming n i), row]|].
    intros [] w2 Hc2. apply wp_ret. split; [by eapply conserves_trans|lia].
  - apply wp_ret, wp_ret. split; [done|lia].
Qed.

Lemma wp_operateVnet s x vnet w :
  simple_ok P w → vget (net_m_switches w) s = Some x →
  0 ≤ vnet < ps_m_virtual_networks (sw_m_perfect_switch x) →
  wp (PerfectSwitch_operateVnet s vnet) (λ _ w', conserves w w') w.
Proof.
  intros Hok Hx Hv. pose proof Hok as (_ & Hw & Hc). destruct (Hc s x Hx) as [_ Hr Hp _].
  unfold PerfectSwitch_operateVnet. apply wp_bind, (wp_get_pswitch _ _ x); [done|].
  apply wp_bind, (wp_upd_switch _ _ _ x); [done|].
  set (f := λ y : PerfectSwitch, y <| ps_m_round_robin_start := _ |>).
  pose proof (conserves_upd_pswitch s x f w Hok Hx) as Hc1.
  specialize (Hc1 ltac:(by intros y)). set (w1 := w <| net_m_switches ::= _ |>) in *.
  assert (Hc1' : conserves w w1).
  { apply Hc1. simpl. unfold next_incoming. destruct (Z.leb_spec (vsize (ps_m_in (sw_m_perfect_switch x)))
      (ps_m_round_robin_start (sw_m_perfect_switch x) + 1)); lia. }
  apply wp_bind. eapply wp_vgetG; [by apply Hp|]. destruct (_ <? _); [|by apply wp_ret].
  assert (Hx1 : vget (net_m_switches w1) s = Some (x <| sw_m_perfect_switch ::= f |>)).
  { simpl. apply vget_vset_eq. by eapply vget_Some_lt. }
  pose proof (wp_scan s _ vnet (ps_m_round_robin_start (sw_m_perfect_switch x)) w1 (proj1 Hc1') Hx1
    (proj1 Hv) Hr) as Hscan.
  eapply wp_mono; [exact Hscan|]. intros [] w2 Hc2. by eapply conserves_trans.
Qed.
End Send.

Lemma wp_PerfectSwitch_wakeup `{MTS : MachineTypesSpec} `{LSS : LinkSortSpec} P s x w :
  simple_ok P w → vget (net_m_switches w) s = Some x →
  wp (PerfectSwitch_wakeup s) (λ _ w', conserves P w w') w.
Proof.
  intros Hok Hx. unfold PerfectSwitch_wakeup. apply wp_bind, (wp_get_pswitch _ _ x); [done|].
  apply wp_bind, (wp_upd_switch _ _ _ x); [done|].
  set (f := λ y : PerfectSwitch, y <| ps_m_wakeups_wo_switch := _ |>).
  set (w1 := w <| net_m_switches ::= _ |>).
  assert (Hc1 : conserves P w w1).
  { apply (conserves_upd_pswitch P s x f w Hok Hx); [done|]. apply (sc_round _ _ _ (proj2 (proj2 Hok) s x Hx)). }
  set (vnets := if _ <? _ then _ else _).
  assert (Hvn : ∀ v, v ∈ vnets → 0 ≤ v < ps_m_virtual_networks (sw_m_perfect_switch x)).
  { intros v. unfold vnets. destruct (_ <? _); [|rewrite list_elem_of_In, <- in_rev, <- list_elem_of_In]; apply elem_of_zrange. }
  eapply wp_mono; [apply (wp_for_each _ _ (λ _ w', conserves P w w'))|by intros [] w'].
  - done.
  - intros pre v post w2 Hpre Hc2. assert (Hv : v ∈ vnets) by (rewrite Hpre; set_solver).
    pose proof Hc2 as (Hok2 & Hs2 & _). injection Hs2 as _ _ _ Es _.
    destruct (vget_same_image switch_static _ _ _ _ (eq_sym Es) Hx) as (x2 & Hx2 & Ex).
    injection Ex as _ _ _ Evn _ _ _. eapply wp_mono; [apply (wp_operateVnet P s x2); [done|done|]|].
    + rewrite <- Evn. by apply Hvn.
    + intros [] w3 Hc3. by eapply conserves_trans.
Qed.

(** ** The shortcut on the count of pending messages *)
Lemma sumZ_0 l : Forall (Z.le 0) l → sumZ l ≤ 0 → Forall (λ n, n = 0) l.
Proof.
  induction 1 as [|n l Hn Hl IH]; intros Hs; constructor; simpl in Hs.
  - assert (0 ≤ sumZ l) by (clear -Hl; induction Hl; simpl; lia). lia.
  - apply IH. lia.
Qed.

Lemma pend_0_empty w s v b q :
  pend w s v ≤ 0 → vget (cores w) b = Some q → qc_consumer q = Some (CPerfectSwitch s) → qc_vnet q = v →
  qc_heap q = [].
Proof.
  intros Hp Hq Hc Hv. unfold pend in Hp. apply sumZ_0 in Hp.
  2: { apply Forall_fmap, Forall_true. intros q'. simpl. unfold waiting, vsize. case_decide; lia. }
  apply vget_Some in Hq as [_ Hq]. rewrite Forall_fmap, Forall_lookup in Hp. specialize (Hp _ _ Hq).
  simpl in Hp. unfold waiting, vsize in Hp. rewrite decide_True in Hp by done. by destruct (qc_heap q).
Qed.

Lemma foldM_idle {A V} (xs : list A) (v : V) (body : A → V → G V) (I : V → Prop) w :
  I v → (∀ x v, x ∈ xs → I v → ∃ v', body x v w = Ok (v', w) ∧ I v') →
  ∃ v', foldM xs v body w = Ok (v', w).
Proof.
  revert v. induction xs as [|x xs IH]; intros v Hv Hb; simpl; [by eexists|].
  destruct (Hb x v) as (v' & Hrun & Hv'); [set_solver|done|]. rewrite (bind_run _ _ _ _ _ Hrun).
  apply IH; [done|]. intros y u Hy. apply Hb. set_solver.
Qed.

Section Idle.
Context `{MTS : MachineTypesSpec} `{LSS : LinkSortSpec} (P : Plan).

Lemma operateMessageBuffer_idle s vnet b w q :
  vget (cores w) b = Some q → qc_heap q = [] →
  PerfectSwitch_operateMessageBuffer s b vnet w = Ok (tt, w).
Proof.
  intros (x & Hx & <-)%vget_cores_inv Hl. simpl in Hl.
  assert (Hget : get_mbuf b w = Ok (x, w)).
  { unfold get_mbuf, mbind, M_bind, gets. by rewrite Hx. }
  unfold PerfectSwitch_operateMessageBuffer. erewrite bind_run; [|done]. rewrite (bind_run _ _ _ _ _ Hget).
  assert (Hready : ∀ t, MessageBuffer_isReady b t w = Ok (false, w)).
  { intros t. unfold MessageBuffer_isReady. by rewrite (bind_run _ _ _ _ _ Hget), Hl. }
  rewrite Hl. cbn [length while_loop]. unfold PerfectSwitch_route_message.
  erewrite bind_run; [|by rewrite (bind_run _ _ _ _ _ (Hready _))]. done.
Qed.

Lemma scan_idle s x vnet incoming w :
  wired P w → vget (net_m_switches w) s = Some x → 0 ≤ vnet → pend w s vnet ≤ 0 →
  0 ≤ incoming < Z.max 1 (vsize (ps_m_in (sw_m_perfect_switch x))) →
  PerfectSwitch_scan s vnet (vsize (ps_m_in (sw_m_perfect_switch x))) incoming w = Ok (tt, w).
Proof.
  intros Hw Hx Hv Hp Hi. set (n := vsize _) in *. unfold PerfectSwitch_scan.
  match goal with |- (foldM _ _ ?b ≫= _) _ = _ => set (body := b) end.
  destruct (foldM_idle (zrange 0 n) incoming body (λ i, 0 ≤ i < Z.max 1 n) w Hi) as [i Hrun];
    [|by rewrite (bind_run _ _ _ _ _ Hrun)]. unfold body.
  intros z j Hz%elem_of_zrange Hj. pose proof (next_incoming_range n j ltac:(lia) ltac:(lia)) as Hni.
  exists (next_incoming n j). split; [|simpl; lia].
  assert (Hget : get_pswitch s w = Ok (sw_m_perfect_switch x, w)).
  { unfold get_pswitch, get_switch, mbind, M_bind, gets. by rewrite Hx. }
  cbv zeta. rewrite (bind_run _ _ _ _ _ Hget).
  destruct (vget_lookup (ps_m_in (sw_m_perfect_switch x)) (next_incoming n j)) as [row Hr]; [done|].
  erewrite bind_run; [|by unfold vgetG; rewrite Hr].
  destruct (Z.leb_spec (vsize row) vnet); [done|]. destruct (vget_lookup row vnet) as [o Ho]; [lia|].
  erewrite bind_run; [done|]. erewrite bind_run; [|by unfold vgetG; rewrite Ho]. destruct o as [b|]; [|done].
  destruct (input_queue_wired P w s vnet b Hw) as (x' & q & _ & Hq & Hc & Hn & _).
  { by exists x, (next_incoming n j), row. }
  eapply operateMessageBuffer_idle; [done|]. by eapply pend_0_empty.
Qed.
End Idle.

(** C12.  The shortcut of [PerfectSwitch::operateVnet]: in a network that
    satisfies the invariant, looking at the input ports only when the count of
    pending messages is positive has the same effect as always looking. *)
Theorem pending_guard_redundant `{MTS : MachineTypesSpec} `{LSS : LinkSortSpec} P s x vnet w :
  simple_ok P w → vget (net_m_switches w) s = Some x →
  0 ≤ vnet < ps_m_virtual_networks (sw_m_perfect_switch x) →
  PerfectSwitch_operateVnet s vnet w =
    (let incoming := ps_m_round_robin_start (sw_m_perfect_switch x) in
     let n := vsize (ps_m_in (sw_m_perfect_switch x)) in
     upd_pswitch s (λ y, y <| ps_m_round_robin_start := next_incoming n incoming |>) ;;
     PerfectSwitch_scan s vnet n incoming) w.
Proof.
  intros (Hqk & Hw & Hc) Hx Hv. destruct (Hc s x Hx) as [_ Hr Hp _]. specialize (Hp vnet Hv).
  assert (Hget : get_switch s w = Ok (x, w)).
  { unfold get_switch, mbind, M_bind, gets. by rewrite Hx. }
  unfold PerfectSwitch_operateVnet. erewrite bind_run; [|unfold get_pswitch; by rewrite (bind_run _ _ _ _ _ Hget)].
  cbv zeta. set (f := λ y : PerfectSwitch, y <| ps_m_round_robin_start := _ |>).
  set (w1 := w <| net_m_switches ::= λ l, vset l s (x <| sw_m_perfect_switch ::= f |>) |>).
  assert (Hupd : upd_pswitch s f w = Ok (tt, w1)).
  { unfold upd_pswitch, upd_switch. by rewrite (bind_run _ _ _ _ _ Hget). }
  rewrite !(bind_run _ _ _ _ _ Hupd). erewrite bind_run; [|unfold vgetG; by rewrite Hp].
  destruct (Z.ltb_spec 0 (pend w s vnet)) as [|Hle]; [done|].
  assert (Hx1 : vget (net_m_switches w1) s = Some (x <| sw_m_perfect_switch ::= f |>)).
  { simpl. apply vget_vset_eq. by eapply vget_Some_lt. }
  assert (Hs : simple_static w1 = simple_static w).
  { unfold simple_static. change (cores w1) with (cores w). simpl.
    rewrite vset_fmap, vset_same; [done|]. by rewrite vget_fmap, Hx. }
  symmetry. exact (scan_idle P s _ vnet _ w1 (wired_static P w w1 Hs Hw) Hx1 (proj1 Hv) Hle Hr).
Qed.

Lemma pending_guard_redundant_witness :
  ∃ x w', vget (net_m_switches star_scene) 0 = Some x ∧
    PerfectSwitch_operateVnet (MT := two_types) (LS := stable_sort) 0 0 star_scene = Ok (tt, w') ∧
    (let incoming := ps_m_round_robin_start (sw_m_perfect_switch x) in
     let n := vsize (ps_m_in (sw_m_perfect_switch x)) in
     upd_pswitch 0 (λ y, y <| ps_m_round_robin_start := next_incoming n incoming |>) ;;
     PerfectSwitch_scan (MT := two_types) (LS := stable_sort) 0 0 n incoming) star_scene = Ok (tt, w').
Proof.
  destruct (vget (net_m_switches star_scene) 0) as [x|] eqn:Hx; [|vm_compute in Hx; discriminate].
  assert (Hv : (λ x, ps_m_virtual_networks (sw_m_perfect_switch x)) <$> vget (net_m_switches star_scene) 0 = Some 1)
    by (vm_compute; reflexivity).
  rewrite Hx in Hv. injection Hv as Hv.
  assert (Hr : 0 ≤ 0 < ps_m_virtual_networks (sw_m_perfect_switch x)) by (rewrite Hv; lia).
  pose proof (pending_guard_redundant (MT := two_types) (LS := stable_sort) star_plan 0 x 0 star_scene
    star_scene_ok Hx Hr) as H.
  assert (Hret : returns (PerfectSwitch_operateVnet (MT := two_types) (LS := stable_sort) 0 0 star_scene) = true)
    by (vm_compute; reflexivity).
  destruct (PerfectSwitch_operateVnet 0 0 star_scene) as [[[] w']|]; [|discriminate Hret].
  exists x, w'. split; [reflexivity|]. split; [reflexivity|]. symmetry. exact H.
Defined.
