(* ===== verification/SimpleThrottleTheory.v ===== *)
(** * The throttles of the simple network

    Theory of [Throttle] (network/simple/Throttle.cc): a wake-up returns, keeps
    the invariant of SimpleInvariant.v and the messages on their way to every
    machine, spends exactly the bandwidth that the work it does needs, and leaves
    work behind only when it is going to be woken in the next cycle. *)

From Stdlib Require Import Floats.SpecFloat.
From stdpp Require Import sorting.
From S2P Require Import Prelude BinaryHeap NetDestModel AddrRangeModel NetworkModel CommonTypes GarnetState FlitBuffer Channels RoutingUnitModel SwapModel UnitsModel SwitchAllocatorModel MessageBufferModel NetworkInterfaceModel BuildModel TopologyModel SimpleNetworkModel Scenarios SystemModel StateLemmas QueueLemmas Wiring NetDestTheory SimpleSplit SimpleInvariant SimpleScene SimpleSwitchTheory.

(** ** The size of a message in units of bandwidth *)
Definition is_data (t : MessageSizeType) : bool :=
  match t with
  | MessageSizeType_Data | MessageSizeType_Response_Data | MessageSizeType_ResponseLocal_Data
  | MessageSizeType_ResponseL2hit_Data | MessageSizeType_Writeback_Data => true
  | _ => false
  end.
Definition message_units (c : NetConfig) (m : Message) : Z :=
  1000 * (if is_data (msg_MessageSize m) then cf_m_data_msg_size c else cf_m_control_msg_size c).

Lemma wp_network_message_to_size m w (Q : Z → GNet → Prop) :
  msg_MessageSize m ≠ MessageSizeType_NUM → Q (message_units (net_cfg w) m) w →
  wp (network_message_to_size m) Q w.
Proof.
  intros Hm HQ. unfold network_message_to_size. apply wp_bind.
  assert (Hrun : MessageSizeType_to_int (msg_MessageSize m) w =
    Ok (if is_data (msg_MessageSize m) then cf_m_data_msg_size (net_cfg w)
        else cf_m_control_msg_size (net_cfg w), w)) by (by destruct (msg_MessageSize m)).
  apply (wp_run _ _ _ _ _ Hrun), wp_ret. simpl. unfold message_units, MESSAGE_SIZE_MULTIPLIER in *.
  by rewrite Z.mul_comm.
Qed.

(** ** The work of a throttle: units under way and the messages that wait *)
Definition units_of (w : GNet) (p : ptr) : Z := message_units (net_cfg w) (msg_at (net_msgs w) p).
Definition backlog (w : GNet) (b : Z) : Z := sumZ (units_of w <$> queue w b).
Definition throttle_at (w : GNet) (s t : Z) (y : Throttle) : Prop :=
  ∃ x, vget (net_m_switches w) s = Some x ∧ vget (sw_m_throttles x) t = Some y.
Definition work (w : GNet) (y : Throttle) : Z :=
  sumZ (th_m_units_remaining y) + sumZ (backlog w <$> th_m_in y).

Definition ready (w : GNet) (b : Z) : bool :=
  match queue w b with
  | [] => false
  | p :: _ => msg_m_LastEnqueueTime (msg_at (net_msgs w) p) <=? now w
  end.

(** Nothing is under way on virtual network [v], and nothing is ready to start. *)
Definition vnet_idle (w : GNet) (y : Throttle) (v b : Z) : Prop :=
  vget (th_m_units_remaining y) v = Some 0 ∧ ready w b = false.

#[export] Instance sumZ_Permutation : Proper ((≡ₚ) ==> eq) sumZ.
Proof. induction 1; simpl; lia. Qed.
Lemma sumZ_nonneg l : Forall (Z.le 0) l → 0 ≤ sumZ l.
Proof. induction 1; simpl; lia. Qed.

Lemma wp_get_throttle s t w y (Q : Throttle → GNet → Prop) :
  throttle_at w s t y → Q y w → wp (get_throttle s t) Q w.
Proof. intros Hy. apply wp_run, get_throttle_Ok. split; [done|exact Hy]. Qed.

Definition set_throttle (s t : Z) (x : Switch) (y : Throttle) (w : GNet) : GNet :=
  w <| net_m_switches ::= λ l, vset l s (x <| sw_m_throttles ::= λ k, vset k t y |>) |>.

Lemma wp_upd_throttle s t f w x y (Q : () → GNet → Prop) :
  vget (net_m_switches w) s = Some x → vget (sw_m_throttles x) t = Some y →
  Q tt (set_throttle s t x (f y) w) → wp (upd_throttle s t f) Q w.
Proof.
  intros Hx Hy HQ. apply wp_bind, (wp_get_throttle _ _ _ y); [by exists x|]. by apply (wp_upd_switch _ _ _ x).
Qed.

(** Whether a queue has room for [n] more messages. *)
Definition has_slot (w : GNet) (b n t : Z) : bool :=
  match vget (net_mbufs w) b with
  | Some x => (mb_m_max_size x =? 0) ||
      (MessageBuffer_visible_size t x + mb_m_stall_map_size x + n <=? mb_m_max_size x)
  | None => true
  end.

Lemma wp_slots b n t w q (Q : bool → GNet → Prop) :
  vget (cores w) b = Some q →
  (∀ w', net_core w' = net_core w → has_slot w' b n t = has_slot w b n t → Q (has_slot w b n t) w') →
  wp (MessageBuffer_areNSlotsAvailable b n t) Q w.
Proof.
  intros (x & Hx & _)%vget_cores_inv HQ. unfold MessageBuffer_areNSlotsAvailable.
  apply wp_bind, (wp_get_mbuf _ _ x); [done|]. pose proof (HQ w eq_refl eq_refl) as H0.
  unfold has_slot in *. rewrite Hx in HQ, H0. destruct (_ =? 0) eqn:E0; [done|]. destruct (_ <=? _) eqn:E; [done|].
  apply wp_bind, (wp_upd_mbuf _ _ _ x); [done|]. intros w' [-> Hx']. apply wp_ret, HQ.
  - unfold net_core, cores. simpl. rewrite vset_fmap, vset_same; [done|]. by apply (vget_cores w b x).
  - rewrite Hx'. simpl. by rewrite E0; exact E.
Qed.

(** The units under way, as a function of the state. *)
Definition units_at (w : GNet) (s t v : Z) : Z :=
  default 0 (x ← vget (net_m_switches w) s; y ← vget (sw_m_throttles x) t; vget (th_m_units_remaining y) v).
Lemma units_at_eq w s t v y u :
  throttle_at w s t y → vget (th_m_units_remaining y) v = Some u → units_at w s t v = u.
Proof. intros (x & Hx & Hy) Hu. unfold units_at. rewrite Hx. simpl. rewrite Hy. simpl. by rewrite Hu. Qed.

(** How many rounds are left. *)
Definition rounds (s t v b bw : Z) (w : GNet) : nat :=
  length (queue w b) + (if (0 <? bw) && (0 <? units_at w s t v) then 1 else 0).

Section Throttle.
Context `{MTS : MachineTypesSpec} (P : Plan).

Lemma set_throttle_at s t x y w :
  vget (net_m_switches w) s = Some x → is_Some (vget (sw_m_throttles x) t) →
  throttle_at (set_throttle s t x y w) s t y.
Proof.
  intros Hx [y0 Hy]. eexists. split; [simpl; apply vget_vset_eq; by eapply vget_Some_lt|].
  simpl. apply vget_vset_eq. by eapply vget_Some_lt.
Qed.

Lemma conserves_set_throttle s t x y y' w :
  simple_ok P w → vget (net_m_switches w) s = Some x → vget (sw_m_throttles x) t = Some y →
  throttle_static y' = throttle_static y → Forall (Z.le 0) (th_m_units_remaining y') →
  conserves P w (set_throttle s t x y' w).
Proof.
  intros (Hqk & Hw & Hc) Hx Hy Es Hu. set (w' := set_throttle _ _ _ _ _).
  assert (Hs : keeps_wiring w w').
  { unfold keeps_wiring, keeps, simple_static. change (cores w') with (cores w). simpl.
    rewrite vset_fmap, vset_same; [done|]. rewrite vget_fmap, Hx. simpl. unfold switch_static. simpl.
    by rewrite (vset_map_same _ _ _ y). }
  split_and!; [split_and!| |done].
  - by apply (queues_ok_core P w).
  - by eapply wired_static.
  - intros s' x'. simpl. rewrite vget_vset. case_decide as Hd.
    + destruct Hd as [<- _]. intros [= <-]. destruct (Hc s x Hx) as [H1 H2 H3 H4]. split; simpl; try done.
      intros t' z. rewrite vget_vset. case_decide as Hd'; [by intros [= <-]|by apply H4].
    + intros Hx'. by destruct (Hc s' x' Hx') as [H1 H2 H3 H4].
  - done.
Qed.

Lemma queue_cores w b q : vget (cores w) b = Some q → queue w b = qc_heap q.
Proof. unfold queue. by intros ->. Qed.

(** A queue and the messages in it stay as they are. *)
Definition same_queue (w w' : GNet) (b : Z) : Prop :=
  queue w' b = queue w b ∧ ∀ r, r ∈ queue w b → net_msgs w' !! r = net_msgs w !! r.

Lemma same_queue_refl w w' b :
  cores w' = cores w → net_msgs w' = net_msgs w → same_queue w w' b.
Proof. intros Ec Em. unfold same_queue, queue. by rewrite Ec, Em. Qed.

Lemma same_queue_trans w1 w2 w3 b : same_queue w1 w2 b → same_queue w2 w3 b → same_queue w1 w3 b.
Proof.
  intros [E1 M1] [E2 M2]. split; [congruence|]. intros r Hr. rewrite M2 by (by rewrite E1). by apply M1.
Qed.

Lemma same_queue_backlog w w' b : net_cfg w' = net_cfg w → same_queue w w' b → backlog w' b = backlog w b.
Proof.
  intros Ecf [E M]. unfold backlog. rewrite E. f_equal. apply list_fmap_ext.
  intros i r Hr%list_elem_of_lookup_2. unfold units_of, msg_at. by rewrite Ecf, M.
Qed.

Lemma same_queue_ready w w' b : now w' = now w → same_queue w w' b → ready w' b = ready w b.
Proof.
  intros En [E M]. unfold ready. rewrite E. destruct (queue w b) as [|r l]; [done|].
  unfold msg_at. rewrite M by set_solver. by rewrite En.
Qed.

(** ** A message goes from one queue to the next *)
Lemma wp_dequeue_ok b q p tl m w s' t' :
  simple_ok P w → vget (cores w) b = Some q → qc_consumer q = Some (CThrottle s' t') →
  qc_heap q = p :: tl → net_msgs w !! p = Some m → msg_m_LastEnqueueTime m ≤ now w →
  wp (MessageBuffer_dequeue b (now w) true)
    (λ _ w', (simple_ok P w' ∧ net_m_switches w' = net_m_switches w ∧ queued w ≡ₚ p :: queued w' ∧
       net_msgs w' = <[p := dequeued_msg (now w) m]> (net_msgs w) ∧
       deliveries w ≡ₚ (msg_payload m, msg_Destination m) :: deliveries w' ∧ queue w' b ≡ₚ tl ∧
       ∀ b', b' ≠ b → vget (cores w') b' = vget (cores w) b') ∧ keeps_wiring w w') w.
Proof.
  intros (Hqk & Hw & Hc) Hq Hcons Hl Hm Ht. apply wp_and_preserves; [|pres_wiring].
  destruct (vget_cores_inv w b q Hq) as (xb & Hxb & <-). simpl in Hcons, Hl.
  apply (wp_dequeue _ xb _ p tl m); [done..|]. intros w1 Hd.
  destruct (queues_dequeue P w b xb p tl m (now w) w1) as (Hok1 & Hperm & Hdel & q1 & Hq1 & Hh1); try done.
  destruct Hd as [Emsg Ecore Erest]. injection Erest as En Ecy Ecf Esw Esi.
  assert (Hs : simple_static w1 = simple_static w).
  { unfold simple_static. rewrite Ecore, Ecy, Ecf, Esi, Esw, vset_fmap, vset_same; [done|].
    by rewrite vget_fmap, Hq. }
  split_and!; [split_and!; [done|by eapply wired_static|]|done|done|done|done| |].
  - eapply (counted_bump P w w1 b _ _ (-1)); [done|done|exact Hq|exact Ecore|done|done| | |].
    + unfold vsize. rewrite Ecore, vget_vset_eq in Hq1 by (by eapply vget_Some_lt). simplify_eq.
      rewrite (Permutation_length Hh1). simpl. rewrite Hl. simpl. lia.
    + simpl. by rewrite Hcons.
    + simpl. by rewrite Hcons.
  - by rewrite (queue_cores w1 b q1).
  - intros b' Hb'. by rewrite Ecore, vget_vset_ne.
Qed.

Lemma bump_throttle_at w w' c v k s t y :
  net_m_switches w' = bump_pending c v k (net_m_switches w) → throttle_at w s t y → throttle_at w' s t y.
Proof.
  intros E (x & Hx & Hy). unfold bump_pending in E.
  destruct c as [[| | | |s'|]|]; try (exists x; by rewrite E).
  destruct (vget (net_m_switches w) s') as [x'|] eqn:Hx'; [|exists x; by rewrite E].
  unfold throttle_at. rewrite E. setoid_rewrite vget_vset. case_decide as Hd; [|by exists x].
  destruct Hd as [-> _]. exists (add_pending v k x'). split; [done|]. by simplify_eq.
Qed.

Lemma wp_enqueue_ok c q p m w :
  simple_ok P w → vget (cores w) c = Some q → event_ok (net_m_switches w) (qc_consumer q) (qc_vnet q) →
  0 < pl_delay P c → p ∉ queued w → net_msgs w !! p = Some m → msg_ok m → msg_m_LastEnqueueTime m ≤ now w →
  (∀ mm, mem mm (msg_Destination m) = true → pl_cover P c mm) →
  wp (MessageBuffer_enqueue c p (now w) (pl_delay P c))
    (λ _ w', (simple_ok P w' ∧ (∀ s t y, throttle_at w s t y → throttle_at w' s t y) ∧
       deliveries w' ≡ₚ (msg_payload m, msg_Destination m) :: deliveries w ∧
       (∀ r, r ≠ p → net_msgs w' !! r = net_msgs w !! r) ∧
       ∀ b', b' ≠ c → vget (cores w') b' = vget (cores w) b') ∧ keeps_wiring w w') w.
Proof.
  intros (Hqk & Hw & Hc) Hq Hev Hd Hp Hm Hmo Ht Hcov.
  destruct (vget_cores_inv w c q Hq) as (xc & Hxc & <-).
  assert (Hpres : preserves keeps_wiring (MessageBuffer_enqueue c p (now w) (pl_delay P c))) by pres_wiring.
  eapply wp_mono; [apply (wp_and_preserves keeps_wiring); [|exact Hpres]|].
  { apply (wp_enqueue _ xc _ _ m _ _ (λ _ w', enqueued c xc p m (now w) (pl_delay P c) w w')); try done.
    by apply (qk_fifo _ _ Hqk c (mb_core xc)). }
  intros [] w1 [Hen Hs].
  destruct (queues_enqueue P w c xc p m w1) as (Hok1 & Hperm & Hdel & Hoth & q1 & Hq1 & Hh1); try done.
  destruct Hen as [(a & last & _ & _ & _ & _ & Ecore & _) Esw _].
  split; [|done]. split_and!; [split_and!; [done|by eapply wired_static|]| |done|done|].
  - eapply (counted_bump P w w1 c _ _ 1); [done|done|exact Hq|exact Ecore|done|done| |done|done].
    unfold vsize. simpl. rewrite (Permutation_length (push_heap_perm _ _)), length_app. simpl. lia.
  - intros s t y. by eapply bump_throttle_at.
  - intros b' Hb'. by rewrite Ecore, vget_vset_ne.
Qed.

Lemma throttle_at_static w w' s t y y' :
  keeps_wiring w w' → throttle_at w s t y → throttle_at w' s t y' → throttle_static y' = throttle_static y.
Proof.
  intros E (x & Hx & Hy) (x' & Hx' & Hy'). injection E as _ _ _ Es _.
  destruct (vget_same_image switch_static _ _ _ _ Es Hx') as (x0 & Hx0 & Ex).
  rewrite Hx in Hx0. injection Hx0 as <-. apply (f_equal snd) in Ex. destruct (vget_same_image throttle_static _ _ _ _ Ex Hy') as (y0 & Hy0 & Ey).
  rewrite Hy in Hy0. by injection Hy0 as <-.
Qed.

(** An assignment to a throttle that respects the invariant. *)
Lemma wp_set_throttle s t f y w (Q : () → GNet → Prop) :
  simple_ok P w → throttle_at w s t y → throttle_static (f y) = throttle_static y →
  Forall (Z.le 0) (th_m_units_remaining (f y)) →
  (∀ w', conserves P w w' → throttle_at w' s t (f y) → cores w' = cores w → net_msgs w' = net_msgs w → Q tt w') →
  wp (upd_throttle s t f) Q w.
Proof.
  intros Hok (x & Hx & Hy) Es Hu HQ. apply (wp_upd_throttle _ _ _ _ x y); [done..|].
  apply HQ; [by apply (conserves_set_throttle _ _ _ y)|by apply set_throttle_at|done|done].
Qed.

Lemma throttle_units w s t y :
  simple_ok P w → throttle_at w s t y → throttle_wired P w y ∧ Forall (Z.le 0) (th_m_units_remaining y).
Proof.
  intros (_ & Hw & Hc) (x & Hx & Hy). split; [by apply (proj2 (proj2 Hw s x Hx) t)|by apply (sc_units _ _ _ (Hc s x Hx) t)].
Qed.

Lemma message_units_nonneg w m : wired P w → 0 ≤ message_units (net_cfg w) m.
Proof. intros [(_ & ? & ?) _]. unfold message_units. destruct (is_data _); lia. Qed.

Lemma units_vset_nonneg l v n : Forall (Z.le 0) l → 0 ≤ n → Forall (Z.le 0) (vset l v n).
Proof.
  intros Hl Hn. unfold vset. destruct (0 <=? v); [|done]. by apply Forall_insert.
Qed.

(** The message [p] has gone from queue [b] to queue [c]. *)
Record moved (b c : Z) (p : ptr) (tl : list ptr) (w w' : GNet) : Prop := {
  mv_conserves : conserves P w w';
  mv_from : queue w' b ≡ₚ tl;
  mv_msgs r : r ≠ p → net_msgs w' !! r = net_msgs w !! r;
  mv_others b' : b' ≠ b → b' ≠ c → vget (cores w') b' = vget (cores w) b';
}.

Lemma wp_transfer s t y v b c q p tl m w (k : G ()) (Q : () → GNet → Prop) :
  simple_ok P w → throttle_at w s t y → vget (th_m_in y) v = Some b → vget (th_m_out y) v = Some (Some c) →
  vget (cores w) b = Some q → qc_heap q = p :: tl → net_msgs w !! p = Some m → msg_m_LastEnqueueTime m ≤ now w →
  (∀ w', moved b c p tl w w' → throttle_at w' s t y → wp k Q w') →
  wp (_ ← MessageBuffer_dequeue b (now w) true; x ← get_throttle s t;
      delta ← cyclesToTicks (th_m_link_latency x); MessageBuffer_enqueue c p (now w) delta ;; k) Q w.
Proof.
  intros Hok Hy Hb Hc Hq Hl Hm Ht HQ. destruct (throttle_units _ _ _ _ Hok Hy) as [Htw _].
  assert (Hpq : p ∈ queued w) by (apply elem_of_queued; exists b, q; rewrite Hl; split; [done|set_solver]).
  assert (Hmo : msg_ok m) by (destruct (qk_live _ _ (proj1 Hok) p Hpq) as (m' & ? & ?); by simplify_eq).
  destruct (tw_in _ _ _ Htw v b Hb) as (q' & s' & t' & Hq' & Hcq). simplify_eq.
  apply wp_bind. eapply wp_mono; [by apply (wp_dequeue_ok b q p tl m w s' t')|].
  intros _ w2 [(Hok2 & Esw2 & Hperm2 & Em2 & Hdel2 & Hq2 & Hoth2) Hs2]. rewrite <- (keeps_wiring_now _ _ Hs2) in *.
  assert (Hy2 : throttle_at w2 s t y) by (unfold throttle_at; by rewrite Esw2).
  apply wp_bind, (wp_get_throttle _ _ _ y); [done|]. unfold cyclesToTicks. apply wp_bind, wp_bind, wp_gets, wp_ret.
  destruct (throttle_units _ _ _ _ Hok2 Hy2) as [Htw2 _].
  destruct (tw_out _ _ _ Htw2 v b c Hb Hc) as (Hnin & (qc & Hqc & Hev) & Hdelay & Hcov). rewrite <- Hdelay.
  assert (Hpos : 0 < pl_delay P c) by (rewrite Hdelay; apply Z.mul_pos_pos; [apply Htw2|apply Hok2]).
  assert (Hp2 : p ∉ queued w2).
  { pose proof (qk_nodup _ _ (proj1 Hok)) as Hnd. rewrite Hperm2 in Hnd. by apply NoDup_cons in Hnd as [? _]. }
  assert (Hbc : b ≠ c) by (intros ->; apply Hnin; apply vget_Some in Hb as [_ Hb]; by eapply list_elem_of_lookup_2).
  apply wp_bind. eapply wp_mono; [apply (wp_enqueue_ok c qc p (dequeued_msg (now w2) m) w2); try done|].
  - rewrite Em2. apply lookup_insert_eq.
  - intros mm Hmm. apply Hcov. eapply (qk_cover _ _ (proj1 Hok) b q p); [done|rewrite Hl; set_solver|].
    unfold msg_at. by rewrite Hm.
  - intros [] w3 [(Hok3 & Hth & Hdel3 & Em3 & Hoth3) Hs3]. apply HQ; [|by apply Hth]. split.
    + split_and!; [done|by transitivity w2|]. intros mm. unfold copies. by rewrite Hdel3, Hdel2.
    + unfold queue. by rewrite Hoth3.
    + intros r Hr. rewrite Em3, Em2 by done. by rewrite lookup_insert_ne.
    + intros b' H1 H2. by rewrite Hoth3, Hoth2.
Qed.

(** The front message of queue [b] starts: its units are on virtual network [v]. *)
Lemma wp_move s t y v b c u q p tl m w :
  simple_ok P w → throttle_at w s t y → vget (th_m_in y) v = Some b → vget (th_m_out y) v = Some (Some c) →
  vget (th_m_units_remaining y) v = Some u → vget (cores w) b = Some q → qc_heap q = p :: tl →
  net_msgs w !! p = Some m → msg_m_LastEnqueueTime m ≤ now w →
  wp (Throttle_move s t v (now w) b c)
    (λ _ w', moved b c p tl w w' ∧ ∃ y', throttle_at w' s t y' ∧
       th_m_units_remaining y' = vset (th_m_units_remaining y) v (u + message_units (net_cfg w) m)) w.
Proof.
  intros Hok Hy Hb Hc Hu Hq Hl Hm Ht. destruct (throttle_units _ _ _ _ Hok Hy) as [Htw Hn].
  assert (Hpq : p ∈ queued w) by (apply elem_of_queued; exists b, q; rewrite Hl; split; [done|set_solver]).
  assert (Hmo : msg_ok m) by (destruct (qk_live _ _ (proj1 Hok) p Hpq) as (m' & ? & ?); by simplify_eq).
  unfold Throttle_move. apply wp_bind, (wp_peekMsgPtr _ _ q p tl); [done..|].
  apply wp_bind, (wp_get_msg _ _ m); [done|]. apply wp_bind, wp_network_message_to_size; [apply Hmo|].
  pose proof (message_units_nonneg w m (proj1 (proj2 Hok))) as Hmu. set (k := message_units _ _) in *.
  assert (Hu0 : 0 ≤ u) by (apply vget_Some in Hu as [_ Hu]; by eapply Forall_lookup in Hn).
  set (f := λ x : Throttle, x <| th_m_units_remaining ::= λ l, vset l v (default 0 (vget l v) + k) |>).
  assert (Hf : th_m_units_remaining (f y) = vset (th_m_units_remaining y) v (u + k)) by (simpl; by rewrite Hu).
  assert (Hf0 : Forall (Z.le 0) (th_m_units_remaining (f y))) by (rewrite Hf; apply units_vset_nonneg; [done|lia]).
  apply wp_bind, (wp_set_throttle _ _ f y); [done|done| |done|].
  { unfold throttle_static. simpl. by rewrite length_vset. }
  intros w1 Hc1 Hy1 Ec1 Em1. pose proof Hc1 as (Hok1 & Hs1 & _). rewrite <- (keeps_wiring_now _ _ Hs1) in *.
  apply (wp_transfer s t (f y) v b c q p tl m w1); [done|done|done|done|by rewrite Ec1|done|by rewrite Em1|done|].
  intros w2 [Hc2 Hq2 Em2 Hoth2] Hy2. apply (wp_set_throttle _ _ _ (f y)); [apply Hc2|done|done|done|].
  intros w3 Hc3 Hy3 Ec3 Em3. split; [split|].
  - eapply conserves_trans; [done|]. by eapply conserves_trans.
  - unfold queue. by rewrite Ec3.
  - intros r Hr. by rewrite Em3, Em2, Em1.
  - intros b' H1 H2. by rewrite Ec3, Hoth2, Ec1.
  - eexists. split; [exact Hy3|]. exact Hf.
Qed.

(** ** Work is done one virtual network at a time *)
Lemma fmap_vset_ext (f g : Z → Z) l v b :
  NoDup l → vget l v = Some b → (∀ b', b' ∈ l → b' ≠ b → g b' = f b') → g <$> l = vset (f <$> l) v (g b).
Proof.
  intros Hnd [Hv Hb]%vget_Some Hg. unfold vset. destruct (Z.leb_spec 0 v); [|lia]. apply list_eq. intros i.
  rewrite list_lookup_fmap. destruct (decide (i = Z.to_nat v)) as [->|Hi].
  - rewrite Hb, list_lookup_insert_eq; [done|]. rewrite length_fmap. by eapply lookup_lt_Some.
  - rewrite list_lookup_insert_ne, list_lookup_fmap by done. destruct (l !! i) as [b'|] eqn:Hb'; [|done].
    simpl. rewrite Hg; [done|by eapply list_elem_of_lookup_2|]. intros ->. apply Hi. by eapply NoDup_lookup.
Qed.

Lemma work_step w y w' y' v b u u' :
  th_m_in y' = th_m_in y → NoDup (th_m_in y) → vget (th_m_in y) v = Some b →
  vget (th_m_units_remaining y) v = Some u → th_m_units_remaining y' = vset (th_m_units_remaining y) v u' →
  (∀ b', b' ∈ th_m_in y → b' ≠ b → backlog w' b' = backlog w b') →
  work w' y' - work w y = u' - u + (backlog w' b - backlog w b).
Proof.
  intros Ein Hnd Hb Hu Eu Hbl. unfold work. rewrite Ein, Eu, (sumZ_vset _ _ u) by done.
  rewrite (fmap_vset_ext (backlog w) (backlog w') _ v b) by done.
  rewrite (sumZ_vset _ _ (backlog w b)); [lia|]. by rewrite vget_fmap, Hb.
Qed.

(** Between two states, [bw - bw'] units of work of virtual network [v] are done. *)
Record spent (s t v b : Z) (y : Throttle) (w : GNet) (bw : Z) (y' : Throttle) (w' : GNet) (bw' : Z) : Prop := {
  sp_conserves : conserves P w w';
  sp_at : throttle_at w' s t y';
  sp_units : ∃ u', th_m_units_remaining y' = vset (th_m_units_remaining y) v u';
  sp_bw : 0 ≤ bw' ≤ bw;
  sp_work : bw - bw' = work w y - work w' y';
  sp_others b' : b' ∈ th_m_in y → b' ≠ b → same_queue w w' b';
}.

Lemma spent_static s t v b y w bw y' w' bw' :
  throttle_at w s t y → spent s t v b y w bw y' w' bw' → throttle_static y' = throttle_static y.
Proof. intros Hy Hsp. eapply throttle_at_static; [apply (sp_conserves _ _ _ _ _ _ _ _ _ _ Hsp)|done|apply Hsp]. Qed.

Lemma spent_trans s t v b y1 w1 bw1 y2 w2 bw2 y3 w3 bw3 :
  throttle_at w1 s t y1 → spent s t v b y1 w1 bw1 y2 w2 bw2 → spent s t v b y2 w2 bw2 y3 w3 bw3 →
  spent s t v b y1 w1 bw1 y3 w3 bw3.
Proof.
  intros Hy H12. pose proof (spent_static _ _ _ _ _ _ _ _ _ _ Hy H12) as Es. injection Es as Ein _ _ _ _ _ _.
  destruct H12 as [C1 A1 [u1 U1] B1 W1 O1]. intros [C2 A2 [u2 U2] B2 W2 O2]. split.
  - by eapply conserves_trans.
  - done.
  - exists u2. by rewrite U2, U1, vset_vset.
  - lia.
  - lia.
  - intros b' Hb' Hne. eapply same_queue_trans; [by apply O1|]. apply O2; [by rewrite Ein|done].
Qed.

(** Only statistics have changed. *)
Lemma work_core w w' y : net_core w' = net_core w → work w' y = work w y.
Proof.
  intros E. injection E as Ec Em _ _ Ecf _ _. unfold work. f_equal. f_equal. apply list_fmap_ext.
  intros i b _. apply same_queue_backlog; [done|]. by apply same_queue_refl.
Qed.

Lemma spent_core s t v b y w w' bw :
  simple_ok P w → throttle_at w s t y → 0 ≤ bw → net_core w' = net_core w → spent s t v b y w bw y w' bw.
Proof.
  intros Hok Hy Hbw E. pose proof (work_core w w' y E) as Ew. pose proof (conserves_core P w w' Hok E) as Hc.
  injection E as Ec Em _ _ _ Es _. split; [done| | |lia|lia|].
  - unfold throttle_at in *. by rewrite Es.
  - exists (default 0 (vget (th_m_units_remaining y) v)). destruct (vget _ v) as [u|] eqn:Hu; simpl; [by rewrite vset_same|].
    unfold vset. unfold vget in Hu. destruct (0 <=? v); [|done]. rewrite list_insert_ge; [done|].
    by apply lookup_ge_None.
  - intros b' _ _. by apply same_queue_refl.
Qed.

(** The transfer of a message to the wire: its units leave the backlog. *)
Lemma moved_backlog b c p tl q m w w' :
  simple_ok P w → vget (cores w) b = Some q → qc_heap q = p :: tl → net_msgs w !! p = Some m →
  moved b c p tl w w' → backlog w b = message_units (net_cfg w) m + backlog w' b.
Proof.
  intros (Hqk & _) Hq Hl Hm [(_ & Hs & _) Hfrom Hmsgs _]. injection Hs as _ _ Ecf _ _.
  unfold backlog. rewrite Hfrom, (queue_cores w b q), Hl by done. simpl. f_equal.
  - unfold units_of, msg_at. by rewrite Hm.
  - f_equal. apply list_fmap_ext. intros i r Hr%list_elem_of_lookup_2. unfold units_of, msg_at.
    rewrite Ecf, Hmsgs; [done|]. intros ->. pose proof (qk_nodup _ _ Hqk) as Hnd.
    destruct (vget_cores_inv w b q Hq) as (x & Hx & Ex).
    assert (Hhq : vget (qc_heap <$> cores w) b = Some (qc_heap q)) by (by rewrite vget_fmap, Hq).
    pose proof (concat_vset _ _ _ [] Hhq) as Hperm. unfold queued in Hnd. simpl in Hperm. rewrite <- Hperm, Hl in Hnd.
    by apply NoDup_cons in Hnd as [[]%not_elem_of_app _].
Qed.

Lemma moved_others b c p tl q w w' b' :
  simple_ok P w → vget (cores w) b = Some q → qc_heap q = p :: tl →
  moved b c p tl w w' → b' ≠ b → b' ≠ c → same_queue w w' b'.
Proof.
  intros (Hqk & _) Hq Hl [_ _ Hmsgs Hoth] Hb Hc. unfold same_queue, queue. rewrite Hoth by done. split; [done|].
  intros r. destruct (vget (cores w) b') as [q'|] eqn:Hq'; simpl; [|by intros ?%elem_of_nil].
  intros Hr. apply Hmsgs. intros ->.
  apply (queued_disjoint w b' b q' q p (qk_nodup _ _ Hqk) Hb Hq' Hq Hr). rewrite Hl. by apply elem_of_cons; left.
Qed.

(** ** One round *)
Lemma wp_units s t v y u w (Q : Z → GNet → Prop) :
  throttle_at w s t y → vget (th_m_units_remaining y) v = Some u → Q u w → wp (Throttle_units s t v) Q w.
Proof. intros Hy Hu HQ. apply wp_bind, (wp_get_throttle _ _ _ y); [done|]. by apply (wp_vgetG _ _ _ u). Qed.

Lemma wp_ready b q w (Q : bool → GNet → Prop) :
  simple_ok P w → vget (cores w) b = Some q → Q (ready w b) w → wp (MessageBuffer_isReady b (now w)) Q w.
Proof.
  intros (Hqk & _) Hq HQ. apply (wp_isReady _ _ _ q); [done| |].
  - apply Forall_forall. intros p Hp. destruct (qk_live _ _ Hqk p) as (m & Hm & _); [|by eexists].
    apply elem_of_queued. eauto.
  - unfold ready in HQ. by rewrite (queue_cores w b q) in HQ.
Qed.

Lemma wp_has_work s t v y b q u bw w (Q : bool → GNet → Prop) :
  simple_ok P w → throttle_at w s t y → vget (th_m_units_remaining y) v = Some u → vget (cores w) b = Some q →
  Q ((0 <? bw) && (ready w b || (0 <? u))) w → wp (Throttle_has_work s t v (now w) b bw) Q w.
Proof.
  intros Hok Hy Hu Hq HQ. unfold Throttle_has_work. destruct (0 <? bw); [|done].
  apply wp_bind, (wp_ready _ q); [done..|]. destruct (ready w b); [done|].
  by apply wp_bind, (wp_units _ _ _ y u).
Qed.

(** A throttle [y] with the queues [b] in and [c] out of virtual network [v]. *)
Record on_vnet (s t v b c : Z) (y : Throttle) (w : GNet) : Prop := {
  ov_ok : simple_ok P w;
  ov_at : throttle_at w s t y;
  ov_in : vget (th_m_in y) v = Some b;
  ov_out : vget (th_m_out y) v = Some (Some c);
}.

Lemma on_vnet_facts s t v b c y w :
  on_vnet s t v b c y w →
  ∃ q r u, vget (cores w) b = Some q ∧ vget (cores w) c = Some r ∧
    vget (th_m_units_remaining y) v = Some u ∧ 0 ≤ u ∧ NoDup (th_m_in y) ∧ (c ∉ th_m_in y).
Proof.
  intros [Hok Hy Hb Hc]. destruct (throttle_units _ _ _ _ Hok Hy) as [Htw Hn].
  destruct (tw_in _ _ _ Htw v b Hb) as (q & _ & _ & Hq & _).
  destruct (tw_out _ _ _ Htw v b c Hb Hc) as (Hnin & (r & Hr & _) & _).
  destruct (vget_lookup (th_m_units_remaining y) v) as [u Hu].
  { apply vget_Some_lt in Hb. pose proof (tw_units _ _ _ Htw). unfold vsize in *. lia. }
  assert (0 ≤ u) by (pose proof Hu as [_ Hu']%vget_Some; by eapply Forall_lookup in Hn).
  pose proof (tw_nodup _ _ _ Htw). exists q, r, u. by split_and!.
Qed.

Lemma on_vnet_spent s t v b c v' b' y w bw y' w' bw' :
  on_vnet s t v b c y w → spent s t v' b' y w bw y' w' bw' → on_vnet s t v b c y' w'.
Proof.
  intros [Hok Hy Hb Hc] Hsp. pose proof (spent_static _ _ _ _ _ _ _ _ _ _ Hy Hsp) as Es.
  injection Es as Ein Eout _ _ _ _ _. split; [apply (sp_conserves _ _ _ _ _ _ _ _ _ _ Hsp)|apply Hsp|by rewrite Ein|by rewrite Eout].
Qed.

(** The message in front is put on the wire when the wire is free. *)
Lemma wp_start s t v b c y u bw w :
  on_vnet s t v b c y w → vget (th_m_units_remaining y) v = Some u → 0 ≤ bw →
  wp (ready ← (if u =? 0 then MessageBuffer_isReady b (now w) else mret false);
      if (ready : bool) then Throttle_move s t v (now w) b c else mret tt)
    (λ _ w', ∃ y', spent s t v b y w bw y' w' bw ∧
       if (u =? 0) && ready w b then (length (queue w' b) < length (queue w b))%nat
       else queue w' b = queue w b ∧ vget (th_m_units_remaining y') v = Some u) w.
Proof.
  intros Hov Hu Hbw. pose proof Hov as [Hok Hy Hb Hc].
  destruct (on_vnet_facts _ _ _ _ _ _ _ Hov) as (q & r & u' & Hq & Hr & Hu' & Hu0 & Hnd & Hcin).
  rewrite Hu in Hu'. injection Hu' as <-. pose proof (spent_core s t v b y w w bw Hok Hy Hbw eq_refl) as Hrefl.
  apply wp_bind. destruct (Z.eqb_spec u 0) as [->|Hne]; [|apply wp_ret, wp_ret; by exists y].
  apply (wp_ready _ q); [done..|]. destruct (ready w b) eqn:Er; [|apply wp_ret; by exists y].
  unfold ready in Er. rewrite (queue_cores w b q) in Er by done. destruct (qc_heap q) as [|p tl] eqn:Hl; [done|].
  destruct (qk_live _ _ (proj1 Hok) p) as (m & Hm & _); [apply elem_of_queued; exists b, q; rewrite Hl; split; [done|set_solver]|].
  unfold msg_at in Er. rewrite Hm in Er. simpl in Er.
  eapply wp_mono; [apply (wp_move s t y v b c 0 q p tl m w); try done; lia|].
  intros [] w' [Hmv (y' & Hy' & Hu')]. pose proof (proj1 (proj2 (mv_conserves _ _ _ _ _ _ Hmv))) as Hs.
  assert (Hoth : ∀ b', b' ∈ th_m_in y → b' ≠ b → same_queue w w' b').
  { intros b' Hb' Hne. apply (moved_others b c p tl q); [done..|]. by intros ->. }
  assert (Hwk : work w' y' - work w y = 0).
  { pose proof (throttle_at_static w w' s t y y' Hs Hy Hy') as Es. injection Es as Ein _ _ _ _ _ _.
    erewrite work_step; [|done|done|done|done|done|].
    - rewrite (moved_backlog b c p tl q m w w') by done. lia.
    - intros b' Hb' Hne. apply same_queue_backlog; [by injection Hs as _ _ ? _ _|by apply Hoth]. }
  exists y'. split; [split; [apply Hmv|done|eauto|lia|lia|done]|].
  simpl. rewrite (mv_from _ _ _ _ _ _ Hmv), (queue_cores w b q), Hl by done. simpl. lia.
Qed.

(** The bandwidth is spent on what is on the wire. *)
Lemma wp_spend s t v b c y u bw w :
  on_vnet s t v b c y w → vget (th_m_units_remaining y) v = Some u → 0 ≤ bw →
  wp (upd_throttle s t (λ x, x <| th_m_units_remaining ::= λ l, vset l v (Z.max 0 (u - bw)) |>))
    (λ _ w', queue w' b = queue w b ∧ units_at w' s t v = Z.max 0 (u - bw) ∧
       ∃ y', spent s t v b y w bw y' w' (Z.max 0 (- (u - bw)))) w.
Proof.
  intros Hov Hu Hbw. pose proof Hov as [Hok Hy Hb Hc].
  destruct (on_vnet_facts _ _ _ _ _ _ _ Hov) as (q & r & u' & Hq & Hr & Hu' & Hu0 & Hnd & Hcin).
  rewrite Hu in Hu'. injection Hu' as <-. destruct (throttle_units _ _ _ _ Hok Hy) as [_ Hn].
  apply (wp_set_throttle _ _ _ y); [done|done| |simpl; apply units_vset_nonneg; [done|lia]|].
  { unfold throttle_static. simpl. by rewrite length_vset. }
  intros w' Hcv Hy' Ec Em. split_and!.
  - unfold queue. by rewrite Ec.
  - eapply units_at_eq; [done|]. simpl. apply vget_vset_eq. by eapply vget_Some_lt.
  - eexists. assert (Hsq : ∀ b', same_queue w w' b') by (intros; by apply same_queue_refl).
    assert (Ecf : net_cfg w' = net_cfg w) by (destruct Hcv as (_ & Hs & _); by injection Hs as _ _ ? _ _).
    split; [done|exact Hy'|by eexists|lia| |by intros].
    set (y' := y <| th_m_units_remaining ::= λ l, vset l v (Z.max 0 (u - bw)) |>).
    assert (Hwk : work w' y' - work w y = Z.max 0 (u - bw) - u); [|change (set_field _ _ _) with y'; lia].
    rewrite (work_step w y w' y' v b u (Z.max 0 (u - bw))) by (try done; intros; by apply same_queue_backlog).
    rewrite (same_queue_backlog w w') by done. lia.
Qed.

Lemma wp_round s t v b c y bw w :
  on_vnet s t v b c y w → 0 ≤ bw →
  wp (Throttle_round s t v (now w) b c bw)
    (λ r w', ∃ y', spent s t v b y w bw y' w' (match r with inl z | inr z => z end) ∧
       match r with
       | inl bw' => (rounds s t v b bw' w' < rounds s t v b bw w)%nat
       | inr bw' => bw' = 0 ∨ vnet_idle w' y' v b ∨ has_slot w' c 1 (now w') = false
       end) w.
Proof.
  intros Hov Hbw. pose proof Hov as [Hok Hy Hb Hc].
  destruct (on_vnet_facts _ _ _ _ _ _ _ Hov) as (q & r & u & Hq & Hr & Hu & Hu0 & Hnd & Hcin).
  unfold Throttle_round. apply wp_bind, (wp_has_work _ _ _ y _ q u); [done..|].
  destruct ((0 <? bw) && _) eqn:Hwork; apply wp_bind.
  2: { apply wp_ret, wp_ret. exists y. split; [by apply spent_core|].
       apply andb_false_iff in Hwork as [?|[? ?]%orb_false_iff]; [left; lia|right; left].
       split; [rewrite Hu; f_equal; lia|done]. }
  apply (wp_slots _ _ _ _ r); [done|]. intros w1 E1 Hsl.
  pose proof (spent_core s t v b y w w1 bw Hok Hy Hbw E1) as Hsp1.
  assert (Enow : now w1 = now w) by (injection E1 as _ _ _ Ecy Ecf _ _; unfold now; by rewrite Ecy, Ecf).
  destruct (has_slot w c 1 (now w)) eqn:Ha.
  2: { apply wp_ret. exists y. split; [done|]. right; right. by rewrite Enow. }
  assert (Eq1 : queue w1 b = queue w b) by (injection E1 as Ec _ _ _ _ _ _; unfold queue; by rewrite Ec).
  assert (Er1 : ready w1 b = ready w b).
  { injection E1 as Ec Em _ _ _ _ _. apply same_queue_ready; [done|]. by apply same_queue_refl. }
  pose proof (on_vnet_spent _ _ _ _ _ _ _ _ _ _ _ _ _ Hov Hsp1) as Hov1. pose proof Hov1 as [Hok1 Hy1 _ _].
  apply wp_bind, (wp_units _ _ _ y u); [done..|]. rewrite <- Enow. apply wp_assoc.
  eapply wp_mono; [by apply (wp_start s t v b c y u bw w1)|]. intros [] w2 (y2 & Hsp2 & Hlen).
  pose proof (on_vnet_spent _ _ _ _ _ _ _ _ _ _ _ _ _ Hov1 Hsp2) as Hov2. pose proof Hov2 as [Hok2 Hy2 _ _].
  destruct (on_vnet_facts _ _ _ _ _ _ _ Hov2) as (_ & _ & u2 & _ & _ & Hu2 & Hu20 & _).
  apply wp_bind, (wp_units _ _ _ y2 u2); [done..|]. apply wp_bind.
  eapply wp_mono; [by apply (wp_spend s t v b c y2 u2 bw w2)|]. intros [] w3 (Eq3 & Eu3 & y3 & Hsp3).
  apply wp_ret. exists y3. split.
  { eapply spent_trans; [done|exact Hsp1|]. by eapply spent_trans. }
  unfold rounds. rewrite Eq3, Eu3, (units_at_eq w s t v y u), Er1, Eq1 in * by done.
  replace ((0 <? Z.max 0 (- (u2 - bw))) && (0 <? Z.max 0 (u2 - bw))) with false by (destruct (Z.ltb_spec 0 (u2 - bw)); lia).
  destruct (_ && ready w b) eqn:Hs; [lia|]. destruct Hlen as [-> _].
  replace ((0 <? bw) && (0 <? u)) with true; [lia|].
  destruct (0 <? bw), (ready w b), (Z.ltb_spec 0 u), (Z.eqb_spec u 0); simpl in *; try done; lia.
Qed.

(** ** One virtual network *)
Lemma wp_operateVnet_on s t v b c y bw sched w :
  on_vnet s t v b c y w → 0 ≤ bw →
  wp (Throttle_operateVnet s t v bw sched b (Some c))
    (λ r w', ∃ y', spent s t v b y w bw y' w' (fst r) ∧ (sched = true → snd r = true) ∧
       (fst r = 0 ∨ snd r = true ∨ vnet_idle w' y' v b)) w.
Proof.
  intros Hov Hbw. pose proof Hov as [Hok Hy Hb Hc].
  destruct (on_vnet_facts _ _ _ _ _ _ _ Hov) as (q & r & u & Hq & Hr & Hu & Hu0 & Hnd & Hcin).
  unfold Throttle_operateVnet, clockEdge, curCycle, config. apply wp_bind, (wp_units _ _ _ y u); [done..|].
  apply wp_bind, wp_assertM; [lia|]. apply wp_bind, wp_bind, wp_gets, wp_bind, wp_gets, wp_ret.
  rewrite Z.add_0_r. fold (now w). destruct (vget_cores_inv w b q Hq) as (xb & Hxb & Exb).
  apply wp_bind, (wp_get_mbuf _ _ xb); [done|]. apply wp_bind.
  set (I := λ bw' w', ∃ y', spent s t v b y w bw y' w' bw').
  apply (wp_while_loop _ _ _ _ I (λ bw' w', rounds s t v b bw' w')).
  - exists y. by apply spent_core.
  - unfold rounds. rewrite (queue_cores w b q), <- Exb by done. simpl. destruct (_ && _); lia.
  - intros bw1 w1 (y1 & Hsp1). pose proof (on_vnet_spent _ _ _ _ _ _ _ _ _ _ _ _ _ Hov Hsp1) as Hov1.
    rewrite <- (keeps_wiring_now _ _ (proj1 (proj2 (sp_conserves _ _ _ _ _ _ _ _ _ _ Hsp1)))).
    eapply wp_mono; [apply (wp_round s t v b c y1 bw1 w1 Hov1); apply Hsp1|].
    intros [bw2|bw2] w2 (y2 & Hsp2 & Hpost).
    { split; [|done]. exists y2. by eapply spent_trans. }
    pose proof (spent_trans _ _ _ _ _ _ _ _ _ _ _ _ _ Hy Hsp1 Hsp2) as Hsp.
    pose proof (on_vnet_spent _ _ _ _ _ _ _ _ _ _ _ _ _ Hov Hsp) as Hov2. pose proof Hov2 as [Hok2 Hy2 _ _].
    destruct (on_vnet_facts _ _ _ _ _ _ _ Hov2) as (q2 & r2 & u2 & Hq2 & Hr2 & Hu2 & Hu20 & _ & _).
    rewrite <- (keeps_wiring_now _ _ (proj1 (proj2 (sp_conserves _ _ _ _ _ _ _ _ _ _ Hsp2)))).
    apply wp_bind, (wp_has_work _ _ _ y2 _ q2 u2); [done..|]. destruct ((0 <? bw2) && _) eqn:Hwork.
    + apply wp_bind, (wp_slots _ _ _ _ r2); [done|]. intros w3 E3 _. apply wp_ret. exists y2.
      split_and!; [|by destruct (has_slot w2 c 1 (now w2))|].
      * eapply spent_trans; [done|exact Hsp|]. apply spent_core; [done|done|apply Hsp|done].
      * apply andb_true_iff in Hwork as [? Hwork]. destruct Hpost as [?|[[Hi1 Hi2]| ->]]; [by left|exfalso|by right; left].
        rewrite Hu2 in Hi1. injection Hi1 as ->. by rewrite Hi2 in Hwork.
    + apply wp_ret. exists y2. split_and!; [done|done|]. simpl.
      apply andb_false_iff in Hwork as [?|[? ?]%orb_false_iff]; [left; pose proof (sp_bw _ _ _ _ _ _ _ _ _ _ Hsp2); lia|right; right].
      split; [rewrite Hu2; f_equal; lia|done].
Qed.

(** What is idle stays idle while the other virtual networks are served. *)
Lemma vnet_idle_spent s t v b v' b' y w bw y' w' bw' :
  v' ≠ v → b' ≠ b → b' ∈ th_m_in y → spent s t v b y w bw y' w' bw' → vnet_idle w y v' b' → vnet_idle w' y' v' b'.
Proof.
  intros Hv Hb Hin Hsp [H1 H2]. destruct Hsp as [(_ & Hs & _) _ [u' Hu'] _ _ Hoth]. split.
  - by rewrite Hu', vget_vset_ne by done.
  - rewrite (same_queue_ready w w'); [done|by apply keeps_wiring_now|by apply Hoth].
Qed.

(** ** The whole throttle *)

(** Everything the throttle can send on the virtual networks [vs] is sent. *)
Definition all_idle (w : GNet) (y : Throttle) (vs : list Z) : Prop :=
  ∀ v b c, v ∈ vs → vget (th_m_in y) v = Some b → vget (th_m_out y) v = Some (Some c) → vnet_idle w y v b.

(** What serving the virtual networks [vs] of throttle [y] leaves. *)
Record served (s t : Z) (vs : list Z) (y : Throttle) (w : GNet) (bw : Z) (w' : GNet) (r : Z * bool) : Prop := {
  se_conserves : conserves P w w';
  se_bw : 0 ≤ fst r ≤ bw;
  se_after : ∃ y', throttle_at w' s t y' ∧ bw - fst r = work w y - work w' y' ∧
    (fst r = 0 ∨ snd r = true ∨ all_idle w' y' vs);
}.

Lemma all_idle_app w y vs v :
  all_idle w y vs → (∀ b c, vget (th_m_in y) v = Some b → vget (th_m_out y) v = Some (Some c) → vnet_idle w y v b) →
  all_idle w y (vs ++ [v]).
Proof.
  intros Hvs Hv v' b c Hin Hb Hc. apply elem_of_app in Hin as [Hin| ->%list_elem_of_singleton]; eauto.
Qed.

Lemma all_idle_spent s t v b y w bw y' w' bw' vs :
  throttle_at w s t y → NoDup (th_m_in y) → vget (th_m_in y) v = Some b →
  spent s t v b y w bw y' w' bw' → vnet_idle w' y' v b → all_idle w y vs → all_idle w' y' vs.
Proof.
  intros Hy Hnd Hb Hsp Hidle Hall v' b' c' Hin Hb' Hc'.
  pose proof (spent_static _ _ _ _ _ _ _ _ _ _ Hy Hsp) as Es. injection Es as Ein Eout _ _ _ _ _.
  rewrite Ein in Hb'. rewrite Eout in Hc'. destruct (decide (v' = v)) as [->|Hne].
  { rewrite Hb in Hb'. by injection Hb' as ->. }
  eapply vnet_idle_spent; [done| | |done|by eapply Hall].
  - intros ->. apply Hne. apply vget_Some in Hb as [? Hb], Hb' as [? Hb'].
    pose proof (NoDup_lookup _ _ _ _ Hnd Hb Hb'). lia.
  - apply vget_Some in Hb' as [_ Hb']. by eapply list_elem_of_lookup_2.
Qed.

Lemma served_step s t vs v b y w bw r w1 y1 r' w2 y2 :
  throttle_at w s t y → NoDup (th_m_in y) → vget (th_m_in y) v = Some b →
  conserves P w w1 → throttle_at w1 s t y1 → 0 ≤ fst r ≤ bw → bw - fst r = work w y - work w1 y1 →
  (fst r = 0 ∨ snd r = true ∨ all_idle w1 y1 vs) →
  spent s t v b y1 w1 (fst r) y2 w2 (fst r') → (snd r = true → snd r' = true) →
  (fst r' = 0 ∨ snd r' = true ∨ vnet_idle w2 y2 v b) → served s t (vs ++ [v]) y w bw w2 r'.
Proof.
  intros Hy Hnd Hb Hc1 Hy1 Hr Hwk Hor Hsp Hsched Hidle.
  pose proof (throttle_at_static _ _ _ _ _ _ (proj1 (proj2 Hc1)) Hy Hy1) as Es.
  pose proof (spent_static _ _ _ _ _ _ _ _ _ _ Hy1 Hsp) as Es2.
  injection Es as Ein _ _ _ _ _ _. injection Es2 as Ein2 _ _ _ _ _ _.
  pose proof (sp_bw _ _ _ _ _ _ _ _ _ _ Hsp). pose proof (sp_work _ _ _ _ _ _ _ _ _ _ Hsp). split.
  - eapply conserves_trans; [done|apply Hsp].
  - lia.
  - exists y2. split_and!; [apply Hsp|lia|]. destruct Hor as [?|[?|Hall]]; [left; lia|auto|].
    destruct Hidle as [?|[?|Hidle]]; [auto|auto|]. right; right. apply all_idle_app.
    + eapply all_idle_spent; [exact Hy1|by rewrite Ein|by rewrite Ein|done|done|done].
    + intros b' c'. rewrite Ein2, Ein, Hb. by intros [= <-].
Qed.

Lemma wp_Throttle_operate s t y vs bw w :
  simple_ok P w → throttle_at w s t y → 0 ≤ bw → (∀ v, v ∈ vs → 0 ≤ v < th_m_vnets y) →
  wp (Throttle_operate s t y vs bw) (λ r w', served s t vs y w bw w' r) w.
Proof.
  intros Hok Hy Hbw Hvs. destruct (throttle_units _ _ _ _ Hok Hy) as [Htw _].
  apply (wp_foldM _ _ _ (λ pre r w', served s t pre y w bw w' r)).
  { split; [by apply conserves_refl|simpl; lia|]. exists y. split_and!; [done|simpl; lia|].
    right; right. by intros v b c ?%elem_of_nil. }
  intros pre v r w1 Hv%Hvs [Hc1 Hr (y1 & Hy1 & Hwk & Hor)].
  pose proof (throttle_at_static _ _ _ _ _ _ (proj1 (proj2 Hc1)) Hy Hy1) as Es. injection Es as Ein Eout _ _ _ _ _.
  destruct (vget_lookup (th_m_in y) v) as [b Hb]; [rewrite (tw_vnets _ _ _ Htw); lia|].
  destruct (vget_lookup (th_m_out y) v) as [o Ho].
  { pose proof (tw_vnets _ _ _ Htw). pose proof (tw_outs _ _ _ Htw). unfold vsize in *. lia. }
  apply wp_bind, (wp_vgetG _ _ _ b); [done|]. apply wp_bind, (wp_vgetG _ _ _ o); [done|]. destruct o as [c|].
  - assert (Hov : on_vnet s t v b c y1 w1) by (split; [apply Hc1|done|by rewrite Ein|by rewrite Eout]).
    eapply wp_mono; [apply (wp_operateVnet_on s t v b c y1 (fst r) (snd r) w1 Hov); lia|].
    intros r' w2 (y2 & Hsp & Hsched & Hidle).
    by eapply (served_step s t pre v b y w bw r w1 y1); [..|apply (tw_nodup _ _ _ Htw)| | | | | | | | |].
  - apply wp_ret. split; [done|done|]. exists y1. split_and!; [done|done|].
    destruct Hor as [?|[?|Hall]]; [by left|by right; left|]. right; right. apply all_idle_app; [done|].
    intros b' c'. rewrite Eout, Ho. by intros _ [=].
Qed.
End Throttle.

(** ** Wake-ups that are scheduled *)

(** What a consumer remembers as scheduled is in the event queue. *)
Definition events_ok (w : GNet) : Prop :=
  ∀ c t, now w < t → alreadyScheduled c t w = true → (t, c) ∈ net_eventq w.
Definition keeps_events : relation GNet := λ w w',
  now w' = now w ∧ (events_ok w → events_ok w').
#[export] Instance keeps_events_preorder : PreOrder keeps_events.
Proof.
  split; [by split|]. intros w1 w2 w3 [N1 H1] [N2 H2]. split; [congruence|auto].
Qed.

Lemma wp_remembered c t w :
  now w ≤ t →
  wp (Consumer_scheduleEventAbsolute c t) (λ _ w', alreadyScheduled c t w' = true) w.
Proof.
  intros Ht. unfold Consumer_scheduleEventAbsolute, alreadyScheduled. apply wp_bind, wp_gets, wp_bind.
  eapply (wp_mono _ (λ _ w', t ∈ (net_scheduled w' !!! c : gset Z) ∧ now w' = now w)).
  - destruct (bool_decide _) eqn:E; [apply wp_ret; by apply bool_decide_eq_true in E|].
    apply wp_modify. split; [|done]. simpl. rewrite lookup_total_insert_eq. set_solver.
  - intros [] w1 [Hin En]. unfold clockEdge, curCycle, config.
    apply wp_bind, wp_bind, wp_gets, wp_bind, wp_gets, wp_ret, wp_modify. simpl.
    rewrite lookup_total_insert_eq. apply bool_decide_eq_true, elem_of_filter. split; [|done].
    unfold now in *. lia.
Qed.

Lemma wp_woken c w (Q : () → GNet → Prop) :
  0 ≤ cf_clockPeriod (net_cfg w) →
  (∀ w', net_core w' = net_core w → alreadyScheduled c (now w + cf_clockPeriod (net_cfg w)) w' = true → Q tt w') →
  wp (Consumer_scheduleEvent c 1) Q w.
Proof.
  intros Hp HQ. eapply wp_mono; [apply (wp_and_preserves keeps_core); [|apply keeps_core_schedule]|].
  - unfold Consumer_scheduleEvent, clockEdge, curCycle, config. apply wp_bind, wp_bind, wp_gets, wp_bind, wp_gets, wp_ret.
    apply wp_remembered. unfold now. lia.
  - intros [] w' [Hs Hk]. apply HQ; [done|]. replace (now w + _) with ((net_cycle w + 1) * cf_clockPeriod (net_cfg w)); [exact Hs|unfold now; lia].
Qed.

Lemma remembered_insert c s w w' c' t :
  net_scheduled w' = <[c := s]> (net_scheduled w) → alreadyScheduled c' t w' = true →
  (c' = c ∧ t ∈ s) ∨ alreadyScheduled c' t w = true.
Proof.
  intros E. unfold alreadyScheduled. rewrite E, !bool_decide_eq_true. destruct (decide (c = c')) as [<-|Hne].
  - rewrite lookup_total_insert_eq. auto.
  - rewrite lookup_total_insert_ne by done. auto.
Qed.

Lemma events_schedule c t : preserves keeps_events (Consumer_scheduleEventAbsolute c t).
Proof.
  unfold Consumer_scheduleEventAbsolute. intros w [] w' (b & w1 & [= <- <-] & Hrun)%bind_Ok.
  apply bind_Ok in Hrun as ([] & w1 & H1 & Hrun). apply bind_Ok in Hrun as (n & w2 & H2 & [= <-]).
  injection H2 as _ <-.
  transitivity w1.
  - destruct (alreadyScheduled c t w); injection H1 as <-; [done|]. split; [done|]. intros Hev c' t' Ht' H.
    apply elem_of_app. eapply (remembered_insert c _ w) in H as [[-> Hin]|H]; [..|reflexivity].
    + apply elem_of_union in Hin as [->%elem_of_singleton|Hin]; [right; by apply list_elem_of_singleton|left].
      apply Hev; [done|]. by apply bool_decide_eq_true.
    + left. by apply Hev.
  - split; [done|]. intros Hev c' t' Ht' H.
    eapply (remembered_insert c _ w1) in H as [[-> [_ Hin]%elem_of_filter]|H]; [..|reflexivity].
    + apply Hev; [done|]. by apply bool_decide_eq_true.
    + by apply Hev.
Qed.

Lemma events_modify f :
  (∀ w, now (f w) = now w ∧ net_scheduled (f w) = net_scheduled w ∧ net_eventq (f w) = net_eventq w) →
  preserves keeps_events (modify f).
Proof.
  intros Hf. apply preserves_modify. intros w. destruct (Hf w) as (En & Es & Ee). split; [done|].
  intros Hev c t. unfold alreadyScheduled. rewrite En, Es, Ee. apply Hev.
Qed.
Create HintDb events.
#[export] Hint Resolve events_schedule : events.
Ltac events_prim := apply events_modify; intros ?; split_and!; reflexivity.
Tactic Notation "pres_events" := pres by first [solve [auto 2 with nocore events] | events_prim].

Lemma events_Throttle_wakeup s t : preserves keeps_events (Throttle_wakeup s t).
Proof. pres_events. Qed.

(** A change of the statistics of a throttle leaves its work as it is. *)
Definition same_work (w : GNet) (y : Throttle) (w' : GNet) (y' : Throttle) : Prop :=
  throttle_static y' = throttle_static y ∧ work w' y' = work w y ∧ now w' = now w ∧ net_cfg w' = net_cfg w ∧
  ∀ vs, all_idle w y vs → all_idle w' y' vs.

Section Statistics.
Context `{MTS : MachineTypesSpec} (P : Plan).

Lemma same_work_core w y w' y' :
  cores w' = cores w → net_msgs w' = net_msgs w → now w' = now w → net_cfg w' = net_cfg w →
  throttle_static y' = throttle_static y → th_m_units_remaining y' = th_m_units_remaining y → same_work w y w' y'.
Proof.
  intros Ec Em En Ecf Es Eu. pose proof Es as Es'. injection Es' as Ein Eout _ _ _ _ _.
  assert (Hq : ∀ b, same_queue w w' b) by (intros; by apply same_queue_refl). split_and!; [done| |done|done|].
  - unfold work. rewrite Ein, Eu. f_equal. f_equal. apply list_fmap_ext. intros i b _. by apply same_queue_backlog.
  - intros vs Hall v b c Hv Hb Hc. rewrite Ein in Hb. rewrite Eout in Hc. destruct (Hall v b c Hv Hb Hc) as [H1 H2].
    split; [by rewrite Eu|]. by rewrite (same_queue_ready w w').
Qed.

Lemma wp_set_stats s t f y w (Q : () → GNet → Prop) :
  simple_ok P w → throttle_at w s t y → throttle_static (f y) = throttle_static y →
  th_m_units_remaining (f y) = th_m_units_remaining y →
  (∀ w' y', conserves P w w' → throttle_at w' s t y' → same_work w y w' y' → Q tt w') →
  wp (upd_throttle s t f) Q w.
Proof.
  intros Hok Hy Es Eu HQ. apply (wp_set_throttle P _ _ f y); [done..| |].
  - rewrite Eu. by apply (throttle_units P w s t y).
  - intros w' Hc Hy' Ec Em. pose proof Hc as (_ & Hs & _). pose proof (keeps_wiring_now _ _ Hs).
    injection Hs as _ _ Ecf _ _. eapply HQ; [done..|]. by apply same_work_core.
Qed.

Lemma wp_Throttle_wakeup s t y w :
  simple_ok P w → throttle_at w s t y →
  wp (Throttle_wakeup s t)
    (λ _ w', conserves P w w' ∧
       ∃ y' left, throttle_at w' s t y' ∧ 0 ≤ left ≤ Throttle_getLinkBandwidth y ∧
         work w y - work w' y' = Throttle_getLinkBandwidth y - left ∧
         (alreadyScheduled (CThrottle s t) (now w + cf_clockPeriod (net_cfg w)) w' = true ∨
          0 < left ∧ all_idle w' y' (zrange 0 (th_m_vnets y)))) w.
Proof.
  intros Hok Hy. destruct (throttle_units _ _ _ _ _ Hok Hy) as [Htw Hn].
  pose proof (tw_bandwidth _ _ _ Htw) as Hbw. unfold Throttle_wakeup. apply wp_bind, (wp_get_throttle _ _ _ y); [done|].
  set (bandwidth := Throttle_getLinkBandwidth y) in *. apply wp_bind, wp_assertM; [lia|].
  set (vnets := zrange 0 (th_m_vnets y)).
  apply wp_bind, (wp_set_stats _ _ _ y); [done..|]. intros w1 y1 Hc1 Hy1 (Es1 & Ew1 & En1 & Ecf1 & _).
  set (vs := if _ <? _ then _ else _). assert (Hvs : ∀ v, v ∈ vs ↔ v ∈ vnets).
  { intros v. unfold vs. destruct (_ <? _); [done|]. by rewrite list_elem_of_In, <- in_rev, <- list_elem_of_In. }
  injection Es1 as Ein1 Eout1 Evn1 _ _ _ _.
  assert (Eop : Throttle_operate s t y vs bandwidth = Throttle_operate s t y1 vs bandwidth)
    by (unfold Throttle_operate; by rewrite Ein1, Eout1). rewrite Eop.
  apply wp_bind. eapply wp_mono; [apply (wp_Throttle_operate P s t y1 vs bandwidth w1 (proj1 Hc1) Hy1); [lia|]|].
  { intros v Hv%Hvs%elem_of_zrange. by rewrite Evn1. }
  intros [left sched] w2 [Hc2 Hl (y2 & Hy2 & Hwk2 & Hor2)]. simpl in Hl, Hwk2, Hor2.
  apply wp_bind, (wp_set_stats _ _ _ y2); [apply Hc2|done..|]. intros w3 y3 Hc3 Hy3 (Es3 & Ew3 & En3 & Ecf3 & Hidle3).
  assert (Hc : conserves P w w3) by (eapply conserves_trans; [done|]; by eapply conserves_trans).
  pose proof Hc as (Hok3 & Hs3 & _). pose proof (keeps_wiring_now _ _ Hs3) as En. injection Hs3 as _ _ Ecf _ _.
  destruct ((0 <? left) && negb sched) eqn:Hfin.
  - apply wp_ret. split; [done|]. exists y3, left. split_and!; try (done || lia). right. split; [lia|].
    intros v b c Hv Hb Hc'. destruct Hor2 as [?|[->|Hall]]; [lia|lia|]. eapply Hidle3; [exact Hall|by apply Hvs|done|done].
  - apply wp_woken; [rewrite Ecf; pose proof (proj1 (proj1 (proj2 Hok))); lia|]. intros w4 E4 Hsch.
    pose proof (conserves_core P w3 w4 Hok3 E4) as Hc4. split; [by eapply conserves_trans|].
    exists y3, left. rewrite (work_core w3 w4) by done. split_and!; try lia.
    + unfold throttle_at in *. by injection E4 as _ _ _ _ _ -> _.
    + left. by rewrite <- En, <- Ecf.
Qed.
End Statistics.

(** C10.  A wake-up of a throttle, in a network that satisfies the invariant and
    whose event queue holds what the consumers have scheduled, returns.  It keeps
    both, the wiring and, for every machine, the payloads on their way to it.  The
    work of the throttle (units on the wire and units of the waiting messages)
    goes down by exactly the bandwidth it uses, which is at most that of its link.
    And it is work conserving: either its next wake-up, one cycle later, is in the
    event queue, or there is bandwidth left and on every virtual network with an
    output nothing is on the wire and no message is ready. *)
Theorem Throttle_wakeup_work_conserving `{MTS : MachineTypesSpec} P s t y w :
  simple_ok P w → events_ok w → throttle_at w s t y →
  wp (Throttle_wakeup s t)
    (λ _ w', (simple_ok P w' ∧ events_ok w' ∧ simple_static w' = simple_static w ∧
        ∀ m, copies m w' ≡ₚ copies m w) ∧
       ∃ y' left, throttle_at w' s t y' ∧ 0 ≤ left ≤ Throttle_getLinkBandwidth y ∧
         work w y - work w' y' = Throttle_getLinkBandwidth y - left ∧
         ((now w + cf_clockPeriod (net_cfg w), CThrottle s t) ∈ net_eventq w' ∨
          0 < left ∧ all_idle w' y' (zrange 0 (th_m_vnets y)))) w.
Proof.
  intros Hok Hev Hy. eapply wp_mono.
  { apply (wp_and_preserves keeps_events); [by apply (wp_Throttle_wakeup P s t y)|apply events_Throttle_wakeup]. }
  intros [] w' [((Hok' & Hs' & Hc') & y' & left & Hy' & Hl & Hw & Hor) [En Hk]].
  split; [split_and!; [done|by apply Hk|done|done]|]. exists y', left. split_and!; try (done || lia).
  destruct Hor as [Hsch|?]; [left|by right]. apply Hk; [done| |done].
  rewrite En. pose proof (proj1 (proj1 (proj2 Hok))). lia.
Qed.

Lemma Throttle_wakeup_work_conserving_witness :
  ∃ w', Throttle_wakeup 0 1 star_sent = Ok (tt, w') ∧ simple_ok (MT := two_types) star_plan w' ∧
    ∃ y' left, throttle_at w' 0 1 y' ∧ 8000 - work w' y' = 16000 - left.
Proof.
  assert (Hev : events_ok star_sent).
  { intros c t Ht Hs. apply bool_decide_eq_true in Hs. exfalso.
    assert (Hall : map_Forall (λ _ (l : gset Z), Forall (λ t, t ≤ 2000) (elements l)) (net_scheduled star_sent))
      by (apply (bool_decide_eq_true_1 _); vm_compute; reflexivity).
    rewrite lookup_total_alt in Hs. destruct (net_scheduled star_sent !! c) as [l|] eqn:El; simpl in Hs.
    - apply Hall in El. rewrite Forall_forall in El. apply elem_of_elements, El in Hs.
      assert (E : now star_sent = 2000) by (vm_compute; reflexivity). rewrite E in Ht. lia.
    - by apply elem_of_empty in Hs. }
  assert (Hy : ∃ y, throttle_at star_sent 0 1 y ∧ work star_sent y = 8000 ∧ Throttle_getLinkBandwidth y = 16000).
  { assert (Hf : (λ y, (work star_sent y, Throttle_getLinkBandwidth y)) <$>
      (x ← vget (net_m_switches star_sent) 0; vget (sw_m_throttles x) 1) = Some (8000, 16000))
      by (vm_compute; reflexivity).
    apply fmap_Some in Hf as (y & Hy & Ef). injection Ef as E1 E2. apply bind_Some in Hy.
    exists y. split; [exact Hy|]. split; [exact (eq_sym E1)|exact (eq_sym E2)]. }
  destruct Hy as (y & Hy & Ew & Eb).
  pose proof (Throttle_wakeup_work_conserving (MT := two_types) star_plan 0 1 y star_sent star_sent_ok Hev Hy) as H.
  unfold wp in H. destruct (Throttle_wakeup 0 1 star_sent) as [[[] w']|] eqn:E; [|destruct H].
  exists w'. split; [reflexivity|]. destruct H as ((H1 & _) & y' & left & H2 & _ & H3 & _).
  split; [exact H1|]. exists y', left. split; [exact H2|]. rewrite <- Ew, <- Eb. exact H3.
Defined.
