(* ===== verification/SimpleRunTheory.v ===== *)
(** * Runs of the simple network

    The wake-ups of the switches and throttles composed by the event queue: in
    any run of a simple network (network/simple), of any length, no wake-up
    stops with an error, the invariant holds and no message is lost, duplicated
    or misdirected.  A concrete network on which the theorems of the simple
    network are instantiated closes the file. *)

From stdpp Require Import sorting.
From S2P Require Import Prelude BinaryHeap NetDestModel AddrRangeModel NetworkModel CommonTypes GarnetState FlitBuffer Channels RoutingUnitModel SwapModel UnitsModel SwitchAllocatorModel MessageBufferModel NetworkInterfaceModel BuildModel TopologyModel SimpleNetworkModel Scenarios SystemModel StateLemmas QueueLemmas Wiring NetDestTheory SimpleSplit SimpleInvariant SimpleScene SimpleSwitchTheory SimpleThrottleTheory.

(** The consumers that a simple network wakes. *)
Definition simple_consumer (w : GNet) (c : consumer) : Prop :=
  match c with
  | CPerfectSwitch s => is_Some (vget (net_m_switches w) s)
  | CThrottle s t => ∃ y, throttle_at w s t y
  | CController _ => True
  | CRouter _ | CLink _ | CNI _ => False
  end.

Section Run.
Context `{MTS : MachineTypesSpec} `{LSS : LinkSortSpec} (P : Plan).

(** One step: a due event of the network, in any order, or the clock. *)
Inductive simple_step (w : GNet) : GNet → Prop :=
  | simple_event i c w' :
      net_eventq w !! i = Some (now w, c) → simple_consumer w c →
      wakeup_consumer c (remove_event i w) = Ok (tt, w') → simple_step w w'
  | simple_tick :
      Forall (λ e, now w < fst e) (net_eventq w) → simple_step w (tick w).

Lemma simple_ok_tick w : simple_ok P w → simple_ok P (tick w).
Proof.
  intros ([H1 H2 H3 H4 H5 H6] & Hw & Hc). split_and!.
  - split; try done. intros b q Hq. destruct (H6 b q Hq) as [H|[H|[H|H]]];
      [by left|by right; left|by right; right; left|right; right; right].
    pose proof (proj1 (proj1 Hw)). unfold now in *. simpl. lia.
  - by apply (wired_same P w).
  - intros s x Hx. by destruct (Hc s x Hx).
Qed.

Lemma simple_consumer_core w w' c : net_core w' = net_core w → simple_consumer w c → simple_consumer w' c.
Proof.
  intros E. injection E as _ _ _ _ _ Es _. destruct c; simpl; unfold throttle_at; by rewrite ?Es.
Qed.

(** A wake-up of the network returns and conserves the messages. *)
Lemma wp_wakeup_consumer c w :
  simple_ok P w → simple_consumer w c → wp (wakeup_consumer c) (λ _ w', conserves P w w') w.
Proof.
  intros Hok Hc. destruct c as [| | |n|s|s t]; try done; simpl.
  - destruct Hc as [x Hx]. by apply (wp_PerfectSwitch_wakeup P s x).
  - destruct Hc as [y Hy]. eapply wp_mono; [by apply (wp_Throttle_wakeup P s t y)|]. by intros [] w' [? _].
Qed.

(** What a run keeps, apart from the clock. *)
Definition run_ok (w w' : GNet) : Prop :=
  simple_ok P w' ∧ (∀ m, copies m w' ≡ₚ copies m w) ∧ switch_static <$> net_m_switches w' = switch_static <$> net_m_switches w.

Lemma run_ok_step w w1 w2 : run_ok w w1 → simple_step w1 w2 → run_ok w w2.
Proof.
  intros (Hok & Hc & Hs) [i c w' Hi Hcons Hrun|Hnone].
  - pose proof (wp_wakeup_consumer c (remove_event i w1)) as Hwp. unfold wp in Hwp. rewrite Hrun in Hwp.
    destruct Hwp as (Hok' & Hs' & Hc').
    + by apply (simple_ok_core P w1).
    + by apply (simple_consumer_core w1).
    + split_and!; [done| |].
      * intros m. rewrite Hc'. exact (Hc m).
      * injection Hs' as _ _ _ Es _. rewrite Es. exact Hs.
  - split_and!; [by apply simple_ok_tick|exact Hc|exact Hs].
Qed.

Lemma run_ok_rtc w w' : simple_ok P w → rtc simple_step w w' → run_ok w w'.
Proof.
  intros Hok. revert w'. apply (rtc_ind_r (λ w', run_ok w w')); [by split_and!|].
  intros w1 w2 _ Hst H. by eapply run_ok_step.
Qed.

(** A due event can be served. *)
Lemma simple_progress w i c :
  simple_ok P w → net_eventq w !! i = Some (now w, c) → simple_consumer w c →
  ∃ w', wakeup_consumer c (remove_event i w) = Ok (tt, w') ∧ simple_step w w'.
Proof.
  intros Hok Hi Hc. pose proof (wp_wakeup_consumer c (remove_event i w)) as Hwp. unfold wp in Hwp.
  destruct (wakeup_consumer c (remove_event i w)) as [[[] w']|] eqn:Hrun.
  - exists w'. split; [done|]. by apply (simple_event w i c).
  - exfalso. apply Hwp; [by apply (simple_ok_core P w)|by apply (simple_consumer_core w)].
Qed.
End Run.

(** C27.  A whole run of a simple network: from a state that satisfies the
    invariant, after any sequence of wake-ups of its switches and throttles and of
    clock ticks, in any order that the event queue allows, the invariant holds,
    for every machine exactly the payloads that were on their way to it still are,
    and every event of the network that is due can be served: no wake-up stops
    with an error. *)
Theorem simple_run_conserves `{MTS : MachineTypesSpec} `{LSS : LinkSortSpec} P w w' :
  simple_ok P w → rtc simple_step w w' →
  simple_ok P w' ∧ (∀ m, copies m w' ≡ₚ copies m w) ∧
  ∀ i c, net_eventq w' !! i = Some (now w', c) → simple_consumer w' c →
    ∃ w'', wakeup_consumer c (remove_event i w') = Ok (tt, w'') ∧ simple_step w' w''.
Proof.
  intros Hok Hrun. destruct (run_ok_rtc P w w' Hok Hrun) as (Hok' & Hc & _). split_and!; [done|done|].
  intros i c. by apply (simple_progress P).
Qed.

(** ** A run of the concrete network *)
Section Exec.
Context `{MT : MachineTypes} `{LS : LinkSort}.

Definition simple_consumerb (w : GNet) (c : consumer) : bool :=
  match c with
  | CPerfectSwitch s => bool_decide (is_Some (vget (net_m_switches w) s))
  | CThrottle s t => bool_decide (is_Some (x ← vget (net_m_switches w) s; vget (sw_m_throttles x) t))
  | CController _ => true
  | CRouter _ | CLink _ | CNI _ => false
  end.

Lemma simple_consumerb_sound w c : simple_consumerb w c = true → simple_consumer w c.
Proof.
  destruct c; simpl; rewrite ?bool_decide_eq_true; try done.
  intros [y (x & Hx & Hy)%bind_Some]. by exists y, x.
Qed.

(** The oldest due event first, as long as it belongs to the network. *)
Fixpoint simple_exec (fuel : nat) (w : GNet) : outcome GNet :=
  match fuel with
  | O => Ok w
  | S fuel =>
      match first_due w with
      | Some (_, c) => assertO (simple_consumerb w c) "another consumer"
      | None => Ok tt
      end ;;
      w' ← exec_step w; simple_exec fuel w'
  end.
End Exec.

Lemma due_at_lookup t q i j c : due_at t i q = Some (j, c) → (i ≤ j)%nat ∧ q !! (j - i)%nat = Some (t, c).
Proof.
  revert i. induction q as [|[t' c'] q IH]; intros i; simpl; [done|]. destruct (Z.eqb_spec t' t) as [->|Hne].
  - intros [= -> ->]. by rewrite Nat.sub_diag.
  - intros [Hi Hl]%IH. split; [lia|]. by replace (j - i)%nat with (S (j - S i)) by lia.
Qed.

Lemma simple_exec_rtc `{MT : MachineTypes} `{LS : LinkSort} fuel w w' :
  simple_exec fuel w = Ok w' → rtc simple_step w w'.
Proof.
  revert w. induction fuel as [|fuel IH]; intros w; simpl; [by intros [= ->]|].
  destruct (first_due w) as [[i c]|] eqn:Hd.
  - unfold assertO. destruct (simple_consumerb w c) eqn:Hc; [|done]. unfold exec_step. rewrite Hd.
    destruct (wakeup_consumer c (remove_event i w)) as [[[] w1]|] eqn:Hrun; [|done]. intros Hx.
    eapply rtc_l; [|by apply IH]. apply due_at_lookup in Hd as [_ Hd]. rewrite Nat.sub_0_r in Hd.
    eapply simple_event; [done|by apply simple_consumerb_sound|done].
  - unfold exec_step. rewrite Hd. destruct (forallb _ _) eqn:Hall; [|done]. intros Hx.
    eapply rtc_l; [|by apply IH]. apply simple_tick. apply Forall_forall. intros e He.
    rewrite forallb_forall in Hall. apply Z.ltb_lt, Hall. by apply list_elem_of_In.
Qed.

(** The message reaches the queues of both controllers, one copy each. *)
Lemma simple_run_conserves_witness :
  ∃ w', rtc (simple_step (MT := two_types) (LS := stable_sort)) star_scene w' ∧
    simple_ok (MT := two_types) star_plan w' ∧ copies (mkMachineID 1 0) w' ≡ₚ [7] ∧
    length (queue w' 4) = 1%nat ∧ length (queue w' 5) = 1%nat.
Proof.
  assert (Eq : match simple_exec (MT := two_types) (LS := stable_sort) 5 star_scene with
               | Ok w => Some (length (queue w 4), length (queue w 5)) | Abort _ => None end = Some (1, 1)%nat)
    by (vm_compute; reflexivity).
  assert (Ec : copies (mkMachineID 1 0) star_scene = [7]) by (vm_compute; reflexivity).
  destruct (simple_exec (MT := two_types) (LS := stable_sort) 5 star_scene) as [w'|] eqn:E; [|discriminate Eq].
  injection Eq as E4 E5.
  exists w'. pose proof (simple_exec_rtc (MT := two_types) (LS := stable_sort) 5 star_scene w' E) as Hrun.
  split; [exact Hrun|].
  destruct (simple_run_conserves (MT := two_types) (LS := stable_sort) star_plan star_scene w' star_scene_ok Hrun)
    as (H1 & H2 & _).
  split; [exact H1|]. split; [|split; [exact E4|exact E5]].
  rewrite <- Ec. exact (H2 (mkMachineID 1 0)).
Defined.
