(* ===== verification/TopologyTheory.v ===== *)
(** * Correctness of the topology's routing tables

    [extend_shortest_path] against the definition of a shortest path: the
    result of the loop is the least weight of a walk.  From it follow what the
    routing tables contain and that following them leads to the destination. *)

From S2P Require Import Prelude BinaryHeap NetDestModel CommonTypes GarnetState FlitBuffer Channels RoutingUnitModel SwapModel UnitsModel SwitchAllocatorModel MessageBufferModel NetworkInterfaceModel BuildModel Scenarios SystemModel NetDestTheory TopologyModel RoutingTheory.

(** ** Square matrices *)
Definition square (n : Z) (m : Matrix) : Prop :=
  vsize m = n ∧ ∀ i row, vget m i = Some row → vsize row = n.

Definition ent (m : Matrix) (i j : Z) : Z :=
  match Matrix_get m i j with Ok v => v | Abort _ => 0 end.

Section Square.
Context (n : Z).

Definition inside (i : Z) : Prop := 0 ≤ i < n.

Lemma square_row m i : square n m → inside i → ∃ row, vget m i = Some row ∧ vsize row = n.
Proof.
  intros [Hm Hr] Hi. destruct (vget_lookup m i) as [row E]; [by rewrite Hm|]. eauto.
Qed.

Lemma Matrix_get_Ok m i j : square n m → inside i → inside j → Matrix_get m i j = Ok (ent m i j).
Proof.
  intros Hm Hi Hj. destruct (square_row m i Hm Hi) as (row & E & Hr).
  unfold ent, Matrix_get, mbind, outcome_bind, vgetO. rewrite E.
  destruct (vget_lookup row j) as [v ->]; [by rewrite Hr|done].
Qed.

Lemma Matrix_set_square m i j v : square n m → square n (Matrix_set m i j v).
Proof.
  intros [Hm Hr]. unfold Matrix_set. destruct (vget m i) as [row|] eqn:E; [|done].
  split; [by rewrite vsize_vset|]. intros i' row'. rewrite vget_vset.
  case_decide; [|apply Hr]. intros [= <-]. rewrite vsize_vset. eauto.
Qed.

Lemma ent_set m i j v i' j' :
  square n m → inside i → inside j →
  ent (Matrix_set m i j v) i' j' = if decide (i' = i ∧ j' = j) then v else ent m i' j'.
Proof.
  intros Hm Hi Hj. destruct (square_row m i Hm Hi) as (row & E & Hr).
  unfold ent, Matrix_set, Matrix_get, mbind, outcome_bind, vgetO. rewrite E, vget_vset.
  destruct (decide (i' = i)) as [->|Hne].
  - rewrite (decide_True (P := i = i ∧ _)) by (split; [done|by rewrite (proj1 Hm)]).
    rewrite vget_vset, E. destruct (decide (j' = j)) as [->|Hj'].
    + by rewrite !decide_True by (rewrite ?Hr; done).
    + by rewrite !decide_False by naive_solver.
  - by rewrite !decide_False by naive_solver.
Qed.

(** The sum of all entries. *)
Lemma sum_vset (l : list Z) i v w :
  vget l i = Some w → foldr Z.add 0 (vset l i v) = foldr Z.add 0 l - w + v.
Proof.
  intros [Hi E]%vget_Some. unfold vset. rewrite (proj2 (Z.leb_le 0 i) Hi). clear Hi.
  generalize dependent (Z.to_nat i). induction l as [|a l IH]; intros [|k] E; simpl in *; try done.
  - simplify_eq. lia.
  - rewrite (IH k E). lia.
Qed.

Lemma Matrix_sum_vset (m : Matrix) i row row' :
  vget m i = Some row →
  Matrix_sum (vset m i row') = Matrix_sum m - foldr Z.add 0 row + foldr Z.add 0 row'.
Proof.
  intros [Hi E]%vget_Some. unfold vset. rewrite (proj2 (Z.leb_le 0 i) Hi). clear Hi.
  unfold Matrix_sum.
  generalize dependent (Z.to_nat i). induction m as [|a m IH]; intros [|k] E; simpl in *; try done.
  - simplify_eq. lia.
  - rewrite (IH k E). lia.
Qed.

Lemma Matrix_sum_set m i j v :
  square n m → inside i → inside j →
  Matrix_sum (Matrix_set m i j v) = Matrix_sum m - ent m i j + v.
Proof.
  intros Hm Hi Hj. destruct (square_row m i Hm Hi) as (row & E & Hr).
  destruct (vget_lookup row j) as [x Ex]; [by rewrite Hr|].
  unfold Matrix_set, ent, Matrix_get, mbind, outcome_bind, vgetO. rewrite E, Ex.
  rewrite (Matrix_sum_vset _ _ _ _ E), (sum_vset _ _ _ _ Ex). lia.
Qed.

Definition nonneg (m : Matrix) : Prop := ∀ i j, inside i → inside j → 0 ≤ ent m i j.

Lemma sum_nonneg m : square n m → nonneg m → 0 ≤ Matrix_sum m.
Proof.
  intros [Hm Hr] Hn.
  assert (H : ∀ row, row ∈ m → 0 ≤ foldr Z.add 0 row).
  { intros row [k Hk]%list_elem_of_lookup.
    assert (Ev : vget m (Z.of_nat k) = Some row) by (apply vget_Some; rewrite Nat2Z.id; split; [lia|done]).
    assert (Hx : ∀ x, x ∈ row → 0 ≤ x).
    { intros x [q Hq]%list_elem_of_lookup.
      assert (Ex : vget row (Z.of_nat q) = Some x) by (apply vget_Some; rewrite Nat2Z.id; split; [lia|done]).
      pose proof (vget_Some_lt _ _ _ Ev). pose proof (vget_Some_lt _ _ _ Ex).
      specialize (Hn (Z.of_nat k) (Z.of_nat q)). unfold inside, ent, Matrix_get, vgetO in Hn.
      rewrite Ev in Hn. simpl in Hn. rewrite Ex in Hn. rewrite (Hr _ _ Ev) in *. apply Hn; lia. }
    clear -Hx. induction row as [|x row IH]; simpl; [lia|].
    pose proof (Hx x ltac:(set_solver)). pose proof (IH ltac:(set_solver)). lia. }
  clear -H. induction m as [|row m IH]; simpl; [lia|].
  pose proof (H row ltac:(set_solver)). pose proof (IH ltac:(set_solver)). unfold Matrix_sum in *. lia.
Qed.
End Square.

(** ** Walks and their weights *)
Section Paths.
Context (n : Z) (w : Matrix).

(** [walk i j c]: a walk of at least one edge from [i] to [j] whose weights add
    up to [c]. *)
Inductive walk_weight : Z → Z → Z → Prop :=
  | walk_edge i j : inside n i → inside n j → walk_weight i j (ent w i j)
  | walk_step i k j c :
      inside n i → inside n k → walk_weight k j c → walk_weight i j (ent w i k + c).

Lemma walk_app i k j a b : walk_weight i k a → walk_weight k j b → walk_weight i j (a + b).
Proof.
  induction 1; intros H2; [by apply walk_step|].
  rewrite <- Z.add_assoc. apply walk_step; auto.
Qed.

Lemma walk_nonneg i j c : nonneg n w → walk_weight i j c → 0 ≤ c.
Proof.
  intros Hw. induction 1; [by apply Hw|]. pose proof (Hw i k). naive_solver lia.
Qed.

(** What holds of the matrices during the loop: the distances are at most the
    weights and are weights of walks. *)
Record path_inv (s : PathState) : Prop := {
  pi_dist : square n (ps_dist s);
  pi_lat : square n (ps_lat s);
  pi_inter : square n (ps_inter s);
  pi_le i j : inside n i → inside n j → ent (ps_dist s) i j ≤ ent w i j;
  pi_walk i j : inside n i → inside n j → walk_weight i j (ent (ps_dist s) i j);
}.

Definition triangle (d : Matrix) (i j : Z) : Prop :=
  ∀ k, inside n k → ent d i j ≤ ent d i k + ent d k j.

(** A state with the same distances and latencies. *)
Definition same_paths (s s' : PathState) : Prop :=
  ps_dist s' = ps_dist s ∧ ps_lat s' = ps_lat s ∧ square n (ps_inter s').

Lemma wp_distP i j Q s :
  square n (ps_dist s) → inside n i → inside n j → Q (ent (ps_dist s) i j) s → wp (distP i j) Q s.
Proof.
  intros. apply wp_bind, wp_gets, (wp_lift _ (ent (ps_dist s) i j)); [by apply (Matrix_get_Ok n)|done].
Qed.
Lemma wp_latP i j Q s :
  square n (ps_lat s) → inside n i → inside n j → Q (ent (ps_lat s) i j) s → wp (latP i j) Q s.
Proof.
  intros. apply wp_bind, wp_gets, (wp_lift _ (ent (ps_lat s) i j)); [by apply (Matrix_get_Ok n)|done].
Qed.
Lemma wp_interP i j Q s :
  square n (ps_inter s) → inside n i → inside n j → Q (ent (ps_inter s) i j) s → wp (interP i j) Q s.
Proof.
  intros. apply wp_bind, wp_gets, (wp_lift _ (ent (ps_inter s) i j)); [by apply (Matrix_get_Ok n)|done].
Qed.

Lemma wp_extend_via i j k v s :
  square n (ps_dist s) → square n (ps_inter s) → inside n i → inside n j → inside n k →
  wp (extend_via i j k v)
     (λ v' s', same_paths s s' ∧
        let c := ent (ps_dist s) i k + ent (ps_dist s) k j in
        fst v' = Z.min (fst v) c ∧ snd v' = if c <? fst v then k else snd v) s.
Proof.
  intros Hd Hi ? ? ?. destruct v as [m0 k0]. unfold extend_via.
  apply wp_bind, wp_distP; [done..|]. apply wp_bind, wp_distP; [done..|].
  set (c := ent (ps_dist s) i k + ent (ps_dist s) k j). simpl.
  destruct (Z.eqb_spec m0 (Z.min m0 c)) as [E|E]; simpl.
  - apply wp_ret. destruct (Z.ltb_spec c m0); [lia|]. done.
  - do 3 (apply wp_bind, wp_interP; [done..|]). apply wp_bind, wp_modify, wp_ret.
    destruct (Z.ltb_spec c m0); [|lia]. split; [|done].
    split; [done|]. split; [done|]. by apply Matrix_set_square.
Qed.

(** The minimum over all intermediate switches. *)
Definition best (d : Matrix) (i j m : Z) : Prop :=
  m ≤ ent d i j ∧ (∀ k, inside n k → m ≤ ent d i k + ent d k j) ∧
  (m = ent d i j ∨ ∃ k, inside n k ∧ m = ent d i k + ent d k j).

Lemma wp_extend_all i j s :
  square n (ps_dist s) → square n (ps_inter s) → inside n i → inside n j →
  wp (foldM (zrange 0 n) (ent (ps_dist s) i j, -1) (extend_via i j))
     (λ v s', same_paths s s' ∧ best (ps_dist s) i j (fst v) ∧
        (fst v ≠ ent (ps_dist s) i j → inside n (snd v))) s.
Proof.
  intros Hd Hi Hii Hij. set (d := ps_dist s) in *.
  eapply wp_mono; [apply (wp_foldM _ _ _ (λ pre v s',
    same_paths s s' ∧ fst v ≤ ent d i j ∧ (∀ k, k ∈ pre → fst v ≤ ent d i k + ent d k j) ∧
    (fst v = ent d i j ∨ ∃ k, inside n k ∧ fst v = ent d i k + ent d k j) ∧
    (fst v ≠ ent d i j → inside n (snd v))))|].
  - split; [done|]. split; [simpl; lia|]. split; [set_solver|]. split; [by left|done].
  - intros pre k v s' Hk%elem_of_zrange ((Ed & El & Hs') & Hle & Hall & Hat & Hin).
    eapply wp_mono; [apply wp_extend_via; [by rewrite Ed|done..]|].
    intros v' s'' ((Ed' & El' & Hs'') & Hf & Hn). rewrite Ed in Hf, Hn. fold d in Hf, Hn.
    split; [split; [congruence|split; [congruence|done]]|]. split; [lia|].
    split; [intros k' [?%Hall| ->%list_elem_of_singleton]%elem_of_app; lia|].
    rewrite Hn, Hf. destruct (Z.ltb_spec (ent d i k + ent d k j) (fst v)) as [Hlt|Hge].
    + split; [right; exists k; split; [done|lia]|done].
    + split; [destruct Hat as [?|(q & ? & ?)]; [left; lia|right; exists q; split; [done|lia]]|].
      intros ?. apply Hin. lia.
  - intros v s' (Hs & Hle & Hall & Hat & Hin). split; [done|]. split; [|done].
    split; [done|]. split; [|done]. intros k Hk. apply Hall, elem_of_zrange, Hk.
Qed.

Lemma best_walk d i j m :
  inside n i → inside n j →
  (∀ i j, inside n i → inside n j → walk_weight i j (ent d i j)) → best d i j m → walk_weight i j m.
Proof.
  intros Hi Hj Hw (_ & _ & [-> | (k & Hk & ->)]); [by apply Hw|].
  apply walk_app with k; by apply Hw.
Qed.

(** A smaller distance is written. *)
Lemma path_inv_set s i j m lat :
  path_inv s → inside n i → inside n j → best (ps_dist s) i j m → square n lat →
  path_inv (s <| ps_dist ::= λ d, Matrix_set d i j m |> <| ps_lat := lat |>).
Proof.
  intros Hs Hi Hj Hb Hl. destruct Hs as [Hd _ Hin Hle Hw]. split; simpl; try done.
  - by apply Matrix_set_square.
  - intros i' j' Hi' Hj'. rewrite (ent_set n) by done. case_decide as E; [|by apply Hle].
    destruct E as [-> ->]. pose proof (Hle i j Hi Hj). destruct Hb. lia.
  - intros i' j' Hi' Hj'. rewrite (ent_set n) by done. case_decide as E; [|by apply Hw].
    destruct E as [-> ->]. by eapply best_walk.
Qed.

(** One pair of switches: nothing changes and the triangle inequality holds for
    the pair, or the sum of the distances decreases. *)
Definition pair_result (d : Matrix) (i j : Z) (change change' : bool) (d' : Matrix) : Prop :=
  (change' = change ∧ d' = d ∧ triangle d i j) ∨ (change' = true ∧ Matrix_sum d' < Matrix_sum d).

Lemma wp_extend_pair i j change s :
  path_inv s → inside n i → inside n j →
  wp (extend_pair n i j change)
     (λ change' s', path_inv s' ∧ pair_result (ps_dist s) i j change change' (ps_dist s')) s.
Proof.
  intros Hs Hi Hj. pose proof Hs as [Hd Hl Hin Hle Hw]. unfold extend_pair.
  apply wp_bind, wp_distP; [done..|]. apply wp_bind.
  eapply wp_mono; [by apply wp_extend_all|]. intros [m k] s1 ((Ed & El & Hin1) & Hb & Hk).
  simpl in *. apply wp_bind, wp_distP; [by rewrite Ed|done..|]. rewrite Ed.
  assert (Hs1 : path_inv s1).
  { split; rewrite ?Ed, ?El; try done. }
  destruct (Z.eqb_spec (ent (ps_dist s) i j) m) as [E|E]; simpl.
  - apply wp_ret. split; [done|]. left. split; [done|]. split; [done|].
    intros q Hq. destruct Hb as (_ & Hall & _). rewrite E. by apply Hall.
  - assert (Hkin : inside n k) by (apply Hk; congruence). apply wp_bind, wp_modify.
    apply wp_bind, wp_assertM; [apply Z.leb_le, Hkin|]. apply wp_bind, wp_gets.
    destruct (square_row n (ps_lat s1) i) as (row & Er & Hr); [by rewrite El|done|].
    apply wp_bind, (wp_lift _ row); [unfold vgetO; simpl; by rewrite Er|].
    apply wp_bind, wp_assertM; [rewrite Hr; apply Z.ltb_lt, Hkin|].
    do 2 (apply wp_bind, wp_latP; [simpl; by rewrite El|done..|]).
    apply wp_bind, wp_modify, wp_ret. split.
    + apply (path_inv_set s1); rewrite ?Ed; try done. simpl. rewrite El. by apply Matrix_set_square.
    + right. split; [done|]. simpl. rewrite Ed, (Matrix_sum_set n) by done. destruct Hb. lia.
Qed.

(** One pass over all pairs. *)
Definition pass_inv (d0 : Matrix) (done : Z → Z → Prop) (change : bool) (s : PathState) : Prop :=
  path_inv s ∧
  if change then Matrix_sum (ps_dist s) < Matrix_sum d0
  else ps_dist s = d0 ∧ ∀ i j, done i j → triangle d0 i j.

Lemma pass_inv_pair d0 (P P' : Z → Z → Prop) i j change s :
  inside n i → inside n j → (∀ i' j', P' i' j' → P i' j' ∨ (i' = i ∧ j' = j)) →
  pass_inv d0 P change s →
  wp (extend_pair n i j change) (pass_inv d0 P') s.
Proof.
  intros Hi Hj HP [Hs Hc]. eapply wp_mono; [by apply wp_extend_pair|].
  intros change' s' [Hs' [(-> & Ed & Ht)|[-> Hlt]]]; split; try done.
  - destruct change; [by rewrite Ed|]. destruct Hc as [Ed0 Hall]. split; [congruence|].
    intros i' j' [?|[-> ->]]%HP; [by apply Hall|by rewrite <- Ed0].
  - destruct change; [lia|]. destruct Hc as [<- _]. done.
Qed.

Lemma wp_extend_pass s :
  path_inv s → wp (extend_pass n) (pass_inv (ps_dist s) (λ i j, inside n i ∧ inside n j)) s.
Proof.
  intros Hs. set (d0 := ps_dist s). unfold extend_pass.
  eapply wp_mono; [apply (wp_foldM _ _ _ (λ pre, pass_inv d0 (λ i j, i ∈ pre ∧ inside n j)))|].
  - split; [done|]. split; [done|]. set_solver.
  - intros pre i change s1 Hi%elem_of_zrange H1.
    eapply wp_mono; [apply (wp_foldM _ _ _ (λ pre', pass_inv d0 (λ i' j',
      (i' ∈ pre ∧ inside n j') ∨ (i' = i ∧ j' ∈ pre'))))|].
    + destruct H1 as [? H1]. split; [done|]. destruct change; [done|].
      destruct H1 as [? H1]. split; [done|]. set_solver.
    + intros pre' j change' s2 Hj%elem_of_zrange H2. eapply pass_inv_pair; [done..| |done].
      set_solver.
    + intros c s' [? H2]. split; [done|]. destruct c; [done|]. destruct H2 as [? H2].
      split; [done|]. intros i' j' [[?| ->%list_elem_of_singleton]%elem_of_app ?]; apply H2; [by left|right].
      split; [done|]. by apply elem_of_zrange.
  - intros c s' [? H1]. split; [done|]. destruct c; [done|]. destruct H1 as [? H1]. split; [done|].
    intros i j [? ?]. apply H1. split; [by apply elem_of_zrange|done].
Qed.

Lemma path_inv_nonneg s : nonneg n w → path_inv s → nonneg n (ps_dist s).
Proof. intros Hn Hs i j Hi Hj. eapply walk_nonneg; [done|]. by apply pi_walk. Qed.

(** The loop ends, with distances that satisfy the triangle inequality. *)
Lemma wp_extend_loop fuel s :
  nonneg n w → path_inv s → (Z.to_nat (Matrix_sum (ps_dist s)) < fuel)%nat →
  wp (extend_loop fuel n)
     (λ ended s', ended = true ∧ path_inv s' ∧
        ∀ i j, inside n i → inside n j → triangle (ps_dist s') i j) s.
Proof.
  intros Hn. revert s. induction fuel as [|fuel IH]; intros s Hs Hf; [lia|]. simpl.
  apply wp_bind. eapply wp_mono; [by apply wp_extend_pass|]. intros change s' [Hs' Hc].
  destruct change.
  - apply IH; [done|]. pose proof (sum_nonneg n _ (pi_dist s' Hs') (path_inv_nonneg s' Hn Hs')). lia.
  - apply wp_ret. destruct Hc as [Ed Ht]. split; [done|]. split; [done|]. rewrite Ed. auto.
Qed.

(** Distances that satisfy the triangle inequality are the least weights. *)
Lemma triangle_least d i j c :
  (∀ i j, inside n i → inside n j → ent d i j ≤ ent w i j) →
  (∀ i j, inside n i → inside n j → triangle d i j) →
  walk_weight i j c → inside n j → ent d i j ≤ c.
Proof.
  intros Hle Ht. induction 1 as [|i k j c Hi Hk _ IH]; intros Hj; [by apply Hle|].
  pose proof (Ht i j Hi Hj k Hk). pose proof (Hle i k Hi Hk). specialize (IH Hj). lia.
Qed.
End Paths.

(** The least weight of a walk. *)
Definition distance_of (n : Z) (w : Matrix) (i j d : Z) : Prop :=
  walk_weight n w i j d ∧ ∀ c, walk_weight n w i j c → d ≤ c.

Lemma shortest_path_Ok n weights latencies inter_switches fuel :
  square n weights → square n latencies → square n inter_switches → nonneg n weights →
  (path_fuel weights ≤ fuel)%nat →
  ∃ dist, shortest_path fuel weights latencies inter_switches = Ok (Some dist) ∧
    square n dist ∧ ∀ i j, inside n i → inside n j → distance_of n weights i j (ent dist i j).
Proof.
  intros Hw Hl Hin Hn Hf. set (s := mkPathState weights latencies inter_switches).
  assert (Hs : path_inv n weights s).
  { split; simpl; try done. intros i j ? ?. by apply walk_edge. }
  pose proof (wp_extend_loop n weights fuel s Hn Hs) as H.
  unfold path_fuel in Hf. specialize (H ltac:(simpl; lia)). unfold wp in H.
  unfold shortest_path, extend_shortest_path. fold s.
  erewrite bind_run; [|done]. simpl. rewrite (proj1 Hw).
  destruct (extend_loop fuel n s) as [[ended s']|]; [|done]. destruct H as (-> & Hs' & Ht).
  exists (ps_dist s'). split; [done|]. split; [by apply (pi_dist n weights)|].
  intros i j Hi Hj. split; [by apply (pi_walk n weights)|]. intros c Hc.
  eapply triangle_least; [|done..]. apply (pi_le n weights s' Hs').
Qed.

(** C29.  [shortest_path] ends and is correct: for square matrices and
    non-negative weights the [while (change)] loop stops after at most one pass
    more than the sum of the weights, no assertion fails, and the entry for
    switches [i] and [j] is the least weight of a walk from [i] to [j]. *)
Theorem shortest_path_correct n weights latencies inter_switches fuel :
  square n weights → square n latencies → square n inter_switches → nonneg n weights →
  (path_fuel weights ≤ fuel)%nat →
  ∃ dist, shortest_path fuel weights latencies inter_switches = Ok (Some dist) ∧
    square n dist ∧ ∀ i j, inside n i → inside n j → distance_of n weights i j (ent dist i j).
Proof. apply shortest_path_Ok. Qed.

(** ** The matrices of a topology *)
Definition topology_size (tp : Topology) : Z := max_switch_id tp + 1.

(** Links join different switches and have a weight that counts as a link. *)
Definition links_ok (tp : Topology) : Prop :=
  ∀ i j e, tp_m_link_map tp !! (i, j) = Some e →
    0 ≤ i ∧ 0 ≤ j ∧ i ≠ j ∧ 0 < bl_m_weight (le_link e) < INFINITE_LATENCY.

Lemma max_switch_nonneg tp : 0 ≤ max_switch_id tp.
Proof.
  unfold max_switch_id. induction (map_to_list (tp_m_link_map tp)) as [|[[a b] e] l IH]; simpl; lia.
Qed.

Lemma link_inside tp i j e :
  links_ok tp → tp_m_link_map tp !! (i, j) = Some e →
  inside (topology_size tp) i ∧ inside (topology_size tp) j.
Proof.
  intros Hl E. destruct (Hl _ _ _ E) as (? & ? & _).
  apply elem_of_map_to_list in E. unfold inside, topology_size, max_switch_id.
  induction (map_to_list (tp_m_link_map tp)) as [|[[a b] e'] l IH]; [by apply not_elem_of_nil in E|].
  apply elem_of_cons in E as [[= <- <- <-]|E]; simpl; [lia|]. specialize (IH E). lia.
Qed.

Lemma square_const n v : 0 ≤ n → square n (Matrix_const n v).
Proof.
  intros. unfold Matrix_const. split; [unfold vsize; rewrite length_replicate; lia|].
  intros i row [_ E]%vget_Some. apply lookup_replicate in E as [-> _].
  unfold vsize. rewrite length_replicate. lia.
Qed.

Lemma ent_const n v i j : inside n i → inside n j → ent (Matrix_const n v) i j = v.
Proof.
  intros Hi Hj. unfold ent, Matrix_get, Matrix_const, mbind, outcome_bind, vgetO, vget.
  rewrite (proj2 (Z.leb_le 0 i) (proj1 Hi)), lookup_replicate_2 by (unfold inside in Hi; lia).
  rewrite (proj2 (Z.leb_le 0 j) (proj1 Hj)), lookup_replicate_2 by (unfold inside in Hj; lia). done.
Qed.

Lemma diagonal n m xs :
  square n m → (∀ x, x ∈ xs → inside n x) →
  square n (foldr (λ i m, Matrix_set m i i 0) m xs) ∧
  ∀ i j, ent (foldr (λ i m, Matrix_set m i i 0) m xs) i j =
    if decide (i = j ∧ i ∈ xs) then 0 else ent m i j.
Proof.
  intros Hm. induction xs as [|x xs IH]; intros Hx; simpl.
  { split; [done|]. intros i j. rewrite decide_False by set_solver. done. }
  destruct IH as [IHs IHe]; [intros y Hy; apply Hx; by right|].
  assert (Hxn : inside n x) by (apply Hx; left). split; [by apply Matrix_set_square|].
  intros i j. rewrite (ent_set n), IHe by done.
  destruct (decide (i = x ∧ j = x)) as [[-> ->]|Hne].
  - rewrite decide_True; [done|]. split; [done|left].
  - apply decide_ext. rewrite elem_of_cons. naive_solver.
Qed.

Lemma fill_entries n (f : BasicLink → Z) (l : list (Z * Z * LinkEntry)) m :
  square n m → NoDup l.*1 → (∀ p e, (p, e) ∈ l → inside n (fst p) ∧ inside n (snd p)) →
  let m' := foldr (λ e m, Matrix_set m (fst (fst e)) (snd (fst e)) (f (le_link (snd e)))) m l in
  square n m' ∧
  (∀ i j e, ((i, j), e) ∈ l → ent m' i j = f (le_link e)) ∧
  (∀ i j, (∀ e, ((i, j), e) ∉ l) → ent m' i j = ent m i j).
Proof.
  intros Hm. induction l as [|[[a b] e0] l IH]; intros Hnd Hl; simpl.
  { split; [done|]. split; [|done]. by intros i j e ?%not_elem_of_nil. }
  apply NoDup_cons in Hnd as [Hni Hnd]. destruct IH as (IHs & IHi & IHo);
    [done|intros p e He; apply (Hl p e); by right|].
  destruct (Hl (a, b) e0) as [Ha Hb]; [left|]. simpl in *.
  split; [by apply Matrix_set_square|]. split.
  - intros i j e [[= -> -> ->]|Hin]%elem_of_cons; rewrite (ent_set n) by done.
    + by rewrite decide_True.
    + rewrite decide_False; [by apply IHi|]. intros [-> ->]. apply Hni, list_elem_of_fmap.
      by exists (a, b, e).
  - intros i j Hn. rewrite (ent_set n) by done. rewrite decide_False.
    + apply IHo. intros e He. apply (Hn e). by right.
    + intros [-> ->]. apply (Hn e0). left.
Qed.

Lemma fill_spec tp f m :
  links_ok tp → square (topology_size tp) m →
  square (topology_size tp) (fill f tp m) ∧
  ∀ i j, ent (fill f tp m) i j =
    match tp_m_link_map tp !! (i, j) with Some e => f (le_link e) | None => ent m i j end.
Proof.
  intros Hl Hm. unfold fill.
  destruct (fill_entries (topology_size tp) f (map_to_list (tp_m_link_map tp)) m) as (Hs & Hi & Ho).
  - done.
  - apply NoDup_fst_map_to_list.
  - intros [i j] e E%elem_of_map_to_list. by eapply link_inside.
  - split; [done|]. intros i j. destruct (tp_m_link_map tp !! (i, j)) as [e|] eqn:E.
    + by apply Hi, elem_of_map_to_list.
    + apply Ho. intros e He%elem_of_map_to_list. congruence.
Qed.

Lemma weights_spec tp :
  links_ok tp →
  square (topology_size tp) (topology_weights tp) ∧
  ∀ i j, inside (topology_size tp) i → inside (topology_size tp) j →
    ent (topology_weights tp) i j =
      match tp_m_link_map tp !! (i, j) with
      | Some e => bl_m_weight (le_link e)
      | None => if decide (i = j) then 0 else INFINITE_LATENCY
      end.
Proof.
  intros Hl. pose proof (max_switch_nonneg tp). unfold topology_weights. fold (topology_size tp).
  set (n := topology_size tp). assert (Hn : 0 ≤ n) by (unfold n, topology_size; lia).
  destruct (diagonal n (Matrix_const n INFINITE_LATENCY) (zrange 0 n)) as [Hd He].
  { by apply square_const. }
  { intros x Hx%elem_of_zrange. done. }
  destruct (fill_spec tp bl_m_weight _ Hl Hd) as [Hf Hfe]. split; [done|].
  intros i j Hi Hj. rewrite Hfe, He. destruct (tp_m_link_map tp !! (i, j)); [done|].
  rewrite ent_const by done. repeat case_decide; try done.
  - naive_solver.
  - exfalso. assert (i ∈ zrange 0 n) by (by apply elem_of_zrange). naive_solver.
Qed.

Lemma weights_nonneg tp : links_ok tp → nonneg (topology_size tp) (topology_weights tp).
Proof.
  intros Hl i j Hi Hj. rewrite (proj2 (weights_spec tp Hl)) by done.
  destruct (tp_m_link_map tp !! (i, j)) as [e|] eqn:E; [destruct (Hl _ _ _ E); lia|].
  unfold INFINITE_LATENCY. case_decide; lia.
Qed.

(** [createLinks] computes the distances of the topology. *)
Lemma topology_distances tp :
  links_ok tp →
  ∃ dist, shortest_path (path_fuel (topology_weights tp)) (topology_weights tp)
            (component_latencies tp) (Matrix_const (max_switch_id tp + 1) 0) = Ok (Some dist) ∧
    square (topology_size tp) dist ∧
    ∀ i j, inside (topology_size tp) i → inside (topology_size tp) j →
      distance_of (topology_size tp) (topology_weights tp) i j (ent dist i j).
Proof.
  intros Hl. pose proof (max_switch_nonneg tp). apply shortest_path_Ok.
  - by apply weights_spec.
  - apply fill_spec; [done|]. apply square_const. unfold topology_size. lia.
  - apply square_const. unfold topology_size. lia.
  - by apply weights_nonneg.
  - lia.
Qed.

(** ** Routing table entries *)
Lemma foldl_Ok {V A} (F : outcome V → A → outcome V) (I : list A → V → Prop) xs v :
  I [] v →
  (∀ pre x post v, xs = pre ++ x :: post → I pre v → ∃ v', F (Ok v) x = Ok v' ∧ I (pre ++ [x]) v') →
  ∃ v', foldl F (Ok v) xs = Ok v' ∧ I xs v'.
Proof.
  intros H0 HS. revert v H0. induction xs as [|x xs IH] using rev_ind; intros v H0; [eauto|].
  destruct (IH) with (v := v) as (v1 & E & H1); [|done|].
  { intros pre y post u -> Hu. apply (HS pre y (post ++ [x])); [by rewrite <- app_assoc|done]. }
  rewrite foldl_app, E. simpl. by apply (HS xs x []).
Qed.

Section Tables.
Context `{MTS : MachineTypesSpec}.

(** The switch through which messages for a machine leave the network. *)
Definition exit_switch (m : MachineID) : Z := node_number m + MachineType_base_number MachineType_NUM.

Definition on_path (w d : Matrix) (src next t : Z) : bool := ent w src next + ent d next t =? ent d src t.

Lemma base_number_nonneg : 0 ≤ MachineType_base_number MachineType_NUM.
Proof.
  pose proof mt_num_pos. rewrite <- mt_number_0. apply base_number_mono; lia.
Qed.

Lemma node_number_lt m :
  valid_machine m → 0 ≤ node_number m < MachineType_base_number MachineType_NUM.
Proof.
  intros Hm. pose proof (node_number_range m Hm) as Hr. destruct (Hm) as [Ht _]. split.
  - pose proof (base_number_mono 0 (mid_type m)). rewrite mt_number_0 in *. lia.
  - pose proof (base_number_mono (mid_type m + 1) MachineType_NUM). lia.
Qed.

Lemma zrange_prefix lo hi pre x post :
  zrange lo hi = pre ++ x :: post → x = lo + vsize pre ∧ lo ≤ x < hi.
Proof.
  intros E. assert (Hl : zrange lo hi !! length pre = Some x) by (rewrite E; by apply list_lookup_middle).
  unfold zrange, vsize in *. apply lookup_seqZ in Hl. lia.
Qed.

Lemma vsize_zrange n : 0 ≤ n → vsize (zrange 0 n) = n.
Proof. intros. unfold vsize, zrange. rewrite length_seqZ. lia. Qed.

Lemma vsize_snoc {A} (l : list A) x : vsize (l ++ [x]) = vsize l + 1.
Proof. unfold vsize. rewrite length_app. simpl. lia. Qed.

(** The machines before machine [i] of type [t], in the order of the loops. *)
Definition before (t i : Z) (m : MachineID) : bool :=
  (mid_type m <? t) || ((mid_type m =? t) && (mid_num m <? i)).

(** What the loops have built when they reach machine [i] of type [t]. *)
Definition entry_so_far (w d : Matrix) (src next t i : Z) (v : Z * NetDest) : Prop :=
  fst v = MachineType_base_number t + i ∧ wf_dest (snd v) ∧
  ∀ m, valid_machine m → mem m (snd v) = before t i m && on_path w d src next (exit_switch m).

Lemma entry_add w d src next t i v :
  valid_machine (mkMachineID t i) → entry_so_far w d src next t i v →
  ∃ r, (if on_path w d src next (fst v + MachineType_base_number MachineType_NUM)
        then NetDest_add (mkMachineID t i) (snd v) else Ok (snd v)) = Ok r ∧
    entry_so_far w d src next t (i + 1) (fst v + 1, r).
Proof.
  intros Hm (Hd & Hwf & Hmem). set (me := mkMachineID t i) in *.
  assert (Hx : fst v + MachineType_base_number MachineType_NUM = exit_switch me).
  { unfold exit_switch, node_number. rewrite Hd. done. }
  assert (Hb : ∀ m, before t (i + 1) m = bool_decide (m = me) || before t i m).
  { intros [t' i']. unfold before, me. simpl. case_bool_decide as E; simplify_eq.
    - rewrite Z.eqb_refl, (proj2 (Z.ltb_lt i (i + 1))) by lia. by rewrite orb_true_r.
    - destruct (Z.ltb_spec t' t), (Z.eqb_spec t' t), (Z.ltb_spec i' (i + 1)), (Z.ltb_spec i' i);
        try done; subst; try lia. exfalso. apply E. f_equal. lia. }
  rewrite Hx. destruct (on_path w d src next (exit_switch me)) eqn:Eon.
  - destruct (NetDest_add_mem (snd v) me Hwf Hm) as (r & -> & Hr & Hrm). exists r. split; [done|].
    split; [simpl; lia|]. split; [done|]. intros m Hv. simpl. rewrite Hrm, Hmem, Hb by done.
    case_bool_decide as E; [subst; by rewrite Eon|done].
  - exists (snd v). split; [done|]. split; [simpl; lia|]. split; [done|]. intros m Hv. simpl.
    rewrite Hmem, Hb by done. case_bool_decide as E; [subst; rewrite Eon; by rewrite !andb_false_r|done].
Qed.

Lemma entry_next_type w d src next t v :
  0 ≤ t < MachineType_NUM → entry_so_far w d src next t (MachineType_base_count t) v →
  entry_so_far w d src next (t + 1) 0 v.
Proof.
  intros Ht (Hd & Hwf & Hmem). split; [rewrite mt_number_S by done; lia|]. split; [done|].
  intros m Hv. rewrite Hmem by done. f_equal. destruct Hv as [_ Hn]. unfold before.
  destruct (Z.ltb_spec (mid_type m) t), (Z.ltb_spec (mid_type m) (t + 1)),
    (Z.eqb_spec (mid_type m) t), (Z.eqb_spec (mid_type m) (t + 1)),
    (Z.ltb_spec (mid_num m) 0), (Z.ltb_spec (mid_num m) (MachineType_base_count t)); try done; try lia.
  rewrite e in *. lia.
Qed.

Lemma shortest_path_to_node_Ok n src next w d :
  sizes_ok → square n w → square n d → inside n src → inside n next →
  2 * MachineType_base_number MachineType_NUM ≤ n →
  ∃ r, shortest_path_to_node src next w d = Ok r ∧ wf_dest r ∧
    ∀ m, valid_machine m → mem m r = on_path w d src next (exit_switch m).
Proof.
  intros Hsz Hw Hd Hs Hn H2. pose proof mt_num_pos. unfold shortest_path_to_node.
  rewrite (NetDest_resize_Ok Hsz). unfold mbind at 1, outcome_bind at 1.
  match goal with |- context [foldl ?F _ (zrange 0 MachineType_NUM)] => set (F0 := F) end.
  destruct (foldl_Ok F0 (λ pre, entry_so_far w d src next (vsize pre) 0) (zrange 0 MachineType_NUM)
              (0, no_dest)) as (v & Ev & Hv & Hwf & Hmem).
  - split; [simpl; by rewrite mt_number_0|]. split; [by apply wf_no_dest|]. intros m Hm.
    simpl. rewrite mem_no_dest. destruct Hm as [Ht Hi]. unfold before. change (vsize (@nil Z)) with 0.
    destruct (Z.ltb_spec (mid_type m) 0), (Z.ltb_spec (mid_num m) 0); try lia;
      by destruct (mid_type m =? 0).
  - intros pre t post v [Et Ht]%zrange_prefix Hv. rewrite vsize_snoc.
    replace (vsize pre) with t in * by lia.
    pose proof (mt_count_nonneg t Ht). unfold F0.
    match goal with |- context [foldl ?G (Ok v) _] => set (G0 := G) end.
    destruct (foldl_Ok G0 (λ pre', entry_so_far w d src next t (vsize pre'))
                (zrange 0 (MachineType_base_count t)) v) as (v' & Ev' & Hv'); [done| |].
    + intros pre' i post' u [Ei Hi]%zrange_prefix Hu.
      rewrite vsize_snoc. replace (vsize pre') with i in * by lia.
      assert (Hm : valid_machine (mkMachineID t i)) by (by split).
      destruct (entry_add w d src next t i u Hm Hu) as (r & Er & Hr). destruct u as [du ru]. simpl in *.
      exists (du + 1, r). split; [|done]. unfold G0, mbind, outcome_bind.
      pose proof (node_number_lt (mkMachineID t i) Hm) as Hnn. destruct Hu as [Hdu _].
      unfold node_number in Hnn. simpl in Hnn, Hdu.
      unfold link_is_shortest_path_to_node, mbind, outcome_bind.
      rewrite !(Matrix_get_Ok n) by (unfold inside in *; first [done|lia]).
      unfold on_path in Er. by rewrite Er.
    + exists v'. split; [done|]. apply entry_next_type; [done|]. by rewrite vsize_zrange in Hv'.
  - rewrite vsize_zrange in Hmem by lia. unfold mbind, outcome_bind. rewrite Ev.
    exists (snd v). split; [done|]. split; [done|]. intros m Hm. rewrite Hmem by done.
    destruct Hm as [Ht _]. unfold before. by rewrite (proj2 (Z.ltb_lt _ _) (proj2 Ht)).
Qed.

(** C30.  The routing table entry of a link: [shortest_path_to_node] returns the
    set of exactly those machines for which the link is the first one of a
    shortest path, that is, for which the weight of the link and the distance
    from its end add up to the distance from its start. *)
Theorem shortest_path_to_node_correct n src next w d :
  sizes_ok → square n w → square n d → inside n src → inside n next →
  2 * MachineType_base_number MachineType_NUM ≤ n →
  ∃ r, shortest_path_to_node src next w d = Ok r ∧ wf_dest r ∧
    ∀ m, valid_machine m →
      (mem m r = true ↔ ent w src next + ent d next (exit_switch m) = ent d src (exit_switch m)).
Proof.
  intros. destruct (shortest_path_to_node_Ok n src next w d) as (r & E & Hr & Hm); try done.
  exists r. split; [done|]. split; [done|]. intros m Hv. rewrite Hm by done. apply Z.eqb_eq.
Qed.

(** ** Following the tables *)
Definition topology_ok (tp : Topology) : Prop :=
  links_ok tp ∧ 2 * MachineType_base_number MachineType_NUM ≤ topology_size tp.

(** A hop of table routing towards machine [m]: along a link whose entry holds
    [m]. *)
Definition table_step (tp : Topology) (dist : Matrix) (m : MachineID) (i j : Z) : Prop :=
  is_Some (tp_m_link_map tp !! (i, j)) ∧
  ∃ r, shortest_path_to_node i j (topology_weights tp) dist = Ok r ∧ mem m r = true.

Section Follow.
Context (tp : Topology) (dist : Matrix).
Context (Hsz : sizes_ok) (Htp : topology_ok tp).
Let n := topology_size tp.
Let w := topology_weights tp.
Context (Hsq : square n dist).
Context (Hdist : ∀ i j, inside n i → inside n j → distance_of n w i j (ent dist i j)).

Lemma dist_nonneg i j : inside n i → inside n j → 0 ≤ ent dist i j.
Proof.
  intros Hi Hj. destruct (Hdist i j Hi Hj) as [Hwk _]. eapply walk_nonneg; [|done].
  by apply weights_nonneg, Htp.
Qed.

Lemma weight_diag i : inside n i → ent w i i = 0.
Proof.
  intros Hi. unfold w. destruct Htp as [Hl _]. rewrite (proj2 (weights_spec tp Hl)) by done.
  destruct (tp_m_link_map tp !! (i, i)) as [e|] eqn:E; [by destruct (Hl _ _ _ E) as (_ & _ & ? & _)|].
  by rewrite decide_True.
Qed.

Lemma dist_self i : inside n i → ent dist i i = 0.
Proof.
  intros Hi. pose proof (dist_nonneg i i Hi Hi). destruct (Hdist i i Hi Hi) as [_ Hm].
  pose proof (Hm _ (walk_edge n w i i Hi Hi)) as H1. rewrite weight_diag in H1 by done. lia.
Qed.

(** An edge that is lighter than [INFINITE_LATENCY] is a link. *)
Lemma light_edge_link i j :
  inside n i → inside n j → i ≠ j → ent w i j < INFINITE_LATENCY → is_Some (tp_m_link_map tp !! (i, j)).
Proof.
  intros Hi Hj Hne. unfold w. destruct Htp as [Hl _]. rewrite (proj2 (weights_spec tp Hl)) by done.
  destruct (tp_m_link_map tp !! (i, j)); [done|]. rewrite decide_False by done. lia.
Qed.

(** A light walk to another switch starts, after idle steps, with a link. *)
Lemma walk_first_link i t c :
  walk_weight n w i t c → i ≠ t → inside n t → c < INFINITE_LATENCY →
  ∃ j, inside n i ∧ inside n j ∧ is_Some (tp_m_link_map tp !! (i, j)) ∧ ent w i j + ent dist j t ≤ c.
Proof.
  induction 1 as [i t Hi Ht|i k t c Hi Hk Hw IH]; intros Hne Hit Hc.
  - exists t. rewrite dist_self by done. split_and!; try done; [by apply light_edge_link|lia].
  - assert (Hn : nonneg n w) by (by apply weights_nonneg, Htp).
    pose proof (walk_nonneg _ _ _ _ _ Hn Hw). pose proof (Hn i k Hi Hk).
    destruct (decide (k = i)) as [->|Hki].
    + rewrite weight_diag in * by done. apply IH; [done..|lia].
    + exists k. split_and!; try done; [apply light_edge_link; [done..|lia]|].
      destruct (Hdist k t Hk Hit) as [_ Hmin]. specialize (Hmin _ Hw). lia.
Qed.

Lemma exit_inside m : valid_machine m → inside n (exit_switch m).
Proof.
  intros Hm. pose proof (node_number_lt m Hm). destruct Htp as [_ H2].
  unfold inside, exit_switch, n. lia.
Qed.

Lemma table_step_iff m i j :
  valid_machine m → inside n i → inside n j → is_Some (tp_m_link_map tp !! (i, j)) →
  (table_step tp dist m i j ↔
   ent w i j + ent dist j (exit_switch m) = ent dist i (exit_switch m)).
Proof.
  intros Hm Hi Hj Hl.
  destruct (shortest_path_to_node_Ok n i j w dist) as (r & E & _ & Hr); try done.
  { by apply weights_spec, Htp. }
  { by destruct Htp. }
  specialize (Hr m Hm). unfold table_step. fold w. split.
  - intros (_ & r' & E' & Hmr). assert (r' = r) as -> by congruence. rewrite Hr in Hmr. by apply Z.eqb_eq.
  - intros Eq. split; [done|]. exists r. split; [done|]. rewrite Hr. by apply Z.eqb_eq.
Qed.

Lemma table_progress m i :
  valid_machine m → inside n i → i ≠ exit_switch m → ent dist i (exit_switch m) < INFINITE_LATENCY →
  ∃ j, table_step tp dist m i j.
Proof.
  intros Hm Hi Hne Hd. pose proof (exit_inside m Hm) as Ht. destruct (Hdist i _ Hi Ht) as [Hw Hmin].
  destruct (walk_first_link i _ _ Hw Hne Ht Hd) as (j & _ & Hj & Hl & Hle).
  exists j. apply table_step_iff; try done.
  pose proof (Hmin _ (walk_step n w i j _ _ Hi Hj (proj1 (Hdist j _ Hj Ht)))). lia.
Qed.

Lemma table_decrease m i j :
  valid_machine m → table_step tp dist m i j →
  inside n i ∧ inside n j ∧ 0 ≤ ent dist j (exit_switch m) < ent dist i (exit_switch m).
Proof.
  intros Hm Hs. pose proof Hs as [[e He] _]. destruct Htp as [Hl _].
  destruct (link_inside tp i j e Hl He) as [Hi Hj].
  apply table_step_iff in Hs; [|done..|by eexists].
  pose proof (dist_nonneg j _ Hj (exit_inside m Hm)). split_and!; try done.
  unfold w in Hs. rewrite (proj2 (weights_spec tp Hl)), He in Hs by done.
  destruct (Hl _ _ _ He) as (_ & _ & _ & ? & _). lia.
Qed.

Lemma table_delivers m next i :
  valid_machine m → inside n i → ent dist i (exit_switch m) < INFINITE_LATENCY →
  (∀ i j, table_step tp dist m i j → table_step tp dist m i (next i)) →
  ∃ k, Z.of_nat k ≤ ent dist i (exit_switch m) ∧ Nat.iter k next i = exit_switch m.
Proof.
  intros Hm Hi Hd Hnext. pose proof (dist_nonneg i _ Hi (exit_inside m Hm)) as H0.
  remember (Z.to_nat (ent dist i (exit_switch m))) as q eqn:Hq. revert i Hi Hd H0 Hq.
  induction q as [q IH] using lt_wf_ind. intros i Hi Hd H0 Hq.
  destruct (decide (i = exit_switch m)) as [->|Hne]; [exists O; simpl; split; [lia|done]|].
  destruct (table_progress m i Hm Hi Hne Hd) as [j Hj]. apply Hnext in Hj.
  destruct (table_decrease m i _ Hm Hj) as (_ & Hin & Hlt).
  destruct (IH (Z.to_nat (ent dist (next i) (exit_switch m)))) with (i := next i) as (k & Hk & E);
    [lia|done|lia..|]. exists (S k). split; [lia|]. rewrite Nat.iter_succ_r. done.
Qed.
End Follow.

(** C31.  Table routing delivers on every topology: [createLinks] finds the
    distances, and from every switch whose distance to a machine's exit is
    finite (below [INFINITE_LATENCY]) some link's table entry holds the
    machine, every such link leads strictly closer, and whichever of them the
    routers choose, the packet arrives after at most as many hops as the
    distance. *)
Theorem table_routing_delivers tp :
  sizes_ok → topology_ok tp →
  ∃ dist, shortest_path (path_fuel (topology_weights tp)) (topology_weights tp)
            (component_latencies tp) (Matrix_const (max_switch_id tp + 1) 0) = Ok (Some dist) ∧
    ∀ m i, valid_machine m → inside (topology_size tp) i →
      let t := exit_switch m in
      ent dist i t < INFINITE_LATENCY →
      (i ≠ t → ∃ j, table_step tp dist m i j) ∧
      (∀ j, table_step tp dist m i j → 0 ≤ ent dist j t < ent dist i t) ∧
      (∀ next, (∀ i j, table_step tp dist m i j → table_step tp dist m i (next i)) →
         ∃ k, Z.of_nat k ≤ ent dist i t ∧ Nat.iter k next i = t).
Proof.
  intros Hsz Htp. destruct (topology_distances tp) as (dist & E & Hsq & Hd); [apply Htp|].
  exists dist. split; [done|]. intros m i Hm Hi t Hlt. split_and!.
  - intros Hne. by apply (table_progress tp dist Hsz Htp Hsq Hd m i).
  - intros j Hj. by apply (table_decrease tp dist Hsz Htp Hsq Hd m i j).
  - intros next Hnext. by apply (table_delivers tp dist Hsz Htp Hsq Hd m next i).
Qed.

(** ** [createLinks] makes the links of the map *)
Lemma for_each_ext {St A} (xs : list A) (f g : A → M St ()) s :
  (∀ x s, x ∈ xs → f x s = g x s) → for_each xs f s = for_each xs g s.
Proof.
  revert s. induction xs as [|x xs IH]; intros s H; [done|]. simpl.
  unfold mbind, M_bind. rewrite (H x s) by left. destruct (g x s) as [[[] s']|]; [|done].
  apply IH. intros y s1 Hy. apply H. by right.
Qed.

Lemma for_each_app {St A} (xs ys : list A) (f : A → M St ()) s :
  for_each (xs ++ ys) f s = (for_each xs f ;; for_each ys f) s.
Proof.
  revert s. induction xs as [|x xs IH]; intros s; [done|]. simpl. unfold mbind, M_bind.
  destruct (f x s) as [[[] s']|]; [|done]. apply IH.
Qed.

Lemma for_each_bind {St A B} (xs : list A) (h : A → list B) (f : B → M St ()) s :
  for_each (xs ≫= h) f s = for_each xs (λ x, for_each (h x) f) s.
Proof.
  revert s. induction xs as [|x xs IH]; intros s; [done|]. simpl. rewrite for_each_app.
  unfold mbind, M_bind. destruct (for_each (h x) f s) as [[[] s']|]; [|done]. apply IH.
Qed.

(** The links of the map, row by row. *)
Definition links_in_order (tp : Topology) : list (Z * Z) :=
  zrange 0 (topology_size tp) ≫= λ i,
    zrange 0 (topology_size tp) ≫= λ j,
      if decide (is_Some (tp_m_link_map tp !! (i, j))) then [(i, j)] else [].

Lemma elem_of_links_in_order tp p :
  links_ok tp → p ∈ links_in_order tp ↔ is_Some (tp_m_link_map tp !! p).
Proof.
  intros Hl. destruct p as [i j]. unfold links_in_order. rewrite list_elem_of_bind. split.
  - intros (i' & H & _). apply list_elem_of_bind in H as (j' & H & _).
    case_decide; [|by apply not_elem_of_nil in H]. by apply list_elem_of_singleton in H as [= -> ->].
  - intros [e E]. destruct (link_inside tp i j e Hl E) as [Hi Hj].
    exists i. split; [|by apply elem_of_zrange]. apply list_elem_of_bind. exists j.
    split; [|by apply elem_of_zrange]. rewrite decide_True by (by eexists). left.
Qed.

Lemma NoDup_bind_disjoint {A B} (xs : list A) (h : A → list B) :
  NoDup xs → (∀ x, NoDup (h x)) → (∀ x y b, b ∈ h x → b ∈ h y → x = y) → NoDup (xs ≫= h).
Proof.
  intros Hx Hh Hd. induction Hx as [|x xs Hni _ IH]; simpl; [constructor|].
  apply NoDup_app. split; [done|]. split; [|done].
  intros b Hb (y & Hby & Hy)%list_elem_of_bind. rewrite (Hd x y b Hb Hby) in Hni. done.
Qed.

Lemma links_in_order_NoDup tp : NoDup (links_in_order tp).
Proof.
  apply NoDup_bind_disjoint; [apply NoDup_seqZ| |].
  - intros i. apply NoDup_bind_disjoint; [apply NoDup_seqZ| |].
    + intros j. case_decide; [apply NoDup_singleton|constructor].
    + intros j j' b. repeat case_decide;
        rewrite ?list_elem_of_singleton, ?elem_of_nil; naive_solver.
  - intros i i' b (j & H & _)%list_elem_of_bind (j' & H' & _)%list_elem_of_bind. revert H H'.
    repeat case_decide; rewrite ?list_elem_of_singleton, ?elem_of_nil; naive_solver.
Qed.

(** The weight test of [createLinks] recognises the links. *)
Lemma weight_test tp i j :
  links_ok tp → inside (topology_size tp) i → inside (topology_size tp) j →
  let wt := ent (topology_weights tp) i j in
  (0 <? wt) && negb (wt =? INFINITE_LATENCY) = bool_decide (is_Some (tp_m_link_map tp !! (i, j))).
Proof.
  intros Hl Hi Hj wt. unfold wt. rewrite (proj2 (weights_spec tp Hl)) by done.
  destruct (tp_m_link_map tp !! (i, j)) as [e|] eqn:E.
  - destruct (Hl _ _ _ E) as (_ & _ & _ & ? & ?). rewrite bool_decide_true by (by eexists).
    destruct (Z.ltb_spec 0 (bl_m_weight (le_link e))), (Z.eqb_spec (bl_m_weight (le_link e)) INFINITE_LATENCY);
      [lia|done|lia..].
  - rewrite bool_decide_false by (by intros [? ?]). by case_decide.
Qed.

(** C32.  [createLinks] is the abstract construction "make every link once":
    whatever network is built, it ends, and it does exactly what calling
    [makeLink] once for each link of the link map does, row by row, with the
    routing table entry of [shortest_path_to_node] for that link. *)
Theorem createLinks_refines {St} `{LM : LinkMaker St} tp :
  sizes_ok → topology_ok tp →
  ∃ dist entry,
    (∀ i j, inside (topology_size tp) i → inside (topology_size tp) j →
       distance_of (topology_size tp) (topology_weights tp) i j (ent dist i j)) ∧
    NoDup (links_in_order tp) ∧
    (∀ p, p ∈ links_in_order tp ↔ is_Some (tp_m_link_map tp !! p)) ∧
    (∀ i j, (i, j) ∈ links_in_order tp →
       shortest_path_to_node i j (topology_weights tp) dist = Ok (entry (i, j))) ∧
    ∀ s : St, createLinks tp s =
      for_each (links_in_order tp) (λ p, Topology_makeLink tp (fst p) (snd p) (entry p)) s.
Proof.
  intros Hsz Htp. pose proof Htp as [Hl H2].
  destruct (topology_distances tp Hl) as (dist & E & Hsq & Hd).
  destruct (weights_spec tp Hl) as [Hwsq _].
  set (entry := λ p, match shortest_path_to_node (fst p) (snd p) (topology_weights tp) dist with
                     | Ok r => r | Abort _ => no_dest end).
  assert (Hentry : ∀ i j, inside (topology_size tp) i → inside (topology_size tp) j →
    shortest_path_to_node i j (topology_weights tp) dist = Ok (entry (i, j))).
  { intros i j Hi Hj. unfold entry. simpl.
    by destruct (shortest_path_to_node_Ok (topology_size tp) i j (topology_weights tp) dist)
      as (r & -> & _). }
  exists dist, entry. split; [done|]. split; [apply links_in_order_NoDup|].
  split; [intros p; by apply elem_of_links_in_order|]. split.
  { intros i j [e Ep]%elem_of_links_in_order; [|done].
    destruct (link_inside tp i j e Hl Ep). by apply Hentry. }
  intros s. unfold createLinks. erewrite bind_run; [|unfold lift; by rewrite E].
  unfold links_in_order. rewrite for_each_bind, (proj1 Hwsq). apply for_each_ext.
  intros i s1 Hi%elem_of_zrange. destruct (square_row _ _ _ Hwsq Hi) as (row & Er & Hr).
  erewrite bind_run; [|unfold lift, vgetO; by rewrite Er]. rewrite for_each_bind, Hr.
  apply for_each_ext. intros j s2 Hj%elem_of_zrange.
  erewrite bind_run; [|unfold lift; by rewrite (Matrix_get_Ok _ _ _ _ Hwsq Hi Hj)].
  rewrite (weight_test tp i j Hl Hi Hj). case_bool_decide as Hlk.
  - rewrite decide_True by done. simpl. unfold mbind, M_bind, lift. rewrite (Hentry i j Hi Hj).
    by destruct (Topology_makeLink tp i j (entry (i, j)) s2) as [[[] ?]|].
  - by rewrite decide_False.
Qed.
End Tables.

(** ** The 2 x 2 mesh *)
#[export] Instance sample_types_spec : MachineTypesSpec (sample_types 4).
Proof. split; simpl; try done; intros; lia. Qed.

Definition link_okb (p : Z * Z) (e : LinkEntry) : bool :=
  (0 <=? fst p) && (0 <=? snd p) && negb (fst p =? snd p) &&
  (0 <? bl_m_weight (le_link e)) && (bl_m_weight (le_link e) <? INFINITE_LATENCY).

Lemma links_ok_check tp :
  forallb (λ q, link_okb (fst q) (snd q)) (map_to_list (tp_m_link_map tp)) = true → links_ok tp.
Proof.
  rewrite forallb_forall. intros H i j e E%elem_of_map_to_list%list_elem_of_In.
  specialize (H _ E). unfold link_okb in H. simpl in H. rewrite !andb_true_iff in H.
  destruct H as [[[[?%Z.leb_le ?%Z.leb_le] ?%negb_true_iff%Z.eqb_neq] ?%Z.ltb_lt] ?%Z.ltb_lt]. done.
Qed.

Definition mesh_2x2 : Topology :=
  match mesh_topology (MT := sample_types 4) 2 2 with
  | Ok tp => tp
  | Abort _ => mkTopology 0 0 [] [] ∅
  end.

Lemma mesh_2x2_ok : topology_ok (MT := sample_types 4) mesh_2x2.
Proof.
  split; [|by vm_compute]. apply links_ok_check. vm_compute. reflexivity.
Qed.

Lemma sample_sizes_ok : sizes_ok (MT := sample_types 4).
Proof. intros t _. simpl. unfold NUMBER_BITS_PER_SET. lia. Qed.

(** The network that [createLinks] builds is a wired mesh. *)
Lemma topology_net_wired :
  match topology_net (MT := sample_types 4) 2 2 1 TABLE_ 1 with
  | Ok w => mesh_wired w 2 2
  | Abort _ => false
  end = true.
Proof. vm_compute. reflexivity. Qed.

Lemma shortest_path_correct_witness :
  ∃ dist, shortest_path (path_fuel (topology_weights mesh_2x2)) (topology_weights mesh_2x2)
            (component_latencies mesh_2x2) (Matrix_const 12 0) = Ok (Some dist) ∧
    distance_of 12 (topology_weights mesh_2x2) 8 7 (ent dist 8 7).
Proof.
  pose proof mesh_2x2_ok as [Hl _]. assert (E12 : topology_size mesh_2x2 = 12) by (by vm_compute).
  destruct (shortest_path_correct 12 (topology_weights mesh_2x2) (component_latencies mesh_2x2)
              (Matrix_const 12 0) (path_fuel (topology_weights mesh_2x2))) as (dist & E & _ & Hd).
  - rewrite <- E12. by apply weights_spec.
  - rewrite <- E12. apply fill_spec; [exact Hl|]. apply square_const.
    pose proof (max_switch_nonneg mesh_2x2). lia.
  - apply square_const. lia.
  - rewrite <- E12. by apply weights_nonneg.
  - done.
  - exists dist. split; [exact E|]. apply Hd; unfold inside; lia.
Defined.

Lemma shortest_path_to_node_correct_witness :
  ∃ r, shortest_path_to_node (MT := sample_types 4) 0 1 (Matrix_const 8 1) (Matrix_const 8 2) = Ok r ∧
    wf_dest (MT := sample_types 4) r ∧ mem (mkMachineID 0 2) r = false.
Proof.
  destruct (shortest_path_to_node_correct (MT := sample_types 4) 8 0 1 (Matrix_const 8 1) (Matrix_const 8 2))
    as (r & E & Hr & Hm).
  - exact sample_sizes_ok.
  - apply square_const. lia.
  - apply square_const. lia.
  - unfold inside. lia.
  - unfold inside. lia.
  - done.
  - exists r. split; [exact E|]. split; [exact Hr|]. apply not_true_is_false. rewrite Hm by done.
    vm_compute. congruence.
Defined.

Lemma table_routing_delivers_witness :
  ∃ dist, shortest_path (path_fuel (topology_weights mesh_2x2)) (topology_weights mesh_2x2)
            (component_latencies mesh_2x2) (Matrix_const (max_switch_id mesh_2x2 + 1) 0) = Ok (Some dist) ∧
    ent dist 8 7 = 3 ∧ ∃ j, table_step (MT := sample_types 4) mesh_2x2 dist (mkMachineID 0 3) 8 j.
Proof.
  assert (Hv : valid_machine (MT := sample_types 4) (mkMachineID 0 3)) by (split; simpl; lia).
  assert (Hi : inside (topology_size mesh_2x2) 8) by (vm_compute; split; congruence).
  assert (Hne : 8 ≠ exit_switch (MT := sample_types 4) (mkMachineID 0 3)) by (by vm_compute).
  destruct (table_routing_delivers (MT := sample_types 4) mesh_2x2 sample_sizes_ok mesh_2x2_ok)
    as (dist & E & H).
  assert (E3 : ent dist 8 7 = 3).
  { assert (Hc : match shortest_path (path_fuel (topology_weights mesh_2x2)) (topology_weights mesh_2x2)
                   (component_latencies mesh_2x2) (Matrix_const (max_switch_id mesh_2x2 + 1) 0) with
                 | Ok (Some d) => ent d 8 7 | _ => 0 end = 3) by (vm_compute; reflexivity).
    rewrite E in Hc. exact Hc. }
  exists dist. split; [exact E|]. split; [exact E3|].
  assert (Hlt : ent dist 8 7 < INFINITE_LATENCY) by (rewrite E3; reflexivity).
  exact (proj1 (H (mkMachineID 0 3) 8 Hv Hi Hlt) Hne).
Defined.

Lemma createLinks_refines_witness :
  length (links_in_order mesh_2x2) = 16%nat ∧
  ∃ entry : Z * Z → NetDest,
    ∀ s : GNet, createLinks (MT := sample_types 4) mesh_2x2 s =
      for_each (links_in_order mesh_2x2)
        (λ p, Topology_makeLink mesh_2x2 (fst p) (snd p) (entry p)) s.
Proof.
  split; [by vm_compute|].
  destruct (createLinks_refines (MT := sample_types 4) (St := GNet) mesh_2x2 sample_sizes_ok mesh_2x2_ok)
    as (dist & entry & _ & _ & _ & _ & H).
  exists entry. exact H.
Defined.
