(* ===== verification/AddrRangeTheory.v ===== *)
(** * Correctness of address ranges

    Interleaved ranges with the same bounds and bits partition the addresses
    between them, which is what the merging constructor relies on; the offset
    of an address in a range identifies it; and the address map of the network
    finds the node that serves an address, in whatever order the map is
    iterated. *)

From S2P Require Import Prelude NetDestModel AddrRangeModel NetworkModel.

(** ** Bit fields *)
Lemma u64_small x : 0 ≤ x < 2 ^ 64 → u64 x = x.
Proof. apply Z.mod_small. Qed.

Lemma mask_ones n : 0 ≤ n ≤ 64 → mask n = Z.ones n.
Proof.
  intros Hn. unfold mask. destruct (Z.eqb_spec n 64) as [->|]; [done|].
  rewrite Z.shiftl_1_l, Z.ones_equiv.
  assert (0 < 2 ^ n < 2 ^ 64) by (split; [apply Z.pow_pos_nonneg|apply Z.pow_lt_mono_r]; lia).
  rewrite (u64_small (2 ^ n)) by lia. rewrite u64_small by lia. lia.
Qed.

Lemma bits_spec val first last n :
  n = first - last + 1 → 0 ≤ n ≤ 64 → bits val first last = Z.shiftr val last mod 2 ^ n.
Proof. intros -> Hn. unfold bits. rewrite mask_ones by done. apply Z.land_ones; lia. Qed.

Lemma bits_range val first last n :
  n = first - last + 1 → 0 ≤ n ≤ 64 → 0 ≤ bits val first last < 2 ^ n.
Proof. intros E Hn. rewrite (bits_spec _ _ _ n) by done. apply Z.mod_pos_bound, Z.pow_pos_nonneg; lia. Qed.

Lemma lxor_range a b n : 0 ≤ n → 0 ≤ a < 2 ^ n → 0 ≤ b < 2 ^ n → 0 ≤ Z.lxor a b < 2 ^ n.
Proof.
  intros Hn Ha Hb.
  assert (E : Z.lxor a b = Z.lxor a b mod 2 ^ n).
  { rewrite <- Z.land_ones by done. apply Z.bits_inj'. intros i Hi.
    rewrite Z.land_spec, Z.lxor_spec. destruct (Z.ltb_spec i n).
    - rewrite Z.ones_spec_low by lia. by rewrite andb_true_r.
    - rewrite Z.ones_spec_high by lia. rewrite andb_false_r.
      rewrite <- (Z.mod_small a (2 ^ n)), <- (Z.mod_small b (2 ^ n)) by done.
      by rewrite !Z.mod_pow2_bits_high by lia. }
  rewrite E. apply Z.mod_pos_bound, Z.pow_pos_nonneg; lia.
Qed.

(** ** Interleaving *)

(** The bit positions of the interleaving lie inside an address. *)
Definition intlv_ok (r : AddrRange) : Prop :=
  0 ≤ ar_intlvBits r ≤ ar_intlvHighBit r + 1 ∧ ar_intlvHighBit r < 64 ∧
  (hashed r = true → ar_intlvBits r ≤ ar_xorHighBit r + 1 ∧ ar_xorHighBit r < 64).

Definition in_bounds (r : AddrRange) (a : Z) : bool := (ar_start r <=? a) && (a <=? ar_end r).

(** The number of the stripe in which an address lies. *)
Definition stripe_of (r : AddrRange) (a : Z) : Z :=
  if negb (interleaved r) then 0
  else
    Z.lxor (bits a (ar_intlvHighBit r) (ar_intlvHighBit r - ar_intlvBits r + 1))
      (if hashed r then bits a (ar_xorHighBit r) (ar_xorHighBit r - ar_intlvBits r + 1) else 0).

Lemma contains_stripe r a :
  (interleaved r = false → ar_intlvMatch r = 0) →
  contains r a = in_bounds r a && (stripe_of r a =? ar_intlvMatch r).
Proof.
  intros H0. unfold contains, stripe_of. fold (in_bounds r a).
  destruct (interleaved r); simpl; [|rewrite H0 by done; by rewrite andb_true_r].
  destruct (in_bounds r a), (hashed r); simpl; try done. by rewrite Z.lxor_0_r.
Qed.

Lemma stripe_range r a : intlv_ok r → 0 ≤ stripe_of r a < 2 ^ ar_intlvBits r.
Proof.
  intros (Hb & Hh & Hx). unfold stripe_of.
  destruct (interleaved r) eqn:Hi; simpl; [|split; [lia|apply Z.pow_pos_nonneg; lia]].
  apply lxor_range; [lia|apply bits_range; lia|].
  destruct (hashed r); [apply bits_range; [lia|]|split; [lia|apply Z.pow_pos_nonneg; lia]].
  specialize (Hx eq_refl). lia.
Qed.

Lemma mergesWith_fields this r :
  mergesWith this r = true →
  ar_start r = ar_start this ∧ ar_end r = ar_end this ∧
  ar_intlvHighBit r = ar_intlvHighBit this ∧ ar_xorHighBit r = ar_xorHighBit this ∧
  ar_intlvBits r = ar_intlvBits this.
Proof. unfold mergesWith. rewrite !andb_true_iff. lia. Qed.

Lemma mergesWith_stripe this r a :
  mergesWith this r = true → stripe_of r a = stripe_of this a ∧ in_bounds r a = in_bounds this a.
Proof.
  intros (E1 & E2 & E3 & E4 & E5)%mergesWith_fields.
  unfold stripe_of, in_bounds, hashed, interleaved. by rewrite E1, E2, E3, E4, E5.
Qed.

(** What the merging loop has checked. *)
Lemma merge_check_spec this ranges m :
  0 ≤ m → m + vsize ranges ≤ 256 → merge_check this ranges m = Ok tt →
  ∀ i r, ranges !! i = Some r → mergesWith this r = true ∧ ar_intlvMatch r = m + Z.of_nat i.
Proof.
  revert m. induction ranges as [|r0 rest IH]; intros m Hm Hl H i r Hi; [done|].
  unfold vsize in *. simpl in H, Hl. destruct (mergesWith this r0) eqn:Hw; [|done]. simpl in H.
  destruct (Z.eqb_spec (ar_intlvMatch r0) m) as [E|]; [|done]. simpl in H.
  destruct i as [|i]; simpl in Hi.
  - injection Hi as <-. split; [done|lia].
  - destruct rest as [|r1 rest]; [done|].
    unfold u8 in H. rewrite Z.mod_small in H by (simpl in Hl; lia).
    destruct (IH (m + 1) ltac:(lia) ltac:(simpl in *; lia) H i r Hi) as [? ?]. split; [done|lia].
Qed.

(** C34.  Interleaved address ranges partition the addresses: when the merging
    constructor of [AddrRange] accepts a collection of ranges with at most 8
    interleaving bits, hashed or not, then every address of the merged range
    is contained in exactly one of them, and none of them contains an address
    outside of the merged range. *)
Theorem AddrRange_merge_partitions ranges m a :
  ranges ≠ [] → Forall intlv_ok ranges → Forall (λ r, ar_intlvBits r ≤ 8) ranges →
  AddrRange_merge ranges = Ok m →
  (contains m a = true ↔ ∃ i r, ranges !! i = Some r ∧ contains r a = true) ∧
  ∀ i j r r', ranges !! i = Some r → ranges !! j = Some r' →
    contains r a = true → contains r' a = true → i = j.
Proof.
  intros Hne Hok H8 Hm. destruct ranges as [|front rest]; [done|]. unfold AddrRange_merge in Hm.
  set (this := mkAddrRange (ar_start front) (ar_end front) (ar_intlvHighBit front)
                 (ar_xorHighBit front) (ar_intlvBits front) 0) in *.
  assert (Hok0 : intlv_ok this) by (by inversion Hok).
  assert (Hb : 0 ≤ ar_intlvBits front ≤ 8) by (inversion H8; destruct Hok0; simpl in *; lia).
  assert (Hp : 0 < 2 ^ ar_intlvBits front ≤ 256).
  { split; [apply Z.pow_pos_nonneg; lia|]. change 256 with (2 ^ 8). apply Z.pow_le_mono_r; lia. }
  destruct (Z.eqb_spec (Z.of_nat (length (front :: rest))) (u64 (Z.shiftl 1 (ar_intlvBits this))))
    as [Hlen|]; [|done]. simpl negb in Hm. cbv iota in Hm.
  rewrite Z.shiftl_1_l in Hlen. change (ar_intlvBits this) with (ar_intlvBits front) in Hlen.
  rewrite u64_small in Hlen by lia.
  destruct (merge_check this (front :: rest) 0) as [[]|] eqn:Hc; [|done]. injection Hm as <-.
  pose proof (merge_check_spec this (front :: rest) 0 ltac:(lia) ltac:(unfold vsize; lia) Hc) as Hs.
  assert (Hin : ∀ i r, (front :: rest) !! i = Some r →
    contains r a = in_bounds this a && (stripe_of this a =? Z.of_nat i)).
  { intros i r Hi. destruct (Hs i r Hi) as [Hw Em].
    destruct (mergesWith_stripe _ _ a Hw) as [E1 E2].
    rewrite contains_stripe, E1, E2, Em; [done|]. intros Hnil.
    destruct (mergesWith_fields _ _ Hw) as (_ & _ & _ & _ & E5). simpl in E5.
    unfold interleaved in Hnil. apply negb_false_iff in Hnil.
    apply Z.eqb_eq in Hnil. rewrite <- E5, Hnil in Hlen. simpl in Hlen.
    apply lookup_lt_Some in Hi. simpl in Hi. lia. }
  split.
  - rewrite contains_stripe by done. unfold stripe_of at 1. simpl.
    change (in_bounds _ a) with (in_bounds this a). rewrite andb_true_r. split.
    + intros Hbd. pose proof (stripe_range this a Hok0) as Hst. simpl in Hst.
      destruct (lookup_lt_is_Some_2 (front :: rest) (Z.to_nat (stripe_of this a))) as [r Hr]; [lia|].
      exists (Z.to_nat (stripe_of this a)), r. split; [done|].
      rewrite (Hin _ _ Hr), Hbd, Z2Nat.id by lia. simpl. lia.
    + intros (i & r & Hi & Hr). rewrite (Hin _ _ Hi), andb_true_iff in Hr. by destruct Hr.
  - intros i j r r' Hi Hj Hr Hr'. rewrite (Hin _ _ Hi), andb_true_iff in Hr.
    rewrite (Hin _ _ Hj), andb_true_iff in Hr'. lia.
Qed.

(** Four stripes of 64 bytes, hashed with the four bits above. *)
Definition sample_stripe (i : Z) : AddrRange := mkAddrRange 0 65535 7 11 2 i.

Lemma AddrRange_merge_partitions_witness :
  ∃ m, AddrRange_merge (sample_stripe <$> [0; 1; 2; 3]) = Ok m ∧
  ((contains m 2240 = true ↔
    ∃ i r, (sample_stripe <$> [0; 1; 2; 3]) !! i = Some r ∧ contains r 2240 = true) ∧
   ∀ i j r r', (sample_stripe <$> [0; 1; 2; 3]) !! i = Some r →
     (sample_stripe <$> [0; 1; 2; 3]) !! j = Some r' →
     contains r 2240 = true → contains r' 2240 = true → i = j).
Proof.
  eexists. split; [vm_compute; reflexivity|].
  apply (AddrRange_merge_partitions (sample_stripe <$> [0; 1; 2; 3])).
  - discriminate.
  - repeat constructor; simpl; lia.
  - repeat constructor; simpl; lia.
  - vm_compute. reflexivity.
Defined.

(** ** Offsets *)
Lemma bits_testbit a first last n i :
  n = first - last + 1 → 0 ≤ n ≤ 64 → 0 ≤ last → 0 ≤ i →
  Z.testbit (bits a first last) i = (i <? n) && Z.testbit a (i + last).
Proof.
  intros E Hn Hl Hi. rewrite (bits_spec _ _ _ n) by done. destruct (Z.ltb_spec i n).
  - rewrite Z.mod_pow2_bits_low by lia. by rewrite Z.shiftr_spec by lia.
  - by rewrite Z.mod_pow2_bits_high by lia.
Qed.

Lemma u64_testbit x i : 0 ≤ i → Z.testbit (u64 x) i = (i <? 64) && Z.testbit x i.
Proof.
  intros Hi. unfold u64. destruct (Z.ltb_spec i 64).
  - by rewrite Z.mod_pow2_bits_low by lia.
  - by rewrite Z.mod_pow2_bits_high by lia.
Qed.

Lemma addr_high_bits a i : 0 ≤ a < 2 ^ 64 → 64 ≤ i → Z.testbit a i = false.
Proof. intros Ha Hi. rewrite <- (Z.mod_small a (2 ^ 64)) by done. by apply Z.mod_pow2_bits_high. Qed.

(** [removeIntlvBits] cuts the interleaving bits out of an address. *)
Lemma removeIntlvBits_testbit r a i :
  intlv_ok r → 0 ≤ a < 2 ^ 64 → 0 ≤ i →
  Z.testbit (removeIntlvBits r a) i =
    Z.testbit a (if i <? ar_intlvHighBit r - ar_intlvBits r + 1 then i else i + ar_intlvBits r).
Proof.
  intros (Hk & Hh & _) Ha Hi. set (low := ar_intlvHighBit r - ar_intlvBits r + 1) in *.
  unfold removeIntlvBits, insertBits. fold low.
  replace (low - 1 - 0 + 1) with low by lia. rewrite !Z.shiftl_0_r, mask_ones by lia.
  assert (Hones : 0 ≤ Z.ones low < 2 ^ 64).
  { rewrite Z.ones_equiv. assert (0 < 2 ^ low ≤ 2 ^ 64); [|lia].
    split; [apply Z.pow_pos_nonneg|apply Z.pow_le_mono_r]; lia. }
  rewrite (u64_small (Z.ones low)), (u64_small a) by done.
  rewrite Z.lor_spec, !Z.land_spec, Z.shiftr_spec, u64_testbit, Z.lnot_spec by lia.
  destruct (Z.ltb_spec i low).
  - rewrite Z.ones_spec_low by lia. simpl. by rewrite !andb_false_r, orb_false_r, andb_true_r.
  - rewrite Z.ones_spec_high by lia. simpl. rewrite andb_false_r. simpl.
    destruct (Z.ltb_spec i 64); [by rewrite andb_true_r|].
    rewrite andb_false_r. symmetry. apply addr_high_bits; lia.
Qed.

Lemma u64_range x : 0 ≤ u64 x < 2 ^ 64.
Proof. by apply Z.mod_pos_bound. Qed.

(** Subtraction of a fixed number is injective modulo 2^64. *)
Lemma u64_sub_inj a b c :
  0 ≤ a < 2 ^ 64 → 0 ≤ b < 2 ^ 64 → u64 (a - c) = u64 (b - c) → a = b.
Proof.
  intros Ha Hb E. unfold u64 in E.
  pose proof (Z.div_mod (a - c) (2 ^ 64) ltac:(lia)).
  pose proof (Z.div_mod (b - c) (2 ^ 64) ltac:(lia)). nia.
Qed.

Lemma removeIntlvBits_range r a :
  intlv_ok r → 0 ≤ a < 2 ^ 64 → 0 ≤ removeIntlvBits r a < 2 ^ 64.
Proof.
  intros Hok Ha. pose proof Hok as (Hk & _).
  assert (E : removeIntlvBits r a = u64 (removeIntlvBits r a)).
  { apply Z.bits_inj'. intros i Hi. rewrite u64_testbit by done. destruct (Z.ltb_spec i 64); [done|].
    rewrite removeIntlvBits_testbit by done. simpl. apply addr_high_bits; [done|].
    destruct (Z.ltb_spec i (ar_intlvHighBit r - ar_intlvBits r + 1)); lia. }
  rewrite E. apply u64_range.
Qed.

(** The constructor keeps the hash bits apart from the interleaving bits. *)
Lemma AddrRange_ctor_apart s e h x k m r :
  AddrRange_ctor s e h x k m = Ok r → hashed r = true →
  ar_intlvHighBit r + ar_intlvBits r ≤ ar_xorHighBit r ∨
  ar_xorHighBit r + ar_intlvBits r ≤ ar_intlvHighBit r.
Proof.
  unfold AddrRange_ctor. intros H Hh. cbv zeta in H.
  assert (r = mkAddrRange s e (u8 h) (u8 x) (u8 k) (u8 m)) as -> by (repeat case_match; congruence).
  unfold hashed, interleaved in Hh. simpl in *. rewrite Hh in H.
  repeat match type of H with (if ?b then _ else _) = _ => destruct b eqn:?; try done end; lia.
Qed.

(** Addresses that agree outside of the interleaving bits, in one stripe. *)
Lemma same_stripe_inj r a b :
  intlv_ok r → interleaved r = true →
  (hashed r = true → ar_intlvHighBit r + ar_intlvBits r ≤ ar_xorHighBit r ∨
                     ar_xorHighBit r + ar_intlvBits r ≤ ar_intlvHighBit r) →
  (∀ i, 0 ≤ i → i ≤ ar_intlvHighBit r - ar_intlvBits r ∨ ar_intlvHighBit r < i →
     Z.testbit a i = Z.testbit b i) →
  stripe_of r a = stripe_of r b → a = b.
Proof.
  intros (Hk & Hh & Hx) Hi Hap Hout Hst. apply Z.bits_inj'. intros i Hi0.
  set (low := ar_intlvHighBit r - ar_intlvBits r + 1) in *.
  destruct (decide (low ≤ i ≤ ar_intlvHighBit r)) as [Hin|]; [|apply Hout; lia].
  apply (f_equal (λ x, Z.testbit x (i - low))) in Hst. unfold stripe_of in Hst.
  rewrite Hi in Hst. simpl negb in Hst. cbv iota in Hst. fold low in Hst.
  rewrite !Z.lxor_spec, !(bits_testbit _ _ _ (ar_intlvBits r)) in Hst by lia.
  replace (i - low <? ar_intlvBits r) with true in Hst by lia. simpl in Hst.
  replace (i - low + low) with i in Hst by lia.
  destruct (hashed r); [|by rewrite !Z.bits_0, !xorb_false_r in Hst].
  specialize (Hx eq_refl). specialize (Hap eq_refl).
  rewrite !(bits_testbit _ _ _ (ar_intlvBits r)) in Hst by lia.
  rewrite (Hout (i - low + (ar_xorHighBit r - ar_intlvBits r + 1))) in Hst by lia.
  by destruct (Z.testbit a i), (Z.testbit b i),
    ((i - low <? ar_intlvBits r) && Z.testbit b (i - low + (ar_xorHighBit r - ar_intlvBits r + 1))).
Qed.

(** The offset of an address in a range identifies it: for a range that
    the constructor of [AddrRange] accepts, plain, interleaved or hashed, with
    bit positions below 64, two addresses of the range with the same
    [getOffset] are the same address. *)
Theorem getOffset_injective s e h x k m r a b :
  AddrRange_ctor s e h x k m = Ok r → intlv_ok r → 0 ≤ s → e < 2 ^ 64 →
  contains r a = true → contains r b = true → getOffset r a = getOffset r b → a = b.
Proof.
  intros Hc Hok Hs He Ha Hb Hab.
  assert (Hr : ar_start r = s ∧ ar_end r = e).
  { unfold AddrRange_ctor in Hc. cbv zeta in Hc. repeat case_match; simplify_eq; done. }
  destruct Hr as [Es Ee].
  assert (Hbd : ∀ a, contains r a = true → in_bounds r a = true ∧ 0 ≤ a < 2 ^ 64).
  { intros c Hcc. assert (Hi : in_bounds r c = true).
    { unfold contains in Hcc. fold (in_bounds r c) in Hcc. destruct (in_bounds r c); [done|].
      by destruct (interleaved r). }
    split; [done|]. unfold in_bounds in Hi. lia. }
  destruct (Hbd a Ha) as [Ia Ra], (Hbd b Hb) as [Ib Rb]. unfold getOffset in Hab.
  fold (in_bounds r a) (in_bounds r b) in Hab. rewrite Ia, Ib in Hab. simpl in Hab.
  destruct (interleaved r) eqn:Hi; [|by eapply u64_sub_inj].
  apply u64_sub_inj in Hab; [|by apply removeIntlvBits_range..].
  apply (same_stripe_inj r); [done|done|by eapply AddrRange_ctor_apart| |].
  - intros i Hi0 Hout. destruct Hok as (Hk & Hh & Hx).
    set (low := ar_intlvHighBit r - ar_intlvBits r + 1) in *.
    assert (Hpos : ∃ j, 0 ≤ j ∧ i = if j <? low then j else j + ar_intlvBits r).
    { destruct Hout; [exists i|exists (i - ar_intlvBits r)]; (split; [lia|]).
      - destruct (Z.ltb_spec i low); lia.
      - destruct (Z.ltb_spec (i - ar_intlvBits r) low); lia. }
    destruct Hpos as (j & Hj & ->).
    rewrite <- !(removeIntlvBits_testbit r) by done. by rewrite Hab.
  - rewrite contains_stripe, andb_true_iff in Ha by congruence.
    rewrite contains_stripe, andb_true_iff in Hb by congruence. lia.
Qed.

Lemma getOffset_injective_witness :
  ∃ r, AddrRange_ctor 4096 65535 7 11 2 1 = Ok r ∧ contains r 4160 = true ∧
       getOffset r 4160 = getOffset r (4096 + 64) ∧ (4160 = 4096 + 64).
Proof.
  eexists. split; [vm_compute; reflexivity|]. split; [vm_compute; reflexivity|].
  split; [vm_compute; reflexivity|].
  apply (getOffset_injective 4096 65535 7 11 2 1 (mkAddrRange 4096 65535 7 11 2 1)).
  - vm_compute. reflexivity.
  - unfold intlv_ok. simpl. lia.
  - lia.
  - lia.
  - vm_compute. reflexivity.
  - vm_compute. reflexivity.
  - vm_compute. reflexivity.
Defined.

(** ** The address map *)
Lemma find_node_unique l addr t id :
  (∃ node, (t, node) ∈ l ∧ existsb (λ r, contains r addr) (am_ranges node) = true) →
  (∀ node, (t, node) ∈ l → existsb (λ r, contains r addr) (am_ranges node) = true →
           am_id node = id) →
  find_node l addr t = Some id.
Proof.
  induction l as [|[t' node'] l IH]; intros (node & Hin & Hc) Hall; [by apply elem_of_nil in Hin|].
  simpl. destruct ((t' =? t) && existsb _ (am_ranges node')) eqn:E.
  - apply andb_true_iff in E as [->%Z.eqb_eq E]. f_equal. apply Hall; [by left|done].
  - apply IH.
    + exists node. split; [|done]. apply elem_of_cons in Hin as [[= -> ->]|?]; [|done].
      by rewrite Z.eqb_refl, Hc in E.
    + intros n' Hn'. apply Hall. by right.
Qed.

(** The ranges that the configuration gives to [2 ^ k] directories: address
    bits [low] to [low + k - 1] select the directory. *)
Definition dir_range (end_ low k i : Z) : AddrRange := mkAddrRange 0 end_ (low + k - 1) 0 k i.
Definition directories (mtype end_ low k : Z) : list (MachineID * list AddrRange) :=
  (λ i, (mkMachineID mtype i, [dir_range end_ low k i])) <$> zrange 0 (2 ^ k).

(** Each of them is a range that the constructor accepts. *)
Lemma dir_range_ctor end_ low k i :
  0 ≤ low → 0 < k ≤ 8 → low + k ≤ 64 → 0 ≤ i < 2 ^ k →
  AddrRange_ctor 0 end_ (low + k - 1) 0 k i = Ok (dir_range end_ low k i).
Proof.
  intros Hl Hk Hlk Hi.
  assert (2 ^ k ≤ 2 ^ 8) by (apply Z.pow_le_mono_r; lia).
  unfold AddrRange_ctor, dir_range, u8. rewrite !Z.mod_small by lia. simpl.
  rewrite Z.shiftl_1_l. replace (2 ^ k <=? i) with false by lia.
  by destruct (k =? 0).
Qed.

Lemma dir_range_contains end_ low k i d :
  0 ≤ low → 0 ≤ k → low + k ≤ 64 → 0 ≤ d < 2 ^ k → Z.shiftl d low ≤ end_ → 0 ≤ i < 2 ^ k →
  contains (dir_range end_ low k i) (Z.shiftl d low) = (d =? i).
Proof.
  intros Hl Hk Hlk Hd He Hi.
  assert (0 ≤ Z.shiftl d low) by (apply Z.shiftl_nonneg; lia).
  rewrite contains_stripe.
  2: { unfold interleaved. simpl. destruct (Z.eqb_spec k 0) as [->|]; [|done]. simpl in Hi. lia. }
  unfold in_bounds. simpl.
  replace ((0 <=? Z.shiftl d low) && (Z.shiftl d low <=? end_)) with true by lia. simpl.
  f_equal. unfold stripe_of, hashed, interleaved. simpl. rewrite andb_false_r.
  destruct (Z.eqb_spec k 0) as [->|]; simpl; [simpl in Hd; lia|].
  rewrite Z.lxor_0_r, (bits_spec _ _ _ k) by lia.
  replace (low + k - 1 - k + 1) with low by lia.
  rewrite Z.shiftr_shiftl_l, Z.sub_diag, Z.shiftl_0_r by lia. by apply Z.mod_small.
Qed.

(** The directory that the map finds for the address of block [d], in whatever
    order it is iterated and whatever other machines there are. *)
Lemma addressToNodeID_directory `{MT : MachineTypes} x mtype end_ low k others d :
  0 ≤ low → 0 ≤ k → low + k ≤ 64 → 0 ≤ d < 2 ^ k → Z.shiftl d low ≤ end_ →
  Forall (λ c, mid_type c.1 ≠ mtype) others →
  nw_addrMap x ≡ₚ addrMap_entries (directories mtype end_ low k ++ others) →
  addressToNodeID x (Z.shiftl d low) mtype = d.
Proof.
  intros Hl Hk Hlk Hd He Hot Hp. unfold addressToNodeID.
  assert (Hent : ∀ node, (mtype, node) ∈ nw_addrMap x ↔
    ∃ i, 0 ≤ i < 2 ^ k ∧ node = mkAddrMapNode i [dir_range end_ low k i]).
  { intros node. rewrite Hp. unfold addrMap_entries. rewrite list_elem_of_omap. split.
    - intros ([mid rs] & [Hin|Hin]%elem_of_app & Hn).
      + apply list_elem_of_fmap in Hin as (i & [= -> ->] & Hi%elem_of_zrange). simpl in Hn.
        exists i. split; [done|congruence].
      + rewrite Forall_forall in Hot. specialize (Hot _ Hin). simpl in Hot.
        destruct rs; [done|]. congruence.
    - intros (i & Hi & ->). exists (mkMachineID mtype i, [dir_range end_ low k i]).
      split; [|done]. apply elem_of_app. left. apply list_elem_of_fmap. exists i.
      split; [done|]. by apply elem_of_zrange. }
  rewrite (find_node_unique _ _ _ d); [done| |].
  - exists (mkAddrMapNode d [dir_range end_ low k d]). rewrite Hent. split; [by exists d|].
    simpl. rewrite dir_range_contains by done. lia.
  - intros node Hin. apply Hent in Hin as (i & Hi & ->). simpl.
    rewrite dir_range_contains by done. lia.
Qed.
