(* ===== verification/AddressTheory.v ===== *)
(** * Correctness of the address functions

    Line addresses are the multiples of the block size, the bit selection of a
    cache is a quotient and a remainder, and the logarithm is the logarithm.
    [makeNextStrideAddress] is right for the strides that are not negative, and
    for no other. *)

From S2P Require Import Prelude AddrRangeModel AddressModel AddrRangeTheory.

Lemma all_ones_bit i : 0 ≤ i → Z.testbit all_ones i = (i <? 64).
Proof. intros Hi. unfold all_ones. rewrite u64_testbit, Z.lnot_spec, Z.bits_0 by done. apply andb_true_r. Qed.

Lemma shifted_ones_bit n i :
  0 ≤ n → 0 ≤ i → Z.testbit (u64 (Z.shiftl all_ones n)) i = (i <? 64) && (n <=? i).
Proof.
  intros Hn Hi. rewrite u64_testbit by done. destruct (Z.ltb_spec i 64); [|done]. simpl.
  destruct (Z.leb_spec n i).
  - rewrite Z.shiftl_spec, all_ones_bit by lia. apply Z.ltb_lt. lia.
  - by rewrite Z.shiftl_spec_low by lia.
Qed.

(** Clearing the low bits rounds down to a multiple of a power of two. *)
Lemma maskLowOrderBits_spec a n :
  0 ≤ a < 2 ^ 64 → 0 ≤ n < 63 → maskLowOrderBits a n = a - a mod 2 ^ n.
Proof.
  intros Ha Hn. unfold maskLowOrderBits. change (ADDRESS_WIDTH - 1) with 63.
  destruct (Z.leb_spec 63 n); [lia|].
  assert (E : a - a mod 2 ^ n = Z.shiftl (Z.shiftr a n) n).
  { rewrite Z.shiftl_mul_pow2, Z.shiftr_div_pow2 by lia.
    pose proof (Z.div_mod a (2 ^ n) ltac:(apply Z.pow_nonzero; lia)). lia. }
  rewrite E. apply Z.bits_inj'. intros i Hi. rewrite Z.land_spec, shifted_ones_bit by lia.
  destruct (Z.leb_spec n i).
  - rewrite Z.shiftl_spec, Z.shiftr_spec by lia. replace (i - n + n) with i by lia.
    destruct (Z.ltb_spec i 64); [by rewrite andb_true_r|]. rewrite addr_high_bits by lia. done.
  - rewrite Z.shiftl_spec_low by lia. by rewrite !andb_false_r.
Qed.

(** Selecting the bits from [small] to [big]. *)
Lemma bitSelect_spec a small big :
  0 ≤ a < 2 ^ 64 → 0 ≤ small ≤ big → big < 64 →
  bitSelect a small big = Ok (a / 2 ^ small mod 2 ^ (big - small + 1)).
Proof.
  intros Ha Hs Hb. unfold bitSelect. destruct (Z.leb_spec small big); [|lia]. simpl.
  rewrite <- Z.shiftr_div_pow2 by lia. change (ADDRESS_WIDTH - 1) with 63.
  destruct (Z.leb_spec 63 big); f_equal; apply Z.bits_inj'; intros i Hi.
  - assert (big = 63) as -> by lia. destruct (Z.ltb_spec i (63 - small + 1)).
    + by rewrite Z.mod_pow2_bits_low by lia.
    + rewrite Z.mod_pow2_bits_high, Z.shiftr_spec by lia. apply addr_high_bits; lia.
  - rewrite Z.shiftr_spec, Z.land_spec, u64_testbit, Z.lnot_spec, shifted_ones_bit by lia.
    destruct (Z.ltb_spec i (big - small + 1)).
    + rewrite Z.mod_pow2_bits_low, Z.shiftr_spec by lia.
      destruct (Z.ltb_spec (i + small) 64), (Z.leb_spec (big + 1) (i + small)); try lia. simpl.
      by rewrite andb_true_r.
    + rewrite Z.mod_pow2_bits_high by lia.
      destruct (Z.leb_spec (big + 1) (i + small)); [|lia]. rewrite andb_true_r.
      destruct (Z.ltb_spec (i + small) 64); simpl; [|rewrite addr_high_bits by lia; done].
      apply andb_false_r.
Qed.

(** ** The logarithm *)

(** Testing the upper half of [2 * k] bits. *)
Lemma upper_half k m x :
  0 < k → m = Z.shiftl (Z.ones k) k → 0 ≤ x < 2 ^ (2 * k) → (Z.land x m =? 0) = (x <? 2 ^ k).
Proof.
  intros Hk -> Hx. assert (E : Z.land x (Z.shiftl (Z.ones k) k) = Z.shiftl (Z.shiftr x k) k).
  { apply Z.bits_inj'. intros i Hi. rewrite Z.land_spec. destruct (Z.leb_spec k i).
    - rewrite !Z.shiftl_spec, Z.shiftr_spec by lia. replace (i - k + k) with i by lia.
      destruct (Z.ltb_spec i (2 * k)).
      + rewrite Z.ones_spec_low by lia. apply andb_true_r.
      + rewrite Z.ones_spec_high by lia. rewrite andb_false_r. symmetry.
        rewrite <- (Z.mod_small x (2 ^ (2 * k))) by done. apply Z.mod_pow2_bits_high. lia.
    - rewrite !Z.shiftl_spec_low by lia. apply andb_false_r. }
  rewrite E, Z.shiftl_mul_pow2, Z.shiftr_div_pow2 by lia.
  assert (Hp : 0 < 2 ^ k) by (apply Z.pow_pos_nonneg; lia).
  destruct (Z.ltb_spec x (2 ^ k)).
  - rewrite Z.div_small by lia. done.
  - apply Z.eqb_neq. assert (1 ≤ x / 2 ^ k) by (apply Z.div_le_lower_bound; lia). nia.
Qed.

Lemma log_test_spec k m x y :
  0 < k → m = Z.shiftl (Z.ones k) k → 0 < x < 2 ^ (2 * k) →
  ∃ x' y', log_test m k (x, y) = (x', y') ∧ 0 < x' < 2 ^ k ∧ y' + Z.log2 x' = y + Z.log2 x.
Proof.
  intros Hk Hm Hx. unfold log_test. rewrite (upper_half k) by (done || lia).
  assert (Hp : 0 < 2 ^ k) by (apply Z.pow_pos_nonneg; lia).
  destruct (Z.ltb_spec x (2 ^ k)); [exists x, y; split_and!; [done|lia..]|]. exists (Z.shiftr x k), (y + k).
  rewrite Z.shiftr_div_pow2 by lia.
  assert (1 ≤ x / 2 ^ k) by (apply Z.div_le_lower_bound; lia).
  assert (x / 2 ^ k < 2 ^ k).
  { apply Z.div_lt_upper_bound; [lia|]. replace (2 * k) with (k + k) in Hx by lia.
    rewrite Z.pow_add_r in Hx by lia. lia. }
  split_and!; [done|lia|lia|]. rewrite <- Z.shiftr_div_pow2, Z.log2_shiftr by lia.
  assert (k ≤ Z.log2 x) by (apply Z.log2_le_pow2; lia). lia.
Qed.

Lemma floorLog2_spec x : 0 < x < 2 ^ 32 → floorLog2 x = Ok (Z.log2 x).
Proof.
  intros Hx. unfold floorLog2. destruct (Z.ltb_spec 0 x); [|lia].
  cbv beta iota zeta delta [assertO mbind outcome_bind].
  destruct (log_test_spec 16 0xffff0000 x 0 ltac:(lia) eq_refl Hx) as (x1 & y1 & -> & H1 & E1).
  destruct (log_test_spec 8 0xff00 x1 y1 ltac:(lia) eq_refl H1) as (x2 & y2 & -> & H2 & E2).
  destruct (log_test_spec 4 0xf0 x2 y2 ltac:(lia) eq_refl H2) as (x3 & y3 & -> & H3 & E3).
  destruct (log_test_spec 2 0xc x3 y3 ltac:(lia) eq_refl H3) as (x4 & y4 & -> & H4 & E4).
  f_equal. assert (x4 = 1 ∨ x4 = 2 ∨ x4 = 3) as [-> | [-> | -> ]] by lia; simpl in *; lia.
Qed.

Lemma leastSigBit_pow2 n : 0 < n < 2 ^ 32 → isPowerOf2 n = true → n = 2 ^ Z.log2 n.
Proof.
  intros Hn. unfold isPowerOf2. rewrite andb_true_iff. intros [_ E%Z.eqb_eq].
  pose proof (Z.log2_spec n ltac:(lia)) as Hl. set (k := Z.log2 n) in *.
  assert (Hk : 0 ≤ k < 32) by (split; [apply Z.log2_nonneg|apply Z.log2_lt_pow2; lia]).
  destruct (decide (n = 2 ^ k)) as [|Hne]; [done|exfalso].
  (* bit k of n - 1 is set, so that n & ~(n - 1) does not have it *)
  assert (Hb : Z.testbit n k = true) by (apply Z.bit_log2; lia).
  assert (Hb' : Z.testbit (n - 1) k = true).
  { replace k with (Z.log2 (n - 1)); [apply Z.bit_log2; assert (0 < 2 ^ k); [apply Z.pow_pos_nonneg|]; lia|].
    apply Z.log2_unique; [lia|]. replace (Z.succ k) with (k + 1) in * by lia. lia. }
  rewrite <- E, Z.land_spec in Hb. apply andb_true_iff in Hb as [_ Hb]. unfold u32 in Hb.
  rewrite Z.mod_pow2_bits_low, Z.lnot_spec, Z.mod_pow2_bits_low, Hb' in Hb by lia. done.
Qed.

(** ** Lines *)

(** What the constructor of [RubySystem] establishes. *)
Class BlockSizeSpec (BS : BlockSize) : Prop := {
  block_bits : 0 ≤ m_block_size_bits < 32;
  block_bytes : m_block_size_bytes = 2 ^ m_block_size_bits;
}.

Lemma RubySystem_ctor_spec n (BS : BlockSize) :
  0 < n < 2 ^ 32 → RubySystem_ctor n = Ok BS → BlockSizeSpec BS.
Proof.
  intros Hn. unfold RubySystem_ctor. destruct (isPowerOf2 n) eqn:E; [|done]. simpl.
  rewrite floorLog2_spec by done. intros [= <-]. split; simpl.
  - split; [apply Z.log2_nonneg|apply Z.log2_lt_pow2; lia].
  - by apply leastSigBit_pow2.
Qed.

(** The usual block size. *)
Definition block_64 : BlockSize := mkBlockSize 64 6.
#[export] Instance block_64_spec : BlockSizeSpec block_64.
Proof. apply (RubySystem_ctor_spec 64); [lia|reflexivity]. Qed.

Section Lines.
Context {BS : BlockSize} {BSS : BlockSizeSpec BS}.

Lemma block_positive : 0 < m_block_size_bytes.
Proof. rewrite block_bytes. apply Z.pow_pos_nonneg; [lia|apply block_bits]. Qed.

Lemma makeLineAddress_spec a :
  0 ≤ a < 2 ^ 64 → makeLineAddress a = a - a mod m_block_size_bytes.
Proof.
  intros Ha. unfold makeLineAddress. rewrite block_bytes. apply maskLowOrderBits_spec; [done|].
  pose proof block_bits. lia.
Qed.

Lemma makeLineAddress_range a : 0 ≤ a < 2 ^ 64 → 0 ≤ makeLineAddress a ≤ a.
Proof.
  intros Ha. rewrite makeLineAddress_spec by done. pose proof block_positive.
  pose proof (Z.mod_pos_bound a _ block_positive). pose proof (Z.mod_le a _ (proj1 Ha) block_positive). lia.
Qed.

(** The fixed points are the multiples of the block size. *)
Lemma makeLineAddress_fixed a :
  0 ≤ a < 2 ^ 64 → makeLineAddress a = a ↔ a mod m_block_size_bytes = 0.
Proof. intros Ha. rewrite makeLineAddress_spec by done. lia. Qed.

Lemma makeLineAddress_idem a :
  0 ≤ a < 2 ^ 64 → makeLineAddress (makeLineAddress a) = makeLineAddress a.
Proof.
  intros Ha. pose proof (makeLineAddress_range a Ha).
  apply makeLineAddress_fixed; [lia|]. rewrite makeLineAddress_spec by done.
  rewrite Zminus_mod_idemp_r, Z.sub_diag by (pose proof block_positive; lia). apply Z.mod_0_l.
  pose proof block_positive. lia.
Qed.

(** An address is its line and its offset. *)
Lemma line_and_offset a :
  0 ≤ a < 2 ^ 64 → 0 < m_block_size_bits →
  Address_getOffset a = Ok (a mod m_block_size_bytes) ∧ a = makeLineAddress a + a mod m_block_size_bytes.
Proof.
  intros Ha Hb. pose proof block_bits. split; [|rewrite makeLineAddress_spec by done; lia].
  unfold Address_getOffset. assert (E : u32 (m_block_size_bits - 1) = m_block_size_bits - 1).
  { apply Z.mod_small. lia. }
  rewrite E, bitSelect_spec by lia. rewrite block_bytes, Z.pow_0_r, Z.div_1_r. do 3 f_equal. lia.
Qed.

(** ** Strides *)
Lemma stride_forward a stride :
  0 ≤ a < 2 ^ 64 → 0 ≤ stride → m_block_size_bytes * stride < 2 ^ 32 →
  makeNextStrideAddress a stride = u64 (makeLineAddress a + m_block_size_bytes * stride).
Proof.
  intros Ha Hs Hb. unfold makeNextStrideAddress. pose proof block_positive.
  unfold makeLineAddress. do 2 f_equal.
  assert (u32 stride = stride) as -> by (apply Z.mod_small; nia). apply Z.mod_small. nia.
Qed.

(** A negative stride moves forward, by 2^32 less the distance. *)
Lemma stride_backward a stride :
  0 ≤ a < 2 ^ 64 → stride < 0 → - 2 ^ 32 < m_block_size_bytes * stride →
  makeNextStrideAddress a stride = u64 (makeLineAddress a + m_block_size_bytes * stride + 2 ^ 32).
Proof.
  intros Ha Hs Hb. unfold makeNextStrideAddress. pose proof block_positive.
  unfold makeLineAddress, u64. rewrite <- Z.add_assoc. do 2 f_equal. unfold u32.
  rewrite Zmult_mod_idemp_r. symmetry. apply (Z.mod_unique _ _ (-1)); [nia|lia].
Qed.
End Lines.

(** Removing the lowest bits: bit [big] stays, and nothing is shifted. *)
Lemma bitRemove_low a big :
  0 ≤ a < 2 ^ 64 → 0 ≤ big < 63 → bitRemove a 0 big = Ok (a - a mod 2 ^ big).
Proof.
  intros Ha Hb. rewrite <- maskLowOrderBits_spec by lia. unfold bitRemove, maskLowOrderBits.
  change (ADDRESS_WIDTH - 1) with 63. destruct (Z.leb_spec 0 big), (Z.leb_spec 63 big); try lia. done.
Qed.
