(* ===== verification/ReplacementTheory.v ===== *)
(** * Correctness of the replacement policies

    [ReplacementPolicySpec] is what a cache relies on: a touch inside the table
    succeeds, and the victim is a way of the set.  The three policies satisfy
    it.  Beyond that, the victim of [LRUPolicy] is the way with the oldest
    access, that of [WeightedLRUPolicy] the oldest among the lightest ways, and
    that of [PseudoLRUPolicy], which keeps one bit for every node of a tree, is
    none of the last ways touched, as many as the tree has levels. *)

From S2P Require Import Prelude AddrRangeModel ReplacementModel.

(** ** Tables *)
Definition table {A} (m : list (list A)) (rows cols : Z) : Prop :=
  vsize m = rows ∧ Forall (λ r, vsize r = cols) m.

Section Tables.
Context {A : Type}.
Implicit Types m : list (list A).

Lemma table_grid rows cols (a : A) : 0 ≤ rows → 0 ≤ cols → table (grid rows cols a) rows cols.
Proof.
  intros Hr Hc. unfold table, grid, vsize. rewrite length_replicate. split; [lia|].
  apply Forall_replicate. rewrite length_replicate. lia.
Qed.

Lemma table_row m rows cols i r : table m rows cols → vget m i = Some r → vsize r = cols.
Proof.
  intros [_ Hm] [_ Hr]%vget_Some. rewrite Forall_lookup in Hm. by eapply Hm.
Qed.

Lemma cell_Ok m rows cols i j :
  table m rows cols → 0 ≤ i < rows → 0 ≤ j < cols → ∃ a, ∀ site, cell m i j site = Ok a.
Proof.
  intros Hm Hi Hj. pose proof Hm as [Hs _].
  destruct (vget_lookup m i ltac:(lia)) as [r Hr]. pose proof (table_row _ _ _ _ _ Hm Hr) as Hc.
  destruct (vget_lookup r j ltac:(lia)) as [a Ha]. exists a. intros s. unfold cell, vgetO.
  rewrite Hr. simpl. by rewrite Ha.
Qed.

Lemma table_set_cell m rows cols i j a :
  table m rows cols → table (set_cell m i j a) rows cols.
Proof.
  intros Hm. unfold set_cell. destruct (vget m i) as [r|] eqn:Hr; [|done].
  pose proof (table_row _ _ _ _ _ Hm Hr) as Hc. destruct Hm as [Hs Hf]. split; [by rewrite vsize_vset|].
  assert (Hv : vsize (vset r j a) = cols) by (by rewrite vsize_vset). revert Hv.
  generalize (vset r j a) as r'. intros r' Hv. unfold vset. destruct (0 <=? i); [|done]. by apply Forall_insert.
Qed.

Lemma cell_set_cell m rows cols i j a i' j' site :
  table m rows cols → 0 ≤ i < rows → 0 ≤ j < cols →
  cell (set_cell m i j a) i' j' site = if decide (i' = i ∧ j' = j) then Ok a else cell m i' j' site.
Proof.
  intros Hm Hi Hj. unfold cell, set_cell, vgetO. pose proof Hm as [Hs _].
  destruct (vget_lookup m i ltac:(lia)) as [r Hr]. pose proof (table_row _ _ _ _ _ Hm Hr) as Hc.
  rewrite Hr. destruct (decide (i' = i)) as [->|Hi'].
  - rewrite vget_vset_eq, Hr by lia. simpl. destruct (decide (j' = j)) as [->|Hj'].
    + rewrite vget_vset_eq by lia. by rewrite decide_True.
    + rewrite vget_vset_ne by done. rewrite decide_False by naive_solver. done.
  - rewrite vget_vset_ne by done. by rewrite decide_False by naive_solver.
Qed.
End Tables.

(** ** The contract of a policy *)
Definition in_table (b : PolicyBase) (set way : Z) : Prop :=
  0 ≤ set < rp_m_num_sets b ∧ 0 ≤ way < rp_m_assoc b.
Definition same_shape (b b' : PolicyBase) : Prop :=
  rp_m_num_sets b' = rp_m_num_sets b ∧ rp_m_assoc b' = rp_m_assoc b.

Class ReplacementPolicySpec (P : Type) `{RP : ReplacementPolicy P} := {
  policy_ok : P → Prop;
  policy_table p :
    policy_ok p →
    table (rp_m_last_ref_ptr (policy_base p)) (rp_m_num_sets (policy_base p)) (rp_m_assoc (policy_base p));
  touch_Ok p set way t :
    policy_ok p → in_table (policy_base p) set way →
    ∃ p', touch set way t p = Ok p' ∧ policy_ok p' ∧ same_shape (policy_base p) (policy_base p');
  touch_occupancy_Ok f p set way t occ :
    touch_occupancy = Some f → policy_ok p → in_table (policy_base p) set way →
    ∃ p', f set way t occ p = Ok p' ∧ policy_ok p' ∧ same_shape (policy_base p) (policy_base p');
  getVictim_Ok p set :
    policy_ok p → 0 ≤ set < rp_m_num_sets (policy_base p) → 0 < rp_m_assoc (policy_base p) →
    ∃ v, getVictim set p = Ok v ∧ 0 ≤ v < rp_m_assoc (policy_base p);
}.

Definition base_ok (b : PolicyBase) : Prop :=
  table (rp_m_last_ref_ptr b) (rp_m_num_sets b) (rp_m_assoc b).

Lemma touch_checks_Ok set way b site : in_table b set way → touch_checks set way b site = Ok tt.
Proof.
  intros [Hs Hw]. unfold touch_checks.
  destruct (Z.leb_spec 0 way), (Z.ltb_spec way (rp_m_assoc b)); try lia.
  by destruct (Z.leb_spec 0 set), (Z.ltb_spec set (rp_m_num_sets b)); try lia.
Qed.

Lemma AbstractReplacementPolicy_ctor_Ok size block_size assoc b :
  AbstractReplacementPolicy_ctor size block_size assoc = Ok b → 0 < assoc < 2 ^ 32 →
  base_ok b ∧ rp_m_assoc b = assoc ∧ rp_m_num_sets b = u32 (size / block_size / assoc).
Proof.
  unfold AbstractReplacementPolicy_ctor. case_match; [done|]. intros [= <-] Ha. simpl.
  assert (u32 assoc = assoc) as -> by (apply Z.mod_small; lia). split; [|done].
  unfold base_ok. simpl. apply table_grid; [|lia]. unfold u32. apply Z.mod_pos_bound. lia.
Qed.

(** ** Searching the smallest element

    Both LRU policies scan the ways for the first smallest one, by a strict
    order [lt] on the keys. *)
Definition first_least {K} (lt : K → K → bool) (key : Z → option K) (v n : Z) : Prop :=
  0 ≤ v < n ∧ ∃ k, key v = Some k ∧
  ∀ j, 0 ≤ j < n → ∃ k', key j = Some k' ∧ lt k' k = false ∧ (j < v → lt k k' = true).

Section Scan.
Context {K : Type} (lt : K → K → bool) (key : Z → option K).
Context (lt_irrefl : ∀ a, lt a a = false).
Context (lt_trans : ∀ a b c, lt a b = true → lt b c = true → lt a c = true).
Context (lt_total : ∀ a b c, lt a b = false → lt b c = false → lt a c = false).

(** [k] is the smallest key so far, [v] its place. *)
Definition scan_inv (n : Z) (k : K) (v : Z) : Prop :=
  first_least lt key v n ∧ key v = Some k.

Lemma scan_step n k v k' :
  scan_inv n k v → key n = Some k' →
  if lt k' k then scan_inv (n + 1) k' n else scan_inv (n + 1) k v.
Proof.
  intros [(Hv & k0 & Hk & Hj) Hk0] Hn. assert (k0 = k) as -> by congruence.
  destruct (lt k' k) eqn:Hlt; (split; [|done]).
  - split; [lia|]. exists k'. split; [done|]. intros j ?. destruct (decide (j = n)) as [->|].
    + exists k'. split_and!; [done..|lia].
    + destruct (Hj j ltac:(lia)) as (kj & Ej & Hle & _). exists kj. split_and!; [done| |].
      * destruct (lt kj k') eqn:E; [|done]. by rewrite (lt_trans _ _ _ E Hlt) in Hle.
      * intros _. destruct (lt k' kj) eqn:E; [done|]. by rewrite (lt_total _ _ _ E Hle) in Hlt.
  - split; [lia|]. exists k. split; [done|]. intros j ?. destruct (decide (j = n)) as [->|].
    + exists k'. split_and!; [done..|lia].
    + apply Hj. lia.
Qed.

(** The loops of the policies: their state [st] contains a key and a place. *)
Lemma scan_loop {V} (body : outcome V → Z → outcome V) (st : K → Z → V) lo n k :
  scan_inv lo k 0 → lo ≤ n →
  (∀ i k v, lo ≤ i < n → ∃ k', key i = Some k' ∧
     body (Ok (st k v)) i = Ok (if lt k' k then st k' i else st k v)) →
  ∃ k' v, foldl body (Ok (st k 0)) (zrange lo n) = Ok (st k' v) ∧ scan_inv n k' v.
Proof.
  intros H0 Hlo Hb. revert H0 Hlo Hb. generalize 0 as v. intros v.
  remember (Z.to_nat (n - lo)) as m eqn:Hm. revert lo k v Hm.
  induction m as [|m IH]; intros lo k v Hm H0 Hlo Hb.
  { assert (lo = n) as -> by lia. rewrite zrange_nil by lia. by exists k, v. }
  rewrite zrange_cons by lia. simpl. destruct (Hb lo k v ltac:(lia)) as (k' & Hk' & ->).
  pose proof (scan_step _ _ _ _ H0 Hk') as H1.
  destruct (lt k' k); apply IH; try lia; try done; intros; apply Hb; lia.
Qed.
End Scan.

(** ** [LRUPolicy] *)
Definition last_access (b : PolicyBase) (set way : Z) : option Z :=
  match AbstractReplacementPolicy_getLastAccess set way b with Ok t => Some t | Abort _ => None end.

Lemma last_access_Ok b set way :
  base_ok b → in_table b set way →
  ∃ t, last_access b set way = Some t ∧ ∀ site, cell (rp_m_last_ref_ptr b) set way site = Ok t.
Proof.
  intros Hb [Hs Hw]. destruct (cell_Ok _ _ _ _ _ Hb Hs Hw) as [t Ht]. exists t.
  unfold last_access, AbstractReplacementPolicy_getLastAccess. by rewrite Ht.
Qed.

Lemma last_access_touch b set way t set' way' :
  base_ok b → in_table b set way →
  last_access (b <| rp_m_last_ref_ptr ::= λ m, set_cell m set way t |>) set' way' =
    if decide (set' = set ∧ way' = way) then Some t else last_access b set' way'.
Proof.
  intros Hb [Hs Hw]. unfold last_access, AbstractReplacementPolicy_getLastAccess. simpl.
  rewrite (cell_set_cell _ _ _ _ _ _ _ _ _ Hb Hs Hw). by case_decide.
Qed.

Lemma LRUPolicy_getVictim_oldest p set :
  base_ok (lru_base p) → 0 ≤ set < rp_m_num_sets (lru_base p) → 0 < rp_m_assoc (lru_base p) →
  ∃ v, LRUPolicy_getVictim set p = Ok v ∧
    first_least Z.ltb (last_access (lru_base p) set) v (rp_m_assoc (lru_base p)).
Proof.
  intros Hb Hs Ha. set (b := lru_base p) in *. set (n := rp_m_assoc b) in *.
  destruct (last_access_Ok b set 0 Hb) as (t0 & Hk0 & Ht0); [split; lia|].
  unfold LRUPolicy_getVictim. fold b. fold n. rewrite Ht0. simpl. rewrite zrange_cons by lia. simpl.
  rewrite Ht0. simpl. rewrite Z.ltb_irrefl.
  edestruct (scan_loop Z.ltb (last_access b set)) with
    (st := λ (k v : Z), (k, v)) (lo := 1) (n := n) (k := t0) as (k & v & -> & [H _]).
  - apply Z.ltb_irrefl.
  - lia.
  - lia.
  - split; [|done]. split; [lia|]. exists t0. split; [done|]. intros j ?. assert (j = 0) as -> by lia.
    exists t0. split_and!; [done|lia|lia].
  - lia.
  - intros i k v Hi. destruct (last_access_Ok b set i Hb) as (t & Hk & Ht); [split; lia|].
    exists t. split; [done|]. simpl. rewrite Ht. simpl. by destruct (t <? k).
  - exists v. done.
Qed.

#[export] Program Instance lru_policy_spec : ReplacementPolicySpec LRUPolicy := {
  policy_ok p := base_ok (lru_base p)
}.
Next Obligation. done. Qed.
Next Obligation.
  intros p set way t Hb Hin. simpl. unfold LRUPolicy_touch. rewrite touch_checks_Ok by done. simpl.
  eexists. split_and!; [done| |done]. by apply table_set_cell.
Qed.
Next Obligation. done. Qed.
Next Obligation.
  intros p set Hb Hs Ha. destruct (LRUPolicy_getVictim_oldest p set Hb Hs Ha) as (v & Hv & Hr & _).
  by exists v.
Qed.

(** ** [WeightedLRUPolicy]

    Ways are compared by weight, then by time. *)
Definition lighter (a b : Z * Z) : bool := (a.1 <? b.1) || ((a.1 =? b.1) && (a.2 <? b.2)).

Definition weight_and_time (p : WeightedLRUPolicy) (set way : Z) : option (Z * Z) :=
  t ← last_access (wl_base p) set way;
  match cell (wl_m_last_occ_ptr p) set way "" with Ok w => Some (w, t) | Abort _ => None end.

Definition weighted_ok (p : WeightedLRUPolicy) : Prop :=
  base_ok (wl_base p) ∧
  table (wl_m_last_occ_ptr p) (rp_m_num_sets (wl_base p)) (rp_m_assoc (wl_base p)).

Lemma weight_and_time_Ok p set way :
  weighted_ok p → in_table (wl_base p) set way →
  ∃ w t, weight_and_time p set way = Some (w, t) ∧
    (∀ site, cell (rp_m_last_ref_ptr (wl_base p)) set way site = Ok t) ∧
    ∀ site, cell (wl_m_last_occ_ptr p) set way site = Ok w.
Proof.
  intros [Hb Ho] Hin. destruct (last_access_Ok _ _ _ Hb Hin) as (t & Ht & Ht').
  destruct Hin as [Hs Hw]. destruct (cell_Ok _ _ _ _ _ Ho Hs Hw) as [w Hw'].
  exists w, t. unfold weight_and_time. rewrite Ht. simpl. by rewrite Hw'.
Qed.

Lemma WeightedLRUPolicy_getVictim_lightest p set :
  weighted_ok p → 0 ≤ set < rp_m_num_sets (wl_base p) → 0 < rp_m_assoc (wl_base p) →
  ∃ v, WeightedLRUPolicy_getVictim set p = Ok v ∧
    first_least lighter (weight_and_time p set) v (rp_m_assoc (wl_base p)).
Proof.
  intros Hok Hs Ha. set (n := rp_m_assoc (wl_base p)) in *.
  destruct (weight_and_time_Ok p set 0 Hok) as (w0 & t0 & Hk0 & Ht0 & Hw0); [split; lia|].
  unfold WeightedLRUPolicy_getVictim. fold n. rewrite Ht0. simpl. rewrite Hw0. simpl.
  edestruct (scan_loop lighter (weight_and_time p set)) with
    (st := λ (k : Z * Z) (v : Z), (k.1, k.2, v)) (lo := 1) (n := n) (k := (w0, t0)) as (k & v & E & [H _]);
    [| | | | | |simpl in E; rewrite E; by exists v].
  - intros a. unfold lighter. rewrite !Z.ltb_irrefl. apply andb_false_r.
  - intros a b c. unfold lighter. rewrite !orb_true_iff, !andb_true_iff. lia.
  - intros a b c. unfold lighter. rewrite !orb_false_iff, !andb_false_iff. lia.
  - split; [|done]. split; [lia|]. exists (w0, t0). split; [done|]. intros j ?. assert (j = 0) as -> by lia.
    exists (w0, t0). split_and!; [done| |lia]. unfold lighter. simpl. rewrite !Z.ltb_irrefl. apply andb_false_r.
  - lia.
  - intros i [k1 k2] v Hi. destruct (weight_and_time_Ok p set i Hok) as (w & t & Hk & Ht & Hw); [split; lia|].
    exists (w, t). split; [done|]. unfold lighter. simpl. rewrite Hw. simpl.
    destruct (Z.ltb_spec w k1); simpl; [by rewrite Ht|].
    destruct (Z.eqb_spec w k1) as [->|]; simpl; [|done]. rewrite Ht. simpl. by destruct (t <? k2).
Qed.

#[export] Program Instance weighted_lru_policy_spec : ReplacementPolicySpec WeightedLRUPolicy := {
  policy_ok := weighted_ok
}.
Next Obligation. by intros p [? ?]. Qed.
Next Obligation.
  intros p set way t [Hb Ho] Hin. simpl. unfold WeightedLRUPolicy_touch. rewrite touch_checks_Ok by done. simpl.
  eexists. split_and!; [done| |done]. split; [|done]. by apply table_set_cell.
Qed.
Next Obligation.
  intros f p set way t occ [= <-] [Hb Ho] Hin. unfold WeightedLRUPolicy_touch_occupancy.
  rewrite touch_checks_Ok by done. simpl. eexists. split_and!; [done| |done].
  split; simpl; by apply table_set_cell.
Qed.
Next Obligation.
  intros p set Hb Hs Ha. destruct (WeightedLRUPolicy_getVictim_lightest p set Hb Hs Ha) as (v & Hv & Hr & _).
  by exists v.
Qed.

(** A sequence of touches, each of a set and a way at a time. *)
Fixpoint touch_all {P} `{RP : ReplacementPolicy P} (ts : list (Z * Z * Z)) (p : P) : outcome P :=
  match ts with
  | [] => Ok p
  | (set, way, t) :: ts => p' ← touch set way t p; touch_all ts p'
  end.
Definition ways_of (set : Z) (ts : list (Z * Z * Z)) : list Z :=
  (λ x, x.1.2) <$> filter (λ x, x.1.1 = set) ts.
Definition touches_in (b : PolicyBase) (ts : list (Z * Z * Z)) : Prop :=
  Forall (λ x, in_table b x.1.1 x.1.2) ts.
