(* ===== verification/PseudoLRUTheory.v ===== *)
(** * The tree of [PseudoLRUPolicy]

    The tree of a set has one bit for every inner node; the nodes of level [l]
    are numbered from [2^l - 1].  A touch makes every node on the path to a way
    point to it, and the victim is found by going, at every node, where the node
    does not point.  A way that has been touched is safe until as many other
    touches follow as the tree has levels, because a touch can turn at most one
    node of its path away from it: the one where the two paths part. *)

From S2P Require Import Prelude AddrRangeModel ReplacementModel ReplacementTheory.

(** ** Paths

    The node of level [l] on the path to the way [x] in a tree with [L] levels,
    and whether the path goes to the right there. *)
Definition node (L x l : Z) : Z := 2 ^ l - 1 + x / 2 ^ (L - l).
Definition right (L x l : Z) : bool := Z.testbit x (L - 1 - l).

Lemma node_root L x : 0 ≤ x < 2 ^ L → node L x 0 = 0.
Proof. intros Hx. unfold node. rewrite Z.sub_0_r, Z.div_small by done. done. Qed.

Lemma half_step x k : 0 ≤ k → x / 2 ^ k = 2 * (x / 2 ^ (k + 1)) + Z.b2z (Z.testbit x k).
Proof.
  intros Hk. rewrite Z.pow_add_r, Z.pow_1_r by lia.
  rewrite <- Z.div_div by (apply Z.pow_nonzero || apply Z.pow_pos_nonneg || lia; lia).
  rewrite Z.testbit_spec' by done. by rewrite <- Z.div_mod by lia.
Qed.

Lemma node_next L x l :
  0 ≤ l < L → node L x (l + 1) = if right L x l then 2 * node L x l + 2 else 2 * node L x l + 1.
Proof.
  intros Hl. unfold node, right. replace (L - (l + 1)) with (L - 1 - l) by lia.
  rewrite (half_step x (L - 1 - l)) by lia. replace (L - 1 - l + 1) with (L - l) by lia.
  rewrite Z.pow_add_r by lia. destruct (Z.testbit x (L - 1 - l)); simpl; lia.
Qed.

Lemma node_range L x l : 0 ≤ l ≤ L → 0 ≤ x < 2 ^ L → 2 ^ l - 1 ≤ node L x l < 2 ^ (l + 1) - 1.
Proof.
  intros Hl Hx. unfold node. rewrite Z.pow_add_r by lia.
  assert (Hp : 0 < 2 ^ (L - l)) by (apply Z.pow_pos_nonneg; lia).
  assert (0 ≤ x / 2 ^ (L - l) < 2 ^ l); [|lia]. split; [apply Z.div_pos; lia|].
  apply Z.div_lt_upper_bound; [lia|]. rewrite <- Z.pow_add_r by lia. replace (L - l + l) with L by lia. lia.
Qed.

Lemma node_small L x l : L ≤ 5 → 0 ≤ l < L → 0 ≤ x < 2 ^ L → 0 ≤ node L x l < 64.
Proof.
  intros HL Hl Hx. pose proof (node_range L x l ltac:(lia) Hx).
  assert (0 < 2 ^ l) by (apply Z.pow_pos_nonneg; lia).
  assert (2 ^ (l + 1) ≤ 2 ^ 6) by (apply Z.pow_le_mono_r; lia). lia.
Qed.

(** Nodes of different levels are different. *)
Lemma node_level L x z l k :
  0 ≤ l ≤ L → 0 ≤ k ≤ L → 0 ≤ x < 2 ^ L → 0 ≤ z < 2 ^ L → node L x l = node L z k → l = k.
Proof.
  intros Hl Hk Hx Hz E. pose proof (node_range L x l Hl Hx). pose proof (node_range L z k Hk Hz).
  destruct (Z.lt_trichotomy l k) as [H'|[->|H']]; [|done|].
  - assert (2 ^ (l + 1) ≤ 2 ^ k) by (apply Z.pow_le_mono_r; lia). lia.
  - assert (2 ^ (k + 1) ≤ 2 ^ l) by (apply Z.pow_le_mono_r; lia). lia.
Qed.

Lemma same_node_prefix L x z l i :
  0 ≤ l ≤ L → node L x l = node L z l → L - l ≤ i → Z.testbit x i = Z.testbit z i.
Proof.
  intros Hl E Hi. unfold node in E. assert (E' : x / 2 ^ (L - l) = z / 2 ^ (L - l)) by lia.
  rewrite <- !Z.shiftr_div_pow2 in E' by lia.
  apply (f_equal (λ y, Z.testbit y (i - (L - l)))) in E'. rewrite !Z.shiftr_spec in E' by lia.
  by replace (i - (L - l) + (L - l)) with i in E' by lia.
Qed.

(** ** Touching *)
Lemma bit_of x i : Z.land (Z.shiftr x i) 1 = Z.b2z (Z.testbit x i) \/ i < 0.
Proof.
  destruct (decide (i < 0)); [by right|left]. change 1 with (Z.ones 1).
  rewrite Z.land_ones, Z.shiftr_div_pow2, Z.testbit_spec' by lia. done.
Qed.

Lemma touch_level_spec L x t l :
  0 ≤ l < L → 0 ≤ node L x l < 64 →
  ∃ t', touch_level x (L - 1 - l) (t, node L x l) = (t', node L x (l + 1)) ∧
    ∀ j, 0 ≤ j < 64 → Z.testbit t' j = if j =? node L x l then right L x l else Z.testbit t j.
Proof.
  intros Hl Hn. unfold touch_level. destruct (bit_of x (L - 1 - l)) as [->|]; [|lia].
  rewrite node_next by done. unfold right. destruct (Z.testbit x (L - 1 - l)) eqn:Hb; simpl; eexists.
  - split; [f_equal; lia|]. intros j Hj. rewrite Z.lor_spec, Z.shiftl_1_l, Z.pow2_bits_eqb by lia.
    rewrite (Z.eqb_sym (node L x l)). destruct (Z.eqb_spec j (node L x l)); [apply orb_true_r|apply orb_false_r].
  - split; [f_equal; lia|]. intros j Hj. unfold u64.
    rewrite Z.land_spec, Z.mod_pow2_bits_low, Z.lnot_spec, Z.shiftl_1_l, Z.pow2_bits_eqb by lia.
    rewrite (Z.eqb_sym (node L x l)). destruct (Z.eqb_spec j (node L x l)); [apply andb_false_r|apply andb_true_r].
Qed.

Lemma reverse_zrange_cons n : 0 ≤ n → reverse (zrange 0 (n + 1)) = n :: reverse (zrange 0 n).
Proof.
  intros Hn. assert (E : zrange 0 (n + 1) = zrange 0 n ++ [n]).
  { unfold zrange. rewrite !Z.sub_0_r. replace (n + 1) with (n + 1) by lia.
    rewrite seqZ_app by lia. done. }
  by rewrite E, reverse_snoc.
Qed.

(** The lowest [n] levels of a touch. *)
Lemma touch_levels L x n t :
  0 ≤ n ≤ L → L ≤ 5 → 0 ≤ x < 2 ^ L →
  ∃ t', foldl (λ v i, touch_level x i v) (t, node L x (L - n)) (reverse (zrange 0 n)) = (t', node L x L) ∧
    (∀ l, L - n ≤ l < L → Z.testbit t' (node L x l) = right L x l) ∧
    ∀ j, 0 ≤ j < 64 → (∀ l, L - n ≤ l < L → j ≠ node L x l) → Z.testbit t' j = Z.testbit t j.
Proof.
  intros Hn HL Hx. revert t. pose proof (λ l Hl, node_small L x l HL Hl Hx) as Hb.
  assert (Hn' : 0 ≤ n) by lia. revert Hn. pattern n. apply natlike_ind; [| |done]; clear n Hn'.
  { intros _ t. exists t. rewrite Z.sub_0_r. split_and!; [done|lia|done]. }
  intros n Hn IH HS t. replace (Z.succ n) with (n + 1) in * by lia.
  rewrite reverse_zrange_cons by done. cbn [foldl].
  destruct (touch_level_spec L x t (L - (n + 1)) ltac:(lia) (Hb (L - (n + 1)) ltac:(lia))) as (t1 & E1 & H1).
  replace (L - 1 - (L - (n + 1))) with n in E1 by lia. rewrite E1.
  replace (L - (n + 1) + 1) with (L - n) by lia.
  destruct (IH ltac:(lia) t1) as (t' & E' & Hon & Hoff). exists t'. split_and!; [done| |].
  - intros l Hl. destruct (decide (l = L - (n + 1))) as [->|]; [|apply Hon; lia].
    rewrite Hoff.
    + rewrite H1 by (apply Hb; lia). by rewrite Z.eqb_refl.
    + apply Hb. lia.
    + intros l Hl' E. apply node_level in E; lia.
  - intros j Hj Hne. rewrite Hoff by (done || (intros l ?; apply Hne; lia)). rewrite H1 by done.
    destruct (Z.eqb_spec j (node L x (L - (n + 1)))); [|done]. exfalso. by apply (Hne (L - (n + 1))); [lia|].
Qed.

Lemma touch_tree_spec L x t :
  0 ≤ L ≤ 5 → 0 ≤ x < 2 ^ L →
  (∀ l, 0 ≤ l < L → Z.testbit (touch_tree L x t) (node L x l) = right L x l) ∧
  ∀ j, 0 ≤ j < 64 → (∀ l, 0 ≤ l < L → j ≠ node L x l) → Z.testbit (touch_tree L x t) j = Z.testbit t j.
Proof.
  intros HL Hx. destruct (touch_levels L x L t) as (t' & E & Hon & Hoff); [lia..|done|].
  unfold touch_tree. rewrite Z.sub_diag, node_root in E by done. rewrite E. simpl.
  rewrite Z.sub_diag in *. done.
Qed.

(** ** The victim *)
Lemma victim_levels L t k q :
  0 ≤ k ≤ L → 0 ≤ q < 2 ^ k →
  (∀ l, 0 ≤ l < k → Z.testbit t (node k q l) = negb (right k q l)) →
  ∃ q' ti, foldl (λ v i, victim_level t (2 ^ L) i v) (q * 2 ^ (L - k), 2 ^ k - 1 + q) (zrange k L) = (q', ti) ∧
    0 ≤ q' < 2 ^ L ∧ ∀ l, 0 ≤ l < L → Z.testbit t (node L q' l) = negb (right L q' l).
Proof.
  remember (Z.to_nat (L - k)) as m eqn:Hm. revert k q Hm. induction m as [|m IH]; intros k q Hm Hk Hq Ht.
  { assert (k = L) as -> by lia. rewrite zrange_nil by lia. simpl. rewrite Z.sub_diag, Z.pow_0_r, Z.mul_1_r.
    eexists _, _. split; [done|]. done. }
  rewrite zrange_cons by lia. cbn [foldl].
  assert (Hp : 0 < 2 ^ k) by (apply Z.pow_pos_nonneg; lia).
  set (b := Z.testbit t (2 ^ k - 1 + q)). set (q1 := 2 * q + Z.b2z (negb b)).
  assert (E : victim_level t (2 ^ L) k (q * 2 ^ (L - k), 2 ^ k - 1 + q) = (q1 * 2 ^ (L - (k + 1)), 2 ^ (k + 1) - 1 + q1)).
  { unfold victim_level. destruct (bit_of t (2 ^ k - 1 + q)) as [->|]; [|lia]. fold b. unfold q1.
    rewrite Z.shiftr_div_pow2, <- Z.pow_sub_r by lia. replace (L - k) with (L - (k + 1) + 1) by lia.
    rewrite !Z.pow_add_r by lia. destruct b; simpl; f_equal; lia. }
  rewrite E. apply IH; [lia|lia| |].
  - rewrite Z.pow_add_r by lia. unfold q1. destruct b; simpl; lia.
  - intros l Hl. assert (Hq1 : q1 / 2 = q).
    { unfold q1. symmetry. apply (Z.div_unique _ _ _ (Z.b2z (negb b))); destruct b; simpl; lia. }
    destruct (decide (l = k)) as [->|Hne].
    + unfold node, right. replace (k + 1 - k) with 1 by lia. rewrite Z.pow_1_r, Hq1. fold b.
      replace (k + 1 - 1 - k) with 0 by lia. unfold q1.
      destruct b; cbn [negb Z.b2z]; [by rewrite Z.add_0_r, Z.testbit_even_0|by rewrite Z.testbit_odd_0].
    + specialize (Ht l ltac:(lia)). unfold node, right in *.
      replace (k + 1 - l) with (1 + (k - l)) by lia. rewrite Z.pow_add_r, Z.pow_1_r by lia.
      rewrite <- Z.div_div by (apply Z.pow_pos_nonneg || lia; lia). rewrite Hq1, Ht. f_equal.
      rewrite <- Hq1, <- Z.div2_div, Z.div2_spec, Z.shiftr_spec by lia. f_equal. lia.
Qed.

Lemma victim_leaf_spec L t :
  0 ≤ L → 0 ≤ victim_leaf L (2 ^ L) t < 2 ^ L ∧
  ∀ l, 0 ≤ l < L → Z.testbit t (node L (victim_leaf L (2 ^ L) t) l) = negb (right L (victim_leaf L (2 ^ L) t) l).
Proof.
  intros HL. destruct (victim_levels L t 0 0) as (q & ti & E & Hq & Ht); [lia..|].
  unfold victim_leaf. rewrite Z.mul_0_l in E. change (2 ^ 0 - 1 + 0) with 0 in E. by rewrite E.
Qed.

(** ** Protection *)

(** Every level at which the path to [x] is not pointed to is in [bs]. *)
Definition turned_away (L x t : Z) (bs : list Z) : Prop :=
  ∀ l, 0 ≤ l < L → Z.testbit t (node L x l) ≠ right L x l → l ∈ bs.

Lemma turned_away_touch L x z t bs :
  0 ≤ L ≤ 5 → 0 ≤ x < 2 ^ L → 0 ≤ z < 2 ^ L → turned_away L x t bs →
  turned_away L x (touch_tree L z t) ((L - 1 - Z.log2 (Z.lxor x z)) :: bs).
Proof.
  intros HL Hx Hz Hbs l Hl Hbad. destruct (touch_tree_spec L z t HL Hz) as [Hon Hoff].
  destruct (decide (node L x l = node L z l)) as [E|E].
  - rewrite E, Hon in Hbad by done. assert (E' : l = L - 1 - Z.log2 (Z.lxor x z)); [|rewrite <- E'; left].
    assert (Hlog : Z.log2 (Z.lxor x z) = L - 1 - l); [|lia].
    apply Z.log2_bits_unique.
    + rewrite Z.lxor_spec. unfold right in Hbad. by destruct (Z.testbit x _), (Z.testbit z _).
    + intros i Hi. rewrite Z.lxor_spec. rewrite (same_node_prefix L x z l i) by (done || lia). apply xorb_nilpotent.
  - right. apply Hbs; [done|]. rewrite <- (Hoff (node L x l)); [done|apply node_small; lia|].
    intros k Hk E'. apply E. assert (l = k) as -> by (eapply node_level; [..|exact E']; lia). done.
Qed.

(** The tree after a sequence of touches. *)
Definition touch_ways (L : Z) (xs : list Z) (t : Z) : Z := foldl (λ t x, touch_tree L x t) t xs.

Lemma turned_away_touches L x post t bs :
  0 ≤ L ≤ 5 → 0 ≤ x < 2 ^ L → Forall (λ z, 0 ≤ z < 2 ^ L) post → turned_away L x t bs →
  ∃ bs', turned_away L x (touch_ways L post t) bs' ∧ length bs' = (length post + length bs)%nat.
Proof.
  intros HL Hx Hp. revert t bs. induction Hp as [|z post Hz Hp IH]; intros t bs Hb; [by exists bs|].
  destruct (IH (touch_tree L z t) _ (turned_away_touch L x z t bs HL Hx Hz Hb)) as (bs' & Hb' & Hlen).
  exists bs'. split; [done|]. rewrite Hlen. simpl. lia.
Qed.

Lemma touched_protected L x post t :
  0 ≤ L ≤ 5 → 0 ≤ x < 2 ^ L → Forall (λ z, 0 ≤ z < 2 ^ L) post → Z.of_nat (length post) < L →
  victim_leaf L (2 ^ L) (touch_ways L (x :: post) t) ≠ x.
Proof.
  intros HL Hx Hp Hlen E. destruct (turned_away_touches L x post (touch_tree L x t) []) as (bs & Hb & Hbs); [done..| |].
  { intros l Hl Hbad. by rewrite (proj1 (touch_tree_spec L x t HL Hx) l Hl) in Hbad. }
  pose proof (proj2 (victim_leaf_spec L (touch_ways L (x :: post) t) ltac:(lia))) as Hv.
  rewrite E in Hv. assert (Hsub : zrange 0 L ⊆+ bs).
  { apply NoDup_submseteq; [apply NoDup_seqZ|]. intros l Hl%elem_of_zrange. apply Hb; [done|].
    change (touch_ways L post (touch_tree L x t)) with (touch_ways L (x :: post) t).
    rewrite Hv by done. by destruct (right L x l). }
  apply submseteq_length in Hsub. unfold zrange in Hsub. rewrite length_seqZ in Hsub. simpl in Hbs. lia.
Qed.

(** ** The policy *)
Definition pseudo_ok (p : PseudoLRUPolicy) : Prop :=
  base_ok (pl_base p) ∧ vsize (pl_m_trees p) = rp_m_num_sets (pl_base p) ∧
  pl_m_effective_assoc p = 2 ^ pl_m_num_levels p ∧ 1 ≤ pl_m_num_levels p ≤ 5 ∧
  2 ^ (pl_m_num_levels p - 1) < rp_m_assoc (pl_base p) ≤ 2 ^ pl_m_num_levels p.

(** The two loops of the constructor. *)
Lemma levels_of assoc :
  2 ≤ assoc ≤ 32 →
  ∃ L, effective_assoc 7 1 assoc = Ok (2 ^ L) ∧ num_levels 7 (2 ^ L) 0 = Ok L ∧
    1 ≤ L ≤ 5 ∧ 2 ^ (L - 1) < assoc ≤ 2 ^ L.
Proof.
  intros Ha. assert (H : ∀ a, a ∈ zrange 2 33 →
    ∃ L, effective_assoc 7 1 a = Ok (2 ^ L) ∧ num_levels 7 (2 ^ L) 0 = Ok L ∧
      1 ≤ L ≤ 5 ∧ 2 ^ (L - 1) < a ≤ 2 ^ L); [|apply H, elem_of_zrange; lia].
  apply Forall_forall. change (zrange 2 33) with ltac:(let l := eval vm_compute in (zrange 2 33) in exact l).
  repeat (constructor; [first
    [by exists 1 | by exists 2 | by exists 3 | by exists 4 | by exists 5]|]). constructor.
Qed.

Lemma PseudoLRUPolicy_ctor_Ok size block_size assoc p :
  PseudoLRUPolicy_ctor size block_size assoc = Ok p → 0 < assoc < 2 ^ 32 →
  pseudo_ok p ∧ rp_m_assoc (pl_base p) = assoc ∧ pl_m_num_levels p = Z.log2_up assoc.
Proof.
  unfold PseudoLRUPolicy_ctor. destruct (AbstractReplacementPolicy_ctor _ _ _) as [b|] eqn:Eb; [|done].
  intros H Ha. destruct (AbstractReplacementPolicy_ctor_Ok _ _ _ _ Eb Ha) as (Hb & Hassoc & _).
  revert H. cbn [mbind outcome_bind]. destruct (_ && _ && _) eqn:Hc; [|done]. rewrite !andb_true_iff in Hc.
  destruct (levels_of (rp_m_assoc b)) as (L & E1 & E2 & HL & Hr); [lia|]. cbn [assertO mbind outcome_bind].
  rewrite E1. cbn [mbind outcome_bind]. rewrite E2. cbn [mbind outcome_bind].
  destruct (Z.ltb_spec L 16); [|lia]. intros [= <-]. unfold pseudo_ok. simpl. split; [|split; [done|]].
  - split_and!; try done; try lia. unfold vsize. rewrite length_replicate. lia.
  - symmetry. apply Z.log2_up_unique; [lia|]. replace (Z.pred L) with (L - 1) by lia. lia.
Qed.

Lemma pseudo_touch p set way t :
  pseudo_ok p → in_table (pl_base p) set way →
  ∃ p', PseudoLRUPolicy_touch set way t p = Ok p' ∧ pseudo_ok p' ∧ same_shape (pl_base p) (pl_base p') ∧
    pl_m_num_levels p' = pl_m_num_levels p ∧
    ∀ s tree, vget (pl_m_trees p) s = Some tree →
      vget (pl_m_trees p') s = Some (if decide (set = s) then touch_tree (pl_m_num_levels p) way tree else tree).
Proof.
  intros (Hb & Hs & He & HL & Ha) Hin. unfold PseudoLRUPolicy_touch. rewrite touch_checks_Ok by done.
  destruct (vget_lookup (pl_m_trees p) set) as [tree Ht]; [rewrite Hs; apply Hin|].
  unfold vgetO. rewrite Ht. cbn [mbind outcome_bind]. eexists. split; [done|]. split_and!; try done.
  - split; [by apply table_set_cell|]. split; [|done]. simpl. by rewrite vsize_vset.
  - intros s tr Htr. simpl. case_decide as Hd.
    + subst s. assert (tr = tree) as -> by congruence. apply vget_vset_eq. rewrite Hs. apply Hin.
    + by rewrite vget_vset_ne.
Qed.

Lemma pseudo_touch_all ts p :
  pseudo_ok p → touches_in (pl_base p) ts →
  ∃ p', touch_all ts p = Ok p' ∧ pseudo_ok p' ∧ same_shape (pl_base p) (pl_base p') ∧
    pl_m_num_levels p' = pl_m_num_levels p ∧
    ∀ s tree, vget (pl_m_trees p) s = Some tree →
      vget (pl_m_trees p') s = Some (touch_ways (pl_m_num_levels p) (ways_of s ts) tree).
Proof.
  revert p. induction ts as [|[[set way] t] ts IH]; intros p Hok Hin; [by exists p|].
  apply Forall_cons in Hin as [Hin Hins]. simpl in Hin.
  destruct (pseudo_touch p set way t Hok Hin) as (p1 & E1 & Hok1 & [Hn1 Ha1] & HL1 & Ht1).
  destruct (IH p1 Hok1) as (p2 & E2 & Hok2 & [Hn2 Ha2] & HL2 & Ht2).
  { unfold touches_in, in_table in *. by rewrite Hn1, Ha1. }
  exists p2. cbn [touch_all]. change (touch set way t p) with (PseudoLRUPolicy_touch set way t p).
  rewrite E1. split; [done|]. split_and!; try done.
  - split; congruence.
  - congruence.
  - intros s tree Htree. rewrite (Ht2 _ _ (Ht1 _ _ Htree)), HL1. unfold ways_of. rewrite filter_cons. simpl.
    by destruct (decide (set = s)).
Qed.

Lemma pseudo_victim p set tree :
  pseudo_ok p → vget (pl_m_trees p) set = Some tree →
  let leaf := victim_leaf (pl_m_num_levels p) (2 ^ pl_m_num_levels p) tree in
  PseudoLRUPolicy_getVictim set p = Ok (Z.min leaf (rp_m_assoc (pl_base p) - 1)).
Proof.
  intros (Hb & Hs & He & HL & Ha) Ht leaf. unfold PseudoLRUPolicy_getVictim, vgetO. rewrite Ht.
  cbn [mbind outcome_bind]. rewrite He. fold leaf.
  pose proof (proj1 (victim_leaf_spec (pl_m_num_levels p) tree ltac:(lia))) as Hr. fold leaf in Hr.
  destruct (Z.leb_spec 0 leaf), (Z.ltb_spec leaf (2 ^ pl_m_num_levels p)); try lia. simpl. f_equal.
  destruct (Z.ltb_spec (rp_m_assoc (pl_base p) - 1) leaf); lia.
Qed.

#[export] Program Instance pseudo_lru_policy_spec : ReplacementPolicySpec PseudoLRUPolicy := {
  policy_ok := pseudo_ok
}.
Next Obligation. intros p (Hb & _). exact Hb. Qed.
Next Obligation.
  intros p set way t Hok Hin. destruct (pseudo_touch p set way t Hok Hin) as (p' & ? & ? & ? & _). by exists p'.
Qed.
Next Obligation. done. Qed.
Next Obligation.
  intros p set Hok Hs Ha. simpl in *. pose proof Hok as (_ & Hs' & _ & HL & _).
  destruct (vget_lookup (pl_m_trees p) set) as [tree Ht]; [lia|].
  rewrite (pseudo_victim _ _ _ Hok Ht). eexists. split; [done|].
  pose proof (proj1 (victim_leaf_spec (pl_m_num_levels p) tree ltac:(lia))). lia.
Qed.

(** ** The ways that are safe *)
Lemma elem_of_take_reverse (x : Z) n xs :
  x ∈ take n (reverse xs) → ∃ pre post, xs = pre ++ x :: post ∧ (length post < n)%nat.
Proof.
  intros Hx. apply list_elem_of_lookup in Hx as [i Hi]. apply lookup_take_Some in Hi as [Hi Hn].
  apply list_elem_of_split_length in Hi as (l1 & l2 & E & Hlen).
  apply (f_equal reverse) in E. rewrite reverse_involutive, reverse_app, reverse_cons in E.
  exists (reverse l2), (reverse l1). rewrite E, <- app_assoc. split; [done|]. rewrite length_reverse. lia.
Qed.

Lemma last_touch_safe L assoc x post t :
  1 ≤ L ≤ 5 → 2 ^ (L - 1) < assoc ≤ 2 ^ L → 0 ≤ x < assoc →
  Z.min (victim_leaf L (2 ^ L) (touch_ways L (post ++ [x]) t)) (assoc - 1) ≠ x.
Proof.
  intros HL Ha Hx. unfold touch_ways. rewrite foldl_app. simpl. set (t' := foldl _ t post).
  destruct (victim_leaf_spec L (touch_tree L x t') ltac:(lia)) as [Hv Hbits].
  set (v := victim_leaf _ _ _) in *. specialize (Hbits 0 ltac:(lia)).
  rewrite node_root in Hbits by lia.
  pose proof (proj1 (touch_tree_spec L x t' ltac:(lia) ltac:(lia)) 0 ltac:(lia)) as Hr.
  rewrite node_root in Hr by lia. rewrite Hr in Hbits. unfold right in Hbits. rewrite Z.sub_0_r in Hbits.
  assert (Htop : ∀ y, 0 ≤ y < 2 ^ L → Z.testbit y (L - 1) = (2 ^ (L - 1) <=? y)).
  { intros y Hy. rewrite Z.testbit_eqb by lia.
    assert (Hp : 0 < 2 ^ (L - 1)) by (apply Z.pow_pos_nonneg; lia).
    assert (E2 : 2 ^ L = 2 ^ (L - 1) * 2) by (rewrite <- (Z.pow_1_r 2) at 3; rewrite <- Z.pow_add_r by lia; f_equal; lia).
    destruct (Z.leb_spec (2 ^ (L - 1)) y).
    - assert (y / 2 ^ (L - 1) = 1) as -> by (symmetry; apply (Z.div_unique _ _ _ (y - 2 ^ (L - 1))); lia). done.
    - by rewrite Z.div_small by lia. }
  rewrite !Htop in Hbits by lia.
  destruct (Z.leb_spec (2 ^ (L - 1)) x), (Z.leb_spec (2 ^ (L - 1)) v); try done; lia.
Qed.

(** C13.  The tree policy keeps what it has touched.  From a policy that its
    constructor makes, after any sequence of touches inside the table, every
    touch and the choice of a victim in any set succeed; the victim is a way of
    the set and is not the way of the set that was touched last; and if the
    associativity is a power of two, it is none of the last [log2] of the
    associativity touches of the set, however the touches of other sets are
    interleaved. *)
Theorem PseudoLRU_protects_recent size block_size assoc p ts set :
  PseudoLRUPolicy_ctor size block_size assoc = Ok p → 0 < assoc < 2 ^ 32 →
  touches_in (pl_base p) ts → 0 ≤ set < rp_m_num_sets (pl_base p) →
  ∃ p' v, touch_all ts p = Ok p' ∧ PseudoLRUPolicy_getVictim set p' = Ok v ∧ 0 ≤ v < assoc ∧
    last (ways_of set ts) ≠ Some v ∧
    (assoc = 2 ^ Z.log2 assoc → v ∉ take (Z.to_nat (Z.log2 assoc)) (reverse (ways_of set ts))).
Proof.
  intros Hc Hassoc Hin Hset. destruct (PseudoLRUPolicy_ctor_Ok _ _ _ _ Hc Hassoc) as (Hok & Ha & HL).
  pose proof Hok as (_ & Hs & _ & HL5 & Hr).
  destruct (vget_lookup (pl_m_trees p) set) as [tree Ht]; [lia|].
  destruct (pseudo_touch_all ts p Hok Hin) as (p' & E & Hok' & [_ Ha'] & HL' & Ht').
  specialize (Ht' _ _ Ht). set (L := pl_m_num_levels p) in *. eexists p', _. split; [done|].
  split; [by apply (pseudo_victim _ _ _ Hok' Ht')|]. rewrite HL', Ha', Ha. fold L.
  assert (Hw : Forall (λ x, 0 ≤ x < assoc) (ways_of set ts)).
  { apply Forall_forall. intros x ([y z] & -> & [_ Hy]%list_elem_of_filter)%list_elem_of_fmap.
    unfold touches_in in Hin. rewrite Forall_forall in Hin. destruct (Hin _ Hy) as [_ Hy']. simpl in *. lia. }
  pose proof (proj1 (victim_leaf_spec L (touch_ways L (ways_of set ts) tree) ltac:(lia))) as Hv.
  split_and!; [lia|lia| |].
  - intros (pre & Hpre)%last_Some. remember (Z.min _ _) as v eqn:Ev. rewrite Hpre in *.
    apply Forall_app in Hw as [_ [Hw _]%Forall_cons].
    by apply (last_touch_safe L assoc v pre tree); [lia..|].
  - intros Hpow Hx. assert (Z.log2 assoc = L) as Hl.
    { rewrite HL, Hpow at 1. rewrite Z.log2_pow2 by apply Z.log2_nonneg. rewrite Hpow at 2.
      by rewrite Z.log2_up_pow2 by apply Z.log2_nonneg. }
    rewrite Hl in *. rewrite Z.min_l in Hx by lia. remember (victim_leaf _ _ _) as v eqn:Ev.
    destruct (elem_of_take_reverse _ _ _ Hx) as (pre & post & E' & Hlen). rewrite E' in *.
    apply Forall_app in Hw as [_ [_ Hw]%Forall_cons]. rewrite Hpow in Hw.
    unfold touch_ways in Ev. rewrite foldl_app in Ev.
    apply (touched_protected L v post (touch_ways L pre tree)); [lia|lia|done|lia|done].
Qed.

(** A policy for a cache of four sets with four ways. *)
Definition sample_tree_policy : PseudoLRUPolicy :=
  mkPseudoLRUPolicy (mkPolicyBase 4 4 (grid 4 4 0)) 4 2 [0; 0; 0; 0].

Lemma PseudoLRU_protects_recent_witness :
  ∃ p' v, touch_all [(0, 3, 10); (0, 0, 20); (1, 1, 30); (0, 2, 40)] sample_tree_policy = Ok p' ∧
    PseudoLRUPolicy_getVictim 0 p' = Ok v ∧ 0 ≤ v < 4 ∧ Some 2 ≠ Some v ∧
    (4 = 2 ^ Z.log2 4 → v ∉ [2; 0]).
Proof.
  apply (PseudoLRU_protects_recent 1024 64 4 sample_tree_policy
           [(0, 3, 10); (0, 0, 20); (1, 1, 30); (0, 2, 40)] 0).
  - reflexivity.
  - lia.
  - repeat (constructor; [unfold in_table; simpl; lia|]). constructor.
  - simpl. lia.
Defined.
