(* ===== verification/CacheTheory.v ===== *)
(** * Correctness of cache memories

    A [CacheMemory] is a set-associative array of pointers, an index of tags
    and a replacement policy.  [cache_ok] is the invariant that ties them
    together, [contents] the finite map from line addresses to lines that such a
    state stands for, and [spec] what each operation does to that map.  The
    operations refine [spec], with any policy that keeps its contract. *)

From S2P Require Import Prelude NetDestModel AddrRangeModel CommonTypes AddressModel ReplacementModel CacheMemoryModel AddrRangeTheory AddressTheory ReplacementTheory.

(** [run E] runs the first operation of a sequence by the equation [E]. *)
Ltac run E := erewrite bind_run; [|E]; cbv beta.

(** ** Slots and sets *)
Definition slot_of (m : list (list (option ptr))) (s i : Z) : option ptr :=
  match cell m s i "" with Ok p => p | Abort _ => None end.

Lemma slot_of_cell m s i rows cols site :
  table m rows cols → 0 ≤ s < rows → 0 ≤ i < cols → cell m s i site = Ok (slot_of m s i).
Proof.
  intros Hm Hs Hi. destruct (cell_Ok _ _ _ _ _ Hm Hs Hi) as [p Hp]. unfold slot_of. by rewrite !Hp.
Qed.

Lemma slot_of_range m s i rows cols p :
  table m rows cols → slot_of m s i = Some p → 0 ≤ s < rows ∧ 0 ≤ i < cols.
Proof.
  intros Hm. unfold slot_of, cell, vgetO. destruct (vget m s) as [r|] eqn:Hr; [|done]. simpl.
  destruct (vget r i) as [q|] eqn:Hq; [|done]. simpl. intros ->.
  apply vget_Some_lt in Hq. rewrite (table_row _ _ _ _ _ Hm Hr) in Hq.
  apply vget_Some_lt in Hr. destruct Hm as [<- _]. done.
Qed.

Lemma slot_of_set_cell m rows cols s i p s' i' :
  table m rows cols → 0 ≤ s < rows → 0 ≤ i < cols →
  slot_of (set_cell m s i p) s' i' = if decide (s' = s ∧ i' = i) then p else slot_of m s' i'.
Proof.
  intros Hm Hs Hi. unfold slot_of. rewrite (cell_set_cell _ _ _ _ _ _ _ _ _ Hm Hs Hi). by case_decide.
Qed.

(** What the rest of the system sees of a line. *)
Record Line := mkLine {
  ln_ptr : ptr;
  ln_perm : AccessPermission;
  ln_locked : Z;
  ln_data : option (list Z);
}.
Definition view (p : ptr) (e : AbstractCacheEntry) : Line :=
  mkLine p (ce_m_Permission e) (ce_m_locked e) (ce_DataBlk e).

Section CacheTheory.
Context {P : Type} `{RPS : ReplacementPolicySpec P} {BS : BlockSize} {BSS : BlockSizeSpec BS}.
Implicit Types (x : CacheMemory P) (w : CWorld P).

(** The set of an address. *)
Definition set_of x (a : Z) : Z := a / 2 ^ cm_m_start_index_bit x mod 2 ^ cm_m_cache_num_set_bits x.
Definition is_line (a : Z) : Prop := 0 ≤ a < 2 ^ 64 ∧ makeLineAddress a = a.

Record geometry x : Prop := {
  geo_start : 0 ≤ cm_m_start_index_bit x;
  geo_bits : 0 < cm_m_cache_num_set_bits x;
  geo_width : cm_m_start_index_bit x + cm_m_cache_num_set_bits x ≤ 64;
  geo_assoc : 0 < cm_m_cache_assoc x < 2 ^ 31;
  geo_sets : 2 ^ cm_m_cache_num_set_bits x ≤ cm_m_cache_num_sets x < 2 ^ 31;
  geo_table : table (cm_m_cache x) (cm_m_cache_num_sets x) (cm_m_cache_assoc x);
  geo_policy : policy_ok (cm_policy x);
  geo_policy_sets : rp_m_num_sets (policy_base (cm_policy x)) = cm_m_cache_num_sets x;
  geo_policy_assoc : rp_m_assoc (policy_base (cm_policy x)) = cm_m_cache_assoc x;
}.

(** The invariant: every pointer in the array is that of a live entry, whose
    address belongs to the set and is indexed, and every indexed tag is in the
    array. *)
Record cache_ok w : Prop := {
  ok_geometry : geometry (cw_cache w);
  ok_slot s i p : slot_of (cm_m_cache (cw_cache w)) s i = Some p →
    ∃ e, cw_entries w !! p = Some e ∧ ce_m_Permission e ≠ NotPresent ∧ is_line (ce_m_Address e) ∧
      set_of (cw_cache w) (ce_m_Address e) = s ∧ cm_m_tag_index (cw_cache w) !! ce_m_Address e = Some i ∧
      ce_m_set_index e = s ∧ ce_m_way_index e = i;
  ok_tag a i : cm_m_tag_index (cw_cache w) !! a = Some i →
    ∃ p e, slot_of (cm_m_cache (cw_cache w)) (set_of (cw_cache w) a) i = Some p ∧
      cw_entries w !! p = Some e ∧ ce_m_Address e = a;
}.

(** The map from addresses to lines. *)
Definition line_at w (a i : Z) : option Line :=
  p ← slot_of (cm_m_cache (cw_cache w)) (set_of (cw_cache w) a) i;
  view p <$> cw_entries w !! p.
Definition contents w : gmap Z Line := map_imap (line_at w) (cm_m_tag_index (cw_cache w)).

Lemma contents_lookup w a : contents w !! a = cm_m_tag_index (cw_cache w) !! a ≫= line_at w a.
Proof. apply map_lookup_imap. Qed.

(** A tag that is indexed. *)
Lemma tag_line w a i :
  cache_ok w → cm_m_tag_index (cw_cache w) !! a = Some i →
  ∃ p e, contents w !! a = Some (view p e) ∧ slot_of (cm_m_cache (cw_cache w)) (set_of (cw_cache w) a) i = Some p ∧
    cw_entries w !! p = Some e ∧ ce_m_Address e = a ∧ ce_m_Permission e ≠ NotPresent ∧ is_line a ∧
    ce_m_set_index e = set_of (cw_cache w) a ∧ ce_m_way_index e = i.
Proof.
  intros Hok Ht. destruct (ok_tag w Hok a i Ht) as (p & e & Hs & He & Ha).
  destruct (ok_slot w Hok _ _ _ Hs) as (e' & He' & Hp & Hl & _ & _ & Hsi & Hwi).
  assert (e' = e) as -> by congruence. exists p, e. rewrite contents_lookup, Ht. simpl. unfold line_at.
  rewrite Hs. simpl. rewrite He. rewrite Ha in Hl. done.
Qed.

Lemma contents_tag w a l :
  contents w !! a = Some l → ∃ i, cm_m_tag_index (cw_cache w) !! a = Some i ∧ line_at w a i = Some l.
Proof. rewrite contents_lookup. intros (i & Hi & Hl)%bind_Some. eauto. Qed.

Lemma contents_None w a :
  cache_ok w → contents w !! a = None ↔ cm_m_tag_index (cw_cache w) !! a = None.
Proof.
  intros Hok. split.
  - intros Hn. destruct (cm_m_tag_index (cw_cache w) !! a) as [i|] eqn:Ht; [|done].
    destruct (tag_line w a i Hok Ht) as (p & e & E & _). congruence.
  - intros Ht. by rewrite contents_lookup, Ht.
Qed.

(** A pointer in the array. *)
Lemma slot_line w s i p :
  cache_ok w → slot_of (cm_m_cache (cw_cache w)) s i = Some p →
  ∃ e, cw_entries w !! p = Some e ∧ contents w !! ce_m_Address e = Some (view p e) ∧
    set_of (cw_cache w) (ce_m_Address e) = s ∧ cm_m_tag_index (cw_cache w) !! ce_m_Address e = Some i ∧
    ce_m_Permission e ≠ NotPresent.
Proof.
  intros Hok Hs. destruct (ok_slot w Hok _ _ _ Hs) as (e & He & Hp & _ & Hset & Ht & _). exists e.
  split_and!; try done. rewrite contents_lookup, Ht. simpl. unfold line_at. rewrite Hset, Hs. simpl. by rewrite He.
Qed.

(** ** Reading operations *)
Lemma set_of_range x a : geometry x → 0 ≤ set_of x a < cm_m_cache_num_sets x.
Proof.
  intros Hg. pose proof (geo_bits x Hg). pose proof (geo_sets x Hg).
  assert (0 < 2 ^ cm_m_cache_num_set_bits x) by (apply Z.pow_pos_nonneg; lia).
  unfold set_of. pose proof (Z.mod_pos_bound (a / 2 ^ cm_m_start_index_bit x) (2 ^ cm_m_cache_num_set_bits x)). lia.
Qed.

Lemma run_addressToCacheSet w a :
  geometry (cw_cache w) → is_line a →
  CacheMemory_addressToCacheSet a w = Ok (set_of (cw_cache w) a, w).
Proof.
  intros Hg [Ha Hl]. unfold CacheMemory_addressToCacheSet. rewrite Hl, Z.eqb_refl.
  set (x := cw_cache w) in *. pose proof (geo_start x Hg). pose proof (geo_bits x Hg). pose proof (geo_width x Hg).
  unfold mbind, M_bind. simpl. fold x. unfold lift. rewrite bitSelect_spec by lia. unfold set_of. do 5 f_equal. lia.
Qed.

Lemma run_slot w s i site :
  geometry (cw_cache w) → 0 ≤ s < cm_m_cache_num_sets (cw_cache w) → 0 ≤ i < cm_m_cache_assoc (cw_cache w) →
  slot s i site w = Ok (slot_of (cm_m_cache (cw_cache w)) s i, w).
Proof.
  intros Hg Hs Hi. unfold slot, mbind, M_bind. simpl. unfold lift.
  by rewrite (slot_of_cell _ _ _ _ _ _ (geo_table _ Hg) Hs Hi).
Qed.

Lemma run_get_entry w p e site : cw_entries w !! p = Some e → get_entry (Some p) site w = Ok (e, w).
Proof. intros He. unfold get_entry, mbind, M_bind. simpl. by rewrite He. Qed.

Lemma run_assert_line w a site : is_line a → assertM (a =? makeLineAddress a) site w = Ok (tt, w).
Proof. intros [_ ->]. by rewrite Z.eqb_refl. Qed.

Lemma tag_way w a i :
  cache_ok w → cm_m_tag_index (cw_cache w) !! a = Some i → 0 ≤ i < cm_m_cache_assoc (cw_cache w).
Proof.
  intros Hok Ht. destruct (tag_line w a i Hok Ht) as (p & e & _ & Hs & _).
  by apply (slot_of_range _ _ _ _ _ _ (geo_table _ (ok_geometry w Hok)) Hs).
Qed.

Lemma run_findTagInSet w a :
  cache_ok w → is_line a →
  CacheMemory_findTagInSet (set_of (cw_cache w) a) a w = Ok (default (-1) (cm_m_tag_index (cw_cache w) !! a), w).
Proof.
  intros Hok Ha. pose proof (ok_geometry w Hok) as Hg. unfold CacheMemory_findTagInSet.
  run ltac:(by apply run_assert_line). run ltac:(reflexivity).
  destruct (cm_m_tag_index (cw_cache w) !! a) as [i|] eqn:Ht; [|done].
  destruct (tag_line w a i Hok Ht) as (p & e & _ & Hs & He & _ & Hp & _).
  run ltac:(by apply run_slot; [|apply set_of_range|eapply tag_way]). rewrite Hs.
  run ltac:(by apply run_get_entry). by rewrite decide_False.
Qed.

(** The way of an address, or -1, is how the operations below find it. *)
Lemma run_find w a {B} (k : Z → Z → M (CWorld P) B) :
  cache_ok w → is_line a →
  (cacheSet ← CacheMemory_addressToCacheSet a; loc ← CacheMemory_findTagInSet cacheSet a; k cacheSet loc) w =
  k (set_of (cw_cache w) a) (default (-1) (cm_m_tag_index (cw_cache w) !! a)) w.
Proof.
  intros Hok Ha. run ltac:(apply run_addressToCacheSet; [by apply ok_geometry|done]).
  by run ltac:(by apply run_findTagInSet).
Qed.

Lemma way_found w a i :
  cache_ok w → cm_m_tag_index (cw_cache w) !! a = Some i → (i =? -1) = false.
Proof. intros Hok Ht. pose proof (tag_way w a i Hok Ht). lia. Qed.

Lemma run_isTagPresent w a :
  cache_ok w → is_line a → CacheMemory_isTagPresent a w = Ok (bool_decide (is_Some (contents w !! a)), w).
Proof.
  intros Hok Ha. unfold CacheMemory_isTagPresent. run ltac:(by apply run_assert_line). rewrite run_find by done.
  unfold mret, M_ret. do 2 f_equal. destruct (cm_m_tag_index (cw_cache w) !! a) as [i|] eqn:Ht; simpl.
  - rewrite (way_found w a i Hok Ht). destruct (tag_line w a i Hok Ht) as (p & e & -> & _).
    by rewrite bool_decide_eq_true_2 by eauto.
  - rewrite (proj2 (contents_None w a Hok) Ht). by rewrite bool_decide_eq_false_2 by (intros [? [=]]).
Qed.

Lemma run_lookup w a :
  cache_ok w → is_line a → CacheMemory_lookup a w = Ok (ln_ptr <$> contents w !! a, w).
Proof.
  intros Hok Ha. unfold CacheMemory_lookup. run ltac:(by apply run_assert_line). rewrite run_find by done.
  destruct (cm_m_tag_index (cw_cache w) !! a) as [i|] eqn:Ht; simpl.
  - rewrite (way_found w a i Hok Ht). destruct (tag_line w a i Hok Ht) as (p & e & -> & Hs & _).
    rewrite run_slot by (by apply ok_geometry || by apply set_of_range, ok_geometry || by eapply tag_way).
    by rewrite Hs.
  - by rewrite (proj2 (contents_None w a Hok) Ht).
Qed.

(** ** Availability *)

(** The addresses in a set of the array, in the order of the ways. *)
Definition way_address w s (i : Z) : option Z :=
  p ← slot_of (cm_m_cache (cw_cache w)) s i; ce_m_Address <$> cw_entries w !! p.
Definition set_addresses w s : list Z := omap (way_address w s) (zrange 0 (cm_m_cache_assoc (cw_cache w))).

(** The addresses of a set in the map. *)
Definition lines_of x (m : gmap Z Line) (s : Z) : gset Z := filter (λ a, set_of x a = s) (dom m).

Lemma way_address_Some w s i a :
  cache_ok w → way_address w s i = Some a ↔
  cm_m_tag_index (cw_cache w) !! a = Some i ∧ set_of (cw_cache w) a = s.
Proof.
  intros Hok. unfold way_address. split.
  - intros (p & Hs & (e & He & ->)%fmap_Some)%bind_Some.
    destruct (slot_line w s i p Hok Hs) as (e' & He' & _ & Hset & Ht & _). assert (e' = e) as -> by congruence. done.
  - intros [Ht <-]. destruct (tag_line w a i Hok Ht) as (p & e & _ & Hs & He & Ha & _). rewrite Hs. simpl.
    rewrite He. simpl. by rewrite Ha.
Qed.

Lemma elem_of_set_addresses w s a :
  cache_ok w → a ∈ set_addresses w s ↔ a ∈ lines_of (cw_cache w) (contents w) s.
Proof.
  intros Hok. unfold set_addresses, lines_of. rewrite elem_of_filter, elem_of_dom, list_elem_of_omap. split.
  - intros (i & _ & [Ht Hs]%way_address_Some); [|done]. split; [done|].
    destruct (tag_line w a i Hok Ht) as (p & e & E & _). rewrite E. eauto.
  - intros [Hs [l Hl]]. destruct (contents_tag w a l Hl) as (i & Ht & _). exists i.
    rewrite elem_of_zrange, way_address_Some by done. split; [by eapply tag_way|done].
Qed.

Lemma NoDup_omap_inj {A B} (f : A → option B) l :
  NoDup l → (∀ i j b, f i = Some b → f j = Some b → i = j) → NoDup (omap f l).
Proof.
  intros Hl Hf. induction Hl as [|i l Hi Hl IH]; [constructor|]. csimpl.
  destruct (f i) as [b|] eqn:Hb; [|done]. constructor; [|done].
  intros (j & Hj & Hjb)%list_elem_of_omap. by rewrite (Hf i j b Hb Hjb) in Hi.
Qed.

Lemma set_addresses_NoDup w s : cache_ok w → NoDup (set_addresses w s).
Proof.
  intros Hok. apply NoDup_omap_inj; [apply NoDup_seqZ|]. intros i j b Hi Hj.
  apply way_address_Some in Hi as [Hi _], Hj as [Hj _]; congruence.
Qed.

Lemma set_addresses_size w s :
  cache_ok w → length (set_addresses w s) = size (lines_of (cw_cache w) (contents w) s).
Proof.
  intros Hok. rewrite <- (size_list_to_set (C := gset Z)) by by apply set_addresses_NoDup.
  f_equal. apply set_eq. intros a. rewrite elem_of_list_to_set. by apply elem_of_set_addresses.
Qed.

Lemma length_omap_le {A B} (f : A → option B) l : (length (omap f l) ≤ length l)%nat.
Proof. induction l as [|i l IH]; csimpl; [lia|]. destruct (f i); simpl; lia. Qed.

Lemma length_omap_full {A B} (f : A → option B) l :
  length (omap f l) = length l ↔ ∀ i, i ∈ l → is_Some (f i).
Proof.
  induction l as [|i l IH]; csimpl; [split; [set_solver|done]|]. pose proof (length_omap_le f l) as Hle. destruct (f i) eqn:Hi; simpl.
  - rewrite Nat.succ_inj_wd, IH. split; [|set_solver]. intros H j [->|Hj]%elem_of_cons; [eauto|by apply H].
  - split; [lia|]. intros H. destruct (H i ltac:(left)) as [? ?]. congruence.
Qed.

(** A set with a free way has room. *)
Lemma room_iff w s :
  cache_ok w →
  (Z.of_nat (size (lines_of (cw_cache w) (contents w) s)) < cm_m_cache_assoc (cw_cache w)) ↔
  ∃ i, 0 ≤ i < cm_m_cache_assoc (cw_cache w) ∧ slot_of (cm_m_cache (cw_cache w)) s i = None.
Proof.
  intros Hok. pose proof (geo_assoc _ (ok_geometry w Hok)) as Hpos. rewrite <- set_addresses_size by done.
  set (n := cm_m_cache_assoc (cw_cache w)) in *.
  assert (Hlen : length (zrange 0 n) = Z.to_nat n) by (unfold zrange; rewrite length_seqZ; f_equal; lia).
  assert (Hfull := length_omap_full (way_address w s) (zrange 0 n)).
  assert (Hle : (length (set_addresses w s) ≤ Z.to_nat n)%nat).
  { rewrite <- Hlen. apply length_omap_le. }
  split.
  - intros Hlt. destruct (first_such (λ i, bool_decide (slot_of (cm_m_cache (cw_cache w)) s i = None)) (zrange 0 n)) as [i|] eqn:E;
      pose proof (first_such_zrange (λ i, bool_decide (slot_of (cm_m_cache (cw_cache w)) s i = None)) 0 n) as Hf; rewrite E in Hf.
    + exists i. destruct Hf as (? & Hb%bool_decide_eq_true_1 & _). done.
    + exfalso. assert (length (set_addresses w s) = Z.to_nat n); [|lia]. rewrite <- Hlen. apply Hfull.
      intros i Hi%elem_of_zrange. specialize (Hf i Hi). apply bool_decide_eq_false_1 in Hf.
      destruct (slot_of (cm_m_cache (cw_cache w)) s i) as [p|] eqn:Hs; [|done].
      destruct (slot_line w s i p Hok Hs) as (e & He & _). unfold way_address. rewrite Hs. simpl. rewrite He. eauto.
  - intros (i & Hi & Hs). destruct (decide (Z.of_nat (length (set_addresses w s)) < n)) as [|Hge]; [done|exfalso].
    destruct (proj1 Hfull) with i as [a Ha]; [fold (set_addresses w s); unfold set_addresses in *; fold n in Hle, Hge; lia|by apply elem_of_zrange|].
    unfold way_address in Ha. by rewrite Hs in Ha.
Qed.

Definition room w (a : Z) : Prop :=
  Z.of_nat (size (lines_of (cw_cache w) (contents w) (set_of (cw_cache w) a))) < cm_m_cache_assoc (cw_cache w).

#[export] Instance room_dec w a : Decision (room w a).
Proof. unfold room. apply _. Defined.

(** A way that is free, or that holds the address. *)
Definition open_way w (s a i : Z) : bool :=
  match slot_of (cm_m_cache (cw_cache w)) s i with
  | None => true
  | Some p => match cw_entries w !! p with Some e => ce_m_Address e =? a | None => false end
  end.

Lemma open_way_iff w a :
  cache_ok w →
  (∃ i, 0 ≤ i < cm_m_cache_assoc (cw_cache w) ∧ open_way w (set_of (cw_cache w) a) a i = true) ↔
  is_Some (contents w !! a) ∨ room w a.
Proof.
  intros Hok. unfold room. rewrite room_iff by done. split.
  - intros (i & Hi & Ho). unfold open_way in Ho.
    destruct (slot_of _ _ i) as [p|] eqn:Hs; [left|right; eauto].
    destruct (slot_line w _ _ _ Hok Hs) as (e & He & Hc & _). rewrite He in Ho.
    apply Z.eqb_eq in Ho. rewrite <- Ho, Hc. eauto.
  - intros [[l Hl]|(i & Hi & Hs)].
    + destruct (contents_tag w a l Hl) as (i & Ht & _). exists i. split; [by eapply tag_way|].
      destruct (tag_line w a i Hok Ht) as (p & e & _ & Hs & He & Ha & _). unfold open_way. rewrite Hs, He.
      by apply Z.eqb_eq.
    + exists i. split; [done|]. unfold open_way. by rewrite Hs.
Qed.

Lemma run_cacheAvail w a :
  cache_ok w → is_line a →
  CacheMemory_cacheAvail a w = Ok (bool_decide (is_Some (contents w !! a) ∨ room w a), w).
Proof.
  intros Hok Ha. pose proof (ok_geometry w Hok) as Hg. unfold CacheMemory_cacheAvail.
  run ltac:(by apply run_assert_line). run ltac:(by apply run_addressToCacheSet). run ltac:(reflexivity).
  set (s := set_of (cw_cache w) a). set (n := cm_m_cache_assoc (cw_cache w)).
  pose proof (first_such_zrange (open_way w s a) 0 n) as Hf.
  assert (Hbody : ∀ i, 0 ≤ i < n → ∀ A (k : option ptr → M (CWorld P) A),
    (slot s i "CacheMemory.cc:239" ≫= k) w = k (slot_of (cm_m_cache (cw_cache w)) s i) w).
  { intros i Hi A k. by run ltac:(apply run_slot; [done|by apply set_of_range|done]). }
  match goal with |- (loop ?xs ?v ?body ≫= _) _ = _ =>
    assert (E : loop xs v body w = match first_such (open_way w s a) xs with
      | Some _ => Ok (inr true, w) | None => Ok (inl tt, w) end) end.
  { apply loop_search; intros i Hi%elem_of_zrange; unfold open_way; rewrite Hbody by done;
      destruct (slot_of (cm_m_cache (cw_cache w)) s i) as [p|] eqn:Hs; try done;
      destruct (slot_line w s i p Hok Hs) as (e & He & _ & _ & _ & Hp); rewrite He; intros Ho;
      (run ltac:(by apply run_get_entry)); rewrite Ho; [|done]; by rewrite bool_decide_eq_false_2. }
  pose proof (open_way_iff w a Hok) as Hiff. fold n s in Hiff.
  destruct (first_such _ _) as [i|]; (run ltac:(apply E)); unfold mret, M_ret; do 2 f_equal; symmetry.
  - apply bool_decide_eq_true_2, Hiff. exists i. naive_solver.
  - apply bool_decide_eq_false_2. rewrite <- Hiff. intros (i & Hi & Ho). by rewrite (Hf i Hi) in Ho.
Qed.
End CacheTheory.
