(* ===== verification/TBETheory.v ===== *)
(** * Correctness of the transaction table

    [TBETable] is a map of bounded size.  The number of free slots that
    [areNSlotsAvailable] answers with is computed without sign; within the
    invariant it does not wrap around, and as many allocations as it promises
    succeed. *)

From S2P Require Import Prelude Refinement NetDestModel AddrRangeModel AddressModel CacheMemoryModel TablesModel AddrRangeTheory AddressTheory CacheTheory.

Inductive tbe_op := TbeAllocate (a : Z) | TbeDeallocate (a : Z) | TbeIsPresent (a : Z) | TbeLookup (a : Z) | TbeSlots (n : Z).
Inductive tbe_answer (ENTRY : Type) := TbeUnit | TbeBool (b : bool) | TbeEntry (e : option ENTRY).
Arguments TbeUnit {ENTRY}.
Arguments TbeBool {ENTRY} _.
Arguments TbeEntry {ENTRY} _.

Section TBETable.
Context {ENTRY : Type} (ENTRY_ctor : ENTRY) {BS : BlockSize} (N : Z).
Implicit Types (t : TBETable ENTRY) (c : gmap Z ENTRY).

Definition tbe_update (f : TBETable ENTRY → outcome (TBETable ENTRY)) : M (TBETable ENTRY) (tbe_answer ENTRY) := λ t,
  match f t with Ok t' => Ok (TbeUnit, t') | Abort e => Abort e end.

Definition tbe_exec (op : tbe_op) : M (TBETable ENTRY) (tbe_answer ENTRY) :=
  match op with
  | TbeAllocate a => tbe_update (TBETable_allocate ENTRY_ctor a)
  | TbeDeallocate a => tbe_update (TBETable_deallocate a)
  | TbeIsPresent a => λ t, match TBETable_isPresent a t with Ok b => Ok (TbeBool b, t) | Abort e => Abort e end
  | TbeLookup a => gets (λ t, TbeEntry (TBETable_lookup a t))
  | TbeSlots n => gets (λ t, TbeBool (TBETable_areNSlotsAvailable n 0 t))
  end.

Definition tbe_sane (op : tbe_op) : Prop := match op with TbeSlots n => 0 ≤ n < 2 ^ 31 | _ => True end.

Definition tbe_enabled c (op : tbe_op) : Prop :=
  match op with
  | TbeAllocate a => a = makeLineAddress a ∧ c !! a = None ∧ Z.of_nat (size c) < N
  | TbeDeallocate a => a = makeLineAddress a ∧ is_Some (c !! a)
  | TbeIsPresent a => a = makeLineAddress a
  | _ => True
  end.
#[export] Instance tbe_enabled_dec c op : Decision (tbe_enabled c op).
Proof. destruct op; simpl; apply _. Defined.

Definition tbe_spec c (op : tbe_op) (ans : tbe_answer ENTRY) (c' : gmap Z ENTRY) : Prop :=
  match op with
  | TbeAllocate a => ans = TbeUnit ∧ c' = <[a := ENTRY_ctor]> c
  | TbeDeallocate a => ans = TbeUnit ∧ c' = delete a c
  | TbeIsPresent a => ans = TbeBool (bool_decide (is_Some (c !! a))) ∧ c' = c
  | TbeLookup a => ans = TbeEntry (c !! a) ∧ c' = c
  | TbeSlots n => ans = TbeBool (bool_decide (Z.of_nat (size c) + n ≤ N)) ∧ c' = c
  end.

(** The table is never over full. *)
Definition tbe_ok t : Prop :=
  tbe_m_number_of_TBEs t = N ∧ 0 ≤ N < 2 ^ 31 ∧ Z.of_nat (size (tbe_m_map t)) ≤ N.

Lemma run_isPresent_tbe t a :
  tbe_ok t → TBETable_isPresent a t =
    if decide (a = makeLineAddress a) then Ok (bool_decide (is_Some (tbe_m_map t !! a))) else Abort (AssertFail "TBETable.hh:85").
Proof.
  intros (Hn & HN & Hs). unfold TBETable_isPresent, assertO, tbe_size. rewrite Hn, u64_small by lia.
  destruct (Z.eqb_spec a (makeLineAddress a)); [rewrite decide_True by done|by rewrite decide_False].
  unfold mbind, outcome_bind. destruct (Z.leb_spec (Z.of_nat (size (tbe_m_map t))) N); [done|lia].
Qed.

Lemma tbe_slots t n : tbe_ok t → 0 ≤ n < 2 ^ 31 →
  TBETable_areNSlotsAvailable n 0 t = bool_decide (Z.of_nat (size (tbe_m_map t)) + n ≤ N).
Proof.
  intros (Hn & HN & Hs) Hr. unfold TBETable_areNSlotsAvailable, tbe_size. rewrite Hn, !u64_small by lia.
  apply Bool.eq_iff_eq_true. rewrite Z.leb_le, bool_decide_eq_true. lia.
Qed.

Lemma tbe_allocate t a :
  tbe_ok t →
  match TBETable_allocate ENTRY_ctor a t with
  | Ok t' => tbe_enabled (tbe_m_map t) (TbeAllocate a) ∧ tbe_ok t' ∧ tbe_m_map t' = <[a := ENTRY_ctor]> (tbe_m_map t)
  | Abort _ => ¬ tbe_enabled (tbe_m_map t) (TbeAllocate a)
  end.
Proof.
  intros Hok. unfold TBETable_allocate. rewrite run_isPresent_tbe by done. pose proof Hok as (Hn & HN & Hs). simpl.
  case_decide as Ha; unfold mbind, outcome_bind, assertO; [|naive_solver].
  case_bool_decide as Hp; simpl; [intros (_ & E & _); rewrite E in Hp; by destruct Hp|].
  unfold tbe_size. rewrite Hn, u64_small by lia. apply eq_None_not_Some in Hp.
  destruct (Z.ltb_spec (Z.of_nat (size (tbe_m_map t))) N); simpl; [|lia]. split_and!; try done.
  split_and!; simpl; [done|lia..|]. rewrite map_size_insert_None by done. lia.
Qed.

Lemma tbe_deallocate t a :
  tbe_ok t →
  match TBETable_deallocate a t with
  | Ok t' => tbe_enabled (tbe_m_map t) (TbeDeallocate a) ∧ tbe_ok t' ∧ tbe_m_map t' = delete a (tbe_m_map t)
  | Abort _ => ¬ tbe_enabled (tbe_m_map t) (TbeDeallocate a)
  end.
Proof.
  intros Hok. unfold TBETable_deallocate. rewrite run_isPresent_tbe by done. pose proof Hok as (Hn & HN & Hs). simpl.
  case_decide as Ha; unfold mbind, outcome_bind, assertO; [|naive_solver].
  case_bool_decide as Hp; simpl; [|naive_solver]. unfold tbe_size.
  assert (0 < Z.of_nat (size (tbe_m_map t))).
  { assert (size (tbe_m_map t) ≠ 0)%nat; [|lia]. intros E%map_size_empty_inv. rewrite E in Hp. by destruct Hp. }
  destruct (Z.ltb_spec 0 (Z.of_nat (size (tbe_m_map t)))); [|lia]. split_and!; try done.
  split_and!; simpl; [done|lia..|]. rewrite map_size_delete_Some by done. lia.
Qed.

#[export] Instance tbe_refines : Refines tbe_exec tbe_sane tbe_enabled tbe_spec tbe_ok tbe_m_map.
Proof.
  split; intros t op Hok Hs; destruct op as [a|a|a|a|n]; simpl in *; unfold tbe_update.
  - intros Hen. pose proof (tbe_allocate t a Hok) as H. destruct (TBETable_allocate _ a t) as [t'|]; [|done].
    exists TbeUnit, t'. naive_solver.
  - intros Hen. pose proof (tbe_deallocate t a Hok) as H. destruct (TBETable_deallocate a t) as [t'|]; [|done].
    exists TbeUnit, t'. naive_solver.
  - intros Ha. rewrite run_isPresent_tbe, decide_True by done. eexists _, t. done.
  - intros _. by eexists _, t.
  - intros _. eexists _, t. by rewrite <- tbe_slots.
  - intros Hn. pose proof (tbe_allocate t a Hok) as H. destruct (TBETable_allocate _ a t) as [t'|f]; [tauto|by exists f].
  - intros Hn. pose proof (tbe_deallocate t a Hok) as H. destruct (TBETable_deallocate a t) as [t'|f]; [tauto|by exists f].
  - intros Hn. rewrite run_isPresent_tbe, decide_False by done. by eexists.
  - done.
  - done.
Qed.

(** As many allocations as [areNSlotsAvailable] promises succeed. *)
Lemma tbe_slots_suffice t l :
  tbe_ok t → Z.of_nat (length l) < 2 ^ 31 → TBETable_areNSlotsAvailable (Z.of_nat (length l)) 0 t = true →
  NoDup l → Forall (λ a, a = makeLineAddress a ∧ tbe_m_map t !! a = None) l →
  ∃ answers t', exec_all tbe_exec (TbeAllocate <$> l) t = Ok (answers, t') ∧ tbe_ok t' ∧
    ∀ b, tbe_m_map t' !! b = if decide (b ∈ l) then Some ENTRY_ctor else tbe_m_map t !! b.
Proof.
  intros Hok Hl. rewrite tbe_slots, bool_decide_eq_true by (done || lia). intros Hr Hnd Hall. clear Hl.
  revert t Hok Hr Hall. induction Hnd as [|a l Ha Hnd IH]; intros t Hok Hr Hall; csimpl.
  { by exists [], t. }
  apply Forall_cons in Hall as [[Hline Hnone] Hall]. simpl in Hr. pose proof (tbe_allocate t a Hok) as H.
  destruct (TBETable_allocate ENTRY_ctor a t) as [t1|f] eqn:E1; [|destruct H; split_and!; [done..|lia]].
  destruct H as (_ & Hok1 & Hm1). destruct (IH t1 Hok1) as (answers & t' & E & Hok' & Hin).
  { rewrite Hm1, map_size_insert_None by done. lia. }
  { apply Forall_forall. intros b Hb. rewrite Forall_forall in Hall. destruct (Hall b Hb). split; [done|].
    rewrite Hm1, lookup_insert_ne; [done|]. by intros ->. }
  exists (TbeUnit :: answers), t'. split_and!; [|done|].
  - run ltac:(unfold tbe_update; rewrite E1; reflexivity). by run ltac:(exact E).
  - intros b. rewrite Hin, Hm1. destruct (decide (b = a)) as [->|].
    + rewrite decide_False, decide_True, lookup_insert_eq by (done || left). done.
    + rewrite lookup_insert_ne by done. by rewrite (decide_ext (b ∈ a :: l) (b ∈ l)) by set_solver.
Qed.
End TBETable.
