(* ===== verification/TimerTheory.v ===== *)
(** * Correctness of the timer table

    [TimerTable] caches the next timer and recomputes it only when a change may
    have made it stale.  Whatever the calls, its answers are those of a finite
    map from addresses to times without any cache. *)

From stdpp Require Import sorting.
From S2P Require Import Prelude Refinement NetDestModel AddrRangeModel AddressModel CacheMemoryModel TablesModel AddrRangeTheory AddressTheory ReplacementTheory CacheTheory.

(** ** Maps as sorted lists *)
Definition keys_sorted {A} (l : list (Z * A)) : Prop := StronglySorted Z.lt l.*1.
Definition as_map {A} (l : list (Z * A)) : gmap Z A := list_to_map l.

Lemma smap_insert_keys {A} k (v : A) l x : x ∈ (smap_insert k v l).*1 → x = k ∨ x ∈ l.*1.
Proof.
  induction l as [|[k' v'] l IH]; csimpl; [set_solver|]. destruct (k <? k'); csimpl; [set_solver|].
  destruct (Z.eqb_spec k k'); csimpl; set_solver.
Qed.

Lemma smap_insert_sorted {A} k (v : A) l : keys_sorted l → keys_sorted (smap_insert k v l).
Proof.
  unfold keys_sorted. induction l as [|[k' v'] l IH]; csimpl; [by repeat constructor|].
  intros [Hs Hf]%StronglySorted_inv. destruct (Z.ltb_spec k k'); csimpl.
  { constructor; [by constructor|]. constructor; [done|]. apply (Forall_impl _ _ _ Hf). lia. }
  destruct (Z.eqb_spec k k') as [->|]; csimpl; [by constructor|]. constructor; [by apply IH|].
  apply Forall_forall. intros x [->|Hx]%smap_insert_keys; [lia|]. rewrite Forall_forall in Hf. by apply Hf.
Qed.

Lemma smap_insert_map {A} k (v : A) l : keys_sorted l → as_map (smap_insert k v l) = <[k := v]> (as_map l).
Proof.
  unfold keys_sorted, as_map. induction l as [|[k' v'] l IH]; csimpl; [done|].
  intros [Hs Hf]%StronglySorted_inv. destruct (Z.ltb_spec k k'); csimpl; [done|].
  destruct (Z.eqb_spec k k') as [->|]; csimpl; [by rewrite insert_insert_eq|].
  rewrite IH by done. by apply insert_insert_ne.
Qed.

Lemma smap_find_map {A} k (l : list (Z * A)) : smap_find k l = as_map l !! k.
Proof.
  unfold as_map. induction l as [|[k' v] l IH]; csimpl; [done|]. destruct (Z.eqb_spec k k') as [->|].
  - by rewrite lookup_insert_eq.
  - by rewrite lookup_insert_ne.
Qed.

Lemma smap_erase_sorted {A} k (l : list (Z * A)) : keys_sorted l → keys_sorted (smap_erase k l).
Proof.
  unfold keys_sorted, smap_erase. induction l as [|[k' v] l IH]; csimpl; [done|].
  intros [Hs Hf]%StronglySorted_inv. rewrite filter_cons. case_decide; csimpl; [|by apply IH].
  constructor; [by apply IH|]. apply Forall_forall. intros x (y & -> & Hy)%list_elem_of_fmap.
  apply list_elem_of_filter in Hy as [_ Hy]. rewrite Forall_forall in Hf. by apply Hf, list_elem_of_fmap_2.
Qed.

Lemma smap_erase_map {A} k (l : list (Z * A)) : keys_sorted l → as_map (smap_erase k l) = delete k (as_map l).
Proof.
  unfold keys_sorted, smap_erase, as_map. induction l as [|[k' v] l IH]; csimpl; [by rewrite delete_empty|].
  intros [Hs Hf]%StronglySorted_inv. rewrite filter_cons. simpl. case_decide as Hd; csimpl.
  - rewrite IH by done. by rewrite delete_insert_ne.
  - subst k'. rewrite IH by done. by rewrite delete_insert_eq.
Qed.

Lemma keys_sorted_NoDup {A} (l : list (Z * A)) : keys_sorted l → NoDup l.*1.
Proof.
  unfold keys_sorted. induction l as [|[k v] l IH]; csimpl; [constructor|]. intros [Hs Hf]%StronglySorted_inv.
  constructor; [|by apply IH]. intros Hk. rewrite Forall_forall in Hf. specialize (Hf k Hk). lia.
Qed.

Lemma elem_of_as_map {A} (l : list (Z * A)) k v : keys_sorted l → (k, v) ∈ l ↔ as_map l !! k = Some v.
Proof. intros Hs%keys_sorted_NoDup. by apply elem_of_list_to_map. Qed.

(** ** The next timer *)

(** The earliest timer of a map; of those at the same time, the one with the
    smallest address. *)
Definition earliest (m : gmap Z Z) (a t : Z) : Prop :=
  m !! a = Some t ∧ ∀ b u, m !! b = Some u → t < u ∨ (t = u ∧ a ≤ b).

Lemma earliest_unique m a t a' t' : earliest m a t → earliest m a' t' → a = a' ∧ t = t'.
Proof. intros [Ha Hm] [Ha' Hm']. specialize (Hm _ _ Ha'). specialize (Hm' _ _ Ha). lia. Qed.

Lemma next_timer_in x l : next_timer x l ∈ x :: l.
Proof.
  unfold next_timer. revert x. induction l as [|y l IH]; intros x; simpl; [set_solver|].
  destruct (y.2 <? x.2); [specialize (IH y)|specialize (IH x)]; set_solver.
Qed.

Lemma next_timer_least x l y :
  y ∈ x :: l → (next_timer x l).2 ≤ y.2.
Proof.
  unfold next_timer. revert x y. induction l as [|z l IH]; intros x y; simpl.
  { intros ->%list_elem_of_singleton. lia. }
  intros Hy. destruct (Z.ltb_spec z.2 x.2).
  - apply elem_of_cons in Hy as [->|Hy]; [|by apply IH]. specialize (IH z z ltac:(left)). lia.
  - apply elem_of_cons in Hy as [->|[->|Hy]%elem_of_cons]; [apply IH; left| |apply IH; by right].
    specialize (IH x x ltac:(left)). lia.
Qed.

(** The loop keeps the first of several least elements. *)
Lemma next_timer_first x l y :
  y ∈ x :: l → y.2 = (next_timer x l).2 → keys_sorted (x :: l) → (next_timer x l).1 ≤ y.1.
Proof.
  unfold next_timer, keys_sorted. revert x y. induction l as [|z l IH]; intros x y; csimpl.
  { by intros ->%list_elem_of_singleton. }
  intros Hy Ey [[Hs Hz]%StronglySorted_inv [Hxz Hx]%Forall_cons]%StronglySorted_inv.
  destruct (Z.ltb_spec z.2 x.2).
  - apply IH; [|done|by constructor]. apply elem_of_cons in Hy as [->|Hy]; [|done].
    pose proof (next_timer_least z l z ltac:(left)) as H'. unfold next_timer in H'. lia.
  - assert (Hs' : StronglySorted Z.lt (x.1 :: l.*1)) by (by constructor).
    apply elem_of_cons in Hy as [->|[->|Hy]%elem_of_cons].
    + apply IH; [left|done|done].
    + assert (E : x.2 = z.2).
      { pose proof (next_timer_least x l x ltac:(left)) as H'. unfold next_timer in H'. lia. }
      specialize (IH x x ltac:(left)). rewrite E in IH. specialize (IH Ey Hs'). lia.
    + apply IH; [by right|done|done].
Qed.

Lemma next_timer_earliest x l :
  keys_sorted (x :: l) → earliest (as_map (x :: l)) (next_timer x l).1 (next_timer x l).2.
Proof.
  intros Hs. split.
  - apply elem_of_as_map; [done|]. rewrite <- surjective_pairing. apply next_timer_in.
  - intros b u Hb. apply elem_of_as_map in Hb; [|done]. pose proof (next_timer_least x l (b, u) Hb) as Hle.
    pose proof (next_timer_first x l (b, u) Hb) as Hf. simpl in *.
    destruct (decide (u = (next_timer x l).2)); [right; split; [done|by apply Hf]|left; lia].
Qed.

(** ** The table *)
Definition timers (x : TimerTable) : gmap Z Z := as_map (ti_m_map x).

(** The cached timer is the earliest one, and every timer has been scheduled. *)
Record timer_ok (x : TimerTable) : Prop := {
  tk_sorted : keys_sorted (ti_m_map x);
  tk_next : ti_m_next_valid x = true → earliest (timers x) (ti_m_next_address x) (ti_m_next_time x);
  tk_consumer : ti_m_consumer_ptr x ≠ None;
  tk_scheduled a t : timers x !! a = Some t → t ∈ ti_scheduled x;
}.

Section TimerTable.
Context {BS : BlockSize}.

Inductive timer_op :=
  | TSet (a t : Z) | TUnset (a : Z) | TIsSet (a : Z) | TIsReady (now : Z) | TNextAddress.
Inductive timer_answer := TUnit | TBool (b : bool) | TAddr (a : Z).

Definition timer_exec (op : timer_op) : M TimerTable timer_answer :=
  match op with
  | TSet a t => TimerTable_set a t ;; mret TUnit
  | TUnset a => TimerTable_unset a ;; mret TUnit
  | TIsSet a => b ← TimerTable_isSet a; mret (TBool b)
  | TIsReady now => b ← TimerTable_isReady now; mret (TBool b)
  | TNextAddress => a ← TimerTable_nextAddress; mret (TAddr a)
  end.

Definition timer_sane (op : timer_op) : Prop := True.

Definition timer_enabled (m : gmap Z Z) (op : timer_op) : Prop :=
  match op with
  | TSet a _ => a = makeLineAddress a ∧ m !! a = None
  | TUnset a => a = makeLineAddress a ∧ is_Some (m !! a)
  | TNextAddress => m ≠ ∅
  | _ => True
  end.
#[export] Instance timer_enabled_dec m op : Decision (timer_enabled m op).
Proof. destruct op; simpl; apply _. Defined.

Definition timer_spec (m : gmap Z Z) (op : timer_op) (ans : timer_answer) (m' : gmap Z Z) : Prop :=
  match op with
  | TSet a t => ans = TUnit ∧ m' = <[a := t]> m
  | TUnset a => ans = TUnit ∧ m' = delete a m
  | TIsSet a => ans = TBool (bool_decide (is_Some (m !! a))) ∧ m' = m
  | TIsReady now => (∃ b, ans = TBool b ∧ (b = true ↔ ∃ a t, m !! a = Some t ∧ t ≤ now)) ∧ m' = m
  | TNextAddress => (∃ a t, ans = TAddr a ∧ earliest m a t) ∧ m' = m
  end.

Lemma smap_count_spec {A} k (l : list (Z * A)) : smap_count k l = bool_decide (is_Some (as_map l !! k)).
Proof. unfold smap_count. by rewrite smap_find_map. Qed.

Lemma as_map_empty {A} (l : list (Z * A)) : as_map l = ∅ ↔ l = [].
Proof.
  split; [|by intros ->]. unfold as_map. destruct l as [|[k v] l]; [done|]. csimpl. intros E.
  by apply insert_non_empty in E.
Qed.

(** After a refresh the cached timer is valid. *)
Lemma run_refresh x site :
  timer_ok x → timers x ≠ ∅ →
  ∃ x', TimerTable_refresh site x = Ok (tt, x') ∧ timer_ok x' ∧ timers x' = timers x ∧ ti_m_next_valid x' = true.
Proof.
  intros Hok Hne. unfold TimerTable_refresh. destruct (ti_m_next_valid x) eqn:Hv.
  - exists x. split_and!; try done. run ltac:(reflexivity). rewrite Hv. simpl. run ltac:(reflexivity).
    run ltac:(reflexivity). by rewrite Hv.
  - destruct (ti_m_map x) as [|f l] eqn:Hm; [by destruct Hne; unfold timers; rewrite Hm|].
    set (n := next_timer f l).
    exists (x <| ti_m_next_address := n.1 |> <| ti_m_next_time := n.2 |> <| ti_m_next_valid := true |>).
    split_and!; [|split; simpl|done|done].
    + run ltac:(reflexivity). rewrite Hv. simpl.
      run ltac:(unfold TimerTable_updateNext; run ltac:(reflexivity); rewrite Hm; reflexivity). done.
    + apply (tk_sorted x Hok).
    + intros _. unfold timers. simpl. rewrite Hm. apply next_timer_earliest. rewrite <- Hm. apply (tk_sorted x Hok).
    + apply (tk_consumer x Hok).
    + apply (tk_scheduled x Hok).
Qed.

Lemma refresh_empty x site : timer_ok x → timers x = ∅ → ∃ f, TimerTable_refresh site x = Abort f.
Proof.
  intros Hok He. pose proof He as Hm%as_map_empty. unfold TimerTable_refresh.
  destruct (ti_m_next_valid x) eqn:Hv.
  - exfalso. destruct (tk_next x Hok Hv) as [Ha _]. by rewrite He, lookup_empty in Ha.
  - run ltac:(reflexivity). rewrite Hv. simpl.
    run ltac:(unfold TimerTable_updateNext; run ltac:(reflexivity); rewrite Hm; run ltac:(reflexivity); rewrite Hv; reflexivity).
    run ltac:(reflexivity). rewrite Hv. by eexists.
Qed.

Lemma timer_isReady x now :
  timer_ok x → ∃ b x', TimerTable_isReady now x = Ok (b, x') ∧ timer_ok x' ∧ timers x' = timers x ∧
    (b = true ↔ ∃ a t, timers x !! a = Some t ∧ t ≤ now).
Proof.
  intros Hok. unfold TimerTable_isReady. run ltac:(reflexivity). destruct (ti_m_map x) as [|f l] eqn:Hm.
  - exists false, x. split_and!; try done. unfold timers. rewrite Hm. split; [done|]. intros (a & t & Ha & _).
    by apply (lookup_empty_Some a t) in Ha.
  - destruct (run_refresh x "TimerTable.cc:50" Hok) as (x' & E & Hok' & Ht & Hv).
    { unfold timers. rewrite as_map_empty. by rewrite Hm. }
    eexists _, x'. split; [by run ltac:(exact E)|]. split_and!; [done..|]. rewrite <- Ht.
    destruct (tk_next x' Hok' Hv) as [Ha Hmin]. rewrite Z.leb_le. split; [eauto|].
    intros (b & u & Hb & Hu). specialize (Hmin _ _ Hb). lia.
Qed.

Lemma timer_set x a t :
  timer_ok x → a = makeLineAddress a → timers x !! a = None →
  ∃ x', TimerTable_set a t x = Ok (tt, x') ∧ timer_ok x' ∧ timers x' = <[a := t]> (timers x).
Proof.
  intros Hok Ha Hn. unfold TimerTable_set. rewrite <- Ha, Z.eqb_refl. run ltac:(reflexivity). run ltac:(reflexivity).
  rewrite smap_count_spec. fold (timers x). rewrite Hn, bool_decide_eq_false_2 by (by intros [? [=]]).
  run ltac:(reflexivity). run ltac:(reflexivity). run ltac:(reflexivity). simpl.
  rewrite bool_decide_eq_false_2 by apply (tk_consumer x Hok). run ltac:(reflexivity). run ltac:(reflexivity).
  eexists. split; [reflexivity|]. pose proof (smap_insert_map a t _ (tk_sorted x Hok)) as Em. fold (timers x) in Em.
  assert (H : ∀ b, timer_ok (x <| ti_m_map ::= smap_insert a t |> <| ti_scheduled ::= cons t |> <| ti_m_next_valid := b && false |>)
    ∧ timers (x <| ti_m_map ::= smap_insert a t |> <| ti_scheduled ::= cons t |> <| ti_m_next_valid := b && false |>) = <[a := t]> (timers x)).
  { intros b. split; [|done]. split; simpl.
    - by apply smap_insert_sorted, tk_sorted.
    - by destruct b.
    - apply (tk_consumer x Hok).
    - unfold timers. simpl. rewrite Em. intros c u. destruct (decide (c = a)) as [->|].
      + rewrite lookup_insert_eq. intros [= ->]. by left.
      + rewrite lookup_insert_ne by done. intros Hc. right. by apply (tk_scheduled x Hok c). }
  destruct (_ <=? _); apply (H true).
Qed.

Lemma timer_unset x a :
  timer_ok x → a = makeLineAddress a → is_Some (timers x !! a) →
  ∃ x', TimerTable_unset a x = Ok (tt, x') ∧ timer_ok x' ∧ timers x' = delete a (timers x).
Proof.
  intros Hok Ha Hs. unfold TimerTable_unset. rewrite <- Ha, Z.eqb_refl. run ltac:(reflexivity). run ltac:(reflexivity).
  rewrite smap_count_spec. fold (timers x). rewrite bool_decide_eq_true_2 by done.
  run ltac:(reflexivity). run ltac:(reflexivity).
  pose proof (smap_erase_map a _ (tk_sorted x Hok)) as Em. fold (timers x) in Em.
  eexists. split; [reflexivity|].
  assert (Hsch : ∀ b u, delete a (timers x) !! b = Some u → u ∈ ti_scheduled x).
  { intros b u [_ Hb]%lookup_delete_Some. by apply (tk_scheduled x Hok b). }
  simpl. destruct (Z.eqb_spec a (ti_m_next_address x)) as [E|E]; (split; [|exact Em]); split; simpl; try done;
    try (by apply smap_erase_sorted, tk_sorted); try apply (tk_consumer x Hok);
    try (unfold timers; simpl; rewrite Em; exact Hsch).
  intros Hv. destruct (tk_next x Hok Hv) as [Hn Hmin]. unfold timers. simpl. rewrite Em. split.
  - by rewrite lookup_delete_ne.
  - intros b u [_ Hb]%lookup_delete_Some. by apply Hmin.
Qed.

#[export] Instance timer_refines :
  Refines timer_exec timer_sane timer_enabled timer_spec timer_ok timers.
Proof.
  split; intros x op Hok _.
  - destruct op as [a t|a|a|now|]; simpl.
    + intros [Ha Hn]. destruct (timer_set x a t Hok Ha Hn) as (x' & E & Hok' & Ht).
      exists TUnit, x'. split_and!; try done. by run ltac:(exact E).
    + intros [Ha Hs]. destruct (timer_unset x a Hok Ha Hs) as (x' & E & Hok' & Ht).
      exists TUnit, x'. split_and!; try done. by run ltac:(exact E).
    + intros _. eexists _, x. split; [reflexivity|]. split; [done|]. by rewrite smap_count_spec.
    + intros _. destruct (timer_isReady x now Hok) as (b & x' & E & Hok' & Ht & Hb).
      exists (TBool b), x'. split_and!; [by run ltac:(exact E)|done|eauto|done].
    + intros Hne. destruct (run_refresh x "TimerTable.cc:60" Hok Hne) as (x' & E & Hok' & Ht & Hv).
      exists (TAddr (ti_m_next_address x')), x'. split_and!; [|done| |done].
      * unfold TimerTable_nextAddress. by run ltac:(by run ltac:(exact E)).
      * rewrite <- Ht. eexists _, _. split; [done|]. by apply tk_next.
  - intros Hn. destruct (timer_exec op x) as [[ans x']|f] eqn:E; [|by exists f]. destruct Hn.
    destruct op as [a t|a|a|now|]; simpl in E |- *; try done.
    + apply bind_Ok in E as (? & ? & E & _). unfold TimerTable_set in E. run_inv E.
      rewrite smap_count_spec in *. apply negb_true_iff, bool_decide_eq_false in Hassert0.
      split; [lia|]. by apply eq_None_not_Some.
    + apply bind_Ok in E as (? & ? & E & _). unfold TimerTable_unset in E. run_inv E.
      rewrite smap_count_spec in *. apply bool_decide_eq_true in Hassert0. split; [lia|done].
    + intros He. destruct (refresh_empty x "TimerTable.cc:60" Hok He) as [f Hf]. unfold TimerTable_nextAddress in E.
      run_inv E. congruence.
Qed.

Lemma timer_start c x : TimerTable_setConsumer (Some c) TimerTable_ctor = Ok (tt, x) → timer_ok x ∧ timers x = ∅.
Proof. intros [= <-]. split; [|done]. split; simpl; [constructor|done|done|]. intros a t Ha. by apply (lookup_empty_Some a t) in Ha. Qed.

(** C3.  Any sequence of calls on a new timer table behaves as a map from
    addresses to times: [isReady] says whether some timer has expired,
    [nextAddress] gives the earliest one (the smallest address among those at the
    same time) although the table caches it, and the next call, whatever it is,
    returns exactly when the map allows it.  For every timer that is set the
    consumer has been scheduled at its time. *)
Theorem timer_run_refines c ops answers x0 x :
  TimerTable_setConsumer (Some c) TimerTable_ctor = Ok (tt, x0) → exec_all timer_exec ops x0 = Ok (answers, x) →
  spec_run timer_enabled timer_spec ∅ ops answers (timers x) ∧
  next_call_exact timer_exec timer_sane timer_enabled timer_spec timers x ∧
  ∀ a t, timers x !! a = Some t → t ∈ ti_scheduled x.
Proof.
  intros E0 E. destruct (timer_start c x0 E0) as [Hok0 Hm0].
  destruct (refines_run _ timer_sane _ _ _ _ ops x0 answers x Hok0) as [Hrun Hok]; [by apply Forall_true|done|].
  rewrite Hm0 in Hrun. split_and!; [done|by eapply refines_next; [apply _|]|apply (tk_scheduled x Hok)].
Qed.
End TimerTable.

(** ** A concrete table *)
Definition timer_calls : list timer_op :=
  [TSet 128 30; TSet 64 20; TSet 192 20; TNextAddress; TIsReady 10; TUnset 64; TNextAddress; TIsReady 20; TIsSet 64].

Lemma timer_run_refines_witness :
  ∃ x, spec_run (timer_enabled (BS := block_64)) timer_spec ∅ timer_calls
      [TUnit; TUnit; TUnit; TAddr 64; TBool false; TUnit; TAddr 192; TBool true; TBool false] (timers x) ∧
    ∀ a t, timers x !! a = Some t → t ∈ ti_scheduled x.
Proof.
  eexists. edestruct (timer_run_refines (BS := block_64) 0 timer_calls) as (H1 & _ & H2);
    [reflexivity|vm_compute; reflexivity|]. split; [exact H1|exact H2].
Defined.
