(* ===== verification/PersistentTheory.v ===== *)
(** * Correctness of the table of persistent requests

    [PersistentTable] is the arbiter of the token protocol: which machines
    starve for a line, which of them were there when the line was last marked,
    and which want to write.  Its three bit sets per line behave as three finite
    sets of machines; none of its internal assertions can fail; and the marks
    bound how often a starving machine is overtaken. *)

From S2P Require Import Prelude Refinement NetDestModel AddrRangeModel AddressModel CacheMemoryModel TablesModel AddrRangeTheory AddressTheory NetDestTheory NetDestSets CacheTheory.

(** ** The specification *)
Record claim := mkClaim {
  cl_starving : gset MachineID;
  cl_marked : gset MachineID;
  cl_write : gset MachineID;
}.

Inductive persistent_op :=
  | PLock (a : Z) (m : MachineID) (type : AccessType)
  | PUnlock (a : Z) (m : MachineID)
  | POkToIssue (a : Z) (m : MachineID)
  | PFindSmallest (a : Z)
  | PTypeOfSmallest (a : Z)
  | PMark (a : Z)
  | PIsLocked (a : Z)
  | PCountStarving (a : Z)
  | PCountReadStarving (a : Z).

Inductive persistent_answer :=
  | PUnit | PBool (b : bool) | PMachine (m : MachineID) | PType (t : AccessType) | PCount (n : Z).

Definition persistent_addr (op : persistent_op) : Z :=
  match op with
  | PLock a _ _ | PUnlock a _ | POkToIssue a _ | PFindSmallest a | PTypeOfSmallest a | PMark a | PIsLocked a
  | PCountStarving a | PCountReadStarving a => a
  end.

(** What is known of a line that no one claims. *)
Definition no_claim : claim := mkClaim ∅ ∅ ∅.
Definition claim_of (c : gmap Z claim) (a : Z) : claim := default no_claim (c !! a).

Section PersistentTable.
Context `{MTS : MachineTypesSpec} {BS : BlockSize}.
Implicit Types (c : gmap Z claim) (x : gmap Z PersistentTableEntry).

Definition persistent_exec (op : persistent_op) : M (gmap Z PersistentTableEntry) persistent_answer :=
  match op with
  | PLock a m type => PersistentTable_persistentRequestLock a m type ;; mret PUnit
  | PUnlock a m => PersistentTable_persistentRequestUnlock a m ;; mret PUnit
  | POkToIssue a m => b ← PersistentTable_okToIssueStarving a m; mret (PBool b)
  | PFindSmallest a => m ← PersistentTable_findSmallest a; mret (PMachine m)
  | PTypeOfSmallest a => t ← PersistentTable_typeOfSmallest a; mret (PType t)
  | PMark a => PersistentTable_markEntries a ;; mret PUnit
  | PIsLocked a => b ← PersistentTable_isLocked a; mret (PBool b)
  | PCountStarving a => n ← PersistentTable_countStarvingForAddress a; mret (PCount n)
  | PCountReadStarving a => n ← PersistentTable_countReadStarvingForAddress a; mret (PCount n)
  end.

(** The machines of the calls exist. *)
Definition persistent_sane (op : persistent_op) : Prop :=
  match op with PLock _ m _ | PUnlock _ m | POkToIssue _ m => valid_machine m | _ => True end.

Definition persistent_enabled c (op : persistent_op) : Prop :=
  persistent_addr op = makeLineAddress (persistent_addr op) ∧
  match op with
  | PLock a m _ => m ∉ cl_starving (claim_of c a)
  | PUnlock a m => m ∈ cl_starving (claim_of c a)
  | PFindSmallest a | PTypeOfSmallest a => is_Some (c !! a)
  | PMark a => cl_marked (claim_of c a) = ∅
  | _ => True
  end.
#[export] Instance persistent_enabled_dec c op : Decision (persistent_enabled c op).
Proof. unfold persistent_enabled. destruct op; apply _. Defined.

Definition lock (m : MachineID) (type : AccessType) (k : claim) : claim :=
  mkClaim ({[m]} ∪ cl_starving k) (cl_marked k)
    (match type with AccessType_Write => {[m]} ∪ cl_write k | AccessType_Read => cl_write k end).
Definition unlock (m : MachineID) (k : claim) : claim :=
  mkClaim (cl_starving k ∖ {[m]}) (cl_marked k ∖ {[m]}) (cl_write k ∖ {[m]}).
Definition mark (k : claim) : claim := mkClaim (cl_starving k) (cl_starving k) (cl_write k).

Definition persistent_spec c (op : persistent_op) (ans : persistent_answer) (c' : gmap Z claim) : Prop :=
  match op with
  | PLock a m type => ans = PUnit ∧ c' = <[a := lock m type (claim_of c a)]> c
  | PUnlock a m => ans = PUnit ∧
      c' = (if decide (cl_starving (claim_of c a) = {[m]}) then delete a c else <[a := unlock m (claim_of c a)]> c)
  | POkToIssue a m => c' = c ∧
      ans = PBool (bool_decide ((m ∉ cl_starving (claim_of c a)) ∧ cl_marked (claim_of c a) = ∅))
  | PFindSmallest a => c' = c ∧ ∃ m, ans = PMachine m ∧ smallest m (cl_starving (claim_of c a))
  | PTypeOfSmallest a => c' = c ∧ ∃ m, smallest m (cl_starving (claim_of c a)) ∧
      ans = PType (if decide (m ∈ cl_write (claim_of c a)) then AccessType_Write else AccessType_Read)
  | PMark a => ans = PUnit ∧ c' = alter mark a c
  | PIsLocked a => c' = c ∧ ans = PBool (bool_decide (cl_starving (claim_of c a) ≠ ∅))
  | PCountStarving a => c' = c ∧ ans = PCount (Z.of_nat (size (cl_starving (claim_of c a))))
  | PCountReadStarving a => c' = c ∧
      ans = PCount (Z.of_nat (size (cl_starving (claim_of c a) ∖ cl_write (claim_of c a))))
  end.

(** ** The invariant *)
Record entry_ok (e : PersistentTableEntry) : Prop := {
  eo_starving : wf_dest (pe_m_starving e);
  eo_marked : wf_dest (pe_m_marked e);
  eo_write : wf_dest (pe_m_request_to_write e);
  eo_subset : members (pe_m_marked e) ⊆ members (pe_m_starving e);
  eo_writers : members (pe_m_request_to_write e) ⊆ members (pe_m_starving e);
  eo_nonempty : members (pe_m_starving e) ≠ ∅;
}.
Definition persistent_ok x : Prop := sizes_ok ∧ ∀ a e, x !! a = Some e → entry_ok e.

Definition claim_abs (e : PersistentTableEntry) : claim :=
  mkClaim (members (pe_m_starving e)) (members (pe_m_marked e)) (members (pe_m_request_to_write e)).
Definition claims x : gmap Z claim := claim_abs <$> x.

Definition refined_by x (op : persistent_op) : Prop :=
  ∃ ans x', persistent_exec op x = Ok (ans, x') ∧ persistent_ok x' ∧ persistent_spec (claims x) op ans (claims x').

Lemma claim_of_Some x a e : x !! a = Some e → claim_of (claims x) a = claim_abs e.
Proof. intros E. unfold claim_of, claims. by rewrite lookup_fmap, E. Qed.
Lemma claim_of_None x a : x !! a = None → claim_of (claims x) a = no_claim.
Proof. intros E. unfold claim_of, claims. by rewrite lookup_fmap, E. Qed.

Lemma persistent_ok_insert x a e : persistent_ok x → entry_ok e → persistent_ok (<[a := e]> x).
Proof.
  intros [Hs Hx] He. split; [done|]. intros b e'. destruct (decide (b = a)) as [->|].
  - rewrite lookup_insert_eq. by intros [= <-].
  - rewrite lookup_insert_ne by done. apply Hx.
Qed.
Lemma persistent_ok_delete x a : persistent_ok x → persistent_ok (delete a x).
Proof. intros [Hs Hx]. split; [done|]. intros b e [_ Hb]%lookup_delete_Some. by eapply Hx. Qed.

(** Every call begins with a check of the address and a look at the map. *)
Lemma enter_call x a site {A} (k : _ → M (gmap Z PersistentTableEntry) A) r :
  (assertM (a =? makeLineAddress a) site ;; m ← gets id; k m) x = Ok r ↔ a = makeLineAddress a ∧ k x x = Ok r.
Proof.
  unfold assertM. destruct (Z.eqb_spec a (makeLineAddress a)); [|split; [done|by intros [? _]]].
  split; [intros E|intros [_ E]; exact E]. split; [done|exact E].
Qed.

Lemma run_unit {S} (m : M S ()) s s' {A} (v : A) : m s = Ok (tt, s') → (m ;; mret v) s = Ok (v, s').
Proof. intros E. by run ltac:(exact E). Qed.
Lemma run_if {S} (b : bool) (m : M S ()) s : m s = Ok (tt, s) → (if b then m else mret tt) s = Ok (tt, s).
Proof. by destruct b. Qed.

Lemma dflt_entry : sizes_ok → PersistentTableEntry_ctor = Ok (mkPersistentTableEntry no_dest no_dest no_dest).
Proof. intros Hs. unfold PersistentTableEntry_ctor. by rewrite NetDest_resize_Ok. Qed.

(** The entry that a lock works on, absent or not. *)
Lemma lock_entry x a :
  persistent_ok x →
  ∃ e, match x !! a with Some e => Ok e | None => PersistentTableEntry_ctor end = Ok e ∧
    claim_abs e = claim_of (claims x) a ∧ wf_dest (pe_m_starving e) ∧ wf_dest (pe_m_marked e) ∧
    wf_dest (pe_m_request_to_write e) ∧ members (pe_m_marked e) ⊆ members (pe_m_starving e) ∧
    members (pe_m_request_to_write e) ⊆ members (pe_m_starving e).
Proof.
  intros [Hs Hx]. destruct (x !! a) as [e|] eqn:E.
  - exists e. destruct (Hx a e E). by rewrite (claim_of_Some x a e).
  - eexists. split; [by apply dflt_entry|]. rewrite claim_of_None by done. pose proof (wf_no_dest Hs).
    split; [by unfold claim_abs; simpl; rewrite members_no_dest|]. done.
Qed.

Lemma persistent_lock x a m type :
  persistent_ok x → valid_machine m → persistent_enabled (claims x) (PLock a m type) →
  refined_by x (PLock a m type).
Proof.
  intros Hok Hm [Ha Hn]. unfold refined_by. simpl in *.
  destruct (lock_entry x a Hok) as (e & He & Hc & Hs & Hk & Hw & Hks & Hws). rewrite <- Hc in *. simpl in Hn.
  destruct (members_add _ m Hs Hm) as (s' & Es & Hs' & Ms).
  assert (∃ w', match type with AccessType_Write => NetDest_add m (pe_m_request_to_write e)
      | AccessType_Read => Ok (pe_m_request_to_write e) end = Ok w' ∧ wf_dest w' ∧
      members w' = cl_write (lock m type (claim_abs e))) as (w' & Ew & Hw' & Mw).
  { destruct type; [by eexists|]. by apply members_add. }
  set (e' := mkPersistentTableEntry s' (pe_m_marked e) w').
  assert (He' : entry_ok e').
  { split; simpl; try done; rewrite ?Ms, ?Mw; [set_solver|destruct type; set_solver|set_solver]. }
  exists PUnit, (<[a := e']> x). split_and!; [|by apply persistent_ok_insert|done|].
  - apply run_unit. unfold PersistentTable_persistentRequestLock. apply enter_call; split; [done|]. run ltac:(unfold id; rewrite He; reflexivity).
    run ltac:(apply run_if; run ltac:(rewrite members_isElement, bool_decide_eq_false_2 by done; reflexivity); reflexivity).
    run ltac:(rewrite Es; reflexivity). run ltac:(rewrite Ew; reflexivity). run ltac:(reflexivity).
    apply run_if. run ltac:(unfold NetDest_isSubset; simpl; rewrite members_isSuperset, bool_decide_eq_true_2 by (done || set_solver); reflexivity).
    done.
  - unfold claims. rewrite fmap_insert. f_equal. unfold claim_abs, lock. simpl. by rewrite Ms, Mw.
Qed.

Lemma claimed x a m : m ∈ cl_starving (claim_of (claims x) a) → ∃ e, x !! a = Some e.
Proof.
  destruct (x !! a) as [e|] eqn:E; [by exists e|]. rewrite claim_of_None by done. by intros ?%elem_of_empty.
Qed.

Lemma persistent_unlock x a m :
  persistent_ok x → valid_machine m → persistent_enabled (claims x) (PUnlock a m) → refined_by x (PUnlock a m).
Proof.
  intros Hok Hm [Ha Hin]. unfold refined_by. simpl in *. destruct (claimed x a m Hin) as [e He].
  destruct (proj2 Hok a e He) as [Hs Hk Hw Hks Hws _]. rewrite (claim_of_Some x a e He) in *. simpl in *.
  destruct (members_remove _ m Hs Hm) as (s' & Es & Hs' & Ms).
  destruct (members_remove _ m Hk Hm) as (k' & Ek & Hk' & Mk).
  destruct (members_remove _ m Hw Hm) as (w' & Ew & Hw' & Mw).
  assert (Hks' : members k' ⊆ members s') by set_solver.
  assert (Hempty : members (pe_m_starving e) = {[m]} ↔ members s' = ∅).
  { rewrite Ms. split; [intros ->; set_solver|]. intros E. apply set_eq. intros m'.
    destruct (decide (m' = m)); set_solver. }
  set (x' := if decide (members (pe_m_starving e) = {[m]}) then delete a x else <[a := mkPersistentTableEntry s' k' w']> x).
  exists PUnit, x'. split_and!; [| |done|].
  - apply run_unit. unfold PersistentTable_persistentRequestUnlock. apply enter_call; split; [done|]. rewrite He.
    run ltac:(rewrite members_isElement, bool_decide_eq_true_2 by done; reflexivity). run ltac:(reflexivity).
    run ltac:(unfold NetDest_isSubset; rewrite members_isSuperset, bool_decide_eq_true_2 by done; reflexivity).
    run ltac:(reflexivity). run ltac:(rewrite Es; reflexivity). run ltac:(rewrite Ek; reflexivity).
    run ltac:(rewrite Ew; reflexivity).
    run ltac:(unfold NetDest_isSubset; rewrite members_isSuperset, bool_decide_eq_true_2 by done; reflexivity).
    run ltac:(reflexivity). rewrite !members_isEmpty by done. unfold x'. rewrite (bool_decide_ext _ _ (symmetry Hempty)).
    case_decide as Hd; [rewrite bool_decide_eq_true_2 by done|by rewrite bool_decide_eq_false_2].
    rewrite bool_decide_eq_true_2 by set_solver. done.
  - unfold x'. case_decide as Hd; [by apply persistent_ok_delete|]. apply persistent_ok_insert; [done|].
    rewrite Hempty in Hd. split; simpl; try done. set_solver.
  - unfold x', claims. case_decide; [apply fmap_delete|]. rewrite fmap_insert. f_equal.
    unfold claim_abs, unlock. simpl. by rewrite Ms, Mk, Mw.
Qed.

(** The calls that only look. *)
Lemma refined_look x op ans :
  persistent_ok x → persistent_exec op x = Ok (ans, x) → persistent_spec (claims x) op ans (claims x) →
  refined_by x op.
Proof. intros Hok E Hs. by exists ans, x. Qed.

Lemma run_value {S A B} (m : M S A) s (v : A) (f : A → B) :
  m s = Ok (v, s) → (a ← m; mret (f a)) s = Ok (f v, s).
Proof. intros E. by run ltac:(exact E). Qed.

Lemma persistent_okToIssue x a m :
  persistent_ok x → valid_machine m → persistent_enabled (claims x) (POkToIssue a m) → refined_by x (POkToIssue a m).
Proof.
  intros Hok Hm [Ha _]. eapply refined_look; [done| |split; [done|reflexivity]]. simpl in *. apply run_value.
  unfold PersistentTable_okToIssueStarving. apply enter_call; split; [done|]. destruct (x !! a) as [e|] eqn:He.
  - rewrite (claim_of_Some x a e He). destruct (proj2 Hok a e He). simpl.
    run ltac:(rewrite members_isElement by done; reflexivity). rewrite members_isEmpty by done.
    repeat case_bool_decide; naive_solver.
  - rewrite claim_of_None by done. by rewrite bool_decide_eq_true_2.
Qed.

Lemma entry_smallest e :
  entry_ok e → ∃ m, NetDest_smallestElement (pe_m_starving e) = Ok m ∧ smallest m (members (pe_m_starving e)).
Proof.
  intros He. pose proof (members_smallest _ (eo_starving e He)) as H.
  destruct (NetDest_smallestElement _) as [m|]; [|by destruct (eo_nonempty e He)]. exists m. by rewrite <- members_least.
Qed.

Lemma claims_is_Some x a : is_Some (claims x !! a) → ∃ e, x !! a = Some e.
Proof. unfold claims. rewrite lookup_fmap, fmap_is_Some. by intros [e ?]; exists e. Qed.

Lemma persistent_findSmallest x a :
  persistent_ok x → persistent_enabled (claims x) (PFindSmallest a) → refined_by x (PFindSmallest a).
Proof.
  intros Hok [Ha [e He]%claims_is_Some]. simpl in Ha. pose proof (proj2 Hok a e He) as Hok'.
  destruct (entry_smallest e Hok') as (m & E & Hm). eapply (refined_look _ _ (PMachine m)); [done| |].
  - apply run_value. unfold PersistentTable_findSmallest. apply enter_call; split; [done|]. by rewrite He, E.
  - split; [done|]. exists m. by rewrite (claim_of_Some x a e He).
Qed.

Lemma persistent_typeOfSmallest x a :
  persistent_ok x → persistent_enabled (claims x) (PTypeOfSmallest a) → refined_by x (PTypeOfSmallest a).
Proof.
  intros Hok [Ha [e He]%claims_is_Some]. simpl in Ha. pose proof (proj2 Hok a e He) as Hok'.
  destruct (entry_smallest e Hok') as (m & E & Hm). pose proof (members_valid _ m (eo_starving e Hok') (proj1 Hm)).
  eapply refined_look; [done| |].
  - apply run_value. unfold PersistentTable_typeOfSmallest. apply enter_call; split; [done|]. rewrite He. run ltac:(rewrite E; reflexivity).
    run ltac:(rewrite members_isElement by (done || apply Hok'); reflexivity). reflexivity.
  - split; [done|]. exists m. rewrite (claim_of_Some x a e He). split; [done|]. simpl. by case_bool_decide; case_decide.
Qed.

Lemma persistent_mark x a :
  persistent_ok x → persistent_enabled (claims x) (PMark a) → refined_by x (PMark a).
Proof.
  intros Hok [Ha He]. simpl in *. unfold refined_by. simpl. destruct (x !! a) as [e|] eqn:Hx.
  - rewrite (claim_of_Some x a e Hx) in He. simpl in He. pose proof (proj2 Hok a e Hx) as Hok'.
    set (e' := e <| pe_m_marked := pe_m_starving e |>). exists PUnit, (<[a := e']> x). split_and!; [| |done|].
    + apply run_unit. unfold PersistentTable_markEntries. apply enter_call; split; [done|]. rewrite Hx.
      by rewrite members_isEmpty, bool_decide_eq_true_2 by (done || apply Hok').
    + apply persistent_ok_insert; [done|]. by destruct Hok'; split.
    + unfold claims. rewrite fmap_insert. apply map_eq. intros b. rewrite lookup_alter. case_decide as Hb; subst.
      * by rewrite lookup_insert_eq, lookup_fmap, Hx.
      * by rewrite lookup_insert_ne.
  - exists PUnit, x. split_and!; [|done..|].
    + apply run_unit. unfold PersistentTable_markEntries. apply enter_call; split; [done|]. by rewrite Hx.
    + symmetry. apply map_eq. intros b. rewrite lookup_alter. case_decide; subst; [|done].
      unfold claims. by rewrite lookup_fmap, Hx.
Qed.

Lemma persistent_counts x a op :
  persistent_ok x → op ∈ [PIsLocked a; PCountStarving a; PCountReadStarving a] →
  persistent_enabled (claims x) op → refined_by x op.
Proof.
  intros Hok Hop [Ha _]. rewrite !elem_of_cons, elem_of_nil in Hop.
    destruct Hop as [-> | [-> | [-> | [] ]]]; simpl in Ha;
    (eapply refined_look; [done| |split; [done|reflexivity]]); simpl; apply run_value.
  - apply enter_call; split; [done|]. unfold mret, M_ret. do 2 f_equal.
    apply bool_decide_ext. destruct (x !! a) as [e|] eqn:E.
    + rewrite (claim_of_Some x a e E). pose proof (eo_nonempty e (proj2 Hok a e E)). naive_solver.
    + rewrite claim_of_None by done. simpl. naive_solver.
  - unfold PersistentTable_countStarvingForAddress. apply enter_call; split; [done|]. destruct (x !! a) as [e|] eqn:E.
    + by rewrite (claim_of_Some x a e E), NetDest_count_size.
    + by rewrite claim_of_None.
  - unfold PersistentTable_countReadStarvingForAddress. apply enter_call; split; [done|]. destruct (x !! a) as [e|] eqn:E.
    + rewrite (claim_of_Some x a e E), !NetDest_count_size. simpl.
      pose proof (eo_writers e (proj2 Hok a e E)) as Hw. pose proof (subseteq_size _ _ Hw).
      rewrite size_difference by done. rewrite Nat2Z.inj_sub by done. done.
    + by rewrite claim_of_None.
Qed.

(** A call that returns was enabled. *)
Lemma returned_line x op ans x' :
  persistent_exec op x = Ok (ans, x') → persistent_addr op = makeLineAddress (persistent_addr op).
Proof.
  intros E. destruct op; simpl in *; apply bind_Ok in E as (? & ? & E & _); by apply enter_call in E as [? _].
Qed.

Lemma returned_lock x a m type ans x' :
  persistent_ok x → valid_machine m → persistent_exec (PLock a m type) x = Ok (ans, x') →
  m ∉ cl_starving (claim_of (claims x) a).
Proof.
  intros Hok Hm E. simpl in E. apply bind_Ok in E as (? & ? & E & _).
  destruct (x !! a) as [e|] eqn:He; [|by rewrite claim_of_None].
  rewrite (claim_of_Some x a e He). simpl. intros Hin. unfold PersistentTable_persistentRequestLock in E.
  apply enter_call in E as [_ E]. rewrite He in E. rewrite bool_decide_eq_true_2 in E by done.
  apply bind_Ok in E as (? & ? & [= <- <-] & E). apply bind_Ok in E as (? & ? & E1 & _). run_inv E1.
  rewrite members_isElement, bool_decide_eq_true_2 in Hrun by (done || apply (proj2 Hok a e He)).
  injection Hrun as <- <-. done.
Qed.

Lemma returned_unlock x a m ans x' :
  persistent_ok x → valid_machine m → persistent_exec (PUnlock a m) x = Ok (ans, x') →
  m ∈ cl_starving (claim_of (claims x) a).
Proof.
  intros Hok Hm E. simpl in E. apply bind_Ok in E as (? & ? & E & _). unfold PersistentTable_persistentRequestUnlock in E.
  apply enter_call in E as [_ E]. destruct (x !! a) as [e|] eqn:He; [|done]. rewrite (claim_of_Some x a e He).
  apply bind_Ok in E as (? & ? & E1 & E). rewrite members_isElement in E1 by (done || apply (proj2 Hok a e He)).
  injection E1 as <- <-. apply bind_Ok in E as (? & ? & E1 & _). by case_bool_decide.
Qed.

Lemma returned_smallest x a op ans x' :
  op ∈ [PFindSmallest a; PTypeOfSmallest a] → persistent_exec op x = Ok (ans, x') → is_Some (claims x !! a).
Proof.
  intros Hop E. unfold claims. rewrite lookup_fmap, fmap_is_Some. rewrite !elem_of_cons, elem_of_nil in Hop.
  destruct Hop as [-> | [-> | [] ]]; simpl in E; apply bind_Ok in E as (? & ? & E & _);
    apply enter_call in E as [_ E]; by destruct (x !! a).
Qed.

Lemma returned_mark x a ans x' :
  persistent_ok x → persistent_exec (PMark a) x = Ok (ans, x') → cl_marked (claim_of (claims x) a) = ∅.
Proof.
  intros Hok E. simpl in E. apply bind_Ok in E as (? & ? & E & _).
  apply enter_call in E as [_ E]. destruct (x !! a) as [e|] eqn:He; [|by rewrite claim_of_None].
  rewrite (claim_of_Some x a e He). apply bind_Ok in E as (? & ? & E1 & _).
  rewrite members_isEmpty in E1 by apply (proj2 Hok a e He). by case_bool_decide.
Qed.

#[export] Instance persistent_refines :
  Refines persistent_exec persistent_sane persistent_enabled persistent_spec persistent_ok claims.
Proof.
  split; intros x op Hok Hs.
  - intros Hen. change (refined_by x op). destruct op; simpl in Hs.
    + by apply persistent_lock.
    + by apply persistent_unlock.
    + by apply persistent_okToIssue.
    + by apply persistent_findSmallest.
    + by apply persistent_typeOfSmallest.
    + by apply persistent_mark.
    + apply (persistent_counts x a); [done|set_solver|done].
    + apply (persistent_counts x a); [done|set_solver|done].
    + apply (persistent_counts x a); [done|set_solver|done].
  - intros Hn. destruct (persistent_exec op x) as [[ans x']|f] eqn:E; [|by exists f]. destruct Hn.
    split; [by eapply returned_line|]. destruct op; try done.
    + by eapply returned_lock.
    + by eapply returned_unlock.
    + eapply (returned_smallest x a); [|done]. set_solver.
    + eapply (returned_smallest x a); [|done]. set_solver.
    + by eapply returned_mark.
Qed.

(** ** Runs *)
Lemma empty_ok : sizes_ok → persistent_ok ∅.
Proof. intros Hs. split; [done|]. intros a e. by rewrite lookup_empty. Qed.

(** C26.  Any sequence of calls on a new table of persistent requests behaves as
    the three sets of machines per line say: the answers are those of the sets,
    the assertions inside the table never fail in an allowed call, and the next
    call, whatever it is, returns exactly when the sets allow it: a machine locks
    a line only once, unlocks only a line it has locked, and a line is marked only
    when no mark is left.  The marked machines and those that want to write are
    among the starving ones, and a line without starving machines has no entry. *)
Theorem persistent_run_refines ops answers x :
  sizes_ok → Forall persistent_sane ops → exec_all persistent_exec ops ∅ = Ok (answers, x) →
  spec_run persistent_enabled persistent_spec ∅ ops answers (claims x) ∧
  next_call_exact persistent_exec persistent_sane persistent_enabled persistent_spec claims x ∧
  ∀ a k, claims x !! a = Some k →
    cl_starving k ≠ ∅ ∧ cl_marked k ⊆ cl_starving k ∧ cl_write k ⊆ cl_starving k.
Proof.
  intros Hs Hops E. destruct (refines_run _ _ _ _ _ _ ops ∅ answers x (empty_ok Hs) Hops E) as [Hrun Hok].
  split_and!; [by rewrite <- (fmap_empty claim_abs)|by eapply refines_next; [apply _|]|].
  intros a k. unfold claims. rewrite lookup_fmap. intros (e & He & ->)%fmap_Some.
  by destruct (proj2 Hok a e He).
Qed.

(** ** Overtaking *)

(** The machines that unlock the line, in order. *)
Definition unlocker (a : Z) (op : persistent_op) : option MachineID :=
  match op with PUnlock b m => if decide (b = a) then Some m else None | _ => None end.
Definition unlockers (a : Z) (ops : list persistent_op) : list MachineID :=
  omap (unlocker a) ops.

(** Every lock of the line has been asked for, with a positive answer, in the
    same run. *)
Definition asked (a : Z) (ops : list persistent_op) (answers : list persistent_answer) : Prop :=
  ∀ i m t, ops !! i = Some (PLock a m t) →
    ∃ j, (j < i)%nat ∧ ops !! j = Some (POkToIssue a m) ∧ answers !! j = Some (PBool true).

Lemma claim_of_insert c a b k : claim_of (<[b := k]> c) a = if decide (b = a) then k else claim_of c a.
Proof. unfold claim_of. rewrite lookup_insert. by case_decide. Qed.

(** A call touches its own line only. *)
Lemma spec_other a c op ans c' :
  persistent_addr op ≠ a → persistent_spec c op ans c' → claim_of c' a = claim_of c a.
Proof.
  unfold claim_of. destruct op as [b m t|b m|b m|b|b|b|b|b|b]; simpl; intros Hne [H1 H2]; subst; try done.
  - by rewrite lookup_insert_ne.
  - case_decide; [by rewrite lookup_delete_ne|by rewrite lookup_insert_ne].
  - by rewrite lookup_alter_ne.
Qed.

(** While a machine is marked and does not unlock, it stays marked, and no one
    gets a positive answer. *)
Lemma marked_step a p c op ans c' :
  p ∈ cl_marked (claim_of c a) → op ≠ PUnlock a p →
  cl_marked (claim_of c a) ⊆ cl_starving (claim_of c a) →
  persistent_enabled c op → persistent_spec c op ans c' →
  p ∈ cl_marked (claim_of c' a) ∧ cl_marked (claim_of c' a) ⊆ cl_starving (claim_of c' a) ∧
  (∀ m, op = POkToIssue a m → ans = PBool false).
Proof.
  intros Hp Hop Hsub [_ Hen] Hsp. destruct (decide (persistent_addr op = a)) as [Ha|Ha].
  2:{ rewrite (spec_other a c op ans c') by done. split_and!; try done. by intros m ->. }
  destruct op as [b m t|b m|b m|b|b|b|b|b|b]; simpl in *;
    try (by destruct Hsp as [-> _]); destruct Hsp as [Hc Hans]; subst.
  - rewrite claim_of_insert, decide_True by done. simpl. split_and!; [done|set_solver|done].
  - case_decide as Hd; [rewrite Hd in Hsub; set_solver|]. rewrite claim_of_insert, decide_True by done. simpl.
    assert (p ≠ m) by congruence. split_and!; [set_solver|set_solver|done].
  - split_and!; [done..|]. intros ? _. f_equal. apply bool_decide_eq_false. set_solver.
  - rewrite Hen in Hp. set_solver.
Qed.

Lemma marked_run a p c ops answers c' :
  spec_run persistent_enabled persistent_spec c ops answers c' →
  p ∈ cl_marked (claim_of c a) → PUnlock a p ∉ ops → cl_marked (claim_of c a) ⊆ cl_starving (claim_of c a) →
  p ∈ cl_starving (claim_of c' a) ∧
  ∀ j m b, ops !! j = Some (POkToIssue a m) → answers !! j = Some (PBool b) → b = false.
Proof.
  induction 1 as [|c op ans c1 ops answers c' Hen Hsp Hrun IH]; intros Hp Hu Hsub; [set_solver|].
  apply not_elem_of_cons in Hu as [Hop Hu].
  destruct (marked_step a p c op ans c1 Hp ltac:(done) Hsub Hen Hsp) as (Hp1 & Hsub1 & Hno).
  destruct (IH Hp1 Hu Hsub1) as [Hend Hfalse]. split; [done|]. intros [|j] m b; simpl; [|apply Hfalse].
  intros [= ->] [= ->]. by injection (Hno m eq_refl).
Qed.

(** A line that no one locks loses its starving machines one by one. *)
Lemma starving_step a c op ans c' :
  (∀ m t, op ≠ PLock a m t) → persistent_enabled c op → persistent_spec c op ans c' →
  match unlocker a op with
  | Some m => m ∈ cl_starving (claim_of c a) ∧ cl_starving (claim_of c' a) = cl_starving (claim_of c a) ∖ {[m]}
  | None => cl_starving (claim_of c' a) = cl_starving (claim_of c a)
  end.
Proof.
  intros Hl [_ Hen] Hsp. destruct (decide (persistent_addr op = a)) as [Ha|Ha].
  2:{ rewrite (spec_other a c op ans c') by done. destruct op; try done. simpl in *. by rewrite decide_False. }
  destruct op as [b m t|b m|b m|b|b|b|b|b|b]; simpl in *;
    try (by destruct Hsp as [-> _]); destruct Hsp as [_ ->].
  - subst b. by destruct (Hl m t).
  - subst b. rewrite decide_True by done. split; [done|]. case_decide as Hd.
    + rewrite Hd. unfold claim_of. rewrite lookup_delete_eq. simpl. set_solver.
    + by rewrite claim_of_insert, decide_True.
  - subst b. unfold claim_of. rewrite lookup_alter_eq. by destruct (c !! a).
Qed.

Lemma unlockers_run a c ops answers c' :
  spec_run persistent_enabled persistent_spec c ops answers c' → (∀ m t, PLock a m t ∉ ops) →
  NoDup (unlockers a ops) ∧ list_to_set (unlockers a ops) ⊆ cl_starving (claim_of c a) ∧
  cl_starving (claim_of c' a) = cl_starving (claim_of c a) ∖ list_to_set (unlockers a ops).
Proof.
  induction 1 as [|c op ans c1 ops answers c' Hen Hsp Hrun IH]; intros Hl; [split; [constructor|set_solver]|].
  destruct IH as (Hnd & Hin & Hend); [intros m t Hm; apply (Hl m t); by right|].
  assert (Hop : ∀ m t, op ≠ PLock a m t) by (intros m t ->; apply (Hl m t); left).
  pose proof (starving_step a c op ans c1 Hop Hen Hsp) as Hst. unfold unlockers in *. csimpl.
  destruct (unlocker a op) as [m|]; csimpl; [|by rewrite <- Hst].
  destruct Hst as [Hm E]. rewrite E in Hin, Hend. split_and!; [|set_solver|rewrite Hend; set_solver].
  constructor; [|done]. intros Hm'. apply (elem_of_list_to_set (C := gset MachineID)), Hin in Hm'. set_solver.
Qed.

(** C23.  The marks of the table bound overtaking.  Take any run from a new table
    after which machine [p] is marked for a line, and any further run in which [p]
    does not unlock and every lock of the line was asked for with
    [okToIssueStarving] and allowed.  Then nobody locks the line in it, [p] is
    still starving, the machines that unlock the line are different machines that
    were starving beside [p], and so they are fewer than the starving machines. *)
Theorem persistent_bounded_overtaking a p ops1 answers1 x1 ops2 answers2 x2 :
  sizes_ok → Forall persistent_sane (ops1 ++ ops2) →
  exec_all persistent_exec ops1 ∅ = Ok (answers1, x1) → p ∈ cl_marked (claim_of (claims x1) a) →
  exec_all persistent_exec ops2 x1 = Ok (answers2, x2) → PUnlock a p ∉ ops2 → asked a ops2 answers2 →
  (∀ m t, PLock a m t ∉ ops2) ∧ p ∈ cl_starving (claim_of (claims x2) a) ∧
  NoDup (unlockers a ops2) ∧ list_to_set (unlockers a ops2) ⊆ cl_starving (claim_of (claims x1) a) ∖ {[p]} ∧
  (length (unlockers a ops2) < size (cl_starving (claim_of (claims x1) a)))%nat.
Proof.
  intros Hs [Hops1 Hops2]%Forall_app E1 Hp E2 Hu Hask.
  destruct (refines_run _ _ _ _ _ _ ops1 ∅ answers1 x1 (empty_ok Hs) Hops1 E1) as [_ Hok1].
  destruct (refines_run _ _ _ _ _ _ ops2 x1 answers2 x2 Hok1 Hops2 E2) as [Hrun _].
  assert (Hsub : cl_marked (claim_of (claims x1) a) ⊆ cl_starving (claim_of (claims x1) a)).
  { destruct (x1 !! a) as [e|] eqn:He; [|by rewrite claim_of_None].
    rewrite (claim_of_Some x1 a e He). apply (proj2 Hok1 a e He). }
  destruct (marked_run a p _ _ _ _ Hrun Hp Hu Hsub) as [Hend Hno].
  assert (Hl : ∀ m t, PLock a m t ∉ ops2).
  { intros m t [i Hi]%list_elem_of_lookup. destruct (Hask i m t Hi) as (j & _ & Hj & Ha).
    by pose proof (Hno j m true Hj Ha). }
  destruct (unlockers_run a _ _ _ _ Hrun Hl) as (Hnd & Hin & Est).
  assert (Hin' : list_to_set (unlockers a ops2) ⊆ cl_starving (claim_of (claims x1) a) ∖ {[p]}) by set_solver.
  split_and!; try done. apply subseteq_size in Hin'. rewrite size_list_to_set in Hin' by done.
  rewrite size_difference in Hin' by set_solver. rewrite size_singleton in Hin'.
  assert (size (cl_starving (claim_of (claims x1) a)) ≠ 0)%nat; [|lia].
  apply size_non_empty_iff. set_solver.
Qed.
End PersistentTable.

(** ** A concrete table

    Three machines starve for line 64; it is marked; the second machine is served
    and may not ask again. *)
Definition machine (n : Z) : MachineID := mkMachineID 0 n.
Definition contenders : list persistent_op :=
  [PLock 64 (machine 1) AccessType_Write; PLock 64 (machine 0) AccessType_Read; PMark 64;
   PLock 128 (machine 2) AccessType_Write].
Definition service : list persistent_op :=
  [PUnlock 64 (machine 1); POkToIssue 64 (machine 1); PTypeOfSmallest 64; PCountReadStarving 64].

Abbreviation run_table := (exec_all (persistent_exec (MT := two_types) (BS := block_64))).

Lemma two_types_sizes : sizes_ok (MT := two_types).
Proof. intros t Ht. simpl in *. unfold NUMBER_BITS_PER_SET. destruct (t =? 0); lia. Qed.

Lemma sample_sane : Forall (persistent_sane (MT := two_types)) (contenders ++ service).
Proof. repeat constructor; simpl; lia. Qed.

Lemma persistent_run_refines_witness :
  ∃ x, run_table (contenders ++ service) ∅ =
    Ok ([PUnit; PUnit; PUnit; PUnit; PUnit; PBool false; PType AccessType_Read; PCount 1], x) ∧
    spec_run (persistent_enabled (BS := block_64)) persistent_spec ∅ (contenders ++ service)
      [PUnit; PUnit; PUnit; PUnit; PUnit; PBool false; PType AccessType_Read; PCount 1] (claims x).
Proof.
  eexists. split; [vm_compute; reflexivity|].
  apply (persistent_run_refines (MT := two_types) (BS := block_64)); [exact two_types_sizes|exact sample_sane|].
  vm_compute. reflexivity.
Defined.

Definition marked_table : gmap Z PersistentTableEntry :=
  match run_table contenders ∅ with Ok (_, x) => x | Abort _ => ∅ end.

Lemma persistent_bounded_overtaking_witness :
  ∃ x2, (machine 0) ∈ cl_starving (claim_of (claims x2) 64) ∧ NoDup (unlockers 64 service) ∧
    (length (unlockers 64 service) < size (cl_starving (claim_of (claims marked_table) 64)))%nat.
Proof.
  eexists. edestruct (persistent_bounded_overtaking (MT := two_types) (BS := block_64) 64 (machine 0)
    contenders [PUnit; PUnit; PUnit; PUnit] marked_table service) as (_ & H1 & H2 & _ & H3).
  - exact two_types_sizes.
  - exact sample_sane.
  - vm_compute. reflexivity.
  - apply (bool_decide_eq_true_1 _). vm_compute. reflexivity.
  - vm_compute. reflexivity.
  - unfold service. rewrite !not_elem_of_cons. split_and!; [discriminate..|]. apply not_elem_of_nil.
  - intros i m t. do 4 (destruct i as [|i]; [discriminate|]). discriminate.
  - split; [exact H1|]. split; [exact H2|exact H3].
Defined.
