(* ===== verification/CacheRefinement.v ===== *)
(** * Cache memories refine a finite map

    The operations of a cache change the map [contents] as [spec] says, keep the
    invariant, and stop with an error exactly when [enabled] does not hold; and a
    miss in a full set can always be served: the line that [cacheProbe] names is
    in the set, and once it is deallocated the new line can be allocated. *)

From S2P Require Import Prelude NetDestModel AddrRangeModel CommonTypes AddressModel ReplacementModel CacheMemoryModel AddrRangeTheory AddressTheory ReplacementTheory PseudoLRUTheory CacheTheory.

Section CacheRefinement.
Context {P : Type} `{RPS : ReplacementPolicySpec P} {BS : BlockSize} {BSS : BlockSizeSpec BS}.
Implicit Types (x : CacheMemory P) (w : CWorld P).

(** What no operation changes. *)
Definition shape x : Z * Z * Z * Z :=
  (cm_m_start_index_bit x, cm_m_cache_num_set_bits x, cm_m_cache_num_sets x, cm_m_cache_assoc x).

Lemma shape_set_of x x' a : shape x' = shape x → set_of x' a = set_of x a.
Proof. intros [= E1 E2 _ _]. unfold set_of. by rewrite E1, E2. Qed.

(** ** The policy *)
Definition with_policy (p : P) w : CWorld P := w <| cw_cache ::= λ x, x <| cm_policy := p |> |>.

Lemma with_policy_ok w p :
  cache_ok w → policy_ok p → same_shape (policy_base (cm_policy (cw_cache w))) (policy_base p) →
  cache_ok (with_policy p w).
Proof.
  intros Hok Hp [Hs Ha]. pose proof (ok_geometry w Hok) as Hg. split.
  - destruct Hg. split; simpl; try done; congruence.
  - exact (ok_slot w Hok).
  - exact (ok_tag w Hok).
Qed.

Lemma in_policy w s i :
  cache_ok w → 0 ≤ s < cm_m_cache_num_sets (cw_cache w) → 0 ≤ i < cm_m_cache_assoc (cw_cache w) →
  in_table (policy_base (cm_policy (cw_cache w))) s i.
Proof.
  intros Hok Hs Hi. pose proof (ok_geometry w Hok) as Hg. split.
  - by rewrite (geo_policy_sets _ Hg).
  - by rewrite (geo_policy_assoc _ Hg).
Qed.

Lemma run_policy_touch w s i :
  cache_ok w → 0 ≤ s < cm_m_cache_num_sets (cw_cache w) → 0 ≤ i < cm_m_cache_assoc (cw_cache w) →
  ∃ p, policy_touch s i w = Ok (tt, with_policy p w) ∧ cache_ok (with_policy p w).
Proof.
  intros Hok Hs Hi. pose proof (ok_geometry w Hok) as Hg.
  destruct (touch_Ok (cm_policy (cw_cache w)) s i (cw_curTick w)) as (p & E & Hp & Hsh);
    [by apply geo_policy|by apply in_policy|].
  exists p. split; [|by apply with_policy_ok]. unfold policy_touch, mbind, M_bind. simpl. unfold lift. by rewrite E.
Qed.

(** ** Entries *)
Definition put_entry (p : ptr) (e : AbstractCacheEntry) w : CWorld P := w <| cw_entries ::= <[p := e]> |>.

Lemma run_upd_entry w p e f site :
  cw_entries w !! p = Some e → upd_entry (Some p) f site w = Ok (tt, put_entry p (f e) w).
Proof. intros He. unfold upd_entry. by run ltac:(by apply run_get_entry). Qed.

(** A pointer is in one slot only. *)
Lemma slot_inj w s i s' i' p :
  cache_ok w → slot_of (cm_m_cache (cw_cache w)) s i = Some p →
  slot_of (cm_m_cache (cw_cache w)) s' i' = Some p → s = s' ∧ i = i'.
Proof.
  intros Hok H1 H2. destruct (slot_line w _ _ _ Hok H1) as (e & He & _ & <- & Ht & _).
  destruct (slot_line w _ _ _ Hok H2) as (e' & He' & _ & <- & Ht' & _).
  assert (e' = e) as -> by congruence. split; congruence.
Qed.

(** Updating the entry of a line. *)
Lemma put_entry_ok w a i p e e' :
  cache_ok w → cm_m_tag_index (cw_cache w) !! a = Some i →
  slot_of (cm_m_cache (cw_cache w)) (set_of (cw_cache w) a) i = Some p → cw_entries w !! p = Some e →
  ce_m_Address e' = ce_m_Address e → ce_m_set_index e' = ce_m_set_index e →
  ce_m_way_index e' = ce_m_way_index e → ce_m_Permission e' ≠ NotPresent →
  cache_ok (put_entry p e' w) ∧ contents (put_entry p e' w) = <[a := view p e']> (contents w).
Proof.
  intros Hok Ht Hs He Ea Es Ew Hp. split.
  - split; [exact (ok_geometry w Hok)| |]; simpl.
    + intros s j q Hq. destruct (ok_slot w Hok s j q Hq) as (eq & Heq & Hrest).
      destruct (decide (q = p)) as [->|Hne]; [|exists eq; by rewrite lookup_insert_ne].
      assert (eq = e) as -> by congruence. exists e'. rewrite lookup_insert_eq, Ea, Es, Ew. naive_solver.
    + intros b j Hb. destruct (ok_tag w Hok b j Hb) as (q & eq & Hq & Heq & Hbq).
      destruct (decide (q = p)) as [->|Hne]; [|exists q, eq; by rewrite lookup_insert_ne].
      exists p, e'. rewrite lookup_insert_eq, Ea. assert (eq = e) as -> by congruence. done.
  - apply map_eq. intros b. rewrite contents_lookup. simpl. destruct (decide (b = a)) as [->|Hne].
    + rewrite lookup_insert_eq, Ht. simpl. unfold line_at. simpl.
      change (set_of (cw_cache (put_entry p e' w)) a) with (set_of (cw_cache w) a). rewrite Hs. simpl.
      by rewrite lookup_insert_eq.
    + rewrite lookup_insert_ne, contents_lookup by done.
      destruct (cm_m_tag_index (cw_cache w) !! b) as [j|] eqn:Hb; [|done]. simpl. unfold line_at. simpl.
      change (set_of (cw_cache (put_entry p e' w)) b) with (set_of (cw_cache w) b).
      destruct (tag_line w b j Hok Hb) as (q & eq & _ & Hq & Heq & Hbq & _). rewrite Hq. simpl.
      rewrite lookup_insert_ne; [done|]. intros ->. assert (eq = e) as -> by congruence.
      destruct (tag_line w a i Hok Ht) as (p' & e'' & _ & Hs' & He'' & Ha & _). congruence.
Qed.

(** An entry that is not in the cache. *)
Lemma new_entry_ok w p e :
  cache_ok w → cw_entries w !! p = None →
  cache_ok (put_entry p e w) ∧ contents (put_entry p e w) = contents w.
Proof.
  intros Hok Hp. split.
  - split; [exact (ok_geometry w Hok)| |]; simpl.
    + intros s j q Hq. destruct (ok_slot w Hok s j q Hq) as (eq & Heq & Hrest). exists eq.
      rewrite lookup_insert_ne by congruence. done.
    + intros b j Hb. destruct (ok_tag w Hok b j Hb) as (q & eq & Hq & Heq & Hbq). exists q, eq.
      by rewrite lookup_insert_ne by congruence.
  - apply map_eq. intros b. rewrite !contents_lookup. simpl.
    destruct (cm_m_tag_index (cw_cache w) !! b) as [j|] eqn:Hb; [|done]. simpl. unfold line_at. simpl.
    change (set_of (cw_cache (put_entry p e w)) b) with (set_of (cw_cache w) b).
    destruct (tag_line w b j Hok Hb) as (q & eq & _ & Hq & Heq & _). rewrite Hq. simpl.
    by rewrite lookup_insert_ne by congruence.
Qed.

Lemma run_new_entry w e :
  ∃ p, new_entry e w = Ok (p, put_entry p e w) ∧ cw_entries w !! p = None.
Proof.
  exists (fresh (dom (cw_entries w))). split; [reflexivity|].
  apply (not_elem_of_dom (D := gset ptr)). apply is_fresh.
Qed.

(** ** Allocation *)
Definition filled (a s i : Z) (e : AbstractCacheEntry) : AbstractCacheEntry :=
  mkCacheEntry Invalid a (-1) (u32 s) (u32 i) (ce_validBlocks e) (ce_DataBlk e).
Definition allocated (a i : Z) (q : ptr) (e : AbstractCacheEntry) (p : P) w : CWorld P :=
  w <| cw_cache ::= λ x, x <| cm_m_cache ::= λ m, set_cell m (set_of x a) i (Some q) |>
                           <| cm_m_tag_index ::= <[a := i]> |> <| cm_policy := p |> |>
    <| cw_entries ::= <[q := filled a (set_of (cw_cache w) a) i e]> |>.

Lemma u32_small n : 0 ≤ n < 2 ^ 31 → u32 n = n.
Proof. intros Hn. apply Z.mod_small. lia. Qed.

Lemma slot_allocated w a i q e p s j :
  cache_ok w → 0 ≤ i < cm_m_cache_assoc (cw_cache w) →
  slot_of (cm_m_cache (cw_cache (allocated a i q e p w))) s j =
    if decide (s = set_of (cw_cache w) a ∧ j = i) then Some q else slot_of (cm_m_cache (cw_cache w)) s j.
Proof.
  intros Hok Hi. pose proof (ok_geometry w Hok) as Hg.
  apply (slot_of_set_cell _ _ _ _ _ _ _ _ (geo_table _ Hg)); [by apply set_of_range|done].
Qed.

Lemma allocated_ok w a i q e p :
  cache_ok w → is_line a → contents w !! a = None → 0 ≤ i < cm_m_cache_assoc (cw_cache w) →
  slot_of (cm_m_cache (cw_cache w)) (set_of (cw_cache w) a) i = None →
  (∀ s j, slot_of (cm_m_cache (cw_cache w)) s j ≠ Some q) →
  policy_ok p → same_shape (policy_base (cm_policy (cw_cache w))) (policy_base p) →
  cache_ok (allocated a i q e p w).
Proof.
  intros Hok Ha Hc Hi Hfree Hq Hp [Hps Hpa]. pose proof (ok_geometry w Hok) as Hg.
  apply (contents_None w a Hok) in Hc. split.
  - destruct Hg. split; simpl; try done; try congruence. by apply table_set_cell.
  - intros s j r Hr. rewrite slot_allocated in Hr by done. simpl. case_decide as Hd.
    + destruct Hd as [-> ->]. injection Hr as <-. exists (filled a (set_of (cw_cache w) a) i e).
      rewrite lookup_insert_eq. simpl. rewrite lookup_insert_eq.
      rewrite !u32_small by (pose proof (set_of_range _ a Hg); pose proof (geo_sets _ Hg); pose proof (geo_assoc _ Hg); lia).
      done.
    + destruct (ok_slot w Hok s j r Hr) as (er & Her & Hpr & Hl & Hset & Ht & Hrest). exists er.
      rewrite lookup_insert_ne by (intros ->; by apply (Hq s j)). split_and!; try done; try naive_solver.
      rewrite lookup_insert_ne by congruence. done.
  - intros b j Hb. simpl in Hb. change (set_of (cw_cache (allocated a i q e p w)) b) with (set_of (cw_cache w) b).
    rewrite slot_allocated by done. simpl. destruct (decide (b = a)) as [->|Hne].
    + rewrite lookup_insert_eq in Hb. injection Hb as <-. rewrite decide_True by done.
      exists q, (filled a (set_of (cw_cache w) a) i e). by rewrite lookup_insert_eq.
    + rewrite lookup_insert_ne in Hb by done. destruct (ok_tag w Hok b j Hb) as (r & er & Hr & Her & Hbr).
      rewrite decide_False by (intros [Es ->]; rewrite Es in Hr; congruence).
      exists r, er. by rewrite lookup_insert_ne by (intros ->; by eapply Hq).
Qed.

Lemma allocated_contents w a i q e p :
  cache_ok w → contents w !! a = None → 0 ≤ i < cm_m_cache_assoc (cw_cache w) →
  slot_of (cm_m_cache (cw_cache w)) (set_of (cw_cache w) a) i = None →
  (∀ s j, slot_of (cm_m_cache (cw_cache w)) s j ≠ Some q) →
  contents (allocated a i q e p w) = <[a := mkLine q Invalid (-1) (ce_DataBlk e)]> (contents w).
Proof.
  intros Hok Hc Hi Hfree Hq. apply map_eq. intros b. rewrite contents_lookup. unfold line_at.
  change (set_of (cw_cache (allocated a i q e p w)) b) with (set_of (cw_cache w) b).
  change (cm_m_tag_index (cw_cache (allocated a i q e p w))) with (<[a := i]> (cm_m_tag_index (cw_cache w))).
  destruct (decide (b = a)) as [->|Hne].
  - rewrite !lookup_insert_eq. cbn [mbind option_bind]. rewrite slot_allocated, decide_True by done. simpl.
    by rewrite lookup_insert_eq.
  - rewrite !lookup_insert_ne, contents_lookup by done.
    destruct (cm_m_tag_index (cw_cache w) !! b) as [j|] eqn:Hb; [|done].
    cbn [mbind option_bind]. unfold line_at. destruct (tag_line w b j Hok Hb) as (r & er & _ & Hr & Her & _).
    rewrite slot_allocated by done. rewrite decide_False by (intros [Es ->]; rewrite Es in Hr; congruence).
    rewrite Hr. simpl. by rewrite lookup_insert_ne by (intros ->; by eapply Hq).
Qed.

Lemma run_allocate_at w a i q e (t : bool) :
  cache_ok w → 0 ≤ i < cm_m_cache_assoc (cw_cache w) → cw_entries w !! q = Some e →
  ∃ p, allocate_at a (set_of (cw_cache w) a) i (Some q) t w = Ok (tt, allocated a i q e p w) ∧
    policy_ok p ∧ same_shape (policy_base (cm_policy (cw_cache w))) (policy_base p).
Proof.
  intros Hok Hi He. pose proof (ok_geometry w Hok) as Hg. set (s := set_of (cw_cache w) a).
  destruct (touch_Ok (cm_policy (cw_cache w)) s i (cw_curTick w)) as (p & E & Hp & Hsh);
    [by apply geo_policy|apply in_policy; [done|by apply set_of_range|done]|].
  exists (if t then p else cm_policy (cw_cache w)). split; [|destruct t; [done|split; [by apply geo_policy|done]]].
  unfold allocate_at. run ltac:(reflexivity). run ltac:(by apply run_upd_entry). run ltac:(reflexivity).
  run ltac:(apply run_upd_entry; simpl; apply lookup_insert_eq).
  assert (Eins : ∀ (f g : AbstractCacheEntry) (h : gmap ptr AbstractCacheEntry), <[q := f]> (<[q := g]> h) = <[q := f]> h)
    by (intros; apply insert_insert_eq).
  destruct t.
  - unfold policy_touch, mbind, M_bind. simpl. unfold lift. fold s. rewrite E. simpl.
    unfold upd_cache, modify, put_entry, allocated. simpl. by rewrite Eins.
  - unfold mret, M_ret, allocated, put_entry. simpl. by rewrite Eins.
Qed.

(** A pointer that is not in the array. *)
Definition outside w (q : ptr) : Prop := ∀ s j, slot_of (cm_m_cache (cw_cache w)) s j ≠ Some q.

(** The search for the first free way. *)
Lemma run_allocate_loop w a q e (t : bool) :
  cache_ok w → is_line a → room w a → cw_entries w !! q = Some e →
  ∃ i, 0 ≤ i < cm_m_cache_assoc (cw_cache w) ∧
    slot_of (cm_m_cache (cw_cache w)) (set_of (cw_cache w) a) i = None ∧
    ∃ p, policy_ok p ∧ same_shape (policy_base (cm_policy (cw_cache w))) (policy_base p) ∧
    loop (zrange 0 (cm_m_cache_assoc (cw_cache w))) tt (λ i _,
        s ← slot (set_of (cw_cache w) a) i "CacheMemory.cc:265";
        open ← match s with
               | Some p =>
                   e ← get_entry (Some p) "CacheMemory.cc:265";
                   mret (bool_decide (ce_m_Permission e = NotPresent))
               | None => mret true
               end;
        if (open : bool) then allocate_at a (set_of (cw_cache w) a) i (Some q) t ;; mret (inr (Some q))
        else mret (inl tt)) w = Ok (inr (Some q), allocated a i q e p w).
Proof.
  intros Hok Ha Hr He. pose proof (ok_geometry w Hok) as Hg. set (s := set_of (cw_cache w) a).
  set (n := cm_m_cache_assoc (cw_cache w)). set (free := λ i, bool_decide (slot_of (cm_m_cache (cw_cache w)) s i = None)).
  pose proof (first_such_zrange free 0 n) as Hf. apply room_iff in Hr as (i0 & Hi0 & Hs0); [|done].
  destruct (first_such free (zrange 0 n)) as [i|] eqn:Ef.
  2:{ specialize (Hf i0 Hi0). by apply bool_decide_eq_false_1 in Hf. }
  destruct Hf as (Hi & Hfree%bool_decide_eq_true_1 & _). exists i. split; [done|]. split; [done|].
  destruct (run_allocate_at w a i q e t Hok Hi He) as (p & E & Hp & Hsh). exists p. split; [done|]. split; [done|].
  erewrite (loop_search _ _ free (λ _, Some q)
    (λ i, match allocate_at a s i (Some q) t w with Ok (_, w') => w' | Abort _ => w end)).
  - rewrite Ef. fold s in E. by rewrite E.
  - intros j Hj%elem_of_zrange Hb%bool_decide_eq_false_1.
    run ltac:(apply run_slot; [done|by apply set_of_range|done]).
    destruct (slot_of (cm_m_cache (cw_cache w)) s j) as [r|] eqn:Hs; [|done].
    destruct (slot_line w s j r Hok Hs) as (er & Her & _ & _ & _ & Hpr).
    run ltac:(by run ltac:(by apply run_get_entry)). by rewrite bool_decide_eq_false_2.
  - intros j Hj%elem_of_zrange Hb%bool_decide_eq_true_1.
    run ltac:(apply run_slot; [done|by apply set_of_range|done]). rewrite Hb. run ltac:(reflexivity).
    destruct (run_allocate_at w a j q e t Hok Hj He) as (p' & E' & _). fold s in E'. run ltac:(exact E').
    by rewrite E'.
Qed.

Lemma run_allocate w a q e t :
  cache_ok w → is_line a → contents w !! a = None → room w a → cw_entries w !! q = Some e → outside w q →
  ∃ w', CacheMemory_allocate a (Some q) t w = Ok (Some q, w') ∧ cache_ok w' ∧
    contents w' = <[a := mkLine q Invalid (-1) (ce_DataBlk e)]> (contents w) ∧ shape (cw_cache w') = shape (cw_cache w).
Proof.
  intros Hok Ha Hc Hr He Hq. pose proof (ok_geometry w Hok) as Hg. unfold CacheMemory_allocate.
  destruct (run_allocate_loop w a q e t Hok Ha Hr He) as (i & Hi & Hfree & p & Hp & Hsh & E).
  exists (allocated a i q e p w). split_and!; [|by apply allocated_ok|by apply allocated_contents|done].
  run ltac:(by apply run_assert_line). run ltac:(by apply run_isTagPresent).
  rewrite bool_decide_eq_false_2 by (rewrite Hc; by intros [? [=]]). run ltac:(reflexivity).
  run ltac:(by apply run_cacheAvail). rewrite bool_decide_eq_true_2 by (by right). run ltac:(reflexivity).
  run ltac:(by apply run_addressToCacheSet). run ltac:(reflexivity). by run ltac:(exact E).
Qed.

Lemma allocate_refused w a q t :
  cache_ok w → is_line a → ¬ (contents w !! a = None ∧ room w a) →
  ∃ f, CacheMemory_allocate a q t w = Abort f.
Proof.
  intros Hok Ha Hn. unfold CacheMemory_allocate.
  run ltac:(by apply run_assert_line). run ltac:(by apply run_isTagPresent). case_bool_decide as Hc; [by eexists|].
  run ltac:(reflexivity). run ltac:(by apply run_cacheAvail). rewrite bool_decide_eq_false_2; [by eexists|].
  intros [?|?]; [done|]. apply Hn. split; [by apply eq_None_not_Some|done].
Qed.

(** ** Deallocation *)
Definition deallocated (a i : Z) (q : ptr) w : CWorld P :=
  w <| cw_entries ::= delete q |>
    <| cw_cache ::= λ x, x <| cm_m_cache ::= λ m, set_cell m (set_of x a) i None |>
                           <| cm_m_tag_index ::= delete a |> |>.

Lemma slot_deallocated w a i q s j :
  cache_ok w → 0 ≤ i < cm_m_cache_assoc (cw_cache w) →
  slot_of (cm_m_cache (cw_cache (deallocated a i q w))) s j =
    if decide (s = set_of (cw_cache w) a ∧ j = i) then None else slot_of (cm_m_cache (cw_cache w)) s j.
Proof.
  intros Hok Hi. pose proof (ok_geometry w Hok) as Hg.
  apply (slot_of_set_cell _ _ _ _ _ _ _ _ (geo_table _ Hg)); [by apply set_of_range|done].
Qed.

Lemma deallocated_ok w a i q :
  cache_ok w → cm_m_tag_index (cw_cache w) !! a = Some i →
  slot_of (cm_m_cache (cw_cache w)) (set_of (cw_cache w) a) i = Some q →
  cache_ok (deallocated a i q w) ∧ contents (deallocated a i q w) = delete a (contents w).
Proof.
  intros Hok Ht Hs. pose proof (ok_geometry w Hok) as Hg. pose proof (tag_way w a i Hok Ht) as Hi.
  assert (Hother : ∀ s j r, (s, j) ≠ (set_of (cw_cache w) a, i) →
    slot_of (cm_m_cache (cw_cache w)) s j = Some r → r ≠ q).
  { intros s j r Hne Hr ->. apply Hne. by destruct (slot_inj w _ _ _ _ _ Hok Hr Hs) as [-> ->]. }
  assert (Htag : ∀ b j, b ≠ a → cm_m_tag_index (cw_cache w) !! b = Some j → (set_of (cw_cache w) b, j) ≠ (set_of (cw_cache w) a, i)).
  { intros b j Hne Hb [= E1 ->]. destruct (tag_line w b i Hok Hb) as (r & er & _ & Hr & Her & Hbr & _).
    destruct (tag_line w a i Hok Ht) as (r' & er' & _ & Hr' & Her' & Har & _). congruence. }
  split.
  - split.
    + destruct Hg. split; simpl; try done. by apply table_set_cell.
    + intros s j r Hr. rewrite slot_deallocated in Hr by done. case_decide as Hd; [done|].
      destruct (ok_slot w Hok s j r Hr) as (er & Her & Hp & Hl & Hset & Htr & Hrest). exists er. simpl.
      assert ((s, j) ≠ (set_of (cw_cache w) a, i)) by naive_solver.
      rewrite lookup_delete_ne by (symmetry; by eapply Hother). split_and!; try done; try naive_solver.
      rewrite lookup_delete_ne; [done|]. intros Ea. rewrite <- Ea in *. naive_solver.
    + intros b j Hb. simpl in Hb. apply lookup_delete_Some in Hb as [Hne Hb].
      change (set_of (cw_cache (deallocated a i q w)) b) with (set_of (cw_cache w) b).
      destruct (ok_tag w Hok b j Hb) as (r & er & Hr & Her & Hbr). exists r, er.
      pose proof (Htag b j (not_eq_sym Hne) Hb) as Hn. rewrite slot_deallocated, decide_False by (done || (intros [Es Ej]; apply Hn; by rewrite Es, Ej)).
      simpl. rewrite lookup_delete_ne by (symmetry; by eapply Hother). done.
  - apply map_eq. intros b. rewrite contents_lookup. unfold line_at.
    change (set_of (cw_cache (deallocated a i q w)) b) with (set_of (cw_cache w) b).
    change (cm_m_tag_index (cw_cache (deallocated a i q w))) with (delete a (cm_m_tag_index (cw_cache w))).
    destruct (decide (b = a)) as [->|Hne]; [by rewrite !lookup_delete_eq|].
    rewrite !lookup_delete_ne, contents_lookup by done.
    destruct (cm_m_tag_index (cw_cache w) !! b) as [j|] eqn:Hb; [|done]. cbn [mbind option_bind]. unfold line_at.
    pose proof (Htag b j Hne Hb) as Hn. rewrite slot_deallocated, decide_False by (done || (intros [Es Ej]; apply Hn; by rewrite Es, Ej)).
    destruct (tag_line w b j Hok Hb) as (r & er & _ & Hr & Her & _). rewrite Hr. simpl.
    rewrite lookup_delete_ne by (symmetry; by eapply Hother). done.
Qed.

Lemma run_deallocate w a :
  cache_ok w → is_line a →
  if decide (is_Some (contents w !! a)) then
    ∃ w', CacheMemory_deallocate a w = Ok (tt, w') ∧ cache_ok w' ∧ contents w' = delete a (contents w) ∧
      shape (cw_cache w') = shape (cw_cache w)
  else ∃ f, CacheMemory_deallocate a w = Abort f.
Proof.
  intros Hok Ha. pose proof (ok_geometry w Hok) as Hg. case_decide as Hc; unfold CacheMemory_deallocate.
  2:{ run ltac:(by apply run_assert_line). run ltac:(by apply run_isTagPresent).
      rewrite bool_decide_eq_false_2 by done. by eexists. }
  pose proof Hc as [l Hl]. destruct (contents_tag w a l Hl) as (i & Ht & _).
  destruct (tag_line w a i Hok Ht) as (q & e & _ & Hs & _). destruct (deallocated_ok w a i q Hok Ht Hs) as [Hok' Hc'].
  exists (deallocated a i q w). split_and!; try done.
  run ltac:(by apply run_assert_line). run ltac:(by apply run_isTagPresent).
  rewrite bool_decide_eq_true_2 by done. run ltac:(reflexivity). rewrite run_find by done. rewrite Ht. simpl.
  rewrite (way_found w a i Hok Ht). simpl.
  run ltac:(apply run_slot; [done|by apply set_of_range|by eapply tag_way]). rewrite Hs. done.
Qed.

(** ** The victim *)
Lemma run_cacheProbe w a :
  cache_ok w → is_line a → contents w !! a = None → ¬ room w a →
  ∃ b i, CacheMemory_cacheProbe a w = Ok (b, w) ∧ is_Some (contents w !! b) ∧
    set_of (cw_cache w) b = set_of (cw_cache w) a ∧ is_line b ∧ cm_m_tag_index (cw_cache w) !! b = Some i ∧
    getVictim (set_of (cw_cache w) a) (cm_policy (cw_cache w)) = Ok i.
Proof.
  intros Hok Ha Hc Hr. pose proof (ok_geometry w Hok) as Hg.
  destruct (getVictim_Ok (cm_policy (cw_cache w)) (set_of (cw_cache w) a)) as (v & Ev & Hv).
  { by apply geo_policy. } { rewrite (geo_policy_sets _ Hg). by apply set_of_range. }
  { rewrite (geo_policy_assoc _ Hg). apply geo_assoc, Hg. }
  rewrite (geo_policy_assoc _ Hg) in Hv.
  destruct (slot_of (cm_m_cache (cw_cache w)) (set_of (cw_cache w) a) v) as [q|] eqn:Hs.
  2:{ exfalso. apply Hr, room_iff; [done|]. eauto. }
  destruct (slot_line w _ _ _ Hok Hs) as (e & He & Hb & Hset & Ht & _). exists (ce_m_Address e), v.
  assert (Hl : is_line (ce_m_Address e)) by (by destruct (tag_line w _ _ Hok Ht) as (? & ? & _ & _ & _ & _ & _ & ? & _)).
  split; [|rewrite Hb; split; [by eauto|done]].
  - unfold CacheMemory_cacheProbe. run ltac:(by apply run_assert_line). run ltac:(by apply run_cacheAvail).
    rewrite bool_decide_eq_false_2; [|intros [?|?]; [rewrite Hc in *; by apply is_Some_None in H|done]].
    run ltac:(reflexivity). run ltac:(by apply run_addressToCacheSet). run ltac:(reflexivity).
    run ltac:(unfold lift; rewrite Ev; reflexivity). run ltac:(apply run_slot; [done|by apply set_of_range|done]).
    rewrite Hs. by run ltac:(by apply run_get_entry).
Qed.
End CacheRefinement.
