(* ===== verification/CacheRunTheory.v ===== *)
(** * Runs of a cache

    The operations of [CacheMemory] as a protocol calls them, their
    specification on the map from addresses to lines, and the two theorems: any
    sequence of calls behaves as the map does, and a full set always has a line
    whose eviction makes room. *)

From S2P Require Import Prelude Refinement NetDestModel AddrRangeModel CommonTypes AddressModel ReplacementModel CacheMemoryModel AddrRangeTheory AddressTheory ReplacementTheory PseudoLRUTheory CacheTheory CacheRefinement.

(** ** Calls *)
Inductive cache_op :=
  | OpLookup (a : Z)
  | OpIsTagPresent (a : Z)
  | OpCacheAvail (a : Z)
  | OpAllocate (a : Z) (e : AbstractCacheEntry) (touch : bool)
  | OpDeallocate (a : Z)
  | OpCacheProbe (a : Z)
  | OpSetMRU (a : Z)
  | OpSetMRUOccupancy (a occupancy : Z)
  | OpTryAccess (a : Z) (type : RubyRequestType)
  | OpTestAccess (a : Z) (type : RubyRequestType)
  | OpSetLocked (a context : Z)
  | OpClearLocked (a : Z)
  | OpIsLocked (a context : Z)
  | OpChangePermission (a : Z) (perm : AccessPermission)
  | OpTick (t : Z).

Inductive answer :=
  | AUnit | ABool (b : bool) | AAddr (a : Z) | APtr (p : option ptr) | AAccess (hit : bool) (data : option ptr).

Definition op_address (op : cache_op) : option Z :=
  match op with
  | OpLookup a | OpIsTagPresent a | OpCacheAvail a | OpAllocate a _ _ | OpDeallocate a | OpCacheProbe a
  | OpSetMRU a | OpSetMRUOccupancy a _ | OpTryAccess a _ | OpTestAccess a _ | OpSetLocked a _
  | OpClearLocked a | OpIsLocked a _ | OpChangePermission a _ => Some a
  | OpTick _ => None
  end.

(** An address is a 64-bit number, and an entry in a cache is never made
    [NotPresent], which [CacheMemory::allocate] calls a bug of the protocol. *)
Definition sane (op : cache_op) : Prop :=
  (∀ a, op_address op = Some a → 0 ≤ a < 2 ^ 64) ∧
  match op with OpChangePermission _ perm => perm ≠ NotPresent | _ => True end.

#[export] Instance option_all_dec {A} (o : option A) (Q : A → Prop) `{∀ a, Decision (Q a)} :
  Decision (∀ a, o = Some a → Q a).
Proof.
  destruct o as [a|]; [|by left]. destruct (decide (Q a)); [left; by intros ? [= <-]|right; by eauto].
Defined.

Section CacheRun.
Context {P : Type} `{RPS : ReplacementPolicySpec P} {BS : BlockSize} {BSS : BlockSizeSpec BS}.
Implicit Types (x : CacheMemory P) (w : CWorld P) (m : gmap Z Line).

Definition exec (op : cache_op) : M (CWorld P) answer :=
  match op with
  | OpLookup a => p ← CacheMemory_lookup a; mret (APtr p)
  | OpIsTagPresent a => b ← CacheMemory_isTagPresent a; mret (ABool b)
  | OpCacheAvail a => b ← CacheMemory_cacheAvail a; mret (ABool b)
  | OpAllocate a e touch =>
      p ← new_entry e; q ← CacheMemory_allocate a (Some p) touch; mret (APtr q)
  | OpDeallocate a => CacheMemory_deallocate a ;; mret AUnit
  | OpCacheProbe a => b ← CacheMemory_cacheProbe a; mret (AAddr b)
  | OpSetMRU a => CacheMemory_setMRU a ;; mret AUnit
  | OpSetMRUOccupancy a occ => CacheMemory_setMRU_occupancy a occ ;; mret AUnit
  | OpTryAccess a type => r ← CacheMemory_tryCacheAccess a type; mret (AAccess r.1 r.2)
  | OpTestAccess a type => r ← CacheMemory_testCacheAccess a type; mret (AAccess r.1 r.2)
  | OpSetLocked a context => CacheMemory_setLocked a context ;; mret AUnit
  | OpClearLocked a => CacheMemory_clearLocked a ;; mret AUnit
  | OpIsLocked a context => b ← CacheMemory_isLocked a context; mret (ABool b)
  | OpChangePermission a perm =>
      p ← CacheMemory_lookup a;
      match p with Some p => changePermission p perm | None => fail (NullDeref "lookup") end ;;
      mret AUnit
  | OpTick t => modify (λ w, w <| cw_curTick := t |>) ;; mret AUnit
  end.

(** ** The specification *)

(** Whether a permission allows a request. *)
Definition permits (perm : AccessPermission) (type : RubyRequestType) : bool :=
  match perm with
  | Read_Write => true
  | Read_Only => bool_decide (type = LD) || bool_decide (type = IFETCH)
  | _ => false
  end.

Definition has_room x m (a : Z) : Prop :=
  Z.of_nat (size (lines_of x m (set_of x a))) < cm_m_cache_assoc x.

(** When a call is allowed. *)
Definition enabled x m (op : cache_op) : Prop :=
  (∀ a, op_address op = Some a → is_line a) ∧
  match op with
  | OpAllocate a _ _ => m !! a = None ∧ has_room x m a
  | OpCacheProbe a => m !! a = None ∧ ¬ has_room x m a
  | OpTryAccess a _ | OpTestAccess a _ => ∀ l, m !! a = Some l → is_Some (ln_data l)
  | OpDeallocate a | OpSetLocked a _ | OpClearLocked a | OpIsLocked a _ | OpChangePermission a _ =>
      is_Some (m !! a)
  | _ => True
  end.

#[export] Instance is_line_dec a : Decision (is_line a).
Proof. unfold is_line. apply _. Defined.
#[export] Instance has_room_dec x m a : Decision (has_room x m a).
Proof. unfold has_room. apply _. Defined.
#[export] Instance enabled_dec x m op : Decision (enabled x m op).
Proof. unfold enabled. destruct op; apply _. Defined.

Definition relock (context : Z) (l : Line) : Line := mkLine (ln_ptr l) (ln_perm l) context (ln_data l).
Definition reperm (perm : AccessPermission) (l : Line) : Line :=
  mkLine (ln_ptr l) perm
    (if bool_decide (perm = Invalid) || bool_decide (perm = NotPresent) then -1 else ln_locked l) (ln_data l).

(** What an allowed call answers and does to the map. *)
Definition spec x m (op : cache_op) (ans : answer) m' : Prop :=
  match op with
  | OpLookup a => ans = APtr (ln_ptr <$> m !! a) ∧ m' = m
  | OpIsTagPresent a => ans = ABool (bool_decide (is_Some (m !! a))) ∧ m' = m
  | OpCacheAvail a => ans = ABool true ∧ (is_Some (m !! a) ∨ has_room x m a) ∧ m' = m ∨
                      ans = ABool false ∧ m !! a = None ∧ ¬ has_room x m a ∧ m' = m
  | OpAllocate a e _ => ∃ p, ans = APtr (Some p) ∧ (∀ b l, m !! b = Some l → ln_ptr l ≠ p) ∧
      m' = <[a := mkLine p Invalid (-1) (ce_DataBlk e)]> m
  | OpDeallocate a => ans = AUnit ∧ m' = delete a m
  | OpCacheProbe a => ∃ b, ans = AAddr b ∧ is_Some (m !! b) ∧ set_of x b = set_of x a ∧ m' = m
  | OpSetMRU _ | OpSetMRUOccupancy _ _ | OpTick _ => ans = AUnit ∧ m' = m
  | OpTryAccess a type => m' = m ∧
      ans = match m !! a with
            | Some l => if permits (ln_perm l) type then AAccess true (Some (ln_ptr l)) else AAccess false None
            | None => AAccess false None
            end
  | OpTestAccess a type => m' = m ∧
      ans = match m !! a with Some l => AAccess true (Some (ln_ptr l)) | None => AAccess false None end
  | OpSetLocked a context => ans = AUnit ∧ m' = alter (relock context) a m
  | OpClearLocked a => ans = AUnit ∧ m' = alter (relock (-1)) a m
  | OpIsLocked a context =>
      ∃ l, m !! a = Some l ∧ ans = ABool (ln_locked l =? context) ∧ m' = m
  | OpChangePermission a perm => ans = AUnit ∧ m' = alter (reperm perm) a m
  end.

(** ** Refinement of each call *)
Definition refined w (op : cache_op) : Prop :=
  ∃ ans w', exec op w = Ok (ans, w') ∧ cache_ok w' ∧ shape (cw_cache w') = shape (cw_cache w) ∧
    spec (cw_cache w) (contents w) op ans (contents w').

(** A call that only looks, or only tells the policy. *)
Lemma refined_same w op ans w' :
  exec op w = Ok (ans, w') → cache_ok w' → contents w' = contents w → shape (cw_cache w') = shape (cw_cache w) →
  spec (cw_cache w) (contents w) op ans (contents w) → refined w op.
Proof. intros E Hok Hc Hs Hsp. exists ans, w'. split_and!; try done. by rewrite Hc. Qed.

Lemma refined_lookup w a : cache_ok w → is_line a → refined w (OpLookup a).
Proof.
  intros Hok Ha. eapply refined_same; [|done..|split; reflexivity]. simpl. by run ltac:(by apply run_lookup).
Qed.

Lemma refined_isTagPresent w a : cache_ok w → is_line a → refined w (OpIsTagPresent a).
Proof.
  intros Hok Ha. eapply refined_same; [|done..|split; reflexivity]. simpl. by run ltac:(by apply run_isTagPresent).
Qed.

Lemma refined_cacheAvail w a : cache_ok w → is_line a → refined w (OpCacheAvail a).
Proof.
  intros Hok Ha. eapply refined_same; [simpl; by run ltac:(by apply run_cacheAvail)|done..|].
  simpl. change (has_room (cw_cache w) (contents w) a) with (room w a). case_bool_decide as Hd; [by left|right].
  split_and!; try done; [apply eq_None_not_Some|]; naive_solver.
Qed.

Lemma refined_allocate w a e t :
  cache_ok w → is_line a → contents w !! a = None → room w a → refined w (OpAllocate a e t).
Proof.
  intros Hok Ha Hc Hr. destruct (run_new_entry w e) as (p & En & Hp). set (w1 := put_entry p e w) in *.
  destruct (new_entry_ok w p e Hok Hp) as [Hok1 Hc1]. fold w1 in Hok1, Hc1.
  assert (Hout : outside w1 p).
  { intros s j Hs. destruct (ok_slot w Hok s j p Hs) as (e' & He' & _). congruence. }
  destruct (run_allocate w1 a p e t Hok1 Ha) as (w' & E & Hok' & Hc' & Hs'); try done.
  { by rewrite Hc1. } { unfold room. by rewrite Hc1. } { apply lookup_insert_eq. }
  exists (APtr (Some p)), w'. split_and!; [|done|done|].
  - simpl. run ltac:(exact En). by run ltac:(exact E).
  - exists p. split_and!; [done| |by rewrite Hc', Hc1]. intros b l Hb El.
    destruct (contents_tag w b l Hb) as (i & Ht & _).
    destruct (tag_line w b i Hok Ht) as (q & eq & Hq & _ & Heq & _). rewrite Hb in Hq. simplify_eq. simpl in *. congruence.
Qed.

Lemma refined_deallocate w a : cache_ok w → is_line a → is_Some (contents w !! a) → refined w (OpDeallocate a).
Proof.
  intros Hok Ha Hc. pose proof (run_deallocate w a Hok Ha) as H. rewrite decide_True in H by done.
  destruct H as (w' & E & Hok' & Hc' & Hs'). exists AUnit, w'. split_and!; [|done..]. simpl. by run ltac:(exact E).
Qed.

Lemma refined_cacheProbe w a :
  cache_ok w → is_line a → contents w !! a = None → ¬ room w a → refined w (OpCacheProbe a).
Proof.
  intros Hok Ha Hc Hr. destruct (run_cacheProbe w a Hok Ha Hc Hr) as (b & i & E & Hb & Hs & _).
  eapply refined_same; [simpl; by run ltac:(exact E)|done..|]. by exists b.
Qed.

(** Touching the way of an address. *)
Lemma run_touch_found w a i :
  cache_ok w → cm_m_tag_index (cw_cache w) !! a = Some i →
  ∃ p, policy_touch (set_of (cw_cache w) a) i w = Ok (tt, with_policy p w) ∧ cache_ok (with_policy p w).
Proof.
  intros Hok Ht. apply run_policy_touch; [done|by apply set_of_range, ok_geometry|by eapply tag_way].
Qed.

Lemma refined_setMRU w a : cache_ok w → is_line a → refined w (OpSetMRU a).
Proof.
  intros Hok Ha. destruct (cm_m_tag_index (cw_cache w) !! a) as [i|] eqn:Ht.
  - destruct (run_touch_found w a i Hok Ht) as (p & E & Hok'). eapply refined_same; [|exact Hok'|done..].
    simpl. run ltac:(unfold CacheMemory_setMRU; rewrite run_find by done; rewrite Ht; simpl;
      rewrite (way_found w a i Hok Ht); exact E). done.
  - eapply refined_same; [|done..]. simpl.
    run ltac:(unfold CacheMemory_setMRU; rewrite run_find by done; rewrite Ht; reflexivity). done.
Qed.

Lemma refined_setMRU_occupancy w a occ : cache_ok w → is_line a → refined w (OpSetMRUOccupancy a occ).
Proof.
  intros Hok Ha. destruct (cm_m_tag_index (cw_cache w) !! a) as [i|] eqn:Ht.
  2:{ eapply refined_same; [|done..]. simpl.
      run ltac:(unfold CacheMemory_setMRU_occupancy; rewrite run_find by done; rewrite Ht; reflexivity). done. }
  assert (H : ∃ p, CacheMemory_setMRU_occupancy a occ w = Ok (tt, with_policy p w) ∧ cache_ok (with_policy p w)).
  { unfold CacheMemory_setMRU_occupancy. rewrite run_find by done. rewrite Ht. simpl. rewrite (way_found w a i Hok Ht).
    simpl. destruct touch_occupancy as [f|] eqn:Ef; [|by apply run_touch_found].
    pose proof (ok_geometry w Hok) as Hg.
    destruct (touch_occupancy_Ok f (cm_policy (cw_cache w)) (set_of (cw_cache w) a) i (cw_curTick w) occ)
      as (p & E & Hp & Hsh); [done|by apply geo_policy|apply in_policy; [done|by apply set_of_range|by eapply tag_way]|].
    exists p. split; [|by apply with_policy_ok]. unfold mbind, M_bind. simpl. unfold lift. by rewrite E. }
  destruct H as (p & E & Hok'). eapply refined_same; [|exact Hok'|done..]. simpl. by run ltac:(exact E).
Qed.

(** Both accesses look for the address, touch its line and look at the entry. *)
Definition accessed w (a : Z) {A} (m : M (CWorld P) A) (hit : Line → A) (miss : A) : Prop :=
  match contents w !! a with
  | Some l =>
      match ln_data l with
      | Some _ => ∃ q, m w = Ok (hit l, with_policy q w) ∧ cache_ok (with_policy q w)
      | None => ∃ f, m w = Abort f
      end
  | None => m w = Ok (miss, w)
  end.

Lemma run_access w a {A} (hit : option ptr → AbstractCacheEntry → M (CWorld P) A) (miss : A) (f : Line → A) s0 s1 s2 :
  cache_ok w → is_line a →
  (∀ p e w', ce_m_Permission e ≠ NotPresent → hit (Some p) e w' = Ok (f (view p e), w')) →
  accessed w a
    (assertM (a =? makeLineAddress a) s0 ;;
     cacheSet ← CacheMemory_addressToCacheSet a;
     loc ← CacheMemory_findTagInSet cacheSet a;
     if negb (loc =? -1) then
       p ← slot cacheSet loc s1;
       policy_touch cacheSet loc ;;
       e ← get_entry p s2;
       getDataBlk e ;;
       hit p e
     else mret miss) f miss.
Proof.
  intros Hok Ha Hhit. unfold accessed. destruct (contents w !! a) as [l|] eqn:Hc.
  - destruct (contents_tag w a l Hc) as (i & Ht & _).
    destruct (tag_line w a i Hok Ht) as (p & e & Hc' & Hs & He & _ & Hp & _). rewrite Hc in Hc'. injection Hc' as ->.
    destruct (run_touch_found w a i Hok Ht) as (q & E & Hok').
    rewrite (bind_run _ _ w tt w) by (by apply run_assert_line). rewrite run_find by done. rewrite Ht.
    change (default (-1) (Some i)) with i.
    rewrite (way_found w a i Hok Ht). cbn [negb].
    rewrite (bind_run _ _ w (Some p) w)
      by (rewrite run_slot, Hs by (by apply ok_geometry || by apply set_of_range, ok_geometry || by eapply tag_way); done).
    rewrite (bind_run _ _ w tt (with_policy q w)) by done.
    rewrite (bind_run _ _ (with_policy q w) e (with_policy q w)) by (by apply run_get_entry).
    unfold getDataBlk. simpl. destruct (ce_DataBlk e) as [d|]; [|by eexists].
    exists q. split; [|done]. cbn [mbind M_bind mret M_ret]. by apply Hhit.
  - pose proof Hc as Ht%contents_None; [|done]. run ltac:(by apply run_assert_line). rewrite run_find by done.
    by rewrite Ht.
Qed.

Lemma run_tryCacheAccess w a type :
  cache_ok w → is_line a →
  accessed w a (CacheMemory_tryCacheAccess a type)
    (λ l, if permits (ln_perm l) type then (true, Some (ln_ptr l)) else (false, None)) (false, None).
Proof.
  intros Hok Ha. apply run_access; [done..|]. intros p e w' Hp. simpl.
  by destruct (ce_m_Permission e), type.
Qed.

Lemma run_testCacheAccess w a type :
  cache_ok w → is_line a →
  accessed w a (CacheMemory_testCacheAccess a type) (λ l, (true, Some (ln_ptr l))) (false, None).
Proof.
  intros Hok Ha. apply run_access; [done..|]. intros p e w' Hp. by rewrite bool_decide_eq_false_2.
Qed.

(** A call that is an access. *)
Lemma refined_access w a (m : M (CWorld P) (bool * option ptr)) hit miss op :
  accessed w a m hit miss → cache_ok w → exec op = (r ← m; mret (AAccess r.1 r.2)) →
  (∀ l, contents w !! a = Some l → spec (cw_cache w) (contents w) op (AAccess (hit l).1 (hit l).2) (contents w)) →
  (contents w !! a = None → spec (cw_cache w) (contents w) op (AAccess miss.1 miss.2) (contents w)) →
  let carries := ∀ l, contents w !! a = Some l → is_Some (ln_data l) in
  (carries → refined w op) ∧ (¬ carries → ∃ f, exec op w = Abort f).
Proof.
  intros Hacc Hok Ex Hhit Hmiss. unfold accessed in Hacc. destruct (contents w !! a) as [l|] eqn:Hc.
  - destruct (ln_data l) as [d|] eqn:Hd; (split; intros H).
    + destruct Hacc as (q & E & Hok').
      eapply refined_same; [rewrite Ex; by rewrite (bind_run _ _ _ _ _ E)|done..|by apply Hhit].
    + destruct H. intros l' [= <-]. rewrite Hd. eauto.
    + destruct (H l eq_refl). congruence.
    + destruct Hacc as [f E]. exists f. rewrite Ex. unfold mbind, M_bind. by rewrite E.
  - split; [|by intros []]. intros _.
    eapply refined_same; [rewrite Ex; by rewrite (bind_run _ _ _ _ _ Hacc)|done..|by apply Hmiss].
Qed.

(** ** Locks and permissions *)
Lemma run_locked_slot w a site :
  cache_ok w → is_line a →
  match contents w !! a with
  | Some l => locked_slot a site w = Ok (Some (ln_ptr l), w)
  | None => ∃ f, locked_slot a site w = Abort f
  end.
Proof.
  intros Hok Ha. unfold locked_slot. rewrite (bind_run _ _ w tt w) by (by apply run_assert_line).
  rewrite run_find by done. destruct (contents w !! a) as [l|] eqn:Hc.
  - destruct (contents_tag w a l Hc) as (i & Ht & _).
    destruct (tag_line w a i Hok Ht) as (p & e & Hc' & Hs & _). rewrite Hc in Hc'. injection Hc' as ->.
    rewrite Ht. change (default (-1) (Some i)) with i. rewrite (way_found w a i Hok Ht). run ltac:(reflexivity).
    by rewrite run_slot, Hs by (by apply ok_geometry || by apply set_of_range, ok_geometry || by eapply tag_way).
  - apply contents_None in Hc; [|done]. rewrite Hc. by eexists.
Qed.

(** A change of the entry of a line. *)
Lemma update_line w a l (f : AbstractCacheEntry → AbstractCacheEntry) (g : Line → Line) :
  cache_ok w → contents w !! a = Some l →
  (∀ e, ce_m_Address (f e) = ce_m_Address e ∧ ce_m_set_index (f e) = ce_m_set_index e ∧
        ce_m_way_index (f e) = ce_m_way_index e ∧ ∀ p, view p (f e) = g (view p e)) →
  (∀ l, ln_perm l ≠ NotPresent → ln_perm (g l) ≠ NotPresent) →
  ∃ w', (∀ site, upd_entry (Some (ln_ptr l)) f site w = Ok (tt, w')) ∧ cache_ok w' ∧
    shape (cw_cache w') = shape (cw_cache w) ∧ contents w' = alter g a (contents w).
Proof.
  intros Hok Hc Hf Hg. destruct (contents_tag w a l Hc) as (i & Ht & _).
  destruct (tag_line w a i Hok Ht) as (p & e & Hc' & Hs & He & _ & Hp & _). rewrite Hc in Hc'. injection Hc' as ->.
  destruct (Hf e) as (Ha & Hsi & Hwi & Hv).
  destruct (put_entry_ok w a i p e (f e)) as [Hok' Hcont]; try done.
  { specialize (Hg (view p e) Hp). by rewrite <- Hv in Hg. }
  exists (put_entry p (f e) w). split_and!; [|done|done|].
  - intros site. by apply run_upd_entry.
  - rewrite Hcont. apply map_eq. intros b. destruct (decide (b = a)) as [->|Hne].
    + by rewrite lookup_insert_eq, lookup_alter_eq, Hc, Hv.
    + by rewrite lookup_insert_ne, lookup_alter_ne.
Qed.

Lemma refined_update w a op (m : M (CWorld P) (option ptr)) f g site :
  cache_ok w → exec op = ((p ← m; upd_entry p f site) ;; mret AUnit) →
  match contents w !! a with Some l => m w = Ok (Some (ln_ptr l), w) | None => ∃ f, m w = Abort f end →
  (∀ e, ce_m_Address (f e) = ce_m_Address e ∧ ce_m_set_index (f e) = ce_m_set_index e ∧
        ce_m_way_index (f e) = ce_m_way_index e ∧ ∀ p, view p (f e) = g (view p e)) →
  (∀ l, ln_perm l ≠ NotPresent → ln_perm (g l) ≠ NotPresent) →
  spec (cw_cache w) (contents w) op AUnit (alter g a (contents w)) →
  (is_Some (contents w !! a) → refined w op) ∧ (¬ is_Some (contents w !! a) → ∃ f, exec op w = Abort f).
Proof.
  intros Hok Ex Hm Hf Hg Hsp. destruct (contents w !! a) as [l|] eqn:Hc.
  - split; [|by intros []]. intros _. destruct (update_line w a l f g Hok Hc Hf Hg) as (w' & E & Hok' & Hs' & Hc').
    exists AUnit, w'. split_and!; [|done|done|by rewrite Hc']. rewrite Ex.
    by run ltac:(run ltac:(exact Hm); apply E).
  - split; [by intros [? [=]]|]. intros _. destruct Hm as [e E]. exists e. rewrite Ex.
    unfold mbind, M_bind. by rewrite E.
Qed.

Lemma exec_setLocked w a context :
  cache_ok w → is_line a →
  (is_Some (contents w !! a) → refined w (OpSetLocked a context)) ∧
  (¬ is_Some (contents w !! a) → ∃ f, exec (OpSetLocked a context) w = Abort f).
Proof.
  intros Hok Ha. eapply (refined_update w a _ _ _ (relock context)); [done|reflexivity|by apply run_locked_slot|done..].
Qed.

Lemma exec_clearLocked w a :
  cache_ok w → is_line a →
  (is_Some (contents w !! a) → refined w (OpClearLocked a)) ∧
  (¬ is_Some (contents w !! a) → ∃ f, exec (OpClearLocked a) w = Abort f).
Proof.
  intros Hok Ha. eapply (refined_update w a _ _ _ (relock (-1))); [done|reflexivity|by apply run_locked_slot|done..].
Qed.

Lemma exec_changePermission w a perm :
  cache_ok w → is_line a → perm ≠ NotPresent →
  (is_Some (contents w !! a) → refined w (OpChangePermission a perm)) ∧
  (¬ is_Some (contents w !! a) → ∃ f, exec (OpChangePermission a perm) w = Abort f).
Proof.
  intros Hok Ha Hp. destruct (contents w !! a) as [l|] eqn:Hc.
  - split; [|by intros []]. intros _.
    destruct (update_line w a l (AbstractCacheEntry_changePermission perm) (reperm perm) Hok Hc)
      as (w' & E & Hok' & Hs' & Hc').
    { intros e. unfold AbstractCacheEntry_changePermission, view, reperm. simpl. by destruct (_ || _). }
    { done. }
    exists AUnit, w'. split_and!; [|done..]. simpl. run ltac:(by apply run_lookup). rewrite Hc. simpl.
    by run ltac:(apply E).
  - split; [by intros [? [=]]|]. intros _. simpl. run ltac:(by apply run_lookup). rewrite Hc. by eexists.
Qed.

Lemma exec_isLocked w a context :
  cache_ok w → is_line a →
  (is_Some (contents w !! a) → refined w (OpIsLocked a context)) ∧
  (¬ is_Some (contents w !! a) → ∃ f, exec (OpIsLocked a context) w = Abort f).
Proof.
  intros Hok Ha. pose proof (run_locked_slot w a "CacheMemory.cc:480" Hok Ha) as Hl.
  destruct (contents w !! a) as [l|] eqn:Hc.
  - split; [|by intros []]. intros _. destruct (contents_tag w a l Hc) as (i & Ht & _).
    destruct (tag_line w a i Hok Ht) as (p & e & Hc' & _ & He & _). rewrite Hc in Hc'. injection Hc' as ->.
    eapply refined_same; [|done..|].
    + simpl. run ltac:(unfold CacheMemory_isLocked; run ltac:(exact Hl); by run ltac:(by apply run_get_entry)).
      reflexivity.
    + exists (view p e). done.
  - split; [by intros [? [=]]|]. intros _. destruct Hl as [f E]. exists f. simpl.
    unfold CacheMemory_isLocked, mbind, M_bind. by rewrite E.
Qed.

(** ** All calls *)

(** A call with an address that is not that of a line. *)
Lemma exec_unaligned w op a :
  geometry (cw_cache w) → op_address op = Some a → makeLineAddress a ≠ a → ∃ f, exec op w = Abort f.
Proof.
  intros Hg Hop Ha. assert (E : (a =? makeLineAddress a) = false) by (apply Z.eqb_neq; congruence).
  destruct op; simpl in *; simplify_eq;
    unfold CacheMemory_lookup, CacheMemory_isTagPresent, CacheMemory_cacheAvail, CacheMemory_deallocate,
      CacheMemory_cacheProbe, CacheMemory_setMRU, CacheMemory_setMRU_occupancy, CacheMemory_tryCacheAccess,
      CacheMemory_testCacheAccess, CacheMemory_setLocked, CacheMemory_clearLocked, CacheMemory_isLocked,
      CacheMemory_allocate, locked_slot, CacheMemory_addressToCacheSet;
    unfold mbind, M_bind; simpl; rewrite E; by eexists.
Qed.

Lemma exec_exact w op :
  cache_ok w → sane op →
  (enabled (cw_cache w) (contents w) op → refined w op) ∧
  (¬ enabled (cw_cache w) (contents w) op → ∃ f, exec op w = Abort f).
Proof.
  intros Hok [Hrange Hsane]. pose proof (ok_geometry w Hok) as Hg.
  destruct (op_address op) as [a|] eqn:Eop.
  2:{ destruct op; simplify_eq. split; [|by intros []]. intros _.
      apply (refined_same w (OpTick t) AUnit (w <| cw_curTick := t |>)); try done. by destruct Hok. }
  destruct (decide (makeLineAddress a = a)) as [Hl|Hl].
  2:{ split; [|by intros _; eapply exec_unaligned]. intros [Ha _]. by destruct (Ha a Eop). }
  assert (Ha : is_line a) by (split; [by apply Hrange|done]).
  assert (Hen : ∀ R, ((∀ b, op_address op = Some b → is_line b) ∧ R) ↔ R) by (intros R; rewrite Eop; naive_solver).
  unfold enabled. rewrite Hen.
  destruct op; simpl in Eop; simplify_eq; cbn [op_address] in *.
  - split; [by intros _; apply refined_lookup|by intros []].
  - split; [by intros _; apply refined_isTagPresent|by intros []].
  - split; [by intros _; apply refined_cacheAvail|by intros []].
  - split; [by intros [? ?]; apply refined_allocate|]. intros Hn.
    destruct (run_new_entry w e) as (p & En & Hp). destruct (new_entry_ok w p e Hok Hp) as [Hok1 Hc1].
    destruct (allocate_refused (put_entry p e w) a (Some p) touch Hok1 Ha) as [f E].
    { by rewrite Hc1; unfold room; rewrite Hc1. }
    exists f. simpl. run ltac:(exact En). unfold mbind, M_bind. by rewrite E.
  - split; [by apply refined_deallocate|]. intros Hn. pose proof (run_deallocate w a Hok Ha) as H.
    rewrite decide_False in H by done. destruct H as [f E]. exists f. simpl. unfold mbind, M_bind. by rewrite E.
  - split; [by intros [? ?]; apply refined_cacheProbe|]. intros Hn. simpl. unfold CacheMemory_cacheProbe.
    exists (AssertFail "CacheMemory.cc:313"). unfold mbind at 1, M_bind at 1.
    run ltac:(by apply run_assert_line). run ltac:(by apply run_cacheAvail). rewrite bool_decide_eq_true_2; [done|].
    change (has_room (cw_cache w) (contents w) a) with (room w a) in Hn.
    destruct (decide (is_Some (contents w !! a))) as [|Hc%eq_None_not_Some]; [by left|right].
    destruct (decide (room w a)); [done|]. by destruct Hn.
  - split; [by intros _; apply refined_setMRU|by intros []].
  - split; [by intros _; apply refined_setMRU_occupancy|by intros []].
  - eapply refined_access; [by apply run_tryCacheAccess|done|reflexivity|..].
    + intros l Hc. simpl. rewrite Hc. by destruct (permits _ _).
    + intros Hc. simpl. by rewrite Hc.
  - eapply refined_access; [by apply (run_testCacheAccess w a type)|done|reflexivity|..].
    + intros l Hc. simpl. by rewrite Hc.
    + intros Hc. simpl. by rewrite Hc.
  - by apply exec_setLocked.
  - by apply exec_clearLocked.
  - by apply exec_isLocked.
  - by apply exec_changePermission.
Qed.

(** ** Sequences of calls *)
Lemma lines_of_shape x x' m s : shape x' = shape x → lines_of x' m s = lines_of x m s.
Proof.
  intros E. apply set_eq. intros a. unfold lines_of. rewrite !elem_of_filter. by rewrite (shape_set_of x x' a E).
Qed.

Lemma has_room_shape x x' m a : shape x' = shape x → has_room x' m a ↔ has_room x m a.
Proof.
  intros E. unfold has_room. rewrite (shape_set_of x x' a E), (lines_of_shape x x' _ _ E). by injection E as _ _ _ ->.
Qed.

Lemma enabled_shape x x' m op : shape x' = shape x → enabled x' m op ↔ enabled x m op.
Proof.
  intros E. unfold enabled. destruct op; try done; by rewrite (has_room_shape x x' _ _ E).
Qed.

Lemma spec_shape x x' m op ans m' : shape x' = shape x → spec x' m op ans m' → spec x m op ans m'.
Proof.
  intros E. destruct op; simpl; try done.
  - by rewrite (has_room_shape x x' _ _ E).
  - by setoid_rewrite (λ b, shape_set_of x x' b E).
Qed.

(** A cache with the shape of [x] refines the map. *)
Definition shaped x w : Prop := cache_ok w ∧ shape (cw_cache w) = shape x.

#[export] Instance cache_refines x : Refines exec sane (enabled x) (spec x) (shaped x) contents.
Proof.
  split; intros w op [Hok Hsh] Hop Hen; destruct (exec_exact w op Hok Hop) as [Hyes Hno].
  - destruct Hyes as (ans & w' & E' & Hok' & Hsh' & Hsp); [by apply (enabled_shape x (cw_cache w) _ _ Hsh)|].
    exists ans, w'. split; [done|]. split; [split; [done|congruence]|]. by apply (spec_shape x (cw_cache w)).
  - apply Hno. by rewrite (enabled_shape x (cw_cache w) _ _ Hsh).
Qed.

(** ** Construction *)
Record params_ok (p : CacheParams P) : Prop := {
  pa_size : 0 ≤ cp_size p < 2 ^ 31;
  pa_assoc : 0 < cp_assoc p < 2 ^ 31;
  pa_block : 0 ≤ cp_block_size p < 2 ^ 31;
  pa_start : 0 ≤ cp_start_index_bit p ≤ 33;
  pa_policy : policy_ok (cp_replacement_policy p);
  pa_policy_assoc : rp_m_assoc (policy_base (cp_replacement_policy p)) = cp_assoc p;
  pa_policy_sets : rp_m_num_sets (policy_base (cp_replacement_policy p)) =
    cp_size p / cp_assoc p / (if cp_block_size p =? 0 then m_block_size_bytes else cp_block_size p);
}.

Lemma s32_small n : 0 ≤ n < 2 ^ 31 → s32 n = n.
Proof. intros Hn. unfold s32. rewrite Z.mod_small; lia. Qed.

(** A new cache is empty. *)
Lemma built_ok p clk x0 x entries t :
  params_ok p → m_block_size_bits < 31 → CacheMemory_ctor p clk = Ok x0 → CacheMemory_init x0 = Ok x →
  cache_ok (mkCWorld x entries t) ∧ contents (mkCWorld x entries t) = ∅.
Proof.
  intros [Hs Ha Hb Hst Hpol Hpa Hps] Hbits. unfold CacheMemory_ctor.
  destruct (BankedArray_ctor (u32 (cp_dataArrayBanks p)) _ _ _) as [d|]; [|intros E; discriminate E]. cbn [mbind outcome_bind].
  destruct (BankedArray_ctor _ _ _ _) as [tg|]; [|intros E; discriminate E]. cbn [mbind outcome_bind]. intros [= <-].
  unfold CacheMemory_init. simpl. rewrite (s32_small (cp_size p)), (s32_small (cp_block_size p)) by done.
  set (bs := if cp_block_size p =? 0 then s32 m_block_size_bytes else cp_block_size p).
  assert (Ebs : bs = if cp_block_size p =? 0 then m_block_size_bytes else cp_block_size p).
  { unfold bs. destruct (_ =? 0); [|done]. apply s32_small. rewrite block_bytes. pose proof block_bits.
    split; [apply Z.pow_nonneg; lia|apply Z.pow_lt_mono_r; lia]. }
  assert (Hbs : 0 < bs).
  { rewrite Ebs. destruct (Z.eqb_spec (cp_block_size p) 0); [apply block_positive|lia]. }
  rewrite <- Ebs in Hps. destruct (Z.eqb_spec (cp_assoc p) 0) as [?|_]; [lia|]. destruct (Z.eqb_spec bs 0) as [?|_]; [lia|]. simpl.
  assert (Hq : 0 ≤ cp_size p / cp_assoc p) by (apply Z.div_pos; lia).
  assert (En : cp_size p ÷ cp_assoc p ÷ bs = cp_size p / cp_assoc p / bs)
    by (rewrite (Z.quot_div_nonneg (cp_size p)) by lia; apply Z.quot_div_nonneg; lia).
  rewrite En. set (n := cp_size p / cp_assoc p / bs) in *.
  destruct (Z.ltb_spec 1 n) as [Hn|]; [|done].
  assert (Hn' : n < 2 ^ 31).
  { assert (cp_size p / cp_assoc p ≤ cp_size p) by (apply Z.div_le_upper_bound; nia).
    assert (n ≤ cp_size p / cp_assoc p) by (apply Z.div_le_upper_bound; nia). lia. }
  cbn [mbind outcome_bind assertO]. rewrite floorLog2_spec by lia. cbn [mbind outcome_bind].
  destruct (Z.ltb_spec 0 (Z.log2 n)) as [Hl|]; [|done]. simpl. intros [= <-].
  pose proof (Z.log2_spec n ltac:(lia)) as Hlog. assert (Z.log2 n < 31) by (apply Z.log2_lt_pow2; lia).
  assert (Hempty : ∀ s i, slot_of (grid n (cp_assoc p) None) s i = None).
  { intros s i. unfold slot_of, cell, vgetO. destruct (vget _ s) as [r|] eqn:Hr; [|done]. simpl.
    apply vget_Some in Hr as [_ [-> _]%lookup_replicate]. destruct (vget _ i) as [q|] eqn:Hq0; [|done]. simpl.
    by apply vget_Some in Hq0 as [_ [-> _]%lookup_replicate]. }
  split.
  - split; simpl.
    + split; simpl; try done; try lia. apply table_grid; lia.
    + intros s i q Hq0. by rewrite Hempty in Hq0.
    + intros a i Hi. by rewrite lookup_empty in Hi.
  - apply map_eq. intros a. rewrite contents_lookup. simpl. by rewrite !lookup_empty.
Qed.

(** C19.  A cache is a map.  After any sequence of calls that a new cache has
    answered, with any replacement policy that keeps its contract, the answers
    are those of a finite map from line addresses to lines in which a set has at
    most as many lines as the cache has ways; and the next call, whatever it is,
    returns what the map says if it is enabled, and stops the simulation with an
    error if it is not (an address that is not a line's, an allocation of a line
    that is present or in a full set, an eviction from a set with room, a lock or
    a permission of an absent line, data of an entry without data). *)
Theorem cache_run_refines_map p clk x0 x entries t ops answers w :
  params_ok p → m_block_size_bits < 31 → CacheMemory_ctor p clk = Ok x0 → CacheMemory_init x0 = Ok x →
  Forall sane ops → exec_all exec ops (mkCWorld x entries t) = Ok (answers, w) →
  spec_run (enabled x) (spec x) ∅ ops answers (contents w) ∧
  next_call_exact exec sane (enabled x) (spec x) contents w.
Proof.
  intros Hp Hb Hc Hi Hs E. destruct (built_ok p clk x0 x entries t Hp Hb Hc Hi) as [Hok Hempty].
  destruct (refines_run exec sane (enabled x) (spec x) (shaped x) contents ops
    (mkCWorld x entries t) answers w) as [Hrun Hw];
    [by split|done..|].
  rewrite Hempty in Hrun. split; [done|]. exact (refines_next exec sane (enabled x) (spec x) (shaped x) contents w Hw).
Qed.

(** ** Serving a miss *)

(** What a protocol does on a miss in a full set. *)
Definition serve_miss (a : Z) (e : AbstractCacheEntry) (touch : bool) : M (CWorld P) Z :=
  b ← CacheMemory_cacheProbe a;
  CacheMemory_deallocate b ;;
  p ← new_entry e;
  CacheMemory_allocate a (Some p) touch ;;
  mret b.

Lemma room_delete w w' a b :
  cache_ok w → is_Some (contents w !! b) → set_of (cw_cache w) b = set_of (cw_cache w) a →
  contents w' = delete b (contents w) → shape (cw_cache w') = shape (cw_cache w) → room w' a.
Proof.
  intros Hok Hb Hs Hc Hsh. unfold room. rewrite (lines_of_shape _ _ _ _ Hsh), (shape_set_of _ _ a Hsh), Hc.
  assert (Ea : cm_m_cache_assoc (cw_cache w') = cm_m_cache_assoc (cw_cache w)) by (by injection Hsh). rewrite Ea.
  set (S0 := lines_of (cw_cache w) (contents w) (set_of (cw_cache w) a)).
  assert (E : lines_of (cw_cache w) (delete b (contents w)) (set_of (cw_cache w) a) = S0 ∖ {[b]}).
  { apply set_eq. intros c. unfold S0, lines_of. rewrite dom_delete_L. set_solver. }
  assert (Hin : b ∈ S0) by (unfold S0, lines_of; apply elem_of_filter; by rewrite elem_of_dom).
  assert (Hle : Z.of_nat (size S0) ≤ cm_m_cache_assoc (cw_cache w)).
  { unfold S0. rewrite <- set_addresses_size by done. unfold set_addresses.
    pose proof (geo_assoc _ (ok_geometry w Hok)).
    assert (Hl : (length (omap (way_address w (set_of (cw_cache w) a)) (zrange 0 (cm_m_cache_assoc (cw_cache w)))) ≤
      length (zrange 0 (cm_m_cache_assoc (cw_cache w))))%nat) by apply length_omap_le.
    unfold zrange in Hl at 2. rewrite length_seqZ in Hl. lia. }
  rewrite E, size_difference by set_solver. rewrite size_singleton.
  assert (size S0 ≠ 0)%nat; [|lia]. intros Hz%size_empty_inv. set_solver.
Qed.

(** C35.  A miss in a full set can be served, with any replacement policy that
    keeps its contract: [cacheProbe] names a line of the set, the one in the way
    that the policy chooses; after it is deallocated the new line can be
    allocated; and then the cache holds the new line, invalid and unlocked, in
    place of the old one, and every other line as before. *)
Theorem cache_miss_served w a e touch :
  cache_ok w → is_line a → contents w !! a = None → ¬ room w a →
  ∃ b i q w', serve_miss a e touch w = Ok (b, w') ∧ is_Some (contents w !! b) ∧
    set_of (cw_cache w) b = set_of (cw_cache w) a ∧
    getVictim (set_of (cw_cache w) a) (cm_policy (cw_cache w)) = Ok i ∧
    cm_m_tag_index (cw_cache w) !! b = Some i ∧ cache_ok w' ∧
    contents w' = <[a := mkLine q Invalid (-1) (ce_DataBlk e)]> (delete b (contents w)).
Proof.
  intros Hok Ha Hc Hr. destruct (run_cacheProbe w a Hok Ha Hc Hr) as (b & i & E1 & Hb & Hs & Hl & Ht & Hv).
  pose proof (run_deallocate w b Hok Hl) as H. rewrite decide_True in H by done.
  destruct H as (w1 & E2 & Hok1 & Hc1 & Hsh1). pose proof (room_delete w w1 a b Hok Hb Hs Hc1 Hsh1) as Hr1.
  assert (Ha1 : contents w1 !! a = None) by (by rewrite Hc1, lookup_delete_None; right).
  destruct (refined_allocate w1 a e touch Hok1 Ha Ha1 Hr1) as (ans & w2 & E3 & Hok2 & _ & q & -> & _ & Hc2).
  simpl in E3. apply bind_Ok in E3 as (p & w3 & E3 & E4). apply bind_Ok in E4 as (r & w4 & E4 & E5).
  injection E5 as -> ->. exists b, i, q, w2. split_and!; try done; [|by rewrite Hc2, Hc1].
  unfold serve_miss. run ltac:(exact E1). run ltac:(exact E2). run ltac:(exact E3). by run ltac:(exact E4).
Qed.
End CacheRun.

(** ** A cache of four sets and four ways *)
#[local] Existing Instance block_64.
Definition sample_params : CacheParams PseudoLRUPolicy :=
  mkCacheParams 1024 4 sample_tree_policy 6 false true 64 1 1 1 1.
Definition sample_unset : CacheMemory PseudoLRUPolicy :=
  mkCacheMemory false ∅ [] sample_tree_policy (mkBankedArray 1 1 (Some 0) 6 500 [mkAccessRecord 0 0 0])
    (mkBankedArray 1 1 (Some 0) 6 500 [mkAccessRecord 0 0 0]) 1024 0 0 4 6 true 64 (mkCacheStats 0 0 0 0 0 0).
Definition sample_cache : CacheMemory PseudoLRUPolicy :=
  sample_unset <| cm_m_cache_num_sets := 4 |> <| cm_m_cache_num_set_bits := 2 |>
    <| cm_m_cache := grid 4 4 None |>.
Definition sample_world : CWorld PseudoLRUPolicy := mkCWorld sample_cache ∅ 0.
Definition sample_entry : AbstractCacheEntry := AbstractCacheEntry_ctor 0 0 1 (Some [7]).

(** Four lines of the first set, one of them locked and one written. *)
Definition sample_ops : list cache_op :=
  [OpAllocate 0 sample_entry true; OpAllocate 256 sample_entry true; OpTick 500;
   OpChangePermission 256 Read_Write; OpTryAccess 256 ST; OpAllocate 512 sample_entry true;
   OpSetLocked 0 3; OpAllocate 768 sample_entry false; OpIsLocked 0 3; OpCacheAvail 1024].

Lemma sample_params_ok : params_ok sample_params.
Proof.
  split; simpl; try lia; try done.
  apply (PseudoLRUPolicy_ctor_Ok 1024 64 4 sample_tree_policy eq_refl). lia.
Qed.

Lemma sample_ops_sane : Forall sane sample_ops.
Proof. repeat (constructor; [split; [intros ? [= <-]; lia|done]|]). constructor. Qed.

Lemma cache_run_refines_map_witness :
  ∃ answers w, exec_all exec sample_ops sample_world = Ok (answers, w) ∧ last answers = Some (ABool false) ∧
    spec_run (enabled sample_cache) (spec sample_cache) ∅ sample_ops answers (contents w) ∧
    next_call_exact exec sane (enabled sample_cache) (spec sample_cache) contents w.
Proof.
  destruct (exec_all exec sample_ops sample_world) as [[answers w]|] eqn:E; [|vm_compute in E; discriminate E].
  exists answers, w. split; [reflexivity|]. split.
  - assert (Hl : (match exec_all exec sample_ops sample_world with
                  | Ok (l, _) => last l | Abort _ => None end) = Some (ABool false)) by (vm_compute; reflexivity).
    by rewrite E in Hl.
  - apply (cache_run_refines_map sample_params 500 sample_unset sample_cache ∅ 0 sample_ops answers w).
    + exact sample_params_ok.
    + simpl. lia.
    + reflexivity.
    + reflexivity.
    + exact sample_ops_sane.
    + exact E.
Defined.

(** The state after those calls: the first set is full. *)
Definition full_world : CWorld PseudoLRUPolicy :=
  match exec_all exec sample_ops sample_world with Ok (_, w) => w | Abort _ => sample_world end.

Lemma full_world_ok : cache_ok full_world.
Proof.
  unfold full_world. destruct (exec_all exec sample_ops sample_world) as [[answers w]|] eqn:E;
    [|vm_compute in E; discriminate E].
  destruct (built_ok sample_params 500 sample_unset sample_cache ∅ 0) as [Hok _];
    [exact sample_params_ok|simpl; lia|reflexivity..|].
  destruct (refines_run exec sane (enabled sample_cache) (spec sample_cache) (shaped sample_cache) contents
    sample_ops sample_world answers w) as [_ [Hw _]]; [by split|exact sample_ops_sane|exact E|exact Hw].
Qed.

Lemma cache_miss_served_witness :
  ∃ b i q w', serve_miss 1024 sample_entry true full_world = Ok (b, w') ∧
    is_Some (contents full_world !! b) ∧ set_of (cw_cache full_world) b = set_of (cw_cache full_world) 1024 ∧
    getVictim (set_of (cw_cache full_world) 1024) (cm_policy (cw_cache full_world)) = Ok i ∧
    cm_m_tag_index (cw_cache full_world) !! b = Some i ∧ cache_ok w' ∧
    contents w' = <[1024 := mkLine q Invalid (-1) (Some [7])]> (delete b (contents full_world)).
Proof.
  apply (cache_miss_served full_world 1024 sample_entry true).
  - exact full_world_ok.
  - split; [lia|reflexivity].
  - vm_compute. reflexivity.
  - apply (bool_decide_eq_false_1 _). vm_compute. reflexivity.
Defined.

(** An entry that a protocol makes [NotPresent] while it is in the cache: the way
    is given to the next line of the set, but the old tag stays in the index, and
    a lookup of the old address finds the new line. *)
Lemma stale_tag_aliases :
  ∃ l, exec_all exec [OpAllocate 0 sample_entry true; OpChangePermission 0 NotPresent;
                 OpAllocate 256 sample_entry true; OpLookup 256; OpLookup 0] sample_world = l ∧
    match l with
    | Ok ([_; _; APtr (Some p); APtr (Some q); APtr (Some r)], _) => p = q ∧ r = q
    | _ => False
    end.
Proof. eexists. split; [reflexivity|]. vm_compute. done. Qed.
