(* ===== verification/SequencerTheory.v ===== *)
(** * Correctness of the sequencer

    The two request tables, the counter, the blocked lines and the locks of the
    cache behave as one map from lines to the request that is under way there.
    The specification composes with that of the data cache, whose lines carry the
    locks of load-linked: other calls of the cache may come between the calls of
    the sequencer. *)

From S2P Require Import Prelude Refinement NetDestModel AddrRangeModel CommonTypes AddressModel ReplacementModel CacheMemoryModel DataBlockModel SequencerModel AddrRangeTheory AddressTheory ReplacementTheory PseudoLRUTheory CacheTheory CacheRefinement CacheRunTheory.

(** ** The specification *)

(** [sa_out] are the requests under way, [sa_blocked] the lines of a locked
    instruction, [sa_lines] the lines of the data cache; [sa_issued] and [sa_done]
    are the packets that were accepted and answered, in order. *)
Record seq_abs := mkSeqAbs {
  sa_out : gmap Z (nat * RubyRequestType);
  sa_blocked : gset Z;
  sa_pkts : gmap nat RubyPacket;
  sa_lines : gmap Z Line;
  sa_issued : list nat;
  sa_done : list nat;
}.
#[export] Instance eta_seq_abs : Eta seq_abs := λ x,
  mkSeqAbs (sa_out x) (sa_blocked x) (sa_pkts x) (sa_lines x) (sa_issued x) (sa_done x).

Inductive seq_op :=
  | SMake (pkt : nat)
  | SRead (a : Z) (data : list Z) (r : response)
  | SWrite (a : Z) (data : list Z) (r : response)
  | SInvalidate (a : Z)
  | SCache (op : cache_op)
  | SAdvance (cycles : Z).
Inductive seq_answer := SStatus (s : RequestStatus) | SData (d : list Z) | SUnit | SAnswer (a : answer).

Definition is_read (t : RubyRequestType) : bool := bool_decide (t = LD) || bool_decide (t = IFETCH).

Definition ev_issued (e : seq_event) : option nat :=
  match e with EvEnqueue msg _ _ => Some (rr_m_pkt msg) | _ => None end.
Definition ev_done (e : seq_event) : option nat := match e with EvHitCallback p => Some p | _ => None end.

Section SequencerRun.
Context `{MT : MachineTypes} {P : Type} `{RPS : ReplacementPolicySpec P} {BS : BlockSize} {BSS : BlockSizeSpec BS}.
Context (x0 : CacheMemory P) (V N : Z) (standalone x86 : bool).
Implicit Types (w : SWorld P) (s : seq_abs).

Definition seq_exec (op : seq_op) : M (SWorld P) seq_answer :=
  match op with
  | SMake p => s ← Sequencer_makeRequest p; mret (SStatus s)
  | SRead a data r => d ← Sequencer_readCallback a data r; mret (SData d)
  | SWrite a data r => d ← Sequencer_writeCallback a data r; mret (SData d)
  | SInvalidate a => Sequencer_invalidateSC a ;; mret SUnit
  | SCache op => a ← in_dcache (exec op); mret (SAnswer a)
  | SAdvance n =>
      modify (λ w, w <| sw_curCycle ::= Z.add n |> <| sw_clockEdge ::= Z.add (n * sw_clockPeriod w) |>) ;; mret SUnit
  end.

Definition response_sane (r : response) : Prop := 0 ≤ rs_mach r ≤ MachineType_NUM.
Definition seq_sane (op : seq_op) : Prop :=
  match op with
  | SRead _ _ r | SWrite _ _ r => response_sane r
  | SInvalidate a => 0 ≤ a < 2 ^ 64
  | SCache op => sane op
  | SAdvance n => 0 ≤ n
  | _ => True
  end.

(** What load-linked, store-conditional and other writes do to the lock of a line,
    and whether the write takes place. *)
Definition llsc (a : Z) (t : RubyRequestType) (m : gmap Z Line) : bool * gmap Z Line :=
  if standalone then (true, m) else
  match m !! a with
  | None => (true, m)
  | Some l =>
      let mine := ln_locked l =? V in
      if bool_decide (t = Store_Conditional) then (mine, alter (relock (-1)) a m)
      else if bool_decide (t = Load_Linked) then (true, alter (relock V) a m)
      else (true, if mine then alter (relock (-1)) a m else m)
  end.

(** The packet of a store-conditional is told the outcome. *)
Definition told (a : Z) (t : RubyRequestType) (m : gmap Z Line) (k : RubyPacket) : RubyPacket :=
  if standalone then k else
  match m !! a with
  | None => k
  | Some l => if bool_decide (t = Store_Conditional)
              then k <| rp_extraData := Some (if ln_locked l =? V then 1 else 0) |> else k
  end.

Definition block_after (a : Z) (t : RubyRequestType) (b : gset Z) : gset Z :=
  match t with Locked_RMW_Read => {[a]} ∪ b | Locked_RMW_Write => b ∖ {[a]} | _ => b end.

(** Whether a request for the line of a packet has to wait. *)
Definition must_wait s (line : Z) (t : RubyRequestType) : Prop :=
  (line ∈ sa_blocked s ∧ t ≠ Locked_RMW_Write) ∨ is_Some (sa_out s !! line).
#[export] Instance must_wait_dec s line t : Decision (must_wait s line t).
Proof. unfold must_wait. apply _. Defined.

Definition full s : Prop := N ≤ Z.of_nat (size (sa_out s)).
#[export] Instance full_dec s : Decision (full s).
Proof. unfold full. apply _. Defined.

(** The transfer of data between a packet and a line is within their bounds. *)
Definition is_Ok {A} (o : outcome A) : Prop := match o with Ok _ => True | Abort _ => False end.
#[export] Instance is_Ok_dec {A} (o : outcome A) : Decision (is_Ok o).
Proof. destruct o; apply _. Defined.

Definition answered s (a : Z) (data : list Z) (read : bool) : Prop :=
  match sa_out s !! a with
  | Some (p, t) => is_read t = read ∧
      match sa_pkts s !! p with
      | Some k => is_Ok (transfer false t (if read then true else (llsc a t (sa_lines s)).1) k data)
      | None => False
      end
  | None => False
  end.
#[export] Instance answered_dec s a data read : Decision (answered s a data read).
Proof. unfold answered. repeat case_match; apply _. Defined.

Definition seq_enabled s (op : seq_op) : Prop :=
  match op with
  | SMake p => full s ∨ match sa_pkts s !! p with Some k => is_Ok (request_types x86 k) | None => False end
  | SRead a data _ => answered s a data true
  | SWrite a data _ => answered s a data false
  | SInvalidate a => is_line a
  | SCache op => enabled x0 (sa_lines s) op
  | SAdvance _ => True
  end.
#[export] Instance seq_enabled_dec s op : Decision (seq_enabled s op).
Proof. destruct op; simpl; repeat case_match; apply _. Defined.

Definition seq_spec s (op : seq_op) (ans : seq_answer) (s' : seq_abs) : Prop :=
  match op with
  | SMake p =>
      if decide (full s) then ans = SStatus RequestStatus_BufferFull ∧ s' = s
      else ∃ k t t2, sa_pkts s !! p = Some k ∧ request_types x86 k = Ok (t, t2) ∧
        let line := makeLineAddress (rp_addr k) in
        if decide (must_wait s line t) then ans = SStatus RequestStatus_Aliased ∧ s' = s
        else ans = SStatus RequestStatus_Issued ∧
          s' = s <| sa_out ::= <[line := (p, t)]> |> <| sa_issued ::= λ l, l ++ [p] |>
  | SRead a data _ =>
      ∃ p t k d b, sa_out s !! a = Some (p, t) ∧ sa_pkts s !! p = Some k ∧
        transfer false t true k data = Ok (d, b) ∧ ans = SData d ∧
        s' = s <| sa_out ::= delete a |> <| sa_pkts ::= <[p := k <| rp_data := b |>]> |> <| sa_done ::= λ l, l ++ [p] |>
  | SWrite a data _ =>
      ∃ p t k d b, sa_out s !! a = Some (p, t) ∧ sa_pkts s !! p = Some k ∧
        transfer false t (llsc a t (sa_lines s)).1 k data = Ok (d, b) ∧ ans = SData d ∧
        s' = s <| sa_out ::= delete a |> <| sa_blocked ::= block_after a t |>
               <| sa_lines := (llsc a t (sa_lines s)).2 |>
               <| sa_pkts ::= <[p := (told a t (sa_lines s) k) <| rp_data := b |>]> |> <| sa_done ::= λ l, l ++ [p] |>
  | SInvalidate a => ans = SUnit ∧
      s' = s <| sa_lines ::= alter (λ l, if ln_locked l =? V then relock (-1) l else l) a |>
  | SCache op => ∃ x m', ans = SAnswer x ∧ spec x0 (sa_lines s) op x m' ∧ s' = s <| sa_lines := m' |>
  | SAdvance _ => ans = SUnit ∧ s' = s
  end.

(** ** The invariant *)
Record request_ok w (a : Z) (r : SequencerRequest) : Prop := {
  rq_pkt : ∃ k, sw_pkts w !! sr_pkt r = Some k ∧ makeLineAddress (rp_addr k) = a;
  rq_time : sr_issue_time r ≤ sw_curCycle w;
}.

(** The parameters of the sequencer, in normal operation. *)
Record seq_config w : Prop := {
  sc_version : sq_m_version (sw_seq w) = V;
  sc_max : sq_m_max_outstanding_requests (sw_seq w) = N;
  sc_standalone : sq_m_runningGarnetStandalone (sw_seq w) = standalone;
  sc_tester : sq_m_usingRubyTester (sw_seq w) = false;
  sc_queue : sq_m_mandatory_q_ptr (sw_seq w) ≠ None;
  sc_data_latency : 0 < sq_m_data_cache_hit_latency (sw_seq w);
  sc_inst_latency : 0 < sq_m_inst_cache_hit_latency (sw_seq w);
  sc_x86 : sw_X86ISA w = x86;
  sc_warmup : sw_warmup w = false;
  sc_cooldown : sw_cooldown w = false;
}.

Record tables_ok w : Prop := {
  to_count : sq_m_outstanding_count (sw_seq w) = table_sizes (sw_seq w);
  to_max : table_sizes (sw_seq w) ≤ N;
  to_disjoint : sq_m_writeRequestTable (sw_seq w) ##ₘ sq_m_readRequestTable (sw_seq w);
  to_write a r : sq_m_writeRequestTable (sw_seq w) !! a = Some r → request_ok w a r ∧ is_store (sr_m_type r) = true;
  to_read a r : sq_m_readRequestTable (sw_seq w) !! a = Some r → request_ok w a r ∧ is_read (sr_m_type r) = true;
}.

Record seq_ok w : Prop := {
  so_bound : 0 < N < 2 ^ 31;
  so_cache : shaped x0 (sw_dcache w);
  so_config : seq_config w;
  so_tables : tables_ok w;
  so_pkts p k : sw_pkts w !! p = Some k → 0 ≤ rp_addr k < 2 ^ 64;
}.

Definition out_of (r : SequencerRequest) : nat * RubyRequestType := (sr_pkt r, sr_m_type r).
Definition outstanding (x : Sequencer) : gmap Z (nat * RubyRequestType) :=
  out_of <$> (sq_m_writeRequestTable x ∪ sq_m_readRequestTable x).
Definition abstract w : seq_abs :=
  mkSeqAbs (outstanding (sw_seq w)) (dom (sw_m_block_map w)) (sw_pkts w) (contents (sw_dcache w))
    (omap ev_issued (sw_trace w)) (omap ev_done (sw_trace w)).

(** ** Statistics and scheduling

    What a call may change beside the specified effect. *)
Definition core (x : Sequencer) :=
  (sq_m_version x, sq_m_max_outstanding_requests x, sq_m_runningGarnetStandalone x, sq_m_usingRubyTester x,
   sq_m_mandatory_q_ptr x, sq_m_data_cache_hit_latency x, sq_m_inst_cache_hit_latency x,
   sq_m_writeRequestTable x, sq_m_readRequestTable x, sq_m_outstanding_count x).

Record noise w w' : Prop := {
  nz_core : core (sw_seq w') = core (sw_seq w);
  nz_cache : sw_dcache w' = sw_dcache w;
  nz_block : sw_m_block_map w' = sw_m_block_map w;
  nz_pkts : sw_pkts w' = sw_pkts w;
  nz_issued : omap ev_issued (sw_trace w') = omap ev_issued (sw_trace w);
  nz_done : omap ev_done (sw_trace w') = omap ev_done (sw_trace w);
  nz_cycle : sw_curCycle w' = sw_curCycle w;
  nz_x86 : sw_X86ISA w' = sw_X86ISA w;
  nz_warmup : sw_warmup w' = sw_warmup w;
  nz_cooldown : sw_cooldown w' = sw_cooldown w;
}.
#[export] Instance noise_refl : Reflexive noise.
Proof. by intros w. Qed.
#[export] Instance noise_trans : Transitive noise.
Proof. intros w1 w2 w3 [] []. split; congruence. Qed.

Lemma noise_abstract w w' : noise w w' → abstract w' = abstract w.
Proof.
  intros [Hc E1 E2 E3 Hi Hd _ _ _ _]. unfold abstract, outstanding. injection Hc as _ _ _ _ _ _ _ E4 E5 _.
  by rewrite E1, E2, E3, E4, E5, Hi, Hd.
Qed.

Lemma noise_ok w w' : noise w w' → seq_ok w → seq_ok w'.
Proof.
  intros [Hc Ec Eb Ep _ _ Et Ex Ew El] [Hb Hca [] [] Hp]. injection Hc as E1 E2 E3 E4 E5 E6 E7 E8 E9 E10.
  split; [done|by rewrite Ec|split; congruence| |by rewrite Ep]. unfold table_sizes in *.
  split; unfold table_sizes; rewrite ?E8, ?E9, ?E10; try done.
  - intros a r Hr. destruct (to_write0 a r Hr) as [[Hk Ht] Hs]. split; [|done]. split; [by rewrite Ep|by rewrite Et].
  - intros a r Hr. destruct (to_read0 a r Hr) as [[Hk Ht] Hs]. split; [|done]. split; [by rewrite Ep|by rewrite Et].
Qed.

(** Programs that return and do nothing but that. *)
Definition quiet (m : M (SWorld P) ()) : Prop := ∀ w, ∃ w', m w = Ok (tt, w') ∧ noise w w'.

Lemma quiet_ret : quiet (mret tt).
Proof. intros w. by exists w. Qed.
Lemma quiet_seq m k : quiet m → quiet k → quiet (m ;; k).
Proof.
  intros Hm Hk w. destruct (Hm w) as (w1 & E1 & N1). destruct (Hk w1) as (w2 & E2 & N2). exists w2.
  split; [by run ltac:(exact E1)|by etrans].
Qed.
Lemma quiet_if (b : bool) m k : quiet m → quiet k → quiet (if b then m else k).
Proof. by destruct b. Qed.
Lemma quiet_upd f : (∀ x, core (f x) = core x) → quiet (upd_seq f).
Proof. intros Hf w. eexists. split; [reflexivity|]. split; simpl; done || apply Hf. Qed.
Lemma quiet_sample h v : quiet (sample h v).
Proof. by apply quiet_upd. Qed.

Lemma quiet_latency c t r i a b d e :
  response_sane r → quiet (Sequencer_recordMissLatency c t (rs_mach r) (rs_externalHit r) i a b d e).
Proof.
  intros [Hlo Hhi]. unfold Sequencer_recordMissLatency, miss_breakdown.
  assert (Hm : rs_mach r ≠ MachineType_NUM → quiet (mach_index (rs_mach r))).
  { intros Hne. unfold mach_index. destruct (Z.leb_spec 0 (rs_mach r)); [|lia].
    destruct (Z.ltb_spec (rs_mach r) MachineType_NUM); [apply quiet_ret|lia]. }
  repeat (apply quiet_seq; [apply quiet_sample|]).
  apply quiet_if; repeat (apply quiet_seq; [apply quiet_sample|]);
    (destruct (Z.eqb_spec (rs_mach r) MachineType_NUM); [apply quiet_ret|]);
    (apply quiet_seq; [by apply Hm|]); repeat (apply quiet_seq; [apply quiet_sample|]); [|apply quiet_sample].
  apply quiet_if; [|by apply quiet_upd]. repeat (apply quiet_seq; [apply quiet_sample|]). apply quiet_sample.
Qed.

Lemma quiet_drained : quiet RubyPort_testDrainComplete.
Proof.
  intros w. unfold RubyPort_testDrainComplete. run ltac:(reflexivity). run ltac:(reflexivity).
  destruct (_ && _); [|by exists w]. eexists. split; [reflexivity|].
  split; simpl; try done; by rewrite omap_app, app_nil_r.
Qed.

Lemma quiet_schedule : quiet schedule_check.
Proof. intros w. eexists. split; [reflexivity|]. by split. Qed.

(** ** The answer to a request *)
Definition hit_world (p : nat) (b : list Z) w : SWorld P :=
  w <| sw_pkts ::= alter (λ k, k <| rp_data := b |>) p |> <| sw_trace ::= λ l, l ++ [EvHitCallback p] |>.

Lemma noise_hit_world p b w w' : noise w w' → noise (hit_world p b w) (hit_world p b w').
Proof.
  intros []. split; simpl; try done; [by rewrite nz_pkts0|rewrite !omap_app; congruence..].
Qed.

Lemma run_hitCallback w r data ok rs k :
  seq_config w → sr_issue_time r ≤ sw_curCycle w → response_sane rs → sw_pkts w !! sr_pkt r = Some k →
  match transfer false (sr_m_type r) ok k data with
  | Ok (d, b) => ∃ w', Sequencer_hitCallback r data ok rs w = Ok (d, w') ∧ noise (hit_world (sr_pkt r) b w) w'
  | Abort f => Sequencer_hitCallback r data ok rs w = Abort f
  end.
Proof.
  intros Hc Ht Hrs Hk. unfold Sequencer_hitCallback.
  destruct (quiet_latency (sw_curCycle w - sr_issue_time r) (sr_m_type r) rs (sr_issue_time r)
    (rs_initialRequestTime rs) (rs_forwardRequestTime rs) (rs_firstResponseTime rs) (sw_curCycle w) Hrs w)
    as (w1 & E1 & N1).
  rewrite (bind_run _ _ w (sw_curCycle w) w) by reflexivity.
  rewrite (bind_run _ _ w tt w) by (unfold assertM; by destruct (Z.leb_spec (sr_issue_time r) (sw_curCycle w)); [|lia]).
  rewrite (bind_run _ _ w tt w1) by exact E1.
  rewrite (bind_run _ _ w1 k w1) by (unfold get_pkt; run ltac:(reflexivity); by rewrite (nz_pkts w w1 N1), Hk).
  rewrite (bind_run _ _ w1 false w1) by (unfold gets; by rewrite (nz_warmup w w1 N1), (sc_warmup w Hc)).
  rewrite (bind_run _ _ w1 false w1) by (unfold gets; by rewrite (nz_cooldown w w1 N1), (sc_cooldown w Hc)).
  destruct (transfer false (sr_m_type r) ok k data) as [[d b]|f]; [|done].
  run ltac:(reflexivity). cbv iota. run ltac:(reflexivity). simpl.
  set (w2 := w1 <| sw_pkts ::= alter (λ k, k <| rp_data := b |>) (sr_pkt r) |>).
  rewrite (bind_run _ _ w2 tt w2).
  2:{ unfold update_tester. rewrite (bind_run _ _ w2 false w2); [done|]. unfold sqget, gets. simpl.
      pose proof (nz_core w w1 N1) as E. injection E as _ _ _ E _ _ _ _ _ _. by rewrite E, (sc_tester w Hc). }
  destruct (quiet_drained (hit_world (sr_pkt r) b w1)) as (w3 & E3 & N3). exists w3. split.
  - run ltac:(run ltac:(reflexivity); exact E3). done.
  - etrans; [by apply noise_hit_world|done].
Qed.

(** Packets may change, but not their addresses. *)
Definition pkts_like (m m' : gmap nat RubyPacket) : Prop := ∀ p, rp_addr <$> m' !! p = rp_addr <$> m !! p.

Lemma pkts_like_alter m p f : (∀ k, rp_addr (f k) = rp_addr k) → pkts_like m (alter f p m).
Proof.
  intros Hf q. destruct (decide (q = p)) as [->|]; [|by rewrite lookup_alter_ne].
  rewrite lookup_alter_eq. destruct (m !! p); simpl; [by rewrite Hf|done].
Qed.

Lemma request_ok_like w w' a r :
  pkts_like (sw_pkts w) (sw_pkts w') → sw_curCycle w ≤ sw_curCycle w' → request_ok w a r → request_ok w' a r.
Proof.
  intros Hl Ht [(k & Hk & Ha) Hr]. split; [|lia]. specialize (Hl (sr_pkt r)). rewrite Hk in Hl. simpl in Hl.
  destruct (sw_pkts w' !! sr_pkt r) as [k'|]; [|done]. injection Hl as El. exists k'. by rewrite El.
Qed.

(** The parts of a state that the invariant of the tables is about. *)
Lemma tables_ok_like w w' :
  sq_m_writeRequestTable (sw_seq w') = sq_m_writeRequestTable (sw_seq w) →
  sq_m_readRequestTable (sw_seq w') = sq_m_readRequestTable (sw_seq w) →
  sq_m_outstanding_count (sw_seq w') = sq_m_outstanding_count (sw_seq w) →
  pkts_like (sw_pkts w) (sw_pkts w') → sw_curCycle w ≤ sw_curCycle w' → tables_ok w → tables_ok w'.
Proof.
  intros E1 E2 E3 Hl Ht []. split; unfold table_sizes in *; rewrite ?E1, ?E2, ?E3; try done.
  - intros a r Hr. destruct (to_write0 a r Hr). split; [by eapply request_ok_like|done].
  - intros a r Hr. destruct (to_read0 a r Hr). split; [by eapply request_ok_like|done].
Qed.

Lemma pkts_like_range m m' p k :
  pkts_like m m' → m' !! p = Some k → (∀ q j, m !! q = Some j → 0 ≤ rp_addr j < 2 ^ 64) → 0 ≤ rp_addr k < 2 ^ 64.
Proof.
  intros Hl Hk Hm. specialize (Hl p). rewrite Hk in Hl. simpl in Hl. destruct (m !! p) as [j|] eqn:Hj; [|done].
  injection Hl as ->. by eapply Hm.
Qed.

Lemma hit_world_ok p b w : seq_ok w → seq_ok (hit_world p b w).
Proof.
  intros [Hb Hca [] Ht Hp]. assert (Hl : pkts_like (sw_pkts w) (alter (λ k, k <| rp_data := b |>) p (sw_pkts w)))
    by (by apply pkts_like_alter).
  split; [done|done|by split| |].
  - by apply (tables_ok_like w).
  - intros q k Hk. by eapply pkts_like_range.
Qed.

(** Taking a request out of its table. *)
Definition remove_write (a : Z) (x : Sequencer) : Sequencer :=
  x <| sq_m_writeRequestTable ::= delete a |> <| sq_m_outstanding_count ::= Z.pred |>.
Definition remove_read (a : Z) (x : Sequencer) : Sequencer :=
  x <| sq_m_readRequestTable ::= delete a |> <| sq_m_outstanding_count ::= Z.pred |>.
Definition in_seq (f : Sequencer → Sequencer) w : SWorld P := w <| sw_seq ::= f |>.

Lemma remove_write_size a x r :
  sq_m_writeRequestTable x !! a = Some r → table_sizes (remove_write a x) = table_sizes x - 1.
Proof.
  intros Hr. unfold table_sizes. simpl. rewrite map_size_delete_Some by done.
  assert (size (sq_m_writeRequestTable x) ≠ 0)%nat; [|lia]. intros E%map_size_empty_inv. by rewrite E in Hr.
Qed.
Lemma remove_read_size a x r :
  sq_m_readRequestTable x !! a = Some r → table_sizes (remove_read a x) = table_sizes x - 1.
Proof.
  intros Hr. unfold table_sizes. simpl. rewrite map_size_delete_Some by done.
  assert (size (sq_m_readRequestTable x) ≠ 0)%nat; [|lia]. intros E%map_size_empty_inv. by rewrite E in Hr.
Qed.

Lemma run_markRemoved w x :
  seq_ok w → table_sizes x = table_sizes (sw_seq w) - 1 →
  sq_m_outstanding_count x = sq_m_outstanding_count (sw_seq w) →
  Sequencer_markRemoved (w <| sw_seq := x |>) = Ok (tt, w <| sw_seq := x <| sq_m_outstanding_count ::= Z.pred |> |>).
Proof.
  intros [Hb _ _ [Hc Hm _ _ _] _] Hs Hx. unfold Sequencer_markRemoved, count_check. run ltac:(reflexivity). run ltac:(reflexivity).
  simpl. match goal with |- context [table_sizes ?y] => change (table_sizes y) with (table_sizes x) end.
  rewrite Hs, Hx, Hc. assert (0 ≤ table_sizes x) by (unfold table_sizes; lia).
  rewrite u64_small by lia. unfold assertM. by destruct (Z.eqb_spec (Z.pred (table_sizes (sw_seq w))) (table_sizes (sw_seq w) - 1)); [|lia].
Qed.

Lemma removed_ok w f :
  seq_ok w → (∃ a r, (f = remove_write a ∧ sq_m_writeRequestTable (sw_seq w) !! a = Some r) ∨
                    (f = remove_read a ∧ sq_m_readRequestTable (sw_seq w) !! a = Some r)) → seq_ok (in_seq f w).
Proof.
  intros [Hb Hca [] [Hc Hm Hd Hw Hr] Hp] (a & r & [[-> Ha]|[-> Ha]]).
  - pose proof (remove_write_size a _ r Ha) as Hsz. split; [done|exact Hca|by split| |exact Hp].
    split; simpl; [rewrite Hsz; lia|rewrite Hsz; lia|by apply map_disjoint_delete_l| |].
    + intros b q [_ Hq]%lookup_delete_Some. destruct (Hw b q Hq). split; [by apply (request_ok_like w)|done].
    + intros b q Hq. destruct (Hr b q Hq). split; [by apply (request_ok_like w)|done].
  - pose proof (remove_read_size a _ r Ha) as Hsz. split; [done|exact Hca|by split| |exact Hp].
    split; simpl; [rewrite Hsz; lia|rewrite Hsz; lia|by apply map_disjoint_delete_r| |].
    + intros b q Hq. destruct (Hw b q Hq). split; [by apply (request_ok_like w)|done].
    + intros b q [_ Hq]%lookup_delete_Some. destruct (Hr b q Hq). split; [by apply (request_ok_like w)|done].
Qed.

(** ** The requests under way as one map *)
Lemma store_not_read t : is_store t = true → is_read t = false.
Proof. by destruct t. Qed.

Lemma out_lookup w a :
  tables_ok w →
  outstanding (sw_seq w) !! a =
    match sq_m_writeRequestTable (sw_seq w) !! a with
    | Some r => Some (out_of r)
    | None => out_of <$> sq_m_readRequestTable (sw_seq w) !! a
    end.
Proof.
  intros Ht. unfold outstanding. rewrite lookup_fmap, lookup_union.
  by destruct (sq_m_writeRequestTable (sw_seq w) !! a), (sq_m_readRequestTable (sw_seq w) !! a).
Qed.

Lemma out_read w a p t :
  tables_ok w → outstanding (sw_seq w) !! a = Some (p, t) → is_read t = true →
  ∃ r, sq_m_readRequestTable (sw_seq w) !! a = Some r ∧ out_of r = (p, t).
Proof.
  intros Ht. rewrite out_lookup by done. destruct (sq_m_writeRequestTable (sw_seq w) !! a) as [r|] eqn:Hw.
  - intros [= <- <-] Hr. destruct (to_write w Ht a r Hw) as [_ Hs%store_not_read]. congruence.
  - intros (r & Hr & ->)%fmap_Some _. by exists r.
Qed.

Lemma out_write w a p t :
  tables_ok w → outstanding (sw_seq w) !! a = Some (p, t) → is_read t = false →
  ∃ r, sq_m_writeRequestTable (sw_seq w) !! a = Some r ∧ out_of r = (p, t).
Proof.
  intros Ht. rewrite out_lookup by done. destruct (sq_m_writeRequestTable (sw_seq w) !! a) as [r|] eqn:Hw.
  - intros [= <- <-] _. by exists r.
  - intros (r & Hr & [= -> ->])%fmap_Some Hn. destruct (to_read w Ht a r Hr) as [_ ?]. congruence.
Qed.

Lemma read_out w a r :
  tables_ok w → sq_m_readRequestTable (sw_seq w) !! a = Some r →
  outstanding (sw_seq w) !! a = Some (out_of r) ∧ sq_m_writeRequestTable (sw_seq w) !! a = None.
Proof.
  intros Ht Hr. assert (Hw : sq_m_writeRequestTable (sw_seq w) !! a = None).
  { by eapply map_disjoint_Some_r; [apply to_disjoint|]. }
  by rewrite out_lookup, Hw, Hr by done.
Qed.
Lemma write_out w a r :
  tables_ok w → sq_m_writeRequestTable (sw_seq w) !! a = Some r →
  outstanding (sw_seq w) !! a = Some (out_of r) ∧ sq_m_readRequestTable (sw_seq w) !! a = None.
Proof.
  intros Ht Hw. split; [by rewrite out_lookup, Hw|]. by eapply map_disjoint_Some_l; [apply to_disjoint|].
Qed.

Lemma out_remove_read a x :
  sq_m_writeRequestTable x !! a = None → outstanding (remove_read a x) = delete a (outstanding x).
Proof.
  intros Hw. unfold outstanding. simpl. rewrite <- fmap_delete, delete_union. by rewrite (delete_id (sq_m_writeRequestTable x)).
Qed.
Lemma out_remove_write a x :
  sq_m_readRequestTable x !! a = None → outstanding (remove_write a x) = delete a (outstanding x).
Proof.
  intros Hr. unfold outstanding. simpl. rewrite <- fmap_delete, delete_union. by rewrite (delete_id (sq_m_readRequestTable x)).
Qed.

Lemma request_line w a r : seq_ok w → request_ok w a r → is_line a.
Proof.
  intros Hok [(k & Hk & <-) _]. pose proof (so_pkts w Hok _ _ Hk) as Hr. split; [|by apply makeLineAddress_idem].
  pose proof (makeLineAddress_range (rp_addr k) Hr). lia.
Qed.

Definition refined_call w (op : seq_op) : Prop :=
  ∃ ans w', seq_exec op w = Ok (ans, w') ∧ seq_ok w' ∧ seq_spec (abstract w) op ans (abstract w').

(** An answered request: from the world in which it has been removed. *)
Lemma abstract_hit p b w :
  abstract (hit_world p b w) =
    (abstract w) <| sa_pkts ::= alter (λ k, k <| rp_data := b |>) p |> <| sa_done ::= λ l, l ++ [p] |>.
Proof. unfold abstract. simpl. by rewrite !omap_app, app_nil_r. Qed.

(** The checks before an answer. *)
Lemma run_line_check {A} a site (k : M (SWorld P) A) w :
  a = makeLineAddress a → (assertM (a =? makeLineAddress a) site ;; k) w = k w.
Proof. intros <-. by rewrite Z.eqb_refl. Qed.

Lemma run_readCallback w a data rs r :
  seq_ok w → sq_m_readRequestTable (sw_seq w) !! a = Some r →
  Sequencer_readCallback a data rs w = Sequencer_hitCallback r data true rs (in_seq (remove_read a) w).
Proof.
  intros Hok Hr. destruct (to_read w (so_tables w Hok) a r Hr) as [Hq Ht].
  destruct (request_line w a r Hok Hq) as [_ Ha]. unfold Sequencer_readCallback. rewrite run_line_check by done.
  run ltac:(reflexivity). rewrite Ha, Hr. run ltac:(rewrite bool_decide_eq_true_2 by done; reflexivity).
  run ltac:(reflexivity).
  rewrite (bind_run _ _ _ tt (in_seq (remove_read a) w)).
  2:{ apply (run_markRemoved w ((sw_seq w) <| sq_m_readRequestTable ::= delete a |>)); [done|by eapply remove_read_size|done]. }
  rewrite (bind_run _ _ _ tt (in_seq (remove_read a) w)); [done|]. unfold assertM. unfold is_read in Ht. by rewrite Ht.
Qed.

Lemma readCallback_refused w a data rs :
  sq_m_readRequestTable (sw_seq w) !! a = None → ∃ f, Sequencer_readCallback a data rs w = Abort f.
Proof.
  intros Hr. unfold Sequencer_readCallback, assertM. destruct (Z.eqb_spec a (makeLineAddress a)) as [E|]; [|by eexists].
  rewrite <- E. run ltac:(reflexivity). run ltac:(reflexivity). rewrite Hr. by eexists.
Qed.

Lemma seq_read w a data rs :
  seq_ok w → response_sane rs →
  (answered (abstract w) a data true → refined_call w (SRead a data rs)) ∧
  (¬ answered (abstract w) a data true → ∃ f, seq_exec (SRead a data rs) w = Abort f).
Proof.
  intros Hok Hrs. pose proof (so_tables w Hok) as Ht. unfold refined_call. simpl.
  destruct (sq_m_readRequestTable (sw_seq w) !! a) as [r|] eqn:Hr.
  2:{ split.
      - unfold answered. simpl. destruct (outstanding (sw_seq w) !! a) as [[p t]|] eqn:Ho; [|done]. intros [Hrd _].
        destruct (out_read w a p t Ht Ho Hrd) as (r & ? & _). congruence.
      - intros _. destruct (readCallback_refused w a data rs Hr) as [f Hf]. exists f. unfold mbind, M_bind. by rewrite Hf. }
  destruct (read_out w a r Ht Hr) as [Ho Hw]. destruct (to_read w Ht a r Hr) as [[(k & Hk & Ha) Htime] Hrd].
  assert (Hok1 : seq_ok (in_seq (remove_read a) w)) by (apply removed_ok; eauto 10).
  pose proof (run_hitCallback (in_seq (remove_read a) w) r data true rs k (so_config _ Hok1) Htime Hrs Hk) as Hrun.
  rewrite <- (run_readCallback w) in Hrun by done. unfold answered. simpl. rewrite Ho. simpl. rewrite Hk.
  destruct (transfer false (sr_m_type r) true k data) as [[d b]|f] eqn:Htr.
  - split; [|by intros []]. intros _. destruct Hrun as (w' & E & Hn). exists (SData d), w'. split_and!.
    + by run ltac:(exact E).
    + eapply noise_ok; [done|]. by apply hit_world_ok.
    + exists (sr_pkt r), (sr_m_type r), k, d, b. split_and!; try done. rewrite (noise_abstract _ _ Hn), abstract_hit.
      unfold abstract. simpl. rewrite out_remove_read by done. f_equal.
      apply map_eq. intros q. destruct (decide (q = sr_pkt r)) as [->|].
      * by rewrite lookup_alter_eq, lookup_insert_eq, Hk.
      * by rewrite lookup_alter_ne, lookup_insert_ne.
  - split; [by intros [_ []]|]. intros _. exists f. unfold mbind, M_bind. by rewrite Hrun.
Qed.

(** ** Locks *)
Lemma run_in_dcache {A} (m : M (CWorld P) A) w a c :
  m (sw_dcache w) = Ok (a, c) → in_dcache m w = Ok (a, w <| sw_dcache := c |>).
Proof. intros E. unfold in_dcache. by rewrite E. Qed.

Lemma run_dcache_lookup w a :
  shaped x0 (sw_dcache w) → is_line a →
  in_dcache (CacheMemory_lookup a) w = Ok (ln_ptr <$> contents (sw_dcache w) !! a, w).
Proof. intros [Hok _] Ha. rewrite (run_in_dcache _ _ _ _ (run_lookup _ a Hok Ha)). by destruct w. Qed.

Lemma run_isLocked w a l :
  shaped x0 (sw_dcache w) → sq_m_version (sw_seq w) = V → contents (sw_dcache w) !! a = Some l →
  entry_isLocked (Some (ln_ptr l)) w = Ok (ln_locked l =? V, w).
Proof.
  intros [Hok _] Hv Hc. destruct (contents_tag _ a l Hc) as (i & Ht & _).
  destruct (tag_line _ a i Hok Ht) as (p & e & Hc' & _ & He & _). rewrite Hc in Hc'. injection Hc' as ->.
  unfold entry_isLocked. run ltac:(reflexivity).
  run ltac:(rewrite (run_in_dcache _ w e (sw_dcache w)) by (by apply run_get_entry); reflexivity).
  rewrite Hv. by destruct w.
Qed.

(** Changing the lock of a line. *)
Lemma run_relock w a l f (v : Z) :
  shaped x0 (sw_dcache w) → contents (sw_dcache w) !! a = Some l →
  f = AbstractCacheEntry_clearLocked ∧ v = -1 ∨ f = AbstractCacheEntry_setLocked v →
  ∃ c, (∀ site w', sw_dcache w' = sw_dcache w →
      in_dcache (upd_entry (Some (ln_ptr l)) f site) w' = Ok (tt, w' <| sw_dcache := c |>)) ∧
    shaped x0 c ∧ contents c = alter (relock v) a (contents (sw_dcache w)).
Proof.
  intros [Hok Hsh] Hc Hf. destruct (update_line (sw_dcache w) a l f (relock v) Hok Hc) as (c & E & Hok' & Hsh' & Hc').
  - intros e. by destruct Hf as [[-> ->]| ->].
  - done.
  - exists c. split_and!; [|split; [done|congruence]|done]. intros site w' Ew. apply run_in_dcache. rewrite Ew. apply E.
Qed.

(** The state after the locks have been dealt with. *)
Definition locked_world (c : CWorld P) (p : nat) (f : RubyPacket → RubyPacket) w : SWorld P :=
  w <| sw_dcache := c |> <| sw_pkts ::= alter f p |>.

Lemma alter_same {K A} `{Countable K} (f : A → A) (m : gmap K A) k : (∀ x, f x = x) → alter f k m = m.
Proof.
  intros Hf. apply map_eq. intros j. rewrite lookup_alter. case_decide; [|done]. subst.
  destruct (m !! j); simpl; [by rewrite Hf|done].
Qed.

Lemma locked_world_id c p w : locked_world c p (λ k, k) w = w <| sw_dcache := c |>.
Proof. unfold locked_world. destruct w. simpl. f_equal. by apply alter_same. Qed.

Lemma run_handleLlsc w a r :
  shaped x0 (sw_dcache w) → sq_m_version (sw_seq w) = V → is_line a → standalone = false →
  ∃ c, Sequencer_handleLlsc a r w =
      Ok ((llsc a (sr_m_type r) (contents (sw_dcache w))).1,
          locked_world c (sr_pkt r) (told a (sr_m_type r) (contents (sw_dcache w))) w) ∧
    shaped x0 c ∧ contents c = (llsc a (sr_m_type r) (contents (sw_dcache w))).2.
Proof.
  intros Hsh Hv Ha Hst. unfold Sequencer_handleLlsc, llsc, told. rewrite Hst.
  rewrite (bind_run _ _ w (ln_ptr <$> contents (sw_dcache w) !! a) w) by (by apply run_dcache_lookup).
  destruct (contents (sw_dcache w) !! a) as [l|] eqn:Hc; cbn [fmap option_fmap option_map].
  2:{ exists (sw_dcache w). split_and!; [|done|done]. rewrite locked_world_id. by destruct w. }
  destruct (run_relock w a l AbstractCacheEntry_clearLocked (-1) Hsh Hc) as (c1 & E1 & Hsh1 & Hc1); [by left|].
  destruct (run_relock w a l (AbstractCacheEntry_setLocked V) V Hsh Hc) as (c2 & E2 & Hsh2 & Hc2); [by right|].
  case_bool_decide as Hsc; [|case_bool_decide as Hll]; cbn [fst snd].
  - exists c1. split_and!; [|done|done]. run ltac:(by apply (run_isLocked w a)). run ltac:(reflexivity).
    by run ltac:(by apply E1).
  - exists c2. split_and!; [|done|done]. run ltac:(reflexivity). rewrite Hv. run ltac:(by apply E2).
    by rewrite locked_world_id.
  - destruct (ln_locked l =? V) eqn:Hl.
    + exists c1. split_and!; [|done|done]. run ltac:(rewrite (run_isLocked w a l) by done; rewrite Hl; reflexivity).
      run ltac:(by apply E1). by rewrite locked_world_id.
    + exists (sw_dcache w). split_and!; [|done|done].
      run ltac:(rewrite (run_isLocked w a l) by done; rewrite Hl; reflexivity). run ltac:(reflexivity).
      rewrite locked_world_id. by destruct w.
Qed.

Lemma run_success w a r :
  shaped x0 (sw_dcache w) → sq_m_version (sw_seq w) = V → is_line a →
  ∃ c, (if negb standalone then Sequencer_handleLlsc a r else mret true) w =
      Ok ((llsc a (sr_m_type r) (contents (sw_dcache w))).1,
          locked_world c (sr_pkt r) (told a (sr_m_type r) (contents (sw_dcache w))) w) ∧
    shaped x0 c ∧ contents c = (llsc a (sr_m_type r) (contents (sw_dcache w))).2.
Proof.
  intros Hsh Hv Ha. destruct (Bool.bool_dec standalone false) as [Hst|Hst%not_false_iff_true].
  - replace (negb standalone) with true by (by rewrite Hst). by apply run_handleLlsc.
  - unfold llsc, told. rewrite Hst. exists (sw_dcache w). split_and!; [|done|done].
    rewrite locked_world_id. by destruct w.
Qed.

Lemma told_addr a t m k : rp_addr (told a t m k) = rp_addr k.
Proof. unfold told. by repeat case_match. Qed.
Lemma transfer_told wm ty ok a t m k d : transfer wm ty ok (told a t m k) d = transfer wm ty ok k d.
Proof. unfold told. by repeat case_match. Qed.

(** Blocking a line. *)
Definition blocked_world (b : bool) (m : gmap Z (option nat)) w : SWorld P :=
  w <| sw_m_is_blocking := b |> <| sw_m_block_map := m |>.
Lemma run_block_line w a t :
  ∃ b m, block_line a t w = Ok (tt, blocked_world b m w) ∧ dom m = block_after a t (dom (sw_m_block_map w)).
Proof.
  destruct t; try (exists (sw_m_is_blocking w), (sw_m_block_map w); split; [by destruct w|done]).
  - eexists _, _. split; [reflexivity|]. simpl. by rewrite dom_insert_L.
  - unfold block_line, AbstractController_unblock. rewrite (bind_run _ _ _ _ _ eq_refl). unfold modify. simpl.
    exists (if decide (size (delete a (sw_m_block_map w)) = 0%nat) then false else sw_m_is_blocking w), (delete a (sw_m_block_map w)).
    split; [destruct w; simpl; by case_decide|by rewrite dom_delete_L].
Qed.

Lemma changed_ok c p f b m w :
  seq_ok w → shaped x0 c → (∀ k, rp_addr (f k) = rp_addr k) → seq_ok (blocked_world b m (locked_world c p f w)).
Proof.
  intros [Hb Hca [] Ht Hp] Hc Hf. assert (Hl : pkts_like (sw_pkts w) (alter f p (sw_pkts w))) by (by apply pkts_like_alter).
  split; [done|done|by split|by apply (tables_ok_like w)|]. intros q k Hk. by eapply pkts_like_range.
Qed.

Lemma run_writeCallback w a data rs r :
  seq_ok w → sq_m_writeRequestTable (sw_seq w) !! a = Some r →
  let m := contents (sw_dcache w) in
  let t := sr_m_type r in
  ∃ c b bm, shaped x0 c ∧ contents c = (llsc a t m).2 ∧ dom bm = block_after a t (dom (sw_m_block_map w)) ∧
    Sequencer_writeCallback a data rs w =
      Sequencer_hitCallback r data (llsc a t m).1 rs
        (blocked_world b bm (locked_world c (sr_pkt r) (told a t m) (in_seq (remove_write a) w))).
Proof.
  intros Hok Hr m t. destruct (to_write w (so_tables w Hok) a r Hr) as [Hq Ht].
  pose proof (request_line w a r Hok Hq) as Hline. pose proof Hline as [_ Ha]. set (w1 := in_seq (remove_write a) w).
  destruct (run_success w1 a r (so_cache w Hok) (sc_version w (so_config w Hok)) Hline) as (c & E1 & Hsh & Hc).
  destruct (run_block_line (locked_world c (sr_pkt r) (told a t m) w1) a t) as (b & bm & E2 & Hbm).
  exists c, b, bm. split_and!; [done..|]. unfold Sequencer_writeCallback. rewrite run_line_check by done.
  run ltac:(reflexivity). rewrite Ha, Hr. run ltac:(rewrite bool_decide_eq_true_2 by done; reflexivity).
  run ltac:(reflexivity).
  rewrite (bind_run _ _ _ tt w1).
  2:{ apply (run_markRemoved w ((sw_seq w) <| sq_m_writeRequestTable ::= delete a |>)); [done|by eapply remove_write_size|done]. }
  rewrite (bind_run _ _ _ tt w1) by (unfold assertM; by destruct (sr_m_type r)).
  rewrite (bind_run _ _ w1 standalone w1) by (unfold sqget, gets; simpl; by rewrite (sc_standalone w (so_config w Hok))).
  rewrite (bind_run _ _ _ _ _ E1). by rewrite (bind_run _ _ _ _ _ E2).
Qed.

Lemma writeCallback_refused w a data rs :
  sq_m_writeRequestTable (sw_seq w) !! a = None → ∃ f, Sequencer_writeCallback a data rs w = Abort f.
Proof.
  intros Hr. unfold Sequencer_writeCallback, assertM. destruct (Z.eqb_spec a (makeLineAddress a)) as [E|]; [|by eexists].
  rewrite <- E. run ltac:(reflexivity). run ltac:(reflexivity). rewrite Hr. by eexists.
Qed.

Lemma seq_write w a data rs :
  seq_ok w → response_sane rs →
  (answered (abstract w) a data false → refined_call w (SWrite a data rs)) ∧
  (¬ answered (abstract w) a data false → ∃ f, seq_exec (SWrite a data rs) w = Abort f).
Proof.
  intros Hok Hrs. pose proof (so_tables w Hok) as Ht. unfold refined_call. simpl.
  destruct (sq_m_writeRequestTable (sw_seq w) !! a) as [r|] eqn:Hr.
  2:{ split.
      - unfold answered. simpl. destruct (outstanding (sw_seq w) !! a) as [[p t]|] eqn:Ho; [|done]. intros [Hrd _].
        destruct (out_write w a p t Ht Ho Hrd) as (r & ? & _). congruence.
      - intros _. destruct (writeCallback_refused w a data rs Hr) as [f Hf]. exists f. unfold mbind, M_bind. by rewrite Hf. }
  destruct (write_out w a r Ht Hr) as [Ho Hw]. destruct (to_write w Ht a r Hr) as [[(k & Hk & Ha) Htime] Hst].
  destruct (run_writeCallback w a data rs r Hok Hr) as (c & b & bm & Hsh & Hc & Hbm & E).
  set (m := contents (sw_dcache w)) in *. set (t := sr_m_type r) in *.
  set (w3 := blocked_world b bm (locked_world c (sr_pkt r) (told a t m) (in_seq (remove_write a) w))) in *.
  assert (Hok3 : seq_ok w3) by (apply changed_ok; [apply removed_ok; eauto 10|done|apply told_addr]).
  assert (Hk3 : sw_pkts w3 !! sr_pkt r = Some (told a t m k)) by (simpl; by rewrite lookup_alter_eq, Hk).
  pose proof (run_hitCallback w3 r data (llsc a t m).1 rs _ (so_config _ Hok3) Htime Hrs Hk3) as Hrun.
  fold t in Hrun. rewrite transfer_told in Hrun. rewrite <- E in Hrun. unfold answered. simpl. rewrite Ho. simpl. rewrite Hk.
  fold t m. apply store_not_read in Hst.
  destruct (transfer false t (llsc a t m).1 k data) as [[d bytes]|f] eqn:Htr.
  - split; [|by intros []]. intros _. destruct Hrun as (w' & Er & Hn). exists (SData d), w'. split_and!.
    + by run ltac:(exact Er).
    + eapply noise_ok; [done|]. by apply hit_world_ok.
    + exists (sr_pkt r), t, k, d, bytes. split_and!; try done. rewrite (noise_abstract _ _ Hn), abstract_hit.
      unfold abstract. simpl. rewrite out_remove_write, Hbm, Hc by done. f_equal.
      apply map_eq. intros q. destruct (decide (q = sr_pkt r)) as [->|].
      * by rewrite !lookup_alter_eq, lookup_insert_eq, Hk.
      * by rewrite !lookup_alter_ne, lookup_insert_ne.
  - split; [by intros [_ []]|]. intros _. exists f. unfold mbind, M_bind. by rewrite Hrun.
Qed.

(** ** The other calls *)
Lemma dcache_ok w c : seq_ok w → shaped x0 c → seq_ok (w <| sw_dcache := c |>).
Proof. intros [Hb Hca [] Ht Hp] Hc. split; [done|done|by split|by apply (tables_ok_like w)|done]. Qed.

Lemma seq_invalidate w a :
  seq_ok w → 0 ≤ a < 2 ^ 64 →
  (is_line a → refined_call w (SInvalidate a)) ∧ (¬ is_line a → ∃ f, seq_exec (SInvalidate a) w = Abort f).
Proof.
  intros Hok Hr. split.
  - intros Ha. pose proof (so_cache w Hok) as Hsh. unfold refined_call. simpl.
    assert (H : ∃ c, Sequencer_invalidateSC a w = Ok (tt, w <| sw_dcache := c |>) ∧ shaped x0 c ∧
      contents c = alter (λ l, if ln_locked l =? V then relock (-1) l else l) a (contents (sw_dcache w))).
    { unfold Sequencer_invalidateSC.
      rewrite (bind_run _ _ w (ln_ptr <$> contents (sw_dcache w) !! a) w) by (by apply run_dcache_lookup).
      destruct (contents (sw_dcache w) !! a) as [l|] eqn:Hc; cbn [fmap option_fmap option_map].
      2:{ exists (sw_dcache w). split_and!; [by destruct w|done|]. apply map_eq. intros b. rewrite lookup_alter.
          case_decide; [subst; by rewrite Hc|done]. }
      rewrite (bind_run _ _ _ _ _ (run_isLocked w a l Hsh (sc_version w (so_config w Hok)) Hc)).
      destruct (ln_locked l =? V) eqn:Hl.
      - destruct (run_relock w a l AbstractCacheEntry_clearLocked (-1) Hsh Hc) as (c & E & Hsh' & Hc'); [by left|].
        exists c. split_and!; [by apply E|done|]. rewrite Hc'. apply map_eq. intros b. rewrite !lookup_alter.
        case_decide; [subst|done]. rewrite Hc. simpl. by rewrite Hl.
      - exists (sw_dcache w). split_and!; [by destruct w|done|]. apply map_eq. intros b. rewrite lookup_alter.
        case_decide; [subst|done]. rewrite Hc. simpl. by rewrite Hl. }
    destruct H as (c & E & Hsh' & Hc). exists SUnit, (w <| sw_dcache := c |>).
    split_and!; [by run ltac:(exact E)|by apply dcache_ok|done|]. unfold abstract. simpl. by rewrite Hc.
  - intros Hn. assert (Hne : (a =? makeLineAddress a) = false).
    { apply Z.eqb_neq. intros E. apply Hn. by split. }
    eexists. simpl. unfold Sequencer_invalidateSC, in_dcache, CacheMemory_lookup, mbind, M_bind. by rewrite Hne.
Qed.

Lemma seq_cache w op :
  seq_ok w → sane op →
  (enabled x0 (contents (sw_dcache w)) op → refined_call w (SCache op)) ∧
  (¬ enabled x0 (contents (sw_dcache w)) op → ∃ f, seq_exec (SCache op) w = Abort f).
Proof.
  intros Hok Hop. pose proof (so_cache w Hok) as Hsh. split; intros Hen.
  - destruct (refines_enabled exec sane (enabled x0) (spec x0) (sw_dcache w) op Hsh Hop Hen)
      as (ans & c & E & Hsh' & Hsp).
    exists (SAnswer ans), (w <| sw_dcache := c |>). split_and!; [simpl; by run ltac:(by apply run_in_dcache)|by apply dcache_ok|].
    simpl. by exists ans, (contents c).
  - destruct (refines_refused exec sane (enabled x0) (spec x0) (sw_dcache w) op Hsh Hop Hen) as [f Hf].
    exists f. simpl. unfold mbind, M_bind, in_dcache. by rewrite Hf.
Qed.

Lemma seq_advance w n : seq_ok w → 0 ≤ n → refined_call w (SAdvance n).
Proof.
  intros [Hb Hca [] Ht Hp] Hn. eexists SUnit, _. split; [reflexivity|]. split; [|done].
  split; [done|done|by split|apply (tables_ok_like w); simpl; try done; lia|done].
Qed.

(** ** Making a request *)
Lemma size_outstanding w : tables_ok w → Z.of_nat (size (outstanding (sw_seq w))) = table_sizes (sw_seq w).
Proof.
  intros Ht. unfold outstanding, table_sizes. rewrite map_size_fmap, map_size_disj_union by apply Ht. lia.
Qed.

Lemma request_types_kind k t t2 : request_types x86 k = Ok (t, t2) → is_store t = negb (is_read t).
Proof.
  unfold request_types, assertO. intros E.
  repeat match type of E with
  | context [if ?b then _ else _] => destruct b
  end; simpl in E; simplify_eq; done.
Qed.

Lemma run_count_check w site :
  seq_ok w → count_check site w = Ok (tt, w).
Proof.
  intros [Hb _ _ [Hc Hm _ _ _] _]. unfold count_check. run ltac:(reflexivity). unfold id. rewrite Hc.
  assert (0 ≤ table_sizes (sw_seq w)) by (unfold table_sizes; lia). rewrite u64_small by lia.
  unfold assertM. by rewrite Z.eqb_refl.
Qed.

(** A request in its table. *)
Definition put_request (a : Z) (r : SequencerRequest) (x : Sequencer) : Sequencer :=
  let x := if is_store (sr_m_type r) then x <| sq_m_writeRequestTable ::= <[a := r]> |>
           else x <| sq_m_readRequestTable ::= <[a := r]> |> in
  x <| sq_m_outstanding_count ::= Z.succ |>.

Lemma run_insert_table w a p t :
  tables_ok w →
  if decide (is_Some (outstanding (sw_seq w) !! a))
  then ∃ w', (if is_store t then insert_write else insert_read) a p t w = Ok (RequestStatus_Aliased, w') ∧ noise w w'
  else (if is_store t then insert_write else insert_read) a p t w =
         Ok (RequestStatus_Ready, in_seq (put_request a (mkSequencerRequest p t (sw_curCycle w))) w).
Proof.
  intros Ht. rewrite out_lookup by done. unfold insert_write, insert_read, insert_into, put_request, in_seq. simpl.
  destruct (is_store t); rewrite (bind_run _ _ _ _ _ eq_refl); unfold id;
    destruct (sq_m_writeRequestTable (sw_seq w) !! a) as [r|] eqn:Hw, (sq_m_readRequestTable (sw_seq w) !! a) as [q|] eqn:Hr;
    simpl; first [by eexists; split; [reflexivity|split] | reflexivity].
Qed.

Lemma put_request_ok w a p k t :
  seq_ok w → table_sizes (sw_seq w) < N → sw_pkts w !! p = Some k → a = makeLineAddress (rp_addr k) →
  is_store t = negb (is_read t) → outstanding (sw_seq w) !! a = None →
  let w' := in_seq (put_request a (mkSequencerRequest p t (sw_curCycle w))) w in
  seq_ok w' ∧ outstanding (sw_seq w') = <[a := (p, t)]> (outstanding (sw_seq w)).
Proof.
  intros [Hb Hca [] Ht Hp] Hlt Hk Ha Hty Ho. rewrite out_lookup in Ho by done.
  destruct (sq_m_writeRequestTable (sw_seq w) !! a) as [r|] eqn:Hw; [done|]. apply fmap_None in Ho as Hr.
  destruct Ht as [Hc Hm Hd Hwr Hre]. set (q := mkSequencerRequest p t (sw_curCycle w)).
  assert (Hq : request_ok w a q) by (split; [by exists k|simpl; lia]).
  unfold put_request, in_seq. simpl. destruct (is_store t) eqn:Hst; (split; [split; [done|done|by split| |done]|]).
  - split; simpl; unfold table_sizes in *; simpl in *; rewrite ?map_size_insert_None by done; try lia.
    + by apply map_disjoint_insert_l.
    + intros b x. rewrite lookup_insert_Some. intros [[<- <-]|[_ Hx]]; [split; [by apply (request_ok_like w)|done]|].
      destruct (Hwr b x Hx). split; [by apply (request_ok_like w)|done].
    + intros b x Hx. destruct (Hre b x Hx). split; [by apply (request_ok_like w)|done].
  - unfold outstanding. simpl. by rewrite <- insert_union_l, fmap_insert.
  - split; simpl; unfold table_sizes in *; simpl in *; rewrite ?map_size_insert_None by done; try lia.
    + by apply map_disjoint_insert_r.
    + intros b x Hx. destruct (Hwr b x Hx). split; [by apply (request_ok_like w)|done].
    + intros b x. rewrite lookup_insert_Some. intros [[<- <-]|[_ Hx]].
      * split; [by apply (request_ok_like w)|]. simpl. by destruct (is_read t).
      * destruct (Hre b x Hx). split; [by apply (request_ok_like w)|done].
  - unfold outstanding. simpl. by rewrite <- insert_union_r, fmap_insert.
Qed.

Lemma run_get_pkt w p k : sw_pkts w !! p = Some k → get_pkt p w = Ok (k, w).
Proof. intros Hk. unfold get_pkt. run ltac:(reflexivity). by rewrite Hk. Qed.

Lemma noise_out w w' : noise w w' → outstanding (sw_seq w') = outstanding (sw_seq w).
Proof. intros Hn. by apply (f_equal sa_out (noise_abstract w w' Hn)). Qed.

Lemma run_insertRequest w p k t :
  seq_ok w → table_sizes (sw_seq w) < N → sw_pkts w !! p = Some k → is_store t = negb (is_read t) →
  let line := makeLineAddress (rp_addr k) in
  if decide (must_wait (abstract w) line t)
  then ∃ w', Sequencer_insertRequest p t w = Ok (RequestStatus_Aliased, w') ∧ noise w w'
  else ∃ w1 w', Sequencer_insertRequest p t w = Ok (RequestStatus_Ready, w') ∧ noise w w1 ∧ seq_ok w' ∧
    noise (in_seq (put_request line (mkSequencerRequest p t (sw_curCycle w1))) w1) w'.
Proof.
  intros Hok Hlt Hk Hty line. unfold Sequencer_insertRequest.
  rewrite (bind_run _ _ _ _ _ (run_count_check w _ Hok)).
  do 2 rewrite (bind_run _ _ _ _ _ eq_refl).
  destruct (quiet_if (bool_decide (sq_deadlockCheckEvent (sw_seq w) = None) && negb (bool_decide (sw_drainState w = Draining)))
    _ _ quiet_schedule quiet_ret w) as (w1 & E1 & N1).
  rewrite (bind_run _ _ _ _ _ E1). assert (Hk1 : sw_pkts w1 !! p = Some k) by (by rewrite (nz_pkts w w1 N1)).
  rewrite (bind_run _ _ _ _ _ (run_get_pkt w1 p k Hk1)). cbv zeta. fold line.
  rewrite (bind_run _ _ w1 (bool_decide (line ∈ sa_blocked (abstract w))) w1).
  2:{ unfold AbstractController_isBlocked, gets. rewrite (nz_block w w1 N1). do 2 f_equal. apply bool_decide_ext.
      simpl. by rewrite elem_of_dom. }
  pose proof (noise_ok w w1 N1 Hok) as Hok1. pose proof (run_insert_table w1 line p t (so_tables w1 Hok1)) as Hins.
  rewrite (noise_out w w1 N1) in Hins. unfold must_wait.
  destruct (bool_decide (line ∈ sa_blocked (abstract w)) && negb (bool_decide (t = Locked_RMW_Write))) eqn:Hbl.
  { rewrite andb_true_iff, negb_true_iff, bool_decide_eq_true, bool_decide_eq_false in Hbl.
    rewrite decide_True by (by left). by exists w1. }
  rewrite andb_false_iff, negb_false_iff, bool_decide_eq_false, bool_decide_eq_true in Hbl. simpl (sa_out _).
  destruct (decide (is_Some (outstanding (sw_seq w) !! line))) as [Hout|Hout].
  { rewrite decide_True by (by right). destruct Hins as (w2 & E2 & N2). exists w2. rewrite (bind_run _ _ _ _ _ E2).
    split; [done|by etrans]. }
  rewrite decide_False by (intros [[? ?]|?]; [destruct Hbl; congruence|done]).
  rewrite (bind_run _ _ _ _ _ Hins). set (w2 := in_seq _ w1). exists w1.
  destruct (put_request_ok w1 line p k t Hok1) as [Hok2 _]; try done.
  { pose proof (nz_core w w1 N1) as E. injection E as _ _ _ _ _ _ _ E8 E9 _. unfold table_sizes in *. by rewrite E8, E9. }
  { rewrite (noise_out w w1 N1). by apply eq_None_not_Some. }
  destruct (quiet_sample H_outstandReq (sq_m_outstanding_count (sw_seq w2)) w2) as (w3 & E3 & N3).
  pose proof (noise_ok w2 w3 N3 Hok2) as Hok3. exists w3. split_and!; [|done..]. cbn [bool_decide].
  rewrite bool_decide_eq_true_2 by done. rewrite (bind_run _ _ _ _ _ eq_refl).
  rewrite (bind_run _ _ _ _ _ E3). by rewrite (bind_run _ _ _ _ _ (run_count_check w3 _ Hok3)).
Qed.

Lemma run_issueRequest w p k t :
  seq_config w → sw_pkts w !! p = Some k →
  ∃ msg now delta, Sequencer_issueRequest p t w =
      Ok (tt, w <| sw_trace ::= λ l, l ++ [EvEnqueue msg now delta] |>) ∧
    rr_m_pkt msg = p ∧ rr_m_Type msg = t ∧ rr_m_LineAddress msg = makeLineAddress (rp_addr k) ∧ now = sw_clockEdge w.
Proof.
  intros [] Hk. unfold Sequencer_issueRequest. rewrite (bind_run _ _ _ _ _ (run_get_pkt w p k Hk)).
  do 3 rewrite (bind_run _ _ _ _ _ eq_refl). cbv zeta. unfold id, assertM.
  rewrite (bind_run _ _ w tt w).
  2:{ match goal with |- context [0 <? ?l] => destruct (Z.ltb_spec 0 l) as [_|Hle]; [done|] end.
      case_bool_decide; lia. }
  rewrite (bind_run _ _ w tt w) by (by rewrite bool_decide_eq_false_2).
  rewrite (bind_run _ _ _ _ _ eq_refl). eexists _, _, _. split_and!; [reflexivity|done|done|done|simpl; lia].
Qed.

Lemma trace_ok w f : seq_ok w → seq_ok (w <| sw_trace ::= f |>).
Proof. intros [Hb Hca [] Ht Hp]. split; [done|done|by split|by apply (tables_ok_like w)|done]. Qed.

Lemma abstract_issue w msg now delta :
  abstract (w <| sw_trace ::= λ l, l ++ [EvEnqueue msg now delta] |>) =
    (abstract w) <| sa_issued ::= λ l, l ++ [rr_m_pkt msg] |>.
Proof. unfold abstract. simpl. by rewrite !omap_app, app_nil_r. Qed.

(** The tests before the insertion. *)
Lemma run_makeRequest w p :
  seq_config w →
  Sequencer_makeRequest p w =
    if decide (N ≤ sq_m_outstanding_count (sw_seq w)) then Ok (RequestStatus_BufferFull, w)
    else match sw_pkts w !! p with
         | None => Abort (NullDeref "pkt")
         | Some k =>
             match request_types x86 k with
             | Abort f => Abort f
             | Ok (t, t2) =>
                 (status ← Sequencer_insertRequest p t;
                  if negb (bool_decide (status = RequestStatus_Ready)) then mret status
                  else Sequencer_issueRequest p t2 ;; mret RequestStatus_Issued) w
             end
         end.
Proof.
  intros []. unfold Sequencer_makeRequest. rewrite (bind_run _ _ _ _ _ eq_refl). unfold id. rewrite sc_max0.
  destruct (Z.leb_spec N (sq_m_outstanding_count (sw_seq w))); [by rewrite decide_True|rewrite decide_False by lia].
  destruct (sw_pkts w !! p) as [k|] eqn:Hk.
  2:{ assert (E : get_pkt p w = Abort (NullDeref "pkt")).
      { unfold get_pkt. rewrite (bind_run _ _ _ _ _ eq_refl). by rewrite Hk. }
      unfold mbind, M_bind. by rewrite E. }
  rewrite (bind_run _ _ _ _ _ (run_get_pkt w p k Hk)). rewrite (bind_run _ _ _ _ _ eq_refl), sc_x87.
  destruct (request_types x86 k) as [[t t2]|f]; [|done]. by rewrite (bind_run _ _ w (t, t2) w).
Qed.

Lemma full_count w : tables_ok w → full (abstract w) ↔ N ≤ sq_m_outstanding_count (sw_seq w).
Proof. intros Ht. unfold full. simpl. by rewrite size_outstanding, (to_count w Ht). Qed.

Lemma seq_make w p : seq_ok w → seq_enabled (abstract w) (SMake p) → refined_call w (SMake p).
Proof.
  intros Hok Hen. pose proof (so_tables w Hok) as Ht. pose proof (so_config w Hok) as Hcf. unfold refined_call.
  simpl in *. pose proof (run_makeRequest w p Hcf) as Em. pose proof (full_count w Ht) as Hfull.
  destruct (decide (full (abstract w))) as [Hf|Hf].
  { rewrite decide_True in Em by tauto. exists (SStatus RequestStatus_BufferFull), w.
    split_and!; [by rewrite (bind_run _ _ _ _ _ Em)|done..]. }
  destruct Hen as [?|Hen]; [done|]. rewrite decide_False in Em by tauto.
  destruct (sw_pkts w !! p) as [k|] eqn:Hk; [|done]. destruct (request_types x86 k) as [[t t2]|] eqn:Hty; [|done].
  rewrite Hfull, (to_count w Ht) in Hf.
  pose proof (run_insertRequest w p k t Hok ltac:(lia) Hk (request_types_kind k t t2 Hty)) as Hins. simpl in Hins.
  case_decide as Hwait.
  - destruct Hins as (w' & E & Hn). exists (SStatus RequestStatus_Aliased), w'.
    rewrite (bind_run _ _ _ _ _ E) in Em. split_and!; [by rewrite (bind_run _ _ _ _ _ Em)|by eapply noise_ok|].
    exists k, t, t2. rewrite decide_True by done. by rewrite (noise_abstract w w' Hn).
  - destruct Hins as (w1 & w2 & E & N1 & Hok2 & N2). rewrite (bind_run _ _ _ _ _ E) in Em.
    assert (Hk2 : sw_pkts w2 !! p = Some k) by (by rewrite (nz_pkts _ _ N2); simpl; rewrite (nz_pkts _ _ N1)).
    destruct (run_issueRequest w2 p k t2 (so_config _ Hok2) Hk2) as (msg & now & delta & Ei & Hp & _).
    rewrite bool_decide_eq_true_2 in Em by done. cbn [negb] in Em. rewrite (bind_run _ _ _ _ _ Ei) in Em.
    eexists (SStatus RequestStatus_Issued), _. split_and!; [by rewrite (bind_run _ _ _ _ _ Em)|by apply trace_ok|].
    exists k, t, t2. rewrite decide_False by done. split_and!; try done.
    rewrite abstract_issue, Hp, (noise_abstract _ _ N2).
    destruct (put_request_ok w1 (makeLineAddress (rp_addr k)) p k t (noise_ok w w1 N1 Hok)) as [_ Ho]; try done.
    + pose proof (nz_core w w1 N1) as Ec. injection Ec as _ _ _ _ _ _ _ E8 E9 _. unfold table_sizes in *. rewrite E8, E9. lia.
    + by rewrite (nz_pkts _ _ N1).
    + by eapply request_types_kind.
    + rewrite (noise_out w w1 N1). apply eq_None_not_Some. intros Hs. apply Hwait. by right.
    + unfold abstract at 1. rewrite Ho. simpl. rewrite (noise_out w w1 N1).
      destruct N1. unfold abstract. simpl. by rewrite nz_cache0, nz_block0, nz_pkts0, nz_issued0, nz_done0.
Qed.

Lemma make_refused w p :
  seq_ok w → ¬ seq_enabled (abstract w) (SMake p) → ∃ f, seq_exec (SMake p) w = Abort f.
Proof.
  intros Hok Hn. pose proof (so_tables w Hok) as Ht. pose proof (run_makeRequest w p (so_config w Hok)) as Em.
  simpl in *. rewrite (full_count w Ht) in Hn. rewrite decide_False in Em by tauto. unfold mbind, M_bind.
  destruct (sw_pkts w !! p) as [k|]; [|rewrite Em; by eexists].
  destruct (request_types x86 k) as [[t t2]|f]; [by destruct Hn; right|rewrite Em; by eexists].
Qed.

#[export] Instance sequencer_refines : Refines seq_exec seq_sane seq_enabled seq_spec seq_ok abstract.
Proof.
  split; intros w op Hok Hop.
  - destruct op; simpl in *; intros Hen.
    + by apply seq_make.
    + by apply seq_read.
    + by apply seq_write.
    + by apply seq_invalidate.
    + by apply seq_cache.
    + by apply seq_advance.
  - destruct op; simpl in *; intros Hn.
    + by apply make_refused.
    + by apply seq_read.
    + by apply seq_write.
    + by apply (seq_invalidate w a Hok Hop).
    + by apply (seq_cache w op Hok Hop).
    + done.
Qed.
End SequencerRun.
