(* ===== verification/SequencerRunTheory.v ===== *)
(** * Runs of the sequencer

    Every accepted packet is answered exactly once or still under way, and a
    store-conditional succeeds only if its load-linked is the last access that
    touched the lock. *)

From S2P Require Import Prelude Refinement NetDestModel AddrRangeModel CommonTypes AddressModel ReplacementModel CacheMemoryModel DataBlockModel SequencerModel AddrRangeTheory AddressTheory ReplacementTheory PseudoLRUTheory CacheTheory CacheRefinement CacheRunTheory NetDestTheory SequencerTheory.

(** ** Conservation of packets *)
Definition waiting (s : seq_abs) : list nat := (map_to_list (sa_out s)).*2.*1.
Definition conserved (s : seq_abs) : Prop := sa_issued s ≡ₚ sa_done s ++ waiting s.

Lemma waiting_insert s a p t :
  sa_out s !! a = None → (map_to_list (<[a := (p, t)]> (sa_out s))).*2.*1 ≡ₚ p :: waiting s.
Proof. intros H. unfold waiting. by rewrite map_to_list_insert by done. Qed.
Lemma waiting_delete s a p t :
  sa_out s !! a = Some (p, t) → waiting s ≡ₚ p :: (map_to_list (delete a (sa_out s))).*2.*1.
Proof. intros H. unfold waiting. by rewrite <- (map_to_list_delete _ _ _ H). Qed.

Section Conservation.
Context `{MT : MachineTypes} {P : Type} `{RPS : ReplacementPolicySpec P} {BS : BlockSize} {BSS : BlockSizeSpec BS}.
Context (x0 : CacheMemory P) (V N : Z) (standalone x86 : bool).
#[local] Abbreviation spec_of := (seq_spec x0 V N standalone x86).
#[local] Abbreviation enabled_of := (seq_enabled x0 V N standalone x86).

Lemma answer_conserved s s' a p t :
  sa_out s !! a = Some (p, t) → sa_out s' = delete a (sa_out s) → sa_issued s' = sa_issued s →
  sa_done s' = sa_done s ++ [p] → conserved s → conserved s'.
Proof.
  intros Ho E1 E2 E3 Hc. unfold conserved in *. rewrite E2, E3, Hc, (waiting_delete s a p t Ho), <- app_assoc.
  unfold waiting. by rewrite E1.
Qed.

Lemma spec_conserved s op ans s' : spec_of s op ans s' → conserved s → conserved s'.
Proof.
  destruct op as [p|a data r|a data r|a|op|n]; simpl.
  - case_decide; [by intros [_ ->]|]. intros (k & t & t2 & _ & _ & Hs). case_decide as Hw; [by destruct Hs as [_ ->]|].
    destruct Hs as [_ ->]. unfold conserved, waiting. simpl. intros Hc.
    rewrite waiting_insert by (apply eq_None_not_Some; intros Ho; apply Hw; by right).
    rewrite Hc. unfold waiting. rewrite <- app_assoc. apply Permutation_app_head. symmetry. apply Permutation_cons_append.
  - intros (p & t & k & d & b & Ho & _ & _ & _ & ->). by apply (answer_conserved s _ a p t).
  - intros (p & t & k & d & b & Ho & _ & _ & _ & ->). by apply (answer_conserved s _ a p t).
  - by intros [_ ->].
  - by intros (? & ? & _ & _ & ->).
  - by intros [_ ->].
Qed.

Lemma run_conserved s ops answers s' :
  spec_run enabled_of spec_of s ops answers s' → conserved s → conserved s'.
Proof. induction 1; [done|]. intros Hc. eauto using spec_conserved. Qed.

(** ** A new sequencer *)
Definition new_world (sq : Sequencer) (q : nat) (dc : CWorld P) (pkts : gmap nat RubyPacket)
    (cycle edge period : Z) (gnet : bool) : SWorld P :=
  mkSWorld (sq <| sq_m_mandatory_q_ptr := Some q |>) dc false ∅ pkts [] cycle edge period Running false false x86 gnet.

Lemma Sequencer_ctor_Ok sp sq :
  Sequencer_ctor sp = Ok sq →
  0 < sp_max_outstanding_requests sp ∧ 0 < sp_dcache_hit_latency sp ∧ 0 < sp_icache_hit_latency sp ∧
  sq = mkSequencer (sp_version sp) (sp_max_outstanding_requests sp) (sp_deadlock_threshold sp)
        (sp_dcache_hit_latency sp) (sp_icache_hit_latency sp) (sp_coreid sp) (sp_garnet_standalone sp)
        (sp_using_ruby_tester sp) None ∅ ∅ 0 None 0 0 0 0 [] (replicate (Z.to_nat MachineType_NUM) 0).
Proof.
  intros E. unfold Sequencer_ctor, assertO in E. destruct (Z.ltb_spec 0 (sp_max_outstanding_requests sp)); [|done].
  destruct (0 <? sp_deadlock_threshold sp); [|done]. destruct (sp_icache sp); [|done]. destruct (sp_dcache sp); [|done].
  destruct (Z.ltb_spec 0 (sp_dcache_hit_latency sp)); [|done].
  destruct (Z.ltb_spec 0 (sp_icache_hit_latency sp)); [|done]. by injection E as <-.
Qed.

Lemma new_world_ok sp sq q dc pkts cycle edge period gnet :
  shaped x0 dc → Sequencer_ctor sp = Ok sq → sp_using_ruby_tester sp = false → sp_version sp = V →
  sp_max_outstanding_requests sp = N → sp_garnet_standalone sp = standalone → N < 2 ^ 31 →
  (∀ p k, pkts !! p = Some k → 0 ≤ rp_addr k < 2 ^ 64) →
  seq_ok x0 V N standalone x86 (new_world sq q dc pkts cycle edge period gnet).
Proof.
  intros Hsh (? & ? & ? & ->)%Sequencer_ctor_Ok Ht HV HN Hst Hb Hp.
  split; simpl; [lia|done|by split|split; simpl|done].
  - by unfold table_sizes; simpl.
  - unfold table_sizes. simpl. rewrite map_size_empty. lia.
  - apply map_disjoint_empty_l.
  - intros a r. by rewrite lookup_empty.
  - intros a r. by rewrite lookup_empty.
Qed.
End Conservation.

(** ** Locks *)
Definition lock_of (s : seq_abs) (a : Z) : option Z := ln_locked <$> sa_lines s !! a.

(** The calls that take a lock away. *)
Definition touches (a : Z) (op : seq_op) : Prop :=
  match op with
  | SWrite b _ _ | SInvalidate b => b = a
  | SCache (OpAllocate b _ _) | SCache (OpDeallocate b) | SCache (OpSetLocked b _) | SCache (OpClearLocked b) => b = a
  | SCache (OpChangePermission b perm) => b = a ∧ (perm = Invalid ∨ perm = NotPresent)
  | _ => False
  end.

Section Locks.
Context `{MT : MachineTypes} {P : Type} `{RPS : ReplacementPolicySpec P} {BS : BlockSize} {BSS : BlockSizeSpec BS}.
Context (x0 : CacheMemory P) (V N : Z) (x86 : bool).
#[local] Abbreviation spec_of := (seq_spec x0 V N false x86).
#[local] Abbreviation enabled_of := (seq_enabled x0 V N false x86).
Context (HV : 0 ≤ V).
Implicit Types (m : gmap Z Line).

Lemma lock_alter m a b f :
  ln_locked <$> alter f b m !! a = if decide (b = a) then (λ l, ln_locked (f l)) <$> m !! a else ln_locked <$> m !! a.
Proof. rewrite lookup_alter. case_decide; [subst|done]. by destruct (m !! a). Qed.

Lemma lock_llsc m a b t :
  ln_locked <$> (llsc V false b t m).2 !! a = Some V →
  (ln_locked <$> m !! a = Some V ∧ b ≠ a) ∨ (b = a ∧ t = Load_Linked).
Proof.
  unfold llsc. destruct (decide (b = a)) as [->|Hne].
  - destruct (m !! a) as [l|] eqn:Hl; simpl; [|by rewrite Hl].
    case_bool_decide; simpl; [rewrite lookup_alter_eq, Hl; simpl; intros [= E]; lia|].
    case_bool_decide; simpl; [by right|].
    destruct (Z.eqb_spec (ln_locked l) V); simpl; [rewrite lookup_alter_eq, Hl; simpl; intros [= E]; lia|].
    rewrite Hl. simpl. congruence.
  - intros Hk. left. split; [|done]. destruct (m !! b) as [l|]; simpl in Hk; [|done].
    repeat case_bool_decide; simpl in Hk; [by rewrite lookup_alter_ne in Hk..|].
    destruct (ln_locked l =? V); [by rewrite lookup_alter_ne in Hk|done].
Qed.

Lemma lock_cache m a op ans m' :
  spec x0 m op ans m' → ln_locked <$> m' !! a = Some V →
  (ln_locked <$> m !! a = Some V ∧ ¬ touches a (SCache op)) ∨ op = OpSetLocked a V.
Proof.
  destruct op as [b|b|b|b e t|b|b|b|b o|b t|b t|b c|b|b c|b perm|t]; simpl; intros Hsp Hl;
    try (left; split; [|by intros []]; naive_solver).
  - destruct Hsp as (p & _ & _ & ->). left. rewrite lookup_insert in Hl. case_decide; [injection Hl; lia|done].
  - destruct Hsp as [_ ->]. left. rewrite lookup_delete in Hl. case_decide; [done|done].
  - destruct Hsp as [_ ->]. rewrite lock_alter in Hl. case_decide; [|by left]. right. subst b.
    destruct (m !! a); simpl in Hl; [|done]. by injection Hl as ->.
  - destruct Hsp as [_ ->]. rewrite lock_alter in Hl. left. case_decide; [|done].
    destruct (m !! a); simpl in Hl; [injection Hl; lia|done].
  - destruct Hsp as [_ ->]. rewrite lock_alter in Hl. left. case_decide as Hb; [|naive_solver].
    destruct (m !! a) as [l|]; simpl in Hl; [|done]. unfold reperm in Hl. simpl in Hl.
    destruct (bool_decide (perm = Invalid) || bool_decide (perm = NotPresent)) eqn:Hp; [injection Hl; lia|].
    split; [done|]. rewrite orb_false_iff, !bool_decide_eq_false in Hp. naive_solver.
Qed.

(** A lock that is held after a call was held before, or taken by load-linked. *)
Lemma lock_step s op ans s' a :
  spec_of s op ans s' → lock_of s' a = Some V → op ≠ SCache (OpSetLocked a V) →
  (lock_of s a = Some V ∧ ¬ touches a op) ∨
  (∃ d r p, op = SWrite a d r ∧ sa_out s !! a = Some (p, Load_Linked)).
Proof.
  unfold lock_of. destruct op as [p|b data r|b data r|b|op|n]; simpl; intros Hsp Hl Hne.
  - left. split; [|by intros []]. case_decide; [by destruct Hsp as [_ ->]|].
    destruct Hsp as (k & t & t2 & _ & _ & Hsp). by case_decide; destruct Hsp as [_ ->].
  - left. split; [|by intros []]. by destruct Hsp as (p & t & k & d & b' & _ & _ & _ & _ & ->).
  - destruct Hsp as (p & t & k & d & b' & Ho & _ & _ & _ & ->). simpl in Hl.
    apply lock_llsc in Hl as [[Hl Hb]|[-> ->]]; [by left|right]. eauto.
  - destruct Hsp as [_ ->]. simpl in Hl. rewrite lock_alter in Hl. left. case_decide; [|done].
    destruct (sa_lines s !! a) as [l|]; simpl in Hl; [|done]. destruct (Z.eqb_spec (ln_locked l) V); simpl in Hl; injection Hl; lia.
  - destruct Hsp as (x & m' & _ & Hsp & ->). simpl in Hl. destruct (lock_cache _ _ _ _ _ Hsp Hl) as [?| ->]; [by left|done].
  - left. split; [|by intros []]. by destruct Hsp as [_ ->].
Qed.

(** The last call of a run that touched the lock of a line answered a load-linked. *)
Definition linked (w : SWorld P) (a : Z) (ops : list seq_op) : Prop :=
  ∃ ops1 d r ops2 answers1 w1 p, ops = ops1 ++ SWrite a d r :: ops2 ∧
    exec_all seq_exec ops1 w = Ok (answers1, w1) ∧ sa_out (abstract w1) !! a = Some (p, Load_Linked) ∧
    Forall (λ op, ¬ touches a op) ops2.

Lemma lock_run w ops answers w' a :
  seq_ok x0 V N false x86 w → Forall seq_sane ops → exec_all seq_exec ops w = Ok (answers, w') →
  SCache (OpSetLocked a V) ∉ ops → lock_of (abstract w') a = Some V →
  (lock_of (abstract w) a = Some V ∧ Forall (λ op, ¬ touches a op) ops) ∨ linked w a ops.
Proof.
  intros Hok Hs. revert w answers Hok. induction Hs as [|op ops Hop Hs IH]; intros w answers Hok E Hn Hl.
  { injection E as <- <-. left. split; [done|constructor]. }
  simpl in E. apply bind_Ok in E as (ans & w1 & E1 & E). apply bind_Ok in E as (l & w2 & E2 & E). injection E as <- <-.
  apply not_elem_of_cons in Hn as [Hne Hn]. destruct (refines_step _ _ _ _ _ _ w op ans w1 Hok Hop E1) as (_ & Hok1 & Hsp).
  destruct (IH w1 l Hok1 E2 Hn Hl) as [[Hl1 Hf]|Hr].
  - destruct (lock_step _ _ _ _ a Hsp Hl1) as [[Hl0 Ht]|(d & r & p & -> & Ho)]; [congruence|left|right].
    + split; [done|by constructor].
    + exists [], d, r, ops, [], w, p. by split_and!.
  - right. destruct Hr as (ops1 & d & r & ops2 & l1 & w3 & p & -> & E3 & Ho & Hf).
    exists (op :: ops1), d, r, ops2, (ans :: l1), w3, p. split_and!; try done.
    simpl. run ltac:(exact E1). by run ltac:(exact E3).
Qed.

(** A call that does not touch the lock keeps it. *)
Lemma lock_cache_kept m a op ans m' :
  spec x0 m op ans m' → ¬ touches a (SCache op) → ln_locked <$> m' !! a = ln_locked <$> m !! a.
Proof.
  destruct op as [b|b|b|b e t|b|b|b|b o|b t|b t|b c|b|b c|b perm|t]; simpl; intros Hsp Hn; try naive_solver.
  - destruct Hsp as (p & _ & _ & ->). by rewrite lookup_insert_ne.
  - destruct Hsp as [_ ->]. by rewrite lookup_delete_ne.
  - destruct Hsp as [_ ->]. by rewrite lookup_alter_ne.
  - destruct Hsp as [_ ->]. by rewrite lookup_alter_ne.
  - destruct Hsp as [_ ->]. rewrite lock_alter. case_decide; [|done]. destruct (m !! a) as [l|]; [|done]. simpl.
    unfold reperm. simpl. rewrite !bool_decide_eq_false_2 by naive_solver. done.
Qed.

Lemma lock_kept s op ans s' a : spec_of s op ans s' → ¬ touches a op → lock_of s' a = lock_of s a.
Proof.
  unfold lock_of. destruct op as [p|b data r|b data r|b|op|n]; simpl; intros Hsp Hn.
  - case_decide; [by destruct Hsp as [_ ->]|].
    destruct Hsp as (k & t & t2 & _ & _ & Hsp). by case_decide; destruct Hsp as [_ ->].
  - by destruct Hsp as (p & t & k & d & b' & _ & _ & _ & _ & ->).
  - destruct Hsp as (p & t & k & d & b' & Ho & _ & _ & _ & ->). simpl. unfold llsc.
    repeat case_match; simpl; try done; by rewrite lookup_alter_ne.
  - destruct Hsp as [_ ->]. simpl. by rewrite lookup_alter_ne.
  - destruct Hsp as (x & m' & _ & Hsp & ->). simpl. by eapply lock_cache_kept.
  - by destruct Hsp as [_ ->].
Qed.

Lemma lock_kept_run s ops answers s' a :
  spec_run enabled_of spec_of s ops answers s' → Forall (λ op, ¬ touches a op) ops → lock_of s' a = lock_of s a.
Proof.
  induction 1 as [|s op ans s1 ops answers s' _ Hsp _ IH]; [done|]. intros [Hn Hf]%Forall_cons.
  rewrite (IH Hf). by eapply lock_kept.
Qed.

Lemma linked_locked w ops answers w' a :
  seq_ok x0 V N false x86 w → Forall seq_sane ops → exec_all seq_exec ops w = Ok (answers, w') →
  is_Some (lock_of (abstract w') a) → linked w a ops → lock_of (abstract w') a = Some V.
Proof.
  intros Hok Hs E Hl (ops1 & d & r & ops2 & l1 & w1 & p & -> & E1 & Ho & Hf).
  apply exec_all_app in E as (l1' & l2 & w1' & E1' & E & ->). rewrite E1 in E1'. injection E1' as <- <-.
  apply Forall_app in Hs as [Hs1 [Hsw Hs2]%Forall_cons].
  destruct (refines_run _ _ enabled_of spec_of _ _ _ _ _ _ Hok Hs1 E1) as [_ Hok1].
  simpl in E. apply bind_Ok in E as (ans & w2 & E2 & E). apply bind_Ok in E as (l & w3 & E3 & [= _ <-]).
  destruct (refines_step _ _ enabled_of spec_of _ _ w1 (SWrite a d r) ans w2 Hok1 Hsw E2) as (_ & Hok2 & Hsp).
  destruct (refines_run _ _ enabled_of spec_of _ _ _ _ _ _ Hok2 Hs2 E3) as [Hrun _].
  rewrite (lock_kept_run _ _ _ _ a Hrun Hf) in *. destruct Hsp as (p' & t & k & d' & b & Ho' & _ & _ & _ & E4).
  rewrite Ho in Ho'. injection Ho' as <- <-. unfold lock_of in *. rewrite E4 in *. simpl in *. unfold llsc in *.
  destruct (contents (sw_dcache w1) !! a) as [x|] eqn:Hx; [|simpl in Hl; rewrite Hx in Hl; by destruct Hl].
  simpl. by rewrite lookup_alter_eq, Hx.
Qed.
End Locks.

Section Runs.
Context `{MT : MachineTypes} {P : Type} `{RPS : ReplacementPolicySpec P} {BS : BlockSize} {BSS : BlockSizeSpec BS}.

(** C5.  Any sequence of calls of a new sequencer, in normal operation and with
    any calls of its data cache in between, behaves as one map from lines to the
    request under way there.  A request is refused as full or aliased exactly when
    the map is full, has the line, or the line is blocked by a locked
    instruction; an answer removes the request and moves the bytes; the locks of
    load-linked decide on store-conditional; and the next call, whatever it is,
    returns exactly when the map allows it, so that none of the assertions on the
    two tables, the counter and the types can fail.  Every accepted packet is
    answered exactly once or still under way, and never more than the configured
    number are. *)
Theorem sequencer_run_refines sp sq q dc pkts cycle edge period x86 gnet ops answers w :
  cache_ok dc → Sequencer_ctor sp = Ok sq → sp_using_ruby_tester sp = false →
  sp_max_outstanding_requests sp < 2 ^ 31 → (∀ p k, pkts !! p = Some k → 0 ≤ rp_addr k < 2 ^ 64) →
  Forall seq_sane ops →
  exec_all seq_exec ops (new_world x86 sq q dc pkts cycle edge period gnet) = Ok (answers, w) →
  let N := sp_max_outstanding_requests sp in
  let enabled_of := seq_enabled (cw_cache dc) (sp_version sp) N (sp_garnet_standalone sp) x86 in
  let spec_of := seq_spec (cw_cache dc) (sp_version sp) N (sp_garnet_standalone sp) x86 in
  spec_run enabled_of spec_of (mkSeqAbs ∅ ∅ pkts (contents dc) [] []) ops answers (abstract w) ∧
  next_call_exact seq_exec seq_sane enabled_of spec_of abstract w ∧
  sa_issued (abstract w) ≡ₚ sa_done (abstract w) ++ waiting (abstract w) ∧
  Z.of_nat (size (sa_out (abstract w))) ≤ N.
Proof.
  intros Hdc Hc Ht Hb Hp Hs E N enabled_of spec_of.
  assert (Hok0 : seq_ok (cw_cache dc) (sp_version sp) N (sp_garnet_standalone sp) x86
    (new_world x86 sq q dc pkts cycle edge period gnet)) by (by eapply new_world_ok).
  destruct (refines_run _ _ enabled_of spec_of _ _ ops _ answers w Hok0 Hs E) as [Hrun Hok].
  assert (E0 : abstract (new_world x86 sq q dc pkts cycle edge period gnet) = mkSeqAbs ∅ ∅ pkts (contents dc) [] []).
  { apply Sequencer_ctor_Ok in Hc as (_ & _ & _ & ->). unfold abstract, outstanding. simpl. by rewrite dom_empty_L. }
  rewrite E0 in Hrun. split_and!; [done|by eapply refines_next; [apply _|]| |].
  - eapply run_conserved; [done|]. unfold conserved, waiting. simpl. by rewrite map_to_list_empty.
  - simpl. rewrite (size_outstanding _ w) by (by apply so_tables in Hok). apply (to_max _ w (so_tables _ _ _ _ _ w Hok)).
Qed.

(** What a store-conditional does to the line, without the rarer kinds of packet. *)
Lemma transfer_conditional ok k data d b :
  rp_isFlush k = false → rp_isSwap k = false → transfer false Store_Conditional ok k data = Ok (d, b) →
  if ok then ∃ offset, Address_getOffset (rp_addr k) = Ok offset ∧ DataBlock_setData (rp_data k) offset (rp_size k) data = Ok d
  else d = data.
Proof.
  intros Hf Hs E. unfold transfer in E. rewrite Hf, Hs in E. simpl in E.
  destruct (Address_getOffset (rp_addr k)) as [offset|]; [|done]. simpl in E. destruct ok; simpl in E.
  - exists offset. destruct (DataBlock_setData _ offset _ data); [|done]. by injection E as <- <-.
  - by injection E.
Qed.

(** C28.  Store-conditional is atomic.  A packet that is answered as a
    store-conditional at a line of the cache is told that it succeeded exactly
    if, of all calls of the run that touched the lock of the line (an answer to any
    write of the processor there, a change of the line by the protocol that
    invalidates it, an eviction), the last one answered a load-linked of this
    processor.  Its bytes are written to the line if it succeeded, and the line
    is unchanged otherwise.  Afterwards the lock is gone. *)
Theorem store_conditional_atomic sp sq q dc pkts cycle edge period x86 gnet ops answers w a p k data r d w' :
  cache_ok dc → Sequencer_ctor sp = Ok sq → sp_using_ruby_tester sp = false →
  sp_max_outstanding_requests sp < 2 ^ 31 → (∀ p k, pkts !! p = Some k → 0 ≤ rp_addr k < 2 ^ 64) →
  sp_garnet_standalone sp = false → 0 ≤ sp_version sp →
  ln_locked <$> contents dc !! a ≠ Some (sp_version sp) →
  Forall seq_sane ops → SCache (OpSetLocked a (sp_version sp)) ∉ ops →
  exec_all seq_exec ops (new_world x86 sq q dc pkts cycle edge period gnet) = Ok (answers, w) →
  sa_out (abstract w) !! a = Some (p, Store_Conditional) → sw_pkts w !! p = Some k →
  rp_isFlush k = false → rp_isSwap k = false → is_Some (contents (sw_dcache w) !! a) → response_sane r →
  Sequencer_writeCallback a data r w = Ok (d, w') →
  (∃ k', sw_pkts w' !! p = Some k' ∧
    ((rp_extraData k' = Some 1 ∧ linked (new_world x86 sq q dc pkts cycle edge period gnet) a ops ∧
      ∃ offset, Address_getOffset (rp_addr k) = Ok offset ∧ DataBlock_setData (rp_data k) offset (rp_size k) data = Ok d) ∨
     (rp_extraData k' = Some 0 ∧ ¬ linked (new_world x86 sq q dc pkts cycle edge period gnet) a ops ∧ d = data))) ∧
  ln_locked <$> contents (sw_dcache w') !! a = Some (-1).
Proof.
  intros Hdc Hc Ht Hb Hp Hst HV Hl0 Hs Hn E Ho Hk Hf Hsw [l Hl] Hr Ew.
  assert (Hok0 : seq_ok (cw_cache dc) (sp_version sp) (sp_max_outstanding_requests sp) false x86
    (new_world x86 sq q dc pkts cycle edge period gnet)) by (by eapply new_world_ok).
  destruct (refines_run _ _ (seq_enabled _ _ _ _ _) (seq_spec _ _ _ _ _) _ _ ops _ answers w Hok0 Hs E) as [_ Hok].
  assert (Ex : seq_exec (SWrite a data r) w = Ok (SData d, w')) by (simpl; by rewrite (bind_run _ _ _ _ _ Ew)).
  destruct (refines_step _ _ (seq_enabled _ _ _ _ _) (seq_spec _ _ _ _ _) _ _ w _ _ w' Hok Hr Ex) as (_ & _ & Hsp).
  destruct Hsp as (p' & t & k0 & d' & b & Ho' & Hk' & Htr & [= <-] & Eabs).
  rewrite Ho in Ho'. injection Ho' as <- <-. simpl in Hk'. rewrite Hk in Hk'. injection Hk' as <-.
  apply transfer_conditional in Htr; [|done..].
  assert (Hpk : sa_pkts (abstract w') !! p = Some ((told (sp_version sp) false a Store_Conditional (contents (sw_dcache w)) k) <| rp_data := b |>)).
  { rewrite Eabs. simpl. by rewrite lookup_insert_eq. }
  assert (Hln : lock_of (abstract w') a = Some (-1)).
  { unfold lock_of. rewrite Eabs. simpl. unfold llsc. rewrite Hl. simpl. by rewrite lookup_alter_eq, Hl. }
  split; [|exact Hln]. eexists. split; [exact Hpk|]. unfold told, llsc in *. simpl in Htr. rewrite Hl in *. simpl in *.
  assert (Hlock : lock_of (abstract w) a = Some (ln_locked l)) by (unfold lock_of; simpl; by rewrite Hl).
  destruct (Z.eqb_spec (ln_locked l) (sp_version sp)) as [Heq|Hne]; [left|right].
  - split_and!; [done| |done]. rewrite Heq in Hlock.
    destruct (lock_run _ _ _ _ HV _ _ _ _ a Hok0 Hs E Hn Hlock) as [[Hl' _]|Hlk]; [|exact Hlk]. destruct (Hl0 Hl').
  - split_and!; [done| |done]. intros Hlk. pose proof (linked_locked _ _ _ _ _ _ _ _ a Hok0 Hs E ltac:(by eexists) Hlk) as Hlk'.
    congruence.
Qed.
End Runs.

(** ** Sample runs

    The lines of the packets are 0 and 64; the first is in the cache.  At the
    end a store-conditional that follows a load-linked of its line is under way,
    and a read. *)
#[local] Existing Instance two_types.
#[local] Existing Instance block_64.

Definition sample_seq_params : SequencerParams := mkSequencerParams 0 true true 1 1 16 50 0 false false.
Definition sample_packet (addr : Z) (write llsc : bool) : RubyPacket :=
  mkRubyPacket addr 2 [5; 6] (negb write) write false llsc false false false 0 None None None.
Definition sample_packets : gmap nat RubyPacket :=
  list_to_map [(0%nat, sample_packet 8 false true); (1%nat, sample_packet 8 true true); (2%nat, sample_packet 64 false false)].
Definition sample_response : response := mkResponse false 0 0 0 0.
Definition zero_line : list Z := replicate 64 0.
Definition sample_calls : list seq_op :=
  [SCache (OpAllocate 0 sample_entry true); SMake 0; SWrite 0 zero_line sample_response; SMake 1; SMake 2; SAdvance 100].
Definition sample_seq : Sequencer :=
  mkSequencer 0 16 50 1 1 0 false false None ∅ ∅ 0 None 0 0 0 0 [] [0; 0].
Abbreviation sample_start := (new_world false sample_seq 7 sample_world sample_packets 10 5000 500 true).
Definition sample_end : SWorld PseudoLRUPolicy :=
  match exec_all seq_exec sample_calls sample_start with Ok (_, w) => w | Abort _ => sample_start end.

Lemma sample_world_ok : cache_ok sample_world.
Proof. apply (built_ok sample_params 500 sample_unset sample_cache ∅ 0); [exact sample_params_ok|simpl; lia|reflexivity..]. Qed.

Lemma sample_packets_ok p k : sample_packets !! p = Some k → 0 ≤ rp_addr k < 2 ^ 64.
Proof.
  intros H%elem_of_list_to_map_2. rewrite !elem_of_cons in H.
  destruct H as [[= -> ->]|[[= -> ->]|[[= -> ->]|H%elem_of_nil]]]; simpl; lia || done.
Qed.

Lemma sample_calls_sane : Forall seq_sane sample_calls.
Proof. repeat constructor; simpl; try lia. all: injection H as <-; lia. Qed.

Lemma sample_run : ∃ answers, exec_all seq_exec sample_calls sample_start = Ok (answers, sample_end) ∧
  answers = [SAnswer (APtr (Some 0%nat)); SStatus RequestStatus_Issued; SData zero_line; SStatus RequestStatus_Issued;
             SStatus RequestStatus_Issued; SUnit].
Proof.
  unfold sample_end. destruct (exec_all seq_exec sample_calls sample_start) as [[answers w]|] eqn:E; [|vm_compute in E; discriminate E].
  exists answers. split; [done|].
  assert (Hl : (match exec_all seq_exec sample_calls sample_start with Ok (l, _) => l | Abort _ => [] end) = 
    [SAnswer (APtr (Some 0%nat)); SStatus RequestStatus_Issued; SData zero_line; SStatus RequestStatus_Issued;
             SStatus RequestStatus_Issued; SUnit]) by (vm_compute; reflexivity).
  by rewrite E in Hl.
Qed.

Lemma sequencer_run_refines_witness :
  ∃ answers, exec_all seq_exec sample_calls sample_start = Ok (answers, sample_end) ∧
    spec_run (seq_enabled sample_cache 0 16 false false) (seq_spec sample_cache 0 16 false false)
      (mkSeqAbs ∅ ∅ sample_packets (contents sample_world) [] []) sample_calls answers (abstract sample_end) ∧
    sa_issued (abstract sample_end) ≡ₚ sa_done (abstract sample_end) ++ waiting (abstract sample_end) ∧
    sa_issued (abstract sample_end) = [0%nat; 1%nat; 2%nat] ∧ sa_done (abstract sample_end) = [0%nat].
Proof.
  destruct sample_run as (answers & E & _). exists answers. split; [exact E|].
  destruct (sequencer_run_refines sample_seq_params sample_seq 7 sample_world sample_packets 10 5000 500 false true
    sample_calls answers sample_end) as (H1 & _ & H2 & _).
  - exact sample_world_ok.
  - reflexivity.
  - reflexivity.
  - simpl. lia.
  - exact sample_packets_ok.
  - exact sample_calls_sane.
  - exact E.
  - split; [exact H1|]. split; [exact H2|]. split; vm_compute; reflexivity.
Defined.

(** The store-conditional that is under way succeeds, and its bytes are in the line. *)
Lemma store_conditional_atomic_witness :
  ∃ d w' k', Sequencer_writeCallback 0 zero_line sample_response sample_end = Ok (d, w') ∧
    sw_pkts w' !! 1%nat = Some k' ∧ rp_extraData k' = Some 1 ∧ linked sample_start 0 sample_calls ∧
    d = replicate 8 0 ++ [5; 6] ++ replicate 54 0.
Proof.
  destruct sample_run as (answers & E & _).
  destruct (Sequencer_writeCallback 0 zero_line sample_response sample_end) as [[d w']|] eqn:Ew;
    [|vm_compute in Ew; discriminate Ew].
  assert (Hd : match Sequencer_writeCallback 0 zero_line sample_response sample_end with
               | Ok (d, w) => (d, rp_extraData <$> sw_pkts w !! 1%nat) | Abort _ => ([], None) end =
               (replicate 8 0 ++ [5; 6] ++ replicate 54 0, Some (Some 1))) by (vm_compute; reflexivity).
  rewrite Ew in Hd. injection Hd as Hd Hx.
  destruct (store_conditional_atomic sample_seq_params sample_seq 7 sample_world sample_packets 10 5000 500 false true
    sample_calls answers sample_end 0 1 (sample_packet 8 true true) zero_line sample_response d w') as [(k' & Hk' & H) _].
  - exact sample_world_ok.
  - reflexivity.
  - reflexivity.
  - simpl. lia.
  - exact sample_packets_ok.
  - reflexivity.
  - simpl. lia.
  - vm_compute. discriminate.
  - exact sample_calls_sane.
  - intros Hin. unfold sample_calls in Hin. repeat (apply elem_of_cons in Hin as [[=]|Hin]). by apply elem_of_nil in Hin.
  - exact E.
  - vm_compute. reflexivity.
  - vm_compute. reflexivity.
  - reflexivity.
  - reflexivity.
  - vm_compute. eexists. reflexivity.
  - split; vm_compute; discriminate.
  - exact Ew.
  - rewrite Hk' in Hx. injection Hx as Hx. exists d, w', k'. split; [reflexivity|]. split; [exact Hk'|].
    split; [exact Hx|]. split; [|exact Hd]. destruct H as [[_ [Hlk _]]|[H0 _]]; [exact Hlk|congruence].
Defined.
