(* ===== verification/SequencerWatch.v ===== *)
(** * The watch for deadlock

    A sequencer in use: the calls of its port, its controller and its cache, the
    drain manager, which may drain it and resume it, and the event queue, which
    runs the scheduled check.  Over all such runs the check is scheduled when it
    has to be, never while the sequencer is draining, and reports exactly the
    requests that have waited too long. *)

From S2P Require Import Prelude Refinement NetDestModel AddrRangeModel CommonTypes AddressModel ReplacementModel CacheMemoryModel DataBlockModel SequencerModel AddrRangeTheory AddressTheory ReplacementTheory PseudoLRUTheory CacheTheory CacheRefinement CacheRunTheory NetDestTheory SequencerTheory SequencerRunTheory.

(** What happens to a sequencer in use. *)
Inductive watch_op :=
  | WCall (op : seq_op)
  | WDrain
  | WResume
  | WCheck.

Section Watch.
Context `{MT : MachineTypes} {P : Type} `{RPS : ReplacementPolicySpec P} {BS : BlockSize} {BSS : BlockSizeSpec BS}.
Implicit Types w : SWorld P.

(** The event queue runs the check only when it is scheduled. *)
Definition watch_exec (op : watch_op) : M (SWorld P) () :=
  match op with
  | WCall op => seq_exec op ;; mret tt
  | WDrain => RubyPort_drain ;; mret tt
  | WResume => Drainable_dmDrainResume
  | WCheck => e ← sqget sq_deadlockCheckEvent; match e with Some _ => deadlockCheckEvent_process | None => mret tt end
  end.
Definition watch_sane (op : watch_op) : Prop := match op with WCall op => seq_sane op | _ => True end.

Definition event w : option Z := sq_deadlockCheckEvent (sw_seq w).
Definition idle w : Prop := table_sizes (sw_seq w) = 0.
Definition next_check w : Z := sw_clockEdge w + sq_m_deadlock_threshold (sw_seq w) * sw_clockPeriod w.

(** The invariant. *)
Record watched w : Prop := {
  wa_event t : event w = Some t → sw_drainState w ≠ Draining ∧ t ≤ next_check w;
  wa_draining : sw_drainState w = Draining → ¬ idle w;
  wa_running : sw_drainState w ≠ Draining → idle w ∨ is_Some (event w);
}.

(** ** Calls that leave the tables alone *)
Record unmoved w w' : Prop := {
  st_drain : sw_drainState w' = sw_drainState w;
  st_event : event w' = event w;
  st_sizes : table_sizes (sw_seq w') = table_sizes (sw_seq w);
  st_count : sq_m_outstanding_count (sw_seq w') = sq_m_outstanding_count (sw_seq w);
  st_warmup : sw_warmup w' = sw_warmup w;
  st_cooldown : sw_cooldown w' = sw_cooldown w;
  st_next : next_check w ≤ next_check w';
}.
#[export] Instance unmoved_preorder : PreOrder unmoved.
Proof. split; [by intros w|]. intros w1 w2 w3 [] []. split; congruence || lia. Qed.

Lemma unmoved_watched w w' : unmoved w w' → watched w → watched w'.
Proof.
  intros [E1 E2 E3 _ _ _ Hn] [He Hd Hr]. split; unfold idle in *; rewrite ?E1, ?E2, ?E3; [|done..].
  intros t Ht. destruct (He t Ht). split; [done|lia].
Qed.

Lemma unmoved_in_dcache {A} (m : M (CWorld P) A) : preserves unmoved (in_dcache m).
Proof. intros w a w'. unfold in_dcache. destruct (m (sw_dcache w)) as [[b c]|]; [|done]. by intros [= _ <-]. Qed.

Ltac unmoved_prim :=
  first [apply unmoved_in_dcache
        | apply preserves_modify; intros ?; split; reflexivity
        | apply preserves_modify; intros ?; case_decide; split; reflexivity].

Lemma unmoved_llsc a r : preserves unmoved (Sequencer_handleLlsc a r : M (SWorld P) _).
Proof. pres by unmoved_prim. Qed.
Lemma unmoved_block a t : preserves unmoved (block_line a t : M (SWorld P) _).
Proof. pres by unmoved_prim. Qed.
Lemma unmoved_latency c t m e i a b d f : preserves unmoved (Sequencer_recordMissLatency c t m e i a b d f : M (SWorld P) _).
Proof. pres by unmoved_prim. Qed.

(** ** Answers *)

(** An answer ends with the test whether a drain is complete. *)
Definition drained w : DrainState :=
  if bool_decide (sw_drainState w = Draining) && (sq_m_outstanding_count (sw_seq w) =? 0) then Drained else sw_drainState w.
Record settled w w' : Prop := {
  se_drain : sw_drainState w' = drained w;
  se_event : event w' = event w;
  se_sizes : table_sizes (sw_seq w') = table_sizes (sw_seq w);
  se_count : sq_m_outstanding_count (sw_seq w') = sq_m_outstanding_count (sw_seq w);
  se_next : next_check w ≤ next_check w';
}.
Definition normal w : Prop := sw_warmup w = false ∧ sw_cooldown w = false.
Definition settles {A} (m : M (SWorld P) A) : Prop := ∀ w a w', normal w → m w = Ok (a, w') → settled w w'.

Lemma settles_after {A B} (m : M (SWorld P) A) (k : A → M (SWorld P) B) :
  preserves unmoved m → (∀ a, settles (k a)) → settles (m ≫= k).
Proof.
  intros Hm Hk w b w' [Hw Hc] (a & w1 & E1 & E2)%bind_Ok. destruct (Hm _ _ _ E1) as [D1 V1 S1 C1 W1 L1 N1].
  destruct (Hk a w1 b w' ltac:(split; congruence) E2) as [D2 V2 S2 K2 N2]. unfold drained in *. rewrite D1, C1 in D2.
  split; [exact D2|congruence..|lia].
Qed.

Lemma settles_gets {B} (f : SWorld P → bool) (k : bool → M (SWorld P) B) :
  (∀ w, normal w → f w = false) → settles (k false) → settles (b ← gets f; k b).
Proof. intros Hf Hk w b w' Hw E. rewrite (bind_run _ _ _ _ _ eq_refl), (Hf w Hw) in E. by eapply Hk. Qed.

Lemma settles_drain : settles (RubyPort_testDrainComplete : M (SWorld P) _).
Proof.
  intros w [] w' _ E. unfold RubyPort_testDrainComplete in E. do 2 rewrite (bind_run _ _ _ _ _ eq_refl) in E.
  unfold drained. destruct (bool_decide _ && _) eqn:Hb; injection E as <-; (split; [|done..]);
    [by unfold drained; rewrite Hb|unfold drained; by rewrite Hb].
Qed.

Lemma settles_ret {A B} (m : M (SWorld P) A) (b : B) : settles m → settles (m ;; mret b).
Proof. intros Hm w a w' Hw (c & w1 & E & [= _ <-])%bind_Ok. by eapply Hm. Qed.

Lemma settles_hit r data ok rs : settles (Sequencer_hitCallback r data ok rs : M (SWorld P) _).
Proof.
  unfold Sequencer_hitCallback. cbv zeta.
  apply settles_after; [pres by unmoved_prim|intros now]. apply settles_after; [pres by unmoved_prim|intros _].
  apply settles_after; [apply unmoved_latency|intros _]. apply settles_after; [pres by unmoved_prim|intros k].
  apply settles_gets; [by intros w []|]. apply settles_gets; [by intros w []|].
  apply settles_after; [pres by unmoved_prim|intros [d b]]. apply settles_after; [pres by unmoved_prim|intros _].
  apply settles_after; [pres by unmoved_prim|intros _]. apply settles_ret.
  apply settles_after; [pres by unmoved_prim|intros _]. apply settles_drain.
Qed.

Lemma assert_returned b site w u w' : assertM b site w = Ok (u, w') → w' = w.
Proof. unfold assertM. destruct b; [|done]. by intros [= _ <-]. Qed.

(** Taking a request out of its table, and what follows. *)
Definition takes_out (f : Sequencer → Sequencer) : Prop :=
  ∀ x, sq_deadlockCheckEvent (f x) = sq_deadlockCheckEvent x ∧ sq_m_deadlock_threshold (f x) = sq_m_deadlock_threshold x ∧
    (table_sizes x = 0 → table_sizes (f x) = 0).

Lemma takes_write a : takes_out (λ x, x <| sq_m_writeRequestTable ::= delete a |>).
Proof.
  intros x. split_and!; [done..|]. unfold table_sizes. simpl. intros H.
  assert (size (sq_m_writeRequestTable x) = 0%nat) as E%map_size_empty_inv by lia. rewrite E, delete_empty, map_size_empty. lia.
Qed.
Lemma takes_read a : takes_out (λ x, x <| sq_m_readRequestTable ::= delete a |>).
Proof.
  intros x. split_and!; [done..|]. unfold table_sizes. simpl. intros H.
  assert (size (sq_m_readRequestTable x) = 0%nat) as E%map_size_empty_inv by lia. rewrite E, delete_empty, map_size_empty. lia.
Qed.

Lemma settled_watched w w' :
  sq_m_outstanding_count (sw_seq w') = table_sizes (sw_seq w') →
  (∀ t, event w = Some t → sw_drainState w ≠ Draining ∧ t ≤ next_check w) →
  (sw_drainState w ≠ Draining → idle w ∨ is_Some (event w)) →
  settled w w' → watched w'.
Proof.
  intros Hc He Hr [D V S K Hn]. rewrite K, S in Hc. unfold drained in D. split; unfold idle in *; rewrite ?V, ?S.
  - intros t Ht. destruct (He t Ht) as [Hd Hle]. split; [|lia]. rewrite D, bool_decide_eq_false_2 by done. done.
  - rewrite D. destruct (bool_decide_reflect (sw_drainState w = Draining)); [|done]. simpl.
    destruct (Z.eqb_spec (sq_m_outstanding_count (sw_seq w)) 0); [done|]. by rewrite <- Hc.
  - rewrite D. destruct (bool_decide_reflect (sw_drainState w = Draining)); [|by auto]. simpl.
    destruct (Z.eqb_spec (sq_m_outstanding_count (sw_seq w)) 0) as [E0|]; [|done]. intros _. left. by rewrite <- Hc, E0.
Qed.

Lemma answer_watched {A} f (m : M (SWorld P) A) w a w' :
  takes_out f → settles m → (upd_seq f ;; Sequencer_markRemoved ;; m) w = Ok (a, w') → normal w →
  sq_m_outstanding_count (sw_seq w') = table_sizes (sw_seq w') → watched w → watched w'.
Proof.
  intros Hf Hm E Hno Hc [He Hd Hr]. rewrite (bind_run _ _ _ _ _ eq_refl) in E. apply bind_Ok in E as ([] & w2 & E1 & E).
  set (w1 := w <| sw_seq ::= f |> <| sw_seq ::= λ x, x <| sq_m_outstanding_count ::= Z.pred |> |>).
  assert (w2 = w1) as ->.
  { unfold Sequencer_markRemoved, count_check, assertM in E1. do 2 rewrite (bind_run _ _ _ _ _ eq_refl) in E1.
    destruct (_ =? _); [|done]. by injection E1. }
  destruct (Hf (sw_seq w)) as (Ev & Et & Hs). apply (settled_watched w1); [done| | |exact (Hm w1 a w' Hno E)].
  - intros t Ht. unfold event, next_check in *. simpl in *. rewrite Ev in Ht. rewrite Et. by apply He.
  - intros Hdr. unfold event, idle in *. simpl. rewrite Ev. destruct (Hr Hdr) as [Hi|?]; [left; by apply Hs|by right].
Qed.

Lemma read_watched a data r w d w' :
  Sequencer_readCallback a data r w = Ok (d, w') → normal w →
  sq_m_outstanding_count (sw_seq w') = table_sizes (sw_seq w') → watched w → watched w'.
Proof.
  intros E. unfold Sequencer_readCallback in E. apply bind_Ok in E as ([] & w1 & ->%assert_returned & E). rewrite (bind_run _ _ _ _ _ eq_refl) in E. apply bind_Ok in E as ([] & w1 & ->%assert_returned & E). destruct (_ !! a) as [rq|]; [|done].
  eapply answer_watched; [apply takes_read| |exact E]. apply settles_after; [pres by unmoved_prim|intros _]. apply settles_hit.
Qed.
Lemma write_watched a data r w d w' :
  Sequencer_writeCallback a data r w = Ok (d, w') → normal w →
  sq_m_outstanding_count (sw_seq w') = table_sizes (sw_seq w') → watched w → watched w'.
Proof.
  intros E. unfold Sequencer_writeCallback in E. apply bind_Ok in E as ([] & w1 & ->%assert_returned & E). rewrite (bind_run _ _ _ _ _ eq_refl) in E. apply bind_Ok in E as ([] & w1 & ->%assert_returned & E). destruct (_ !! a) as [rq|]; [|done].
  eapply answer_watched; [apply takes_write| |exact E]. apply settles_after; [pres by unmoved_prim|intros _].
  apply settles_after; [pres by unmoved_prim|intros st]. apply settles_after; [destruct st; pres by first [apply unmoved_llsc|unmoved_prim]|intros ok].
  apply settles_after; [apply unmoved_block|intros _]. apply settles_hit.
Qed.

(** ** Requests *)

(** What follows after the check has been scheduled. *)
Record grows w w' : Prop := {
  gr_drain : sw_drainState w' = sw_drainState w;
  gr_event : event w' = event w;
  gr_sizes : table_sizes (sw_seq w) ≤ table_sizes (sw_seq w');
  gr_next : next_check w' = next_check w;
}.
#[export] Instance grows_preorder : PreOrder grows.
Proof. split; [by intros w|]. intros w1 w2 w3 [] []. split; congruence || lia. Qed.

Lemma size_insert_le {A} (m : gmap Z A) a x : (size m ≤ size (<[a := x]> m))%nat.
Proof. destruct (m !! a) eqn:E; [erewrite map_size_insert_Some by done|rewrite map_size_insert_None by done]; lia. Qed.

Ltac grows_prim :=
  apply preserves_modify; intros ?; split; try reflexivity;
  unfold table_sizes; simpl; try lia;
  match goal with |- context [size (<[?a := ?x]> ?m)] => pose proof (size_insert_le m a x); lia end.

Lemma grows_insert a p t : preserves grows ((if is_store t then insert_write else insert_read) a p t : M (SWorld P) _).
Proof. destruct (is_store t); pres by grows_prim. Qed.
Lemma grows_issue p t : preserves grows (Sequencer_issueRequest p t : M (SWorld P) _).
Proof. pres by grows_prim. Qed.

(** A state in which a request may enter a table. *)
Record ready w : Prop := {
  re_event t : event w = Some t → sw_drainState w ≠ Draining ∧ t ≤ next_check w;
  re_draining : sw_drainState w = Draining → ¬ idle w;
  re_running : sw_drainState w ≠ Draining → is_Some (event w);
}.
Lemma grows_ready w w' : grows w w' → ready w → ready w'.
Proof.
  intros [D V S N] [He Hd Hr]. split; rewrite ?D, ?V, ?N; [done| |done]. intros Hw. specialize (Hd Hw).
  unfold idle, table_sizes in *. lia.
Qed.
Lemma ready_watched w : ready w → watched w.
Proof. intros [He Hd Hr]. split; [done..|]. right. auto. Qed.

Lemma run_schedule_check w :
  schedule_check w = Ok (tt, w <| sw_seq ::= λ x, x <| sq_deadlockCheckEvent := Some (next_check w) |> |>).
Proof. reflexivity. Qed.

Lemma insertRequest_ready p t w s w' : watched w → Sequencer_insertRequest p t w = Ok (s, w') → ready w'.
Proof.
  intros [He Hd Hr] E. unfold Sequencer_insertRequest in E. apply bind_Ok in E as (u & w1 & E1 & E).
  assert (w1 = w) as ->.
  { unfold count_check, assertM in E1. rewrite (bind_run _ _ _ _ _ eq_refl) in E1. destruct (_ =? _); [|done]. by injection E1. }
  do 2 rewrite (bind_run _ _ _ _ _ eq_refl) in E. apply bind_Ok in E as ([] & w2 & E2 & E).
  assert (Ha : ready w2).
  { destruct (bool_decide_reflect (sq_deadlockCheckEvent (sw_seq w) = None)) as [Hn|Hn];
      [destruct (bool_decide_reflect (sw_drainState w = Draining)) as [Hw|Hw]|]; simpl in E2;
      [|rewrite run_schedule_check in E2|]; injection E2 as <-.
    - by split.
    - split; [|done|by eexists]. intros t' [= <-]. done.
    - split; [done..|]. intros _. by apply not_eq_None_Some. }
  clear E1 E2. revert Ha. revert E.
  match goal with |- ?m w2 = _ → _ => cut (preserves grows m); [intros H E; exact (grows_ready _ _ (H _ _ _ E))|] end.
  pres by first [apply grows_insert | grows_prim].
Qed.

Lemma make_watched p w s w' : Sequencer_makeRequest p w = Ok (s, w') → watched w → watched w'.
Proof.
  intros E Hwa. unfold Sequencer_makeRequest in E. rewrite (bind_run _ _ _ _ _ eq_refl) in E.
  destruct (_ <=? _); [by injection E as <- <-|]. apply bind_Ok in E as (k & w1 & E1 & E).
  assert (w1 = w) as ->. { unfold get_pkt in E1. rewrite (bind_run _ _ _ _ _ eq_refl) in E1. destruct (_ !! p); [|done]. by injection E1. }
  rewrite (bind_run _ _ _ _ _ eq_refl) in E. apply bind_Ok in E as ([t t2] & w2 & E2 & E).
  assert (w2 = w) as ->. { unfold lift in E2. destruct (request_types _ k); [|done]. by injection E2. }
  apply bind_Ok in E as (status & w3 & E3 & E). pose proof (insertRequest_ready _ _ _ _ _ Hwa E3) as Hre.
  apply ready_watched. destruct (negb _); [by injection E as _ <-|]. apply bind_Ok in E as ([] & w4 & E4 & E).
  injection E as _ <-. exact (grows_ready _ _ (grows_issue _ _ _ _ _ E4) Hre).
Qed.

(** ** The check *)
Definition warned (e : seq_event) : option Z := match e with EvWarnDeadlock a => Some a | _ => None end.

(** The addresses of the requests of a table that have waited too long. *)
Definition late_one w (now threshold : Z) (x : Z * SequencerRequest) : option Z :=
  if now - sr_issue_time x.2 <? threshold then None else rp_addr <$> sw_pkts w !! sr_pkt x.2.
Definition late (w : SWorld P) (table : gmap Z SequencerRequest) : list Z :=
  omap (late_one w (sw_curCycle w) (sq_m_deadlock_threshold (sw_seq w))) (map_to_list table).

Definition traced (l : list seq_event) w : SWorld P := w <| sw_trace ::= λ t, t ++ l |>.

Lemma traced_app l l' w : traced l' (traced l w) = traced (l ++ l') w.
Proof. unfold traced. destruct w. simpl. by rewrite <- app_assoc. Qed.

Lemma traced_nil w : traced [] w = w.
Proof. unfold traced. destruct w. simpl. by rewrite app_nil_r. Qed.

(** The body of the loop. *)
Definition warn_one (now threshold : Z) (x : Z * SequencerRequest) : M (SWorld P) () :=
  let '(_, r) := x in
  waited ← lift (cycles_sub now (sr_issue_time r));
  if waited <? threshold then mret tt
  else
    gnet ← gets sw_gnet;
    (if (gnet : bool) then emit EvScanNetwork else fail (NullDeref "Sequencer::gnet")) ;;
    k ← get_pkt (sr_pkt r);
    emit (EvWarnDeadlock (rp_addr k)).

(** A request under way has a packet, and was issued before. *)
Definition issued_before w (now : Z) (r : SequencerRequest) : Prop :=
  is_Some (sw_pkts w !! sr_pkt r) ∧ sr_issue_time r ≤ now.

Lemma run_waited {W} (w : W) now r : sr_issue_time r ≤ now → lift (cycles_sub now (sr_issue_time r)) w = Ok (now - sr_issue_time r, w).
Proof. intros H. unfold lift, cycles_sub. by destruct (Z.leb_spec (sr_issue_time r) now); [|lia]. Qed.

Lemma run_warn_one w now threshold x t :
  sw_gnet w = true → issued_before w now x.2 →
  ∃ l, warn_one now threshold x (traced t w) = Ok (tt, traced (t ++ l) w) ∧
    omap warned l = omap (late_one w now threshold) [x] ∧ omap ev_issued l = [] ∧ omap ev_done l = [].
Proof.
  intros Hg [[k Hk] Hn]. destruct x as [a r]. unfold warn_one, late_one. simpl in *.
  rewrite (bind_run _ _ _ _ _ (run_waited (traced t w) now r Hn)). destruct (now - sr_issue_time r <? threshold).
  { exists []. by rewrite app_nil_r. }
  exists [EvScanNetwork; EvWarnDeadlock (rp_addr k)]. rewrite Hk. split_and!; [|done..].
  rewrite (bind_run _ _ _ true (traced t w)) by (unfold gets; simpl; by rewrite Hg).
  rewrite (bind_run _ _ _ tt (traced [EvScanNetwork] (traced t w))) by done.
  rewrite (bind_run _ _ _ _ _ (run_get_pkt (traced [EvScanNetwork] (traced t w)) _ k Hk)).
  trans (Ok (tt, traced [EvWarnDeadlock (rp_addr k)] (traced [EvScanNetwork] (traced t w)))); [done|].
  rewrite !traced_app. by rewrite <- ?app_assoc.
Qed.

Lemma run_warn_all w now threshold rs t :
  sw_gnet w = true → Forall (λ x, issued_before w now x.2) rs →
  ∃ l, for_each rs (warn_one now threshold) (traced t w) = Ok (tt, traced (t ++ l) w) ∧
    omap warned l = omap (late_one w now threshold) rs ∧ omap ev_issued l = [] ∧ omap ev_done l = [].
Proof.
  intros Hg Hrs. revert t. induction Hrs as [|x rs Hx Hrs IH]; intros t; [exists []; by rewrite app_nil_r|].
  destruct (run_warn_one w now threshold x t Hg Hx) as (l1 & E1 & Hw1 & Hi1 & Hd1).
  destruct (IH (t ++ l1)) as (l2 & E2 & Hw2 & Hi2 & Hd2). exists (l1 ++ l2).
  change (x :: rs) with ([x] ++ rs). rewrite !omap_app, Hw1, Hw2, Hi1, Hi2, Hd1, Hd2. split_and!; [|done..].
  cbn [app for_each]. rewrite (bind_run _ _ _ _ _ E1). by rewrite E2, app_assoc.
Qed.

Lemma run_warn_overdue w table :
  sw_gnet w = true → (∀ a r, table !! a = Some r → issued_before w (sw_curCycle w) r) →
  ∃ l, warn_overdue table w = Ok (tt, traced l w) ∧ omap warned l = late w table ∧
    omap ev_issued l = [] ∧ omap ev_done l = [].
Proof.
  intros Hg Hp. unfold warn_overdue, late. do 2 rewrite (bind_run _ _ _ _ _ eq_refl).
  destruct (run_warn_all w (sw_curCycle w) (sq_m_deadlock_threshold (sw_seq w)) (map_to_list table) [] Hg) as (l & E & Hl).
  { apply Forall_forall. intros [a r] Hr%elem_of_map_to_list. by eapply Hp. }
  exists l. rewrite traced_nil in E. split; [exact E|exact Hl].
Qed.

(** Without a Garnet network the pointer is null. *)
Lemma run_warn_null w now threshold rs :
  sw_gnet w = false → Forall (λ x, issued_before w now x.2) rs →
  for_each rs (warn_one now threshold) w =
    match omap (late_one w now threshold) rs with [] => Ok (tt, w) | _ => Abort (NullDeref "Sequencer::gnet") end.
Proof.
  intros Hg Hrs. induction Hrs as [|[a r] rs [[k Hk] Hn] Hrs IH]; [done|]. simpl in Hk, Hn.
  cbn [omap list_omap for_each]. unfold late_one at 1. simpl (snd _). destruct (now - sr_issue_time r <? threshold) eqn:Ho.
  - rewrite (bind_run _ _ _ tt w); [done|]. unfold warn_one. rewrite (bind_run _ _ _ _ _ (run_waited w now r Hn)). by rewrite Ho.
  - rewrite Hk. simpl. apply bind_abort. rewrite (bind_run _ _ _ _ _ (run_waited w now r Hn)), Ho. unfold mbind, M_bind, gets. simpl. by rewrite Hg.
Qed.

Lemma run_warn_any w table :
  (∀ a r, table !! a = Some r → issued_before w (sw_curCycle w) r) →
  if decide (sw_gnet w = true ∨ late w table = [])
  then ∃ l, warn_overdue table w = Ok (tt, traced l w) ∧ omap warned l = late w table ∧
    omap ev_issued l = [] ∧ omap ev_done l = []
  else warn_overdue table w = Abort (NullDeref "Sequencer::gnet").
Proof.
  intros Hp. destruct (sw_gnet w) eqn:Hg; [rewrite decide_True by (by left); by apply run_warn_overdue|].
  assert (E : warn_overdue table w =
    match late w table with [] => Ok (tt, w) | _ => Abort (NullDeref "Sequencer::gnet") end).
  { unfold warn_overdue. do 2 rewrite (bind_run _ _ _ _ _ eq_refl). apply run_warn_null; [done|].
    apply Forall_forall. intros [a r] Hr%elem_of_map_to_list. by eapply Hp. }
  rewrite E. destruct (late w table) as [|a l]; [|by rewrite decide_False by naive_solver].
  rewrite decide_True by (by right). exists []. by rewrite traced_nil.
Qed.

Lemma late_traced l w table : late (traced l w) table = late w table.
Proof. done. Qed.

Lemma run_warn_tables w r t :
  (∀ a x, r !! a = Some x → issued_before w (sw_curCycle w) x) → (∀ a x, t !! a = Some x → issued_before w (sw_curCycle w) x) →
  if decide (sw_gnet w = true ∨ late w r ++ late w t = [])
  then ∃ l1 l2, warn_overdue r w = Ok (tt, traced l1 w) ∧ warn_overdue t (traced l1 w) = Ok (tt, traced (l1 ++ l2) w) ∧
    omap warned (l1 ++ l2) = late w r ++ late w t ∧ omap ev_issued (l1 ++ l2) = [] ∧ omap ev_done (l1 ++ l2) = []
  else warn_overdue r w = Abort (NullDeref "Sequencer::gnet") ∨
    ∃ l1, warn_overdue r w = Ok (tt, traced l1 w) ∧ warn_overdue t (traced l1 w) = Abort (NullDeref "Sequencer::gnet").
Proof.
  intros Hr Ht. pose proof (run_warn_any w r Hr) as Er. destruct (decide (sw_gnet w = true ∨ late w r = [])) as [Hl|Hl].
  - destruct Er as (l1 & E1 & W1 & I1 & D1). pose proof (run_warn_any (traced l1 w) t Ht) as Et.
    rewrite late_traced in Et. destruct (decide (sw_gnet (traced l1 w) = true ∨ late w t = [])) as [Hl'|Hl'].
    + rewrite decide_True. 2:{ destruct Hl as [?|El]; [by left|]. destruct Hl' as [?|El']; [by left|right]. by rewrite El, El'. }
      destruct Et as (l2 & E2 & W2 & I2 & D2). exists l1, l2. rewrite !omap_app, W1, W2, I1, I2, D1, D2.
      rewrite traced_app in E2. by split_and!.
    + rewrite decide_False. 2:{ intros [?|[_ E]%app_nil]; apply Hl'; [by left|by right]. }
      right. by exists l1.
  - rewrite decide_False; [by left|]. intros [?|[E _]%app_nil]; apply Hl; [by left|by right].
Qed.

(** The check of the sequencer, in a state of the run. *)
Definition rearm w : option Z := if decide (idle w) then None else Some (next_check w).
Definition checked (l : list seq_event) w : SWorld P :=
  traced l (w <| sw_seq ::= λ x, x <| sq_deadlockCheckEvent := rearm w |> |>).

Lemma run_check_event x0 V N standalone x86 w :
  seq_ok x0 V N standalone x86 w → sw_drainState w ≠ Draining →
  let l := late w (sq_m_readRequestTable (sw_seq w)) ++ late w (sq_m_writeRequestTable (sw_seq w)) in
  if decide (sw_gnet w = true ∨ l = [])
  then ∃ l', deadlockCheckEvent_process w = Ok (tt, checked l' w) ∧ omap warned l' = l ∧
    omap ev_issued l' = [] ∧ omap ev_done l' = []
  else deadlockCheckEvent_process w = Abort (NullDeref "Sequencer::gnet").
Proof.
  intros [_ _ _ [Hcount _ _ Hw Hr] _] Hd l. set (w0 := w <| sw_seq ::= λ x, x <| sq_deadlockCheckEvent := None |> |>).
  pose proof (run_warn_tables w0 (sq_m_readRequestTable (sw_seq w)) (sq_m_writeRequestTable (sw_seq w))) as H.
  change (late w0 (sq_m_readRequestTable (sw_seq w)) ++ late w0 (sq_m_writeRequestTable (sw_seq w))) with l in H.
  change (sw_gnet w0) with (sw_gnet w) in H. unfold deadlockCheckEvent_process, Sequencer_wakeup.
  do 2 rewrite (bind_run _ _ _ _ _ eq_refl). rewrite (bind_run _ _ w0 tt w0) by (by unfold assertM; rewrite bool_decide_eq_false_2).
  rewrite (bind_run _ _ w0 (sq_m_readRequestTable (sw_seq w)) w0) by done. case_decide.
  - destruct H as (l1 & l2 & E1 & E2 & Hl).
    + intros a x Hx. destruct (Hr a x Hx) as [[(k & E & _) Hi] _]. split; [by exists k|exact Hi].
    + intros a x Hx. destruct (Hw a x Hx) as [[(k & E & _) Hi] _]. split; [by exists k|exact Hi].
    + exists (l1 ++ l2). split; [|exact Hl]. rewrite (bind_run _ _ _ _ _ E1), (bind_run _ _ _ _ _ eq_refl).
      rewrite (bind_run _ _ _ _ _ E2), (bind_run _ _ _ _ _ eq_refl). unfold id.
      rewrite (bind_run _ _ _ tt (traced (l1 ++ l2) w0)).
      2:{ unfold assertM. simpl. rewrite Hcount. unfold table_sizes. simpl. by rewrite Z.eqb_refl. }
      unfold checked, rearm, idle. simpl (sq_m_outstanding_count _). rewrite Hcount.
      destruct (Z.ltb_spec 0 (table_sizes (sw_seq w))); [rewrite decide_False by lia; by rewrite run_schedule_check|].
      rewrite decide_True by (unfold table_sizes in *; lia). done.
  - destruct H as [E1|(l1 & E1 & E2)].
    + intros a x Hx. destruct (Hr a x Hx) as [[(k & E & _) Hi] _]. split; [by exists k|exact Hi].
    + intros a x Hx. destruct (Hw a x Hx) as [[(k & E & _) Hi] _]. split; [by exists k|exact Hi].
    + by apply bind_abort.
    + rewrite (bind_run _ _ _ _ _ E1), (bind_run _ _ _ _ _ eq_refl). by apply bind_abort.
Qed.


Lemma checked_noise l w : omap ev_issued l = [] → omap ev_done l = [] → noise w (checked l w).
Proof. intros Hi Hd. split; try done; simpl; by rewrite omap_app, ?Hi, ?Hd, app_nil_r. Qed.

(** ** What does not change *)
Record fixed (threshold period : Z) w : Prop := {
  fx_threshold : sq_m_deadlock_threshold (sw_seq w) = threshold;
  fx_period : sw_clockPeriod w = period;
}.
Definition stays_fixed threshold period w w' : Prop := fixed threshold period w → fixed threshold period w'.
#[export] Instance stays_fixed_preorder threshold period : PreOrder (stays_fixed threshold period).
Proof. split; [intros w Ha; exact Ha|]. intros w1 w2 w3 H1 H2 Ha. auto. Qed.

Lemma fixed_in_dcache threshold period {A} (m : M (CWorld P) A) : preserves (stays_fixed threshold period) (in_dcache m).
Proof.
  intros w a w'. unfold in_dcache. destruct (m (sw_dcache w)) as [[b c]|]; [|done]. intros [= _ <-] []. by split.
Qed.

Ltac fixed_prim :=
  first [apply fixed_in_dcache
        | match goal with |- preserves _ ((if is_store ?t then _ else _) _ _ _) => destruct (is_store t); pres by fixed_prim end
        | apply preserves_modify; intros ? []; first [by split | case_decide; by split]].

Lemma fixed_step threshold period op : preserves (stays_fixed threshold period) (watch_exec op).
Proof. destruct op as [[]| | |]; pres by fixed_prim. Qed.

(** ** Runs *)
Section Invariant.
Context (x0 : CacheMemory P) (V N : Z) (standalone x86 : bool) (threshold period : Z).

Record on_watch w : Prop := {
  ow_ok : seq_ok x0 V N standalone x86 w;
  ow_fixed : fixed threshold period w;
  ow_watched : watched w;
}.

Lemma call_watched op w ans w' :
  0 ≤ period → seq_sane op → seq_exec op w = Ok (ans, w') → on_watch w → seq_ok x0 V N standalone x86 w' → watched w'.
Proof.
  intros Hp Hs E [Hok Hfx Hw] Hok'. pose proof (to_count _ _ (so_tables _ _ _ _ _ _ Hok')) as Hc.
  assert (Hn : normal w) by (split; [exact (sc_warmup _ _ _ _ _ (so_config _ _ _ _ _ _ Hok))|exact (sc_cooldown _ _ _ _ _ (so_config _ _ _ _ _ _ Hok))]).
  destruct op as [p|a data r|a data r|a|op|n]; simpl in E.
  - apply bind_Ok in E as (s & w1 & E & [= _ <-]). by eapply make_watched.
  - apply bind_Ok in E as (s & w1 & E & [= _ <-]). by eapply read_watched.
  - apply bind_Ok in E as (s & w1 & E & [= _ <-]). by eapply write_watched.
  - apply (unmoved_watched w); [|done]. revert E. assert (Hp' : preserves unmoved (Sequencer_invalidateSC a : M (SWorld P) _)) by pres by unmoved_prim.
    intros (u & w1 & E & [= _ <-])%bind_Ok. by eapply Hp'.
  - apply (unmoved_watched w); [|done]. apply bind_Ok in E as (s & w1 & E & [= _ <-]). by eapply unmoved_in_dcache.
  - apply (unmoved_watched w); [|done]. injection E as _ <-. destruct Hfx as [Et Ep]. split; try done.
    unfold next_check. simpl in *. rewrite Ep. nia.
Qed.

Lemma drain_watched w d w' :
  sq_m_outstanding_count (sw_seq w) = table_sizes (sw_seq w) → RubyPort_drain w = Ok (d, w') → watched w' ∧ noise w w'.
Proof.
  intros Hc [= _ <-]. split; [|done]. split; simpl; [done| |]; rewrite Hc; unfold idle; simpl.
  - destruct (Z.ltb_spec 0 (table_sizes (sw_seq w))); [|done]. intros _. unfold table_sizes in *. simpl. lia.
  - destruct (Z.ltb_spec 0 (table_sizes (sw_seq w))); [done|]. intros _. left. unfold table_sizes in *. simpl. lia.
Qed.

Lemma resume_watched w w' : Drainable_dmDrainResume w = Ok (tt, w') → watched w → watched w' ∧ noise w w'.
Proof.
  intros E [He Hd Hr]. unfold Drainable_dmDrainResume in E. rewrite (bind_run _ _ _ _ _ eq_refl) in E.
  assert (Hs : sw_drainState w = Drained ∨ sw_drainState w = Resuming).
  { destruct (bool_decide_reflect (sw_drainState w = Drained)); [by left|].
    destruct (bool_decide_reflect (sw_drainState w = Resuming)); [by right|done]. }
  rewrite (bind_run _ _ w tt w) in E by (destruct Hs as [-> | ->]; done). injection E as <-. split; [|done].
  split; simpl; [|done|intros _; apply Hr; by destruct Hs as [-> | ->]].
  intros t Ht. split; [done|]. by apply (He t Ht).
Qed.

Lemma check_watched w w' :
  seq_ok x0 V N standalone x86 w → watched w → is_Some (event w) → deadlockCheckEvent_process w = Ok (tt, w') →
  watched w' ∧ noise w w'.
Proof.
  intros Hok [He Hd Hr] [t Ht] E. destruct (He t Ht) as [Hnd _].
  pose proof (run_check_event _ _ _ _ _ _ Hok Hnd) as H. cbv zeta in H. case_decide; [|congruence].
  destruct H as (l & E' & _ & Hi & Hdn). rewrite E in E'. injection E' as ->.
  split; [|by apply checked_noise]. split; [| |]; unfold event, idle, checked, rearm; simpl.
  - case_decide; [done|]. by intros t' [= <-].
  - done.
  - intros _. case_decide as Hid; [by left|right; by eexists].
Qed.

Lemma watch_step op w u w' : 0 ≤ period → watch_sane op → watch_exec op w = Ok (u, w') → on_watch w → on_watch w'.
Proof.
  intros Hp Hs E Hw. pose proof (fixed_step threshold period op _ _ _ E (ow_fixed w Hw)) as Hfx. destruct Hw as [Hok Hfx0 Hw].
  assert (Hnoise : watched w' ∧ noise w w' → on_watch w') by (intros [? ?]; split; [by eapply noise_ok|done..]).
  destruct u, op as [op| | |]; simpl in E.
  - apply bind_Ok in E as (ans & w1 & E & [= <-]).
    destruct (refines_step _ _ (seq_enabled _ _ _ _ _) (seq_spec _ _ _ _ _) _ _ w op ans w1 Hok Hs E) as (_ & Hok' & _).
    split; [done..|]. by eapply (call_watched op w).
  - apply bind_Ok in E as (d & w1 & E & [= <-]). apply Hnoise. eapply drain_watched; [|exact E].
    exact (to_count _ _ (so_tables _ _ _ _ _ _ Hok)).
  - apply Hnoise. by apply resume_watched.
  - rewrite (bind_run _ _ _ _ _ eq_refl) in E. apply Hnoise. destruct (sq_deadlockCheckEvent (sw_seq w)) eqn:Hev.
    + apply (check_watched w); [done..| |done]. by eexists.
    + injection E as <-. done.
Qed.

Lemma watch_run ops w answers w' :
  0 ≤ period → Forall watch_sane ops → exec_all watch_exec ops w = Ok (answers, w') → on_watch w → on_watch w'.
Proof.
  intros Hp Hs. revert w answers. induction Hs as [|op ops Hop Hs IH]; intros w answers E Hw; [by injection E as _ <-|].
  simpl in E. apply bind_Ok in E as (u & w1 & E1 & E). apply bind_Ok in E as (l & w2 & E2 & [= _ <-]).
  eapply IH; [done|]. by eapply watch_step.
Qed.
End Invariant.
End Watch.

Section Runs.
Context `{MT : MachineTypes} {P : Type} `{RPS : ReplacementPolicySpec P} {BS : BlockSize} {BSS : BlockSizeSpec BS}.

(** The requests that have waited for the threshold, by the addresses of their packets. *)
Definition waits_long (w : SWorld P) (x : Z) : Prop :=
  ∃ a r k, (sq_m_writeRequestTable (sw_seq w) !! a = Some r ∨ sq_m_readRequestTable (sw_seq w) !! a = Some r) ∧
    sw_pkts w !! sr_pkt r = Some k ∧ rp_addr k = x ∧ sq_m_deadlock_threshold (sw_seq w) ≤ sw_curCycle w - sr_issue_time r.

Lemma elem_of_late (w : SWorld P) table x :
  x ∈ late w table ↔ ∃ a r k, table !! a = Some r ∧ sw_pkts w !! sr_pkt r = Some k ∧ rp_addr k = x ∧
    sq_m_deadlock_threshold (sw_seq w) ≤ sw_curCycle w - sr_issue_time r.
Proof.
  unfold late. rewrite list_elem_of_omap. unfold late_one. split.
  - intros ([a r] & Hr%elem_of_map_to_list & Hx). simpl in *.
    destruct (Z.ltb_spec (sw_curCycle w - sr_issue_time r) (sq_m_deadlock_threshold (sw_seq w))); [done|].
    destruct (sw_pkts w !! sr_pkt r) as [k|] eqn:Hk; [|done]. injection Hx as Hx. exists a, r, k. by split_and!.
  - intros (a & r & k & Hr & Hk & Hx & Hle). exists (a, r). split; [by apply elem_of_map_to_list|]. simpl.
    destruct (Z.ltb_spec (sw_curCycle w - sr_issue_time r) (sq_m_deadlock_threshold (sw_seq w))); [lia|].
    rewrite Hk. simpl. by f_equal.
Qed.

Lemma late_tables (w : SWorld P) x :
  x ∈ late w (sq_m_readRequestTable (sw_seq w)) ++ late w (sq_m_writeRequestTable (sw_seq w)) ↔ waits_long w x.
Proof. rewrite elem_of_app, !elem_of_late. unfold waits_long. naive_solver. Qed.

(** What the check does when it takes place.  If no request has waited for the
    threshold it returns, reports nothing, changes nothing else and is scheduled
    again exactly if a request is under way.  Otherwise it does not return without
    having reported the requests that have, and only those. *)
Definition check_reports (w : SWorld P) : Prop :=
  ((∀ x, ¬ waits_long w x) → ∃ w', deadlockCheckEvent_process w = Ok (tt, w') ∧ abstract w' = abstract w ∧
     omap warned (sw_trace w') = omap warned (sw_trace w) ∧
     sq_deadlockCheckEvent (sw_seq w') =
       (if decide (sa_out (abstract w) = ∅) then None
        else Some (sw_clockEdge w + sq_m_deadlock_threshold (sw_seq w) * sw_clockPeriod w))) ∧
  (∀ w', deadlockCheckEvent_process w = Ok (tt, w') →
     ∃ l, omap warned (sw_trace w') = omap warned (sw_trace w) ++ l ∧ ∀ x, x ∈ l ↔ waits_long w x).

Lemma idle_empty x0 V N standalone x86 (w : SWorld P) :
  seq_ok x0 V N standalone x86 w → idle w ↔ sa_out (abstract w) = ∅.
Proof.
  intros Hok. unfold idle. rewrite <- (size_outstanding _ _ (so_tables _ _ _ _ _ _ Hok)). simpl.
  split; intros Hi; [apply map_size_empty_inv; lia|by rewrite Hi].
Qed.

Lemma check_reports_ok x0 V N standalone x86 (w : SWorld P) :
  seq_ok x0 V N standalone x86 w → sw_drainState w ≠ Draining → check_reports w.
Proof.
  intros Hok Hd. pose proof (run_check_event _ _ _ _ _ _ Hok Hd) as H. cbv zeta in H. split.
  - intros Hn. rewrite decide_True in H. 2:{ right. apply elem_of_nil_inv. intros x Hx%late_tables. by destruct (Hn x). }
    destruct H as (l & E & Hl & Hi & Hdn). exists (checked l w). split; [done|].
    split; [by apply noise_abstract, checked_noise|]. split.
    + simpl. rewrite omap_app, Hl. replace (_ ++ late _ _) with (@nil Z); [by rewrite app_nil_r|].
      symmetry. apply elem_of_nil_inv. intros x Hx%late_tables. by destruct (Hn x).
    + simpl. unfold rearm, next_check. apply decide_ext. by eapply idle_empty.
  - intros w' E. case_decide; [|congruence]. destruct H as (l & E' & Hl & _ & _). rewrite E in E'. injection E' as ->.
    eexists. split; [simpl; by rewrite omap_app, Hl|]. intros x. apply late_tables.
Qed.

(** C8.  The watch for deadlock, over any run of a new sequencer in which the
    drain manager may drain and resume it and the check takes place when it is
    scheduled.  As long as a request is under way the check is scheduled, no
    later than the threshold from now, unless the sequencer is draining; then it
    is not scheduled, so that the assertion against it cannot fail, and the
    draining is over as soon as no request is under way.  When the check takes
    place and no request has waited for the threshold it reports nothing, changes
    nothing and is scheduled again exactly if a request is under way; and it
    never returns without having reported each request that has waited for the
    threshold, and no other. *)
Theorem deadlock_watch sp sq q dc pkts cycle edge period x86 gnet ops answers w :
  cache_ok dc → Sequencer_ctor sp = Ok sq → sp_using_ruby_tester sp = false →
  sp_max_outstanding_requests sp < 2 ^ 31 → (∀ p k, pkts !! p = Some k → 0 ≤ rp_addr k < 2 ^ 64) →
  0 ≤ period → Forall watch_sane ops →
  exec_all watch_exec ops (new_world x86 sq q dc pkts cycle edge period gnet) = Ok (answers, w) →
  (sa_out (abstract w) ≠ ∅ → sw_drainState w ≠ Draining → is_Some (sq_deadlockCheckEvent (sw_seq w))) ∧
  (∀ t, sq_deadlockCheckEvent (sw_seq w) = Some t →
     sw_drainState w ≠ Draining ∧ t ≤ sw_clockEdge w + sp_deadlock_threshold sp * period) ∧
  (sw_drainState w = Draining → sa_out (abstract w) ≠ ∅) ∧
  (is_Some (sq_deadlockCheckEvent (sw_seq w)) → check_reports w).
Proof.
  intros Hdc Hc Ht Hb Hp Hper Hs E.
  destruct (watch_run (cw_cache dc) (sp_version sp) (sp_max_outstanding_requests sp) (sp_garnet_standalone sp) x86
    (sp_deadlock_threshold sp) period ops _ answers w Hper Hs E) as [Hok [Eth Epe] [He Hd Hr]].
  { split; [by eapply new_world_ok|..]; apply Sequencer_ctor_Ok in Hc as (_ & _ & _ & ->); [done|]. by split; [| |left]. }
  pose proof (idle_empty _ _ _ _ _ _ Hok) as Hid. unfold event, next_check in *. rewrite Eth, Epe in He. split_and!.
  - intros Hne Hdr. destruct (Hr Hdr); [tauto|done].
  - exact He.
  - tauto.
  - intros [t Hev]. eapply check_reports_ok; [done|]. by apply (He t).
Qed.
End Runs.

(** ** A sample run

    After the calls of the sample run the check takes place, reports the two
    requests under way and is scheduled again; the read is answered; the
    sequencer is drained, which is complete with the answer to the
    store-conditional, and resumed; and the read is made again. *)
#[local] Existing Instance two_types.
#[local] Existing Instance block_64.

Definition sample_watch : list watch_op :=
  (WCall <$> sample_calls) ++
  [WCheck; WCall (SRead 64 zero_line sample_response); WDrain; WCall (SWrite 0 zero_line sample_response); WResume;
   WCall (SMake 2); WCall (SAdvance 50)].
Definition sample_watch_end : SWorld PseudoLRUPolicy :=
  match exec_all watch_exec sample_watch sample_start with Ok (_, w) => w | Abort _ => sample_start end.

Lemma deadlock_watch_witness :
  omap warned (sw_trace sample_watch_end) = [64; 8] ∧ sw_drainState sample_watch_end = Running ∧
  is_Some (sq_deadlockCheckEvent (sw_seq sample_watch_end)) ∧ waits_long sample_watch_end 64 ∧
  ∀ w', deadlockCheckEvent_process sample_watch_end = Ok (tt, w') →
    ∃ l, omap warned (sw_trace w') = [64; 8] ++ l ∧ 64 ∈ l.
Proof.
  assert (Hwarn : omap warned (sw_trace sample_watch_end) = [64; 8]) by (vm_compute; reflexivity).
  assert (Hdr : sw_drainState sample_watch_end = Running) by (vm_compute; reflexivity).
  assert (Hlong : waits_long sample_watch_end 64).
  { exists 64, (mkSequencerRequest 2 LD 110), ((sample_packet 64 false false) <| rp_data := [0; 0] |>).
    split; [right; vm_compute; reflexivity|]. split; [vm_compute; reflexivity|]. split; [reflexivity|vm_compute; discriminate]. }
  destruct (exec_all watch_exec sample_watch sample_start) as [[answers w]|] eqn:E; [|vm_compute in E; discriminate E].
  assert (Ew : w = sample_watch_end) by (unfold sample_watch_end; rewrite E; reflexivity). rewrite Ew in E.
  destruct (deadlock_watch sample_seq_params sample_seq 7 sample_world sample_packets 10 5000 500 false true
    sample_watch answers sample_watch_end) as (H1 & _ & _ & H4).
  - exact sample_world_ok.
  - reflexivity.
  - reflexivity.
  - simpl. lia.
  - exact sample_packets_ok.
  - lia.
  - apply Forall_app. split; [apply Forall_fmap; exact sample_calls_sane|]. repeat constructor; simpl; lia.
  - exact E.
  - assert (Hev : is_Some (sq_deadlockCheckEvent (sw_seq sample_watch_end))).
    { apply H1; [vm_compute; discriminate|rewrite Hdr; discriminate]. }
    split; [exact Hwarn|]. split; [exact Hdr|]. split; [exact Hev|]. split; [exact Hlong|].
    intros w' Ew'. destruct (proj2 (H4 Hev) w' Ew') as (l & Hl & Hx). exists l. rewrite <- Hwarn.
    split; [exact Hl|apply Hx; exact Hlong].
Defined.
