(* ===== verification/DMATheory.v ===== *)
(** * Correctness of the DMA sequencer

    A request is a list of pieces, of which the first is under way: the counts of
    completed and issued bytes implement this list.  The pieces of a packet cover
    its bytes in order, each of them in one line. *)

From S2P Require Import Prelude Refinement NetDestModel AddrRangeModel CommonTypes AddressModel ReplacementModel CacheMemoryModel DataBlockModel SequencerModel DMASequencerModel AddrRangeTheory AddressTheory.

(** ** The specification *)
Record dma_abs := mkDmaAbs {
  da_out : gmap Z (nat * list (Z * Z));
  da_pkts : gmap nat DMAPacket;
  da_sent : list SequencerMsg;
  da_done : list nat;
  da_now : Z;
}.
#[export] Instance eta_dma_abs : Eta dma_abs := λ x,
  mkDmaAbs (da_out x) (da_pkts x) (da_sent x) (da_done x) (da_now x).

Inductive dma_op := DMake (pkt : nat) | DData (dblk : list Z) (a : Z) | DAck (a : Z) | DTick (ticks : Z).
Inductive dma_answer := DStatus (s : RequestStatus) | DUnit.

Section Pieces.
Context {BS : BlockSize}.

(** [n] bytes from the beginning of the line [a] on, line by line. *)
Fixpoint line_pieces (fuel : nat) (a n : Z) : list (Z * Z) :=
  match fuel with
  | O => []
  | S f => if n <=? 0 then []
           else (a, Z.min m_block_size_bytes n) :: line_pieces f (a + m_block_size_bytes) (n - m_block_size_bytes)
  end.
Definition rest_pieces (a n : Z) : list (Z * Z) := line_pieces (Z.to_nat n) a n.

(** The pieces of a packet: address and length. *)
Definition pieces (k : DMAPacket) : list (Z * Z) :=
  let n := Z.min (dp_size k) (m_block_size_bytes - dp_addr k mod m_block_size_bytes) in
  (dp_addr k, n) :: rest_pieces (dp_addr k + n) (dp_size k - n).

(** The data of the message for a piece: the bytes of a write at their place in the
    line. *)
Definition place (off n : Z) (bytes blk : list Z) : list Z :=
  take (Z.to_nat off) blk ++ take (Z.to_nat n) bytes ++ drop (Z.to_nat (off + n)) blk.
Definition piece_block (k : DMAPacket) (q : Z * Z) : list Z :=
  match dp_data k with
  | Some d => if dp_isWrite k
              then place (q.1 mod m_block_size_bytes) q.2 (drop (Z.to_nat (q.1 - dp_addr k)) d) DataBlock_clear
              else DataBlock_clear
  | None => DataBlock_clear
  end.
Definition piece_msg (now : Z) (k : DMAPacket) (q : Z * Z) : SequencerMsg :=
  mkSequencerMsg now (makeLineAddress q.1) q.1 (dma_type (dp_isWrite k)) (piece_block k q) q.2.

(** The packet after the bytes of a piece have come in a line. *)
Definition received (q : Z * Z) (dblk : list Z) (k : DMAPacket) : DMAPacket :=
  match dp_data k with
  | Some d => k <| dp_data := Some (place (q.1 - dp_addr k) q.2 (drop (Z.to_nat (q.1 mod m_block_size_bytes)) dblk) d) |>
  | None => k
  end.

(** The next piece is sent, or the request is done. *)
Definition advance (a : Z) (p : nat) (k : DMAPacket) (l : list (Z * Z)) (s : dma_abs) : dma_abs :=
  match l with
  | _ :: (q :: _) as l' => s <| da_out ::= <[a := (p, l')]> |> <| da_sent ::= λ m, m ++ [piece_msg (da_now s) k q] |>
  | _ => s <| da_out ::= delete a |> <| da_done ::= λ m, m ++ [p] |>
  end.
End Pieces.

Section DMARun.
Context {BS : BlockSize} {BSS : BlockSizeSpec BS} (N : Z).
#[local] Abbreviation B := m_block_size_bytes.

Definition dma_exec (op : dma_op) : M DWorld dma_answer :=
  match op with
  | DMake p => s ← DMASequencer_makeRequest p; mret (DStatus s)
  | DData dblk a => DMASequencer_dataCallback dblk a ;; mret DUnit
  | DAck a => DMASequencer_ackCallback a ;; mret DUnit
  | DTick t => modify (λ w, w <| dw_clockEdge ::= Z.add t |>) ;; mret DUnit
  end.

Definition dma_sane (op : dma_op) : Prop := match op with DData dblk _ => vsize dblk = B | _ => True end.

Definition dma_full (s : dma_abs) : Prop := Z.of_nat (size (da_out s)) = N.
#[export] Instance dma_full_dec s : Decision (dma_full s).
Proof. unfold dma_full. apply _. Defined.

(** A write without data can only be acknowledged if nothing is left of it. *)
Definition ackable (k : DMAPacket) (l : list (Z * Z)) : Prop :=
  dp_isWrite k = true → (1 < length l)%nat → dp_data k ≠ None.
#[export] Instance ackable_dec k l : Decision (ackable k l).
Proof. unfold ackable. destruct (dp_isWrite k), (decide (1 < length l)%nat), (dp_data k);
  (left; by intros) || (right; naive_solver). Defined.

Definition job (s : dma_abs) (a : Z) : option (nat * DMAPacket * list (Z * Z)) :=
  '(p, l) ← da_out s !! a; k ← da_pkts s !! p; Some (p, k, l).

Definition dma_enabled (s : dma_abs) (op : dma_op) : Prop :=
  match op with
  | DMake p => dma_full s ∨ is_Some (da_pkts s !! p)
  | DData _ a => match job s a with Some (_, k, _) => dp_isWrite k = false | None => False end
  | DAck a => match job s a with Some (_, k, l) => ackable k l | None => False end
  | DTick _ => True
  end.
#[export] Instance dma_enabled_dec s op : Decision (dma_enabled s op).
Proof. destruct op; simpl; repeat case_match; apply _. Defined.

Definition dma_spec (s : dma_abs) (op : dma_op) (ans : dma_answer) (s' : dma_abs) : Prop :=
  match op with
  | DMake p =>
      if decide (dma_full s) then ans = DStatus RequestStatus_BufferFull ∧ s' = s
      else ∃ k, da_pkts s !! p = Some k ∧
        let line := makeLineAddress (dp_addr k) in
        if decide (is_Some (da_out s !! line)) then ans = DStatus RequestStatus_Aliased ∧ s' = s
        else ∃ q l, pieces k = q :: l ∧ ans = DStatus RequestStatus_Issued ∧
          s' = s <| da_out ::= <[line := (p, q :: l)]> |> <| da_sent ::= λ m, m ++ [piece_msg (da_now s) k q] |>
  | DData dblk a => ∃ p k q l, job s a = Some (p, k, q :: l) ∧ ans = DUnit ∧
      s' = advance a p (received q dblk k) (q :: l) (s <| da_pkts ::= <[p := received q dblk k]> |>)
  | DAck a => ∃ p k l, job s a = Some (p, k, l) ∧ ans = DUnit ∧ s' = advance a p k l s
  | DTick t => ans = DUnit ∧ s' = s <| da_now ::= Z.add t |>
  end.

(** ** The invariant *)
Record packet_sane (k : DMAPacket) : Prop := {
  ps_addr : 0 ≤ dp_addr k < 2 ^ 64;
  ps_size : 0 ≤ dp_size k;
  ps_fits : dp_size k + B ≤ 2 ^ 31;
  ps_end : dp_addr k + dp_size k ≤ 2 ^ 64;
  ps_data d : dp_data k = Some d → vsize d = dp_size k;
}.

Record dreq_ok (a : Z) (r : DMARequest) (k : DMAPacket) : Prop := {
  dk_start : dr_start_paddr r = dp_addr k;
  dk_len : dr_len r = dp_size k;
  dk_write : dr_write r = dp_isWrite k;
  dk_line : makeLineAddress (dp_addr k) = a;
  dk_order : 0 ≤ dr_bytes_completed r ≤ dr_bytes_issued r;
  dk_issued : dr_bytes_issued r ≤ dp_size k;
  dk_next : dr_bytes_issued r < dp_size k → (dp_addr k + dr_bytes_issued r) mod B = 0;
  dk_first : dr_bytes_completed r = 0 ∨ (dp_addr k + dr_bytes_completed r) mod B = 0;
  dk_inline : (dp_addr k + dr_bytes_completed r) mod B + (dr_bytes_issued r - dr_bytes_completed r) ≤ B;
}.

Record dma_ok (w : DWorld) : Prop := {
  do_max : dq_m_max_outstanding_requests (dw_seq w) = N;
  do_mask : dq_m_data_block_mask (dw_seq w) = mask m_block_size_bits;
  do_queue : dq_m_mandatory_q_ptr (dw_seq w) ≠ None;
  do_count : dq_m_outstanding_count (dw_seq w) = Z.of_nat (size (dq_m_RequestTable (dw_seq w)));
  do_bound : Z.of_nat (size (dq_m_RequestTable (dw_seq w))) ≤ N;
  do_pkts p k : dw_pkts w !! p = Some k → packet_sane k;
  do_table a r : dq_m_RequestTable (dw_seq w) !! a = Some r →
    ∃ k, dw_pkts w !! dr_pkt r = Some k ∧ dreq_ok a r k;
}.

Definition job_of (r : DMARequest) : nat * list (Z * Z) :=
  (dr_pkt r, (dr_start_paddr r + dr_bytes_completed r, dr_bytes_issued r - dr_bytes_completed r) ::
             rest_pieces (dr_start_paddr r + dr_bytes_issued r) (dr_len r - dr_bytes_issued r)).
Definition ev_sent (e : dma_event) : option SequencerMsg := match e with DmaEnqueue m _ _ => Some m | _ => None end.
Definition ev_hit (e : dma_event) : option nat := match e with DmaHitCallback p => Some p | _ => None end.
Definition dma_abstract (w : DWorld) : dma_abs :=
  mkDmaAbs (job_of <$> dq_m_RequestTable (dw_seq w)) (dw_pkts w) (omap ev_sent (dw_trace w))
    (omap ev_hit (dw_trace w)) (dw_clockEdge w).

(** ** Pieces *)
Lemma block_bounds : 0 < B ≤ 2 ^ 31.
Proof.
  rewrite block_bytes. pose proof block_bits. split; [apply Z.pow_pos_nonneg; lia|apply Z.pow_le_mono_r; lia].
Qed.

Lemma line_pieces_fuel f f' a n : n ≤ Z.of_nat f → n ≤ Z.of_nat f' → line_pieces f a n = line_pieces f' a n.
Proof.
  pose proof block_bounds. revert f' a n. induction f as [|f IH]; intros [|f'] a n Hf Hf'; simpl; try done.
  - destruct (Z.leb_spec n 0); [done|lia].
  - destruct (Z.leb_spec n 0); [done|lia].
  - destruct (Z.leb_spec n 0); [done|]. f_equal. apply IH; lia.
Qed.

Lemma rest_pieces_nil a n : n ≤ 0 → rest_pieces a n = [].
Proof. intros H. unfold rest_pieces. destruct (Z.to_nat n) eqn:E; [done|lia]. Qed.

Lemma rest_pieces_cons a n :
  0 < n → rest_pieces a n = (a, Z.min B n) :: rest_pieces (a + Z.min B n) (n - Z.min B n).
Proof.
  pose proof block_bounds. intros H1. unfold rest_pieces. destruct (Z.to_nat n) as [|f] eqn:E; [lia|]. simpl.
  destruct (Z.leb_spec n 0); [lia|]. f_equal. destruct (Z.le_gt_cases n B).
  - rewrite Z.min_r by lia. rewrite Z.sub_diag. simpl. destruct f; [done|]. simpl. by destruct (Z.leb_spec (n - B) 0); [|lia].
  - rewrite Z.min_l by lia. apply line_pieces_fuel; lia.
Qed.

(** ** Bytes *)
Lemma land_mask x : 0 ≤ x → Z.land x (mask m_block_size_bits) = x mod B.
Proof. intros Hx. pose proof block_bits. rewrite mask_ones, Z.land_ones, block_bytes by lia. done. Qed.

Lemma vsize_clear : vsize DataBlock_clear = B.
Proof. pose proof block_bounds. unfold vsize, DataBlock_clear. rewrite length_replicate. lia. Qed.

Lemma vsize_drop {A} n (l : list A) : 0 ≤ n ≤ vsize l → vsize (drop (Z.to_nat n) l) = vsize l - n.
Proof. unfold vsize. intros H. rewrite length_drop. lia. Qed.

Lemma vsize_place off n bytes b : 0 ≤ off → 0 ≤ n ≤ vsize bytes → off + n ≤ vsize b → vsize (place off n bytes b) = vsize b.
Proof.
  unfold vsize, place. intros H1 H2 H3. rewrite !length_app, !length_take, length_drop. lia.
Qed.

Lemma run_memcpy dst off src n site :
  0 ≤ off → 0 ≤ n ≤ vsize src → off + n ≤ vsize dst → memcpy dst off src n site = Ok (place off n src dst).
Proof.
  intros H1 H2 H3. unfold memcpy. by rewrite !(proj2 (Z.leb_le _ _)) by lia.
Qed.

Lemma run_fits off n site : 0 ≤ off → 0 ≤ n → off + n ≤ B → fits_block off n site = Ok tt.
Proof.
  intros H1 H2 H3. pose proof block_bounds. unfold fits_block, u32. rewrite Z.mod_small by lia. unfold assertO.
  by rewrite (proj2 (Z.leb_le _ _)) by lia.
Qed.

Lemma run_setData data off n b :
  0 ≤ off → 0 ≤ n ≤ vsize data → off + n ≤ B → vsize b = B → DataBlock_setData data off n b = Ok (place off n data b).
Proof. intros H1 H2 H3 H4. unfold DataBlock_setData. rewrite run_fits by lia. apply run_memcpy; lia. Qed.

Lemma run_getData off n b : 0 ≤ off → 0 ≤ n → off + n ≤ B → DataBlock_getData off n b = Ok (drop (Z.to_nat off) b).
Proof. intros H1 H2 H3. unfold DataBlock_getData. by rewrite run_fits. Qed.

(** ** The next piece *)
Lemma run_dma_send w key msg site :
  dq_m_mandatory_q_ptr (dw_seq w) ≠ None →
  dma_send key msg site w =
    Ok (tt, w <| dw_trace ::= λ l, l ++ [DmaEnqueue msg (dw_clockEdge w) (dw_clockPeriod w)] |>
              <| dw_seq ::= λ x, x <| dq_m_RequestTable ::= alter (λ r, r <| dr_bytes_issued ::= Z.add (sm_Len msg) |>) key |> |>).
Proof.
  intros Hq. unfold dma_send. rewrite (bind_run _ _ _ _ _ eq_refl).
  rewrite (bind_run _ _ w tt w); [done|]. unfold assertM. by rewrite bool_decide_eq_false_2.
Qed.

Lemma alter_inserted {A} (f : A → A) (a : Z) x (m : gmap Z A) : alter f a (<[a := x]> m) = <[a := f x]> m.
Proof.
  apply map_eq. intros b. rewrite lookup_alter. destruct (decide (a = b)) as [<-|]; [by rewrite !lookup_insert_eq|].
  by rewrite !lookup_insert_ne.
Qed.

(** A request whose next piece has been sent. *)
Definition moved_on (r : DMARequest) : DMARequest :=
  let n := Z.min B (dr_len r - dr_bytes_issued r) in
  r <| dr_bytes_completed := dr_bytes_issued r |> <| dr_bytes_issued := n + dr_bytes_issued r |>.

Lemma mod_add_min x m : x mod B = 0 → 0 < m → Z.min B m < m → (x + Z.min B m) mod B = 0.
Proof. intros Hx Hm Hl. pose proof block_bounds. rewrite Z.min_l by lia. rewrite <- Zplus_mod_idemp_l, Hx, Z.add_0_l. apply Z.mod_same. lia. Qed.

Lemma moved_on_ok a r k : packet_sane k → dreq_ok a r k → dr_bytes_issued r < dp_size k → dreq_ok a (moved_on r) k.
Proof.
  intros [] [] Hlt. specialize (dk_next0 Hlt). pose proof block_bounds. split; simpl; rewrite ?dk_len0; try done; try lia.
  intros Hn. rewrite (Z.add_comm (Z.min _ _)), Z.add_assoc. apply mod_add_min; [done|lia|lia].
Qed.

Lemma job_moved_on a r k :
  dreq_ok a r k → dr_bytes_issued r < dp_size k →
  (job_of r).2 = (dr_start_paddr r + dr_bytes_completed r, dr_bytes_issued r - dr_bytes_completed r) :: (job_of (moved_on r)).2.
Proof.
  intros [] Hlt. unfold job_of, moved_on. simpl. rewrite rest_pieces_cons by lia. do 2 f_equal; [f_equal; lia|f_equal; lia].
Qed.

Definition next_piece (r : DMARequest) : Z * Z :=
  (dr_start_paddr r + dr_bytes_issued r, Z.min B (dr_len r - dr_bytes_issued r)).

(** The data for the next piece, and the message. *)
Definition next_block (r : DMARequest) : M DWorld (list Z) :=
  if dr_write r then
    k ← get_dma_pkt (dr_pkt r);
    match dp_data k with
    | None => fail (NullDeref "DMASequencer.cc:159")
    | Some data => lift (DataBlock_setData (drop (Z.to_nat (dr_bytes_issued r)) data) 0 (next_piece r).2 DataBlock_clear)
    end
  else mret DataBlock_clear.
Definition send_next (a now : Z) (r : DMARequest) : M DWorld () :=
  blk ← next_block r;
  dma_send a (mkSequencerMsg now (makeLineAddress (next_piece r).1) (next_piece r).1 (dma_type (dr_write r)) blk (next_piece r).2)
    "DMASequencer.cc:163".

Lemma run_pkt p k w : dw_pkts w !! p = Some k → get_dma_pkt p w = Ok (k, w).
Proof. intros Hk. unfold get_dma_pkt. rewrite (bind_run _ _ _ _ _ eq_refl). by rewrite Hk. Qed.

Lemma run_next_block a r k w :
  packet_sane k → dreq_ok a r k → dr_bytes_issued r < dp_size k → dw_pkts w !! dr_pkt r = Some k →
  next_block r w = if bool_decide (dp_isWrite k = true ∧ dp_data k = None) then Abort (NullDeref "DMASequencer.cc:159")
                   else Ok (piece_block k (next_piece r), w).
Proof.
  intros [] [] Hlt Hk. specialize (dk_next0 Hlt). unfold piece_block, next_block, next_piece. simpl.
  rewrite dk_start0, dk_write0, dk_next0, dk_len0. destruct (dp_isWrite k) eqn:Hw.
  2:{ rewrite bool_decide_eq_false_2 by naive_solver. by destruct (dp_data k). }
  rewrite (bind_run _ _ _ _ _ (run_pkt _ k w Hk)). destruct (dp_data k) as [d|] eqn:Ed.
  2:{ by rewrite bool_decide_eq_true_2. }
  rewrite bool_decide_eq_false_2 by naive_solver. specialize (ps_data0 d eq_refl). unfold lift.
  rewrite run_setData; [|lia| |lia|apply vsize_clear].
  - replace (dp_addr k + dr_bytes_issued r - dp_addr k) with (dr_bytes_issued r) by lia. done.
  - pose proof block_bounds. rewrite vsize_drop by lia. lia.
Qed.

Definition completed_world (a : Z) (r : DMARequest) w : DWorld :=
  w <| dw_seq ::= λ x, x <| dq_m_outstanding_count ::= Z.pred |> <| dq_m_RequestTable ::= delete a |> |>
    <| dw_trace ::= λ l, l ++ [DmaHitCallback (dr_pkt r)] |>.
Definition moved_world (a : Z) (r : DMARequest) (k : DMAPacket) w : DWorld :=
  w <| dw_seq ::= λ x, x <| dq_m_RequestTable ::= <[a := moved_on r]> |> |>
    <| dw_trace ::= λ l, l ++ [DmaEnqueue (piece_msg (dw_clockEdge w) k (next_piece r)) (dw_clockEdge w) (dw_clockPeriod w)] |>.

(** The request has made progress, and nothing else happened yet. *)
Definition progressed (a : Z) (r : DMARequest) w : DWorld :=
  w <| dw_seq ::= λ x, x <| dq_m_RequestTable ::= <[a := r <| dr_bytes_completed := dr_bytes_issued r |>]> |> |>.

Lemma issueNext_cases w a r k :
  dma_ok w → dq_m_RequestTable (dw_seq w) !! a = Some r → dw_pkts w !! dr_pkt r = Some k →
  DMASequencer_issueNext a w =
    if decide (dr_bytes_issued r = dp_size k) then Ok (tt, completed_world a r w)
    else send_next a (dw_clockEdge w) r (progressed a r w).
Proof.
  intros [] Hr Hk. destruct (do_table0 a r Hr) as (k' & Hk' & Hok). assert (k' = k) as -> by congruence.
  pose proof block_bounds as HB. destruct Hok. destruct (do_pkts0 _ _ Hk).
  unfold DMASequencer_issueNext. rewrite (bind_run _ _ _ _ _ eq_refl). unfold id. rewrite Hr.
  rewrite (bind_run _ _ w tt w).
  2:{ unfold assertM. rewrite do_max0, do_count0. by rewrite (proj2 (Z.leb_le _ _)). }
  rewrite (bind_run _ _ _ _ _ eq_refl), dk_len0. cbv zeta. case_decide as Hc.
  { rewrite Hc, Z.eqb_refl. rewrite (bind_run _ _ _ _ _ eq_refl). unfold completed_world, dma_emit, modify. simpl.
    by rewrite delete_insert_eq. }
  destruct (Z.eqb_spec (dp_size k) (dr_bytes_issued r)); [lia|]. rewrite (bind_run _ _ _ _ _ eq_refl).
  assert (Hlt : dr_bytes_issued r < dp_size k) by lia. specialize (dk_next0 Hlt). rewrite do_mask0.
  rewrite (u64_small (dr_start_paddr r + dr_bytes_issued r)) by lia. rewrite land_mask, dk_start0, dk_next0 by lia.
  rewrite (bind_run _ _ _ tt _ eq_refl). unfold send_next, next_block, next_piece, progressed. simpl. rewrite dk_len0, dk_start0.
  assert ((if u32 (dp_size k - dr_bytes_issued r) <? B then dp_size k - dr_bytes_issued r else B) =
    Z.min B (dp_size k - dr_bytes_issued r)) as ->; [|done].
  unfold u32. rewrite Z.mod_small by lia. destruct (Z.ltb_spec (dp_size k - dr_bytes_issued r) B); lia.
Qed.

Lemma run_issueNext w a r k :
  dma_ok w → dq_m_RequestTable (dw_seq w) !! a = Some r → dw_pkts w !! dr_pkt r = Some k →
  DMASequencer_issueNext a w =
    if decide (dr_bytes_issued r = dp_size k) then Ok (tt, completed_world a r w)
    else if bool_decide (dp_isWrite k = true ∧ dp_data k = None) then Abort (NullDeref "DMASequencer.cc:159")
    else Ok (tt, moved_world a r k w).
Proof.
  intros Hw Hr Hk. rewrite (issueNext_cases w a r k) by done. case_decide as Hc; [done|].
  destruct (do_table w Hw a r Hr) as (k' & Hk' & Hok). assert (k' = k) as -> by congruence.
  pose proof (dk_issued _ _ _ Hok). pose proof (run_next_block a r k (progressed a r w) (do_pkts w Hw _ _ Hk) Hok ltac:(lia) Hk) as E.
  unfold send_next. case_bool_decide; [by apply bind_abort|]. rewrite (bind_run _ _ _ _ _ E).
  rewrite run_dma_send by (by destruct Hw). unfold moved_world, progressed, piece_msg. simpl.
  by rewrite alter_inserted, <- (dk_write _ _ _ Hok).
Qed.

Lemma job_next r : ∃ l, (job_of (moved_on r)).2 = next_piece r :: l.
Proof.
  eexists. unfold job_of, moved_on, next_piece. simpl. f_equal. f_equal. lia.
Qed.

Lemma completed_ok w a r k :
  dma_ok w → dq_m_RequestTable (dw_seq w) !! a = Some r → dw_pkts w !! dr_pkt r = Some k → dr_bytes_issued r = dp_size k →
  dma_ok (completed_world a r w) ∧
  dma_abstract (completed_world a r w) = advance a (dr_pkt r) k (job_of r).2 (dma_abstract w).
Proof.
  intros [] Hr Hk Hc. destruct (do_table0 a r Hr) as (k' & Hk' & Hok). assert (k' = k) as -> by congruence. split.
  - assert (Hs : size (delete a (dq_m_RequestTable (dw_seq w))) = pred (size (dq_m_RequestTable (dw_seq w))))
      by (apply map_size_delete_Some; by rewrite Hr).
    assert (size (dq_m_RequestTable (dw_seq w)) ≠ 0%nat) by (intros E%map_size_empty_inv; by rewrite E, lookup_empty in Hr).
    split; simpl; try done; try lia. intros b x [_ Hx]%lookup_delete_Some. by apply do_table0.
  - unfold job_of at 1. simpl. rewrite rest_pieces_nil by (rewrite (dk_len _ _ _ Hok); lia).
    unfold advance, dma_abstract. simpl. by rewrite fmap_delete, !omap_app, app_nil_r.
Qed.

Lemma moved_ok w a r k :
  dma_ok w → dq_m_RequestTable (dw_seq w) !! a = Some r → dw_pkts w !! dr_pkt r = Some k → dr_bytes_issued r ≠ dp_size k →
  dma_ok (moved_world a r k w) ∧
  dma_abstract (moved_world a r k w) = advance a (dr_pkt r) k (job_of r).2 (dma_abstract w).
Proof.
  intros [] Hr Hk Hc. destruct (do_table0 a r Hr) as (k' & Hk' & Hok). assert (k' = k) as -> by congruence.
  pose proof (dk_issued _ _ _ Hok). assert (Hlt : dr_bytes_issued r < dp_size k) by lia. split.
  - assert (Hs : size (<[a := moved_on r]> (dq_m_RequestTable (dw_seq w))) = size (dq_m_RequestTable (dw_seq w)))
      by (apply map_size_insert_Some; by eexists).
    split; simpl; rewrite ?Hs; try done. intros b x [[<- <-]|[_ Hx]]%lookup_insert_Some; [|by apply do_table0].
    exists k. split; [done|]. by apply moved_on_ok; [eapply do_pkts0|..].
  - rewrite (job_moved_on a r k Hok Hlt). destruct (job_next r) as (l & El). rewrite El. unfold advance, dma_abstract. simpl.
    rewrite fmap_insert, !omap_app, app_nil_r. simpl. do 2 f_equal. unfold job_of in El |- *. simpl in El |- *. by rewrite El.
Qed.

Lemma issueNext_advances w a r k :
  dma_ok w → dq_m_RequestTable (dw_seq w) !! a = Some r → dw_pkts w !! dr_pkt r = Some k →
  (dp_isWrite k = true → dr_bytes_issued r < dp_size k → dp_data k ≠ None) →
  ∃ w', DMASequencer_issueNext a w = Ok (tt, w') ∧ dma_ok w' ∧
    dma_abstract w' = advance a (dr_pkt r) k (job_of r).2 (dma_abstract w).
Proof.
  intros Hok Hr Hk Hd. rewrite (run_issueNext w a r k) by done. case_decide as Hc.
  - eexists. split; [done|by apply completed_ok].
  - destruct (do_table w Hok a r Hr) as (k' & Hk' & Hrq). assert (k' = k) as -> by congruence. pose proof (dk_issued _ _ _ Hrq).
    rewrite bool_decide_eq_false_2 by (intros [Hw Hn]; apply Hd; (done || lia)). eexists. split; [done|by apply moved_ok].
Qed.

(** ** Each call *)
Definition dma_refined w (op : dma_op) : Prop :=
  ∃ ans w', dma_exec op w = Ok (ans, w') ∧ dma_ok w' ∧ dma_spec (dma_abstract w) op ans (dma_abstract w').

Lemma job_Some w a :
  dma_ok w →
  job (dma_abstract w) a =
    match dq_m_RequestTable (dw_seq w) !! a with
    | Some r => match dw_pkts w !! dr_pkt r with Some k => Some (dr_pkt r, k, (job_of r).2) | None => None end
    | None => None
    end.
Proof.
  intros Hok. unfold job. simpl. rewrite lookup_fmap. destruct (dq_m_RequestTable (dw_seq w) !! a) as [r|]; [|done]. simpl.
  by destruct (dw_pkts w !! dr_pkt r).
Qed.

Lemma ackable_request a r k :
  dreq_ok a r k → ackable k (job_of r).2 ↔ (dp_isWrite k = true → dr_bytes_issued r < dp_size k → dp_data k ≠ None).
Proof.
  intros Hok. unfold ackable. destruct (Z.eq_dec (dr_bytes_issued r) (dp_size k)) as [E|E].
  - unfold job_of. simpl. rewrite rest_pieces_nil by (rewrite (dk_len _ _ _ Hok); lia). simpl. split; intros; lia.
  - pose proof (dk_issued _ _ _ Hok). rewrite (job_moved_on a r k) by (done || lia). destruct (job_next r) as (l & ->). simpl.
    split; intros H1 H2 H3; apply H1; (done || lia).
Qed.

Lemma dma_ack w a :
  dma_ok w →
  (dma_enabled (dma_abstract w) (DAck a) → dma_refined w (DAck a)) ∧
  (¬ dma_enabled (dma_abstract w) (DAck a) → ∃ f, dma_exec (DAck a) w = Abort f).
Proof.
  intros Hok. unfold dma_refined. simpl. rewrite (job_Some w a Hok). unfold DMASequencer_ackCallback.
  destruct (dq_m_RequestTable (dw_seq w) !! a) as [r|] eqn:Hr.
  2:{ split; [done|]. intros _. eexists. unfold mbind, M_bind. simpl. rewrite Hr. done. }
  destruct (do_table w Hok a r Hr) as (k & Hk & Hrq). rewrite Hk, (ackable_request a r k Hrq).
  assert (Ea : ∀ B0 (m : M DWorld B0), (x ← dqget id; assertM (bool_decide (is_Some (dq_m_RequestTable x !! a))) "DMASequencer.cc:195" ;; m) w = m w).
  { intros B0 m. rewrite (bind_run _ _ _ _ _ eq_refl). unfold id. rewrite (bind_run _ _ w tt w); [done|].
    unfold assertM. by rewrite bool_decide_eq_true_2 by (rewrite Hr; by eexists). }
  split.
  - intros Hd. destruct (issueNext_advances w a r k Hok Hr Hk Hd) as (w' & E & Hok' & Habs). exists DUnit, w'.
    split_and!; [|done|].
    + rewrite (bind_run _ _ w tt w'); [done|]. by rewrite Ea.
    + exists (dr_pkt r), k, (job_of r).2. by rewrite Habs.
  - intros Hn. eexists. apply bind_abort. rewrite Ea, (run_issueNext w a r k) by done.
    pose proof (dk_issued _ _ _ Hrq). rewrite decide_False by (intros E; apply Hn; intros; lia).
    rewrite bool_decide_eq_true_2; [done|]. destruct (dp_isWrite k); [|naive_solver]. split; [done|].
    destruct (dp_data k); [|done]. destruct Hn. naive_solver.
Qed.

(** ** Data *)
Lemma received_same q dblk k :
  dp_addr (received q dblk k) = dp_addr k ∧ dp_size (received q dblk k) = dp_size k ∧
  dp_isWrite (received q dblk k) = dp_isWrite k.
Proof. unfold received. by destruct (dp_data k). Qed.

Lemma dreq_ok_received a r k q dblk : dreq_ok a r k → dreq_ok a r (received q dblk k).
Proof. destruct (received_same q dblk k) as (E1 & E2 & E3). intros []. by split; rewrite ?E1, ?E2, ?E3. Qed.

Lemma received_sane k q dblk :
  packet_sane k → dp_addr k ≤ q.1 → 0 ≤ q.2 → q.1 + q.2 ≤ dp_addr k + dp_size k → q.1 mod B + q.2 ≤ vsize dblk →
  packet_sane (received q dblk k).
Proof.
  intros [] H1 H2 H3 H4. destruct (received_same q dblk k) as (E1 & E2 & E3). pose proof block_bounds.
  pose proof (Z.mod_pos_bound q.1 B (proj1 block_bounds)). split; rewrite ?E1, ?E2; try done.
  intros d. unfold received. destruct (dp_data k) as [d0|] eqn:Ed; [|intros Hd; congruence]. intros [= <-]. specialize (ps_data0 d0 eq_refl). rewrite <- ps_data0.
  apply vsize_place; [lia| |lia]. rewrite vsize_drop by lia. lia.
Qed.

Definition got_data (p : nat) (k : DMAPacket) w : DWorld := w <| dw_pkts ::= <[p := k]> |>.

Lemma got_data_ok w a r k q dblk :
  dma_ok w → dq_m_RequestTable (dw_seq w) !! a = Some r → dw_pkts w !! dr_pkt r = Some k →
  packet_sane (received q dblk k) → dma_ok (got_data (dr_pkt r) (received q dblk k) w).
Proof.
  intros [] Hr Hk Hs. split; simpl; try done.
  - intros p k' [[<- <-]|[_ Hp]]%lookup_insert_Some; [done|by eapply do_pkts0].
  - intros b x Hx. destruct (do_table0 b x Hx) as (k' & Hk' & Hok). destruct (decide (dr_pkt r = dr_pkt x)) as [E|E].
    + exists (received q dblk k). rewrite E, lookup_insert_eq. split; [done|]. apply dreq_ok_received.
      rewrite <- E in Hk'. by assert (k' = k) as <- by congruence.
    + exists k'. by rewrite lookup_insert_ne.
Qed.

Lemma run_dataCallback w a r k dblk :
  dma_ok w → dq_m_RequestTable (dw_seq w) !! a = Some r → dw_pkts w !! dr_pkt r = Some k →
  vsize dblk = B →
  DMASequencer_dataCallback dblk a w =
    if dp_isWrite k then Abort (AssertFail "DMASequencer.cc:184")
    else DMASequencer_issueNext a (got_data (dr_pkt r)
           (received (dr_start_paddr r + dr_bytes_completed r, dr_bytes_issued r - dr_bytes_completed r) dblk k) w).
Proof.
  intros [] Hr Hk Hb. destruct (do_table0 a r Hr) as (k' & Hk' & Hok). assert (k' = k) as -> by congruence.
  pose proof (do_pkts0 _ _ Hk) as []. pose proof block_bounds as HB. destruct Hok.
  pose proof (Z.mod_pos_bound (dp_addr k + dr_bytes_completed r) B (proj1 block_bounds)) as Hm.
  unfold DMASequencer_dataCallback. rewrite (bind_run _ _ _ _ _ eq_refl). unfold id. rewrite Hr. cbv zeta.
  rewrite dk_write0. destruct (dp_isWrite k) eqn:Hw; [done|]. rewrite (bind_run _ _ w tt w) by done.
  rewrite (bind_run _ _ _ _ _ (run_pkt _ k w Hk)). rewrite do_mask0, dk_start0, land_mask by lia.
  assert ((if dr_bytes_completed r =? 0 then dp_addr k mod B else 0) = (dp_addr k + dr_bytes_completed r) mod B) as ->.
  { destruct (Z.eqb_spec (dr_bytes_completed r) 0) as [E|E]; [by rewrite E, Z.add_0_r|]. by destruct dk_first0 as [? | ->]. }
  unfold got_data, received. simpl. destruct (dp_data k) as [d|] eqn:Ed.
  2:{ rewrite (bind_run _ _ w tt w) by done. rewrite insert_id by done. by destruct w. }
  specialize (ps_data0 d eq_refl). set (off := (dp_addr k + dr_bytes_completed r) mod B) in *.
  rewrite (bind_run _ _ w tt (w <| dw_pkts ::= <[dr_pkt r := k <| dp_data := Some (place (dr_bytes_completed r)
     (dr_bytes_issued r - dr_bytes_completed r) (drop (Z.to_nat off) dblk) d) |>]> |>)).
  { replace (dp_addr k + dr_bytes_completed r - dp_addr k) with (dr_bytes_completed r) by lia. done. }
  rewrite (bind_run _ _ w (drop (Z.to_nat off) dblk) w) by (unfold lift; by rewrite run_getData by lia).
  unfold lift. rewrite run_memcpy; [|lia| |lia]; [by rewrite (bind_run _ _ w _ w eq_refl)|]. rewrite vsize_drop by lia. lia.
Qed.

Lemma dma_data w dblk a :
  dma_ok w → vsize dblk = B →
  (dma_enabled (dma_abstract w) (DData dblk a) → dma_refined w (DData dblk a)) ∧
  (¬ dma_enabled (dma_abstract w) (DData dblk a) → ∃ f, dma_exec (DData dblk a) w = Abort f).
Proof.
  intros Hok Hb. unfold dma_refined. simpl. rewrite (job_Some w a Hok).
  destruct (dq_m_RequestTable (dw_seq w) !! a) as [r|] eqn:Hr.
  2:{ split; [done|]. intros _. eexists. apply bind_abort. unfold DMASequencer_dataCallback.
      rewrite (bind_run _ _ _ _ _ eq_refl). unfold id. by rewrite Hr. }
  destruct (do_table w Hok a r Hr) as (k & Hk & Hrq). rewrite Hk. pose proof (run_dataCallback w a r k dblk Hok Hr Hk Hb) as E.
  split; [intros Hw|intros Hw%not_false_iff_true]; rewrite Hw in E.
  2:{ eexists. by apply bind_abort. }
  pose proof (do_pkts w Hok _ _ Hk) as Hps. pose proof block_bounds as HB.
  set (q := (dr_start_paddr r + dr_bytes_completed r, dr_bytes_issued r - dr_bytes_completed r)) in *.
  assert (Hps' : packet_sane (received q dblk k)).
  { pose proof Hrq as []. apply received_sane; simpl; try done; try lia. rewrite dk_start0. lia. }
  pose proof (got_data_ok w a r k q dblk Hok Hr Hk Hps') as Hok1. set (w1 := got_data _ _ w) in *.
  destruct (received_same q dblk k) as (_ & _ & Ew).
  destruct (issueNext_advances w1 a r (received q dblk k) Hok1 Hr) as (w' & E' & Hok' & Habs).
  { simpl. by rewrite lookup_insert_eq. }
  { rewrite Ew, Hw. done. }
  exists DUnit, w'. split_and!; [by rewrite (bind_run _ _ w tt w') by (by rewrite E)|done|].
  exists (dr_pkt r), k, q, (rest_pieces (dr_start_paddr r + dr_bytes_issued r) (dr_len r - dr_bytes_issued r)).
  by rewrite Habs.
Qed.

(** ** New requests *)
Definition first_piece (k : DMAPacket) : Z * Z := (dp_addr k, Z.min (dp_size k) (B - dp_addr k mod B)).
Definition started (p : nat) (k : DMAPacket) : DMARequest :=
  mkDMARequest (dp_addr k) (dp_size k) (dp_isWrite k) 0 (first_piece k).2 p.

Lemma first_length k :
  packet_sane k →
  (if u32 (dp_addr k mod B + dp_size k) <=? B then dp_size k else u32 (B - dp_addr k mod B)) = (first_piece k).2.
Proof.
  intros []. pose proof block_bounds. pose proof (Z.mod_pos_bound (dp_addr k) B (proj1 block_bounds)).
  unfold u32, first_piece. simpl. rewrite (Z.mod_small (dp_addr k mod B + dp_size k)), (Z.mod_small (B - dp_addr k mod B)) by lia. destruct (Z.leb_spec (dp_addr k mod B + dp_size k) B); lia.
Qed.

Lemma started_ok p k : packet_sane k → dreq_ok (makeLineAddress (dp_addr k)) (started p k) k.
Proof.
  intros []. pose proof block_bounds. pose proof (Z.mod_pos_bound (dp_addr k) B (proj1 block_bounds)).
  assert (HB : B ≠ 0) by lia. pose proof (Z.div_mod (dp_addr k) B HB). unfold started, first_piece.
  split; simpl; rewrite ?Z.add_0_r; try done; try lia. intros Hlt.
  rewrite Z.min_r by lia. replace (dp_addr k + (B - dp_addr k mod B)) with ((dp_addr k / B + 1) * B) by nia.
  apply Z.mod_mul. lia.
Qed.

Lemma started_job p k : job_of (started p k) = (p, pieces k).
Proof. unfold job_of, started, pieces, first_piece. simpl. by rewrite Z.add_0_r, Z.sub_0_r. Qed.

Lemma run_first_block w k :
  packet_sane k →
  (match dp_data k with
   | Some data => if dp_isWrite k then lift (DataBlock_setData data (dp_addr k mod B) (first_piece k).2 DataBlock_clear)
                  else mret DataBlock_clear
   | None => mret DataBlock_clear
   end : M DWorld (list Z)) w = Ok (piece_block k (first_piece k), w).
Proof.
  intros []. pose proof block_bounds. pose proof (Z.mod_pos_bound (dp_addr k) B (proj1 block_bounds)).
  unfold piece_block. destruct (dp_data k) as [d|]; [|done]. destruct (dp_isWrite k); [|done].
  specialize (ps_data0 d eq_refl). unfold lift, first_piece. simpl.
  rewrite run_setData; [|lia..|apply vsize_clear]. by rewrite Z.sub_diag.
Qed.

Definition made_world (p : nat) (k : DMAPacket) w : DWorld :=
  w <| dw_seq ::= λ x, x <| dq_m_RequestTable ::= <[makeLineAddress (dp_addr k) := started p k]> |>
                         <| dq_m_outstanding_count ::= Z.succ |> |>
    <| dw_trace ::= λ l, l ++ [DmaEnqueue (piece_msg (dw_clockEdge w) k (first_piece k)) (dw_clockEdge w) (dw_clockPeriod w)] |>.

Lemma dma_full_size w : dma_full (dma_abstract w) ↔ Z.of_nat (size (dq_m_RequestTable (dw_seq w))) = N.
Proof. unfold dma_full. simpl. by rewrite map_size_fmap. Qed.

Lemma run_dma_make w p :
  dma_ok w →
  DMASequencer_makeRequest p w =
    if decide (dma_full (dma_abstract w)) then Ok (RequestStatus_BufferFull, w)
    else match dw_pkts w !! p with
         | None => Abort (NullDeref "pkt")
         | Some k =>
             if decide (is_Some (dq_m_RequestTable (dw_seq w) !! makeLineAddress (dp_addr k)))
             then Ok (RequestStatus_Aliased, w) else Ok (RequestStatus_Issued, made_world p k w)
         end.
Proof.
  intros Hok. pose proof (dma_full_size w) as Hfull. destruct Hok.
  unfold DMASequencer_makeRequest. rewrite (bind_run _ _ _ _ _ eq_refl). unfold id.
  rewrite do_max0, do_count0. destruct (Z.eqb_spec (Z.of_nat (size (dq_m_RequestTable (dw_seq w)))) N) as [Hf|Hf].
  { rewrite decide_True by (by apply Hfull). done. }
  rewrite <- Hfull in Hf.
  rewrite decide_False by done. destruct (dw_pkts w !! p) as [k|] eqn:Hk.
  2:{ apply bind_abort. unfold get_dma_pkt. rewrite (bind_run _ _ _ _ _ eq_refl). by rewrite Hk. }
  rewrite (bind_run _ _ _ _ _ (run_pkt _ k w Hk)). cbv zeta. pose proof (do_pkts0 _ _ Hk) as Hps.
  rewrite (bind_run _ _ w tt w) by (unfold assertM; rewrite Hfull in Hf; by rewrite (proj2 (Z.ltb_lt _ _)) by lia).
  case_decide as Ha; [by rewrite bool_decide_eq_true_2|]. rewrite bool_decide_eq_false_2 by done.
  do 2 rewrite (bind_run _ _ _ _ _ eq_refl). rewrite do_mask0, land_mask, first_length by (done || by destruct Hps; lia).
  rewrite (bind_run _ _ _ _ _ (run_first_block _ k Hps)). rewrite (bind_run _ _ _ _ _ eq_refl).
  erewrite bind_run by (apply run_dma_send; exact do_queue0). unfold made_world, mret, M_ret. simpl.
  by rewrite alter_inserted, Z.add_0_r.
Qed.

Lemma made_ok w p k :
  dma_ok w → dw_pkts w !! p = Some k → ¬ dma_full (dma_abstract w) →
  dq_m_RequestTable (dw_seq w) !! makeLineAddress (dp_addr k) = None →
  dma_ok (made_world p k w) ∧
  dma_abstract (made_world p k w) =
    (dma_abstract w) <| da_out ::= <[makeLineAddress (dp_addr k) := (p, pieces k)]> |>
                     <| da_sent ::= λ m, m ++ [piece_msg (dw_clockEdge w) k (first_piece k)] |>.
Proof.
  intros [] Hk Hf Hn. rewrite dma_full_size in Hf. split.
  - assert (Hs : size (<[makeLineAddress (dp_addr k) := started p k]> (dq_m_RequestTable (dw_seq w))) =
                  S (size (dq_m_RequestTable (dw_seq w)))) by (by apply map_size_insert_None).
    split; simpl; rewrite ?Hs; try done; try lia. intros b x [[<- <-]|[_ Hx]]%lookup_insert_Some; [|by apply do_table0].
    exists k. split; [done|]. by eapply started_ok, do_pkts0.
  - unfold dma_abstract. simpl. by rewrite fmap_insert, started_job, !omap_app, app_nil_r.
Qed.

Lemma dma_make w p :
  dma_ok w →
  (dma_enabled (dma_abstract w) (DMake p) → dma_refined w (DMake p)) ∧
  (¬ dma_enabled (dma_abstract w) (DMake p) → ∃ f, dma_exec (DMake p) w = Abort f).
Proof.
  intros Hok. pose proof (run_dma_make w p Hok) as E. unfold dma_refined. simpl. case_decide as Hf.
  { split; [|tauto]. intros _. exists (DStatus RequestStatus_BufferFull), w. split_and!; [by rewrite (bind_run _ _ _ _ _ E)|done..]. }
  destruct (dw_pkts w !! p) as [k|] eqn:Hk.
  2:{ split; [intros [?|[? ?]]; done|]. intros _. eexists. by apply bind_abort. }
  split; [intros _|intros Hn; destruct Hn; right; by eexists].
  destruct (decide (is_Some (dq_m_RequestTable (dw_seq w) !! makeLineAddress (dp_addr k)))) as [Ha|Ha].
  - exists (DStatus RequestStatus_Aliased), w. split_and!; [by rewrite (bind_run _ _ _ _ _ E)|done|]. exists k. simpl.
    rewrite lookup_fmap. rewrite decide_True by (by apply fmap_is_Some). done.
  - destruct (made_ok w p k Hok Hk Hf) as [Hok' Habs]; [by apply eq_None_not_Some|].
    exists (DStatus RequestStatus_Issued), (made_world p k w). split_and!; [by rewrite (bind_run _ _ _ _ _ E)|done|].
    exists k. split; [done|]. simpl. rewrite lookup_fmap. rewrite decide_False by (by rewrite fmap_is_Some).
    eexists _, _. split; [reflexivity|]. split; [done|]. by rewrite Habs.
Qed.

#[export] Instance dma_refines : Refines dma_exec dma_sane dma_enabled dma_spec dma_ok dma_abstract.
Proof.
  split; intros w op Hok Hop; destruct op as [p|dblk a|a|t].
  - by apply dma_make.
  - by apply dma_data.
  - by apply dma_ack.
  - intros _. exists DUnit, (w <| dw_clockEdge ::= Z.add t |>). split_and!; [done| |done]. destruct Hok. by split.
  - by apply dma_make.
  - by apply (dma_data w dblk a Hok Hop).
  - by apply dma_ack.
  - done.
Qed.

(** ** The pieces transfer the packet *)
Definition piece_bytes (q : Z * Z) : list Z := zrange q.1 (q.1 + q.2).
Definition in_one_line (q : Z * Z) : Prop := 0 ≤ q.2 ∧ q.1 mod B + q.2 ≤ B.

(** An induction over the lines of a transfer. *)
Lemma pieces_ind (Q : Z → Z → list (Z * Z) → Prop) :
  (∀ a n, n ≤ 0 → Q a n []) →
  (∀ a n l, 0 < n → a mod B = 0 → Q (a + Z.min B n) (n - Z.min B n) l → Q a n ((a, Z.min B n) :: l)) →
  ∀ a n, a mod B = 0 → Q a n (rest_pieces a n).
Proof.
  intros H0 HS a n. pose proof block_bounds as HB. remember (Z.to_nat n) as f eqn:Hf. revert a n Hf.
  induction (lt_wf f) as [f _ IH]. intros a n Hf Ha. destruct (Z.le_gt_cases n 0) as [Hn|Hn].
  { rewrite rest_pieces_nil by done. by apply H0. }
  rewrite rest_pieces_cons by done. apply HS; [done|done|]. destruct (Z.le_gt_cases n B) as [Hl|Hl].
  { rewrite rest_pieces_nil by lia. apply H0. lia. }
  apply (IH (Z.to_nat (n - Z.min B n))); [lia|done|]. apply mod_add_min; [done|lia..].
Qed.

Lemma second_aligned k : packet_sane k → (first_piece k).2 < dp_size k → (dp_addr k + (first_piece k).2) mod B = 0.
Proof. intros Hps Hlt. exact (dk_next _ _ _ (started_ok 0 k Hps) Hlt). Qed.

(** A proof by [pieces_ind] for the pieces after the first. *)
Lemma rest_of_packet (Q : Z → Z → list (Z * Z) → Prop) k :
  packet_sane k →
  (∀ a n, n ≤ 0 → Q a n []) →
  (∀ a n l, 0 < n → a mod B = 0 → Q (a + Z.min B n) (n - Z.min B n) l → Q a n ((a, Z.min B n) :: l)) →
  Q (dp_addr k + (first_piece k).2) (dp_size k - (first_piece k).2)
    (rest_pieces (dp_addr k + (first_piece k).2) (dp_size k - (first_piece k).2)).
Proof.
  intros Hps H0 HS. destruct (Z.le_gt_cases (dp_size k) (first_piece k).2) as [Hl|Hl].
  - rewrite rest_pieces_nil by lia. apply H0. lia.
  - apply pieces_ind; [done|done|]. by apply second_aligned.
Qed.

Lemma join_cons {A} (l : list A) ls : mjoin (l :: ls) = l ++ mjoin ls.
Proof. reflexivity. Qed.

Lemma fold_cons {A C} (f : A → C → A) a x l : foldl f a (x :: l) = foldl f (f a x) l.
Proof. reflexivity. Qed.

Lemma pieces_first k :
  pieces k = first_piece k :: rest_pieces (dp_addr k + (first_piece k).2) (dp_size k - (first_piece k).2).
Proof. reflexivity. Qed.

Lemma first_bounds k : packet_sane k → 0 ≤ (first_piece k).2 ≤ dp_size k ∧ dp_addr k mod B + (first_piece k).2 ≤ B.
Proof.
  intros []. pose proof block_bounds. pose proof (Z.mod_pos_bound (dp_addr k) B (proj1 block_bounds)).
  unfold first_piece. simpl. lia.
Qed.

Lemma zrange_app a b c : a ≤ b ≤ c → zrange a c = zrange a b ++ zrange b c.
Proof.
  intros H. unfold zrange. replace (c - a) with ((b - a) + (c - b)) by lia. rewrite seqZ_app by lia.
  do 2 f_equal. lia.
Qed.

Lemma pieces_in_lines k : packet_sane k → Forall in_one_line (pieces k).
Proof.
  intros Hps. pose proof (first_bounds k Hps). unfold pieces. constructor; [split; simpl; unfold first_piece in *; simpl in *; lia|].
  apply (rest_of_packet (λ _ _ l, Forall in_one_line l) k Hps); [constructor|].
  intros a n l Hn Ha Hl. pose proof block_bounds. constructor; [split; simpl; lia|done].
Qed.

Lemma pieces_cover k : packet_sane k → mjoin (piece_bytes <$> pieces k) = zrange (dp_addr k) (dp_addr k + dp_size k).
Proof.
  intros Hps. pose proof (first_bounds k Hps).
  assert (E : mjoin (piece_bytes <$> rest_pieces (dp_addr k + (first_piece k).2) (dp_size k - (first_piece k).2)) =
    zrange (dp_addr k + (first_piece k).2) (dp_addr k + dp_size k)).
  { replace (dp_addr k + dp_size k) with (dp_addr k + (first_piece k).2 + (dp_size k - (first_piece k).2)) by lia.
    apply (rest_of_packet (λ a n l, mjoin (piece_bytes <$> l) = zrange a (a + n)) k Hps).
    - intros a n Hn. by rewrite zrange_nil by lia.
    - intros a n l Hn Ha Hl. pose proof block_bounds. rewrite fmap_cons. simpl. rewrite Hl. unfold piece_bytes. simpl.
      rewrite (zrange_app a (a + Z.min B n) (a + n)) by lia. do 2 f_equal. lia. }
  rewrite (pieces_first k), fmap_cons, join_cons. rewrite E. symmetry. apply zrange_app. simpl. lia.
Qed.

Lemma take_drop_window {A} (f : Z → A) l off n :
  0 ≤ off → 0 ≤ n → off + n ≤ B →
  take (Z.to_nat n) (drop (Z.to_nat off) (f <$> zrange l (l + B))) = f <$> zrange (l + off) (l + off + n).
Proof.
  intros H1 H2 H3. rewrite (zrange_app l (l + off) (l + B)), (zrange_app (l + off) (l + off + n) (l + B)) by lia.
  rewrite !fmap_app. rewrite drop_app_length' by (unfold zrange; rewrite length_fmap, length_seqZ; lia).
  apply take_app_length'. unfold zrange. rewrite length_fmap, length_seqZ. lia.
Qed.

Lemma place_after pre n src rest : place (vsize pre) n src (pre ++ rest) = pre ++ take (Z.to_nat n) src ++ drop (Z.to_nat (vsize pre + n)) (pre ++ rest).
Proof. unfold place, vsize. by rewrite Nat2Z.id, take_app_length. Qed.

(** A read, when every line that comes is that of a memory [m]. *)
Definition fetch (m : Z → Z) (k : DMAPacket) (q : Z * Z) : DMAPacket :=
  received q (m <$> zrange (makeLineAddress q.1) (makeLineAddress q.1 + B)) k.

Lemma fetch_step m k q pre rest :
  dp_data k = Some (pre ++ rest) → vsize pre = q.1 - dp_addr k → 0 ≤ q.1 < 2 ^ 64 → in_one_line q → q.2 ≤ vsize rest →
  dp_data (fetch m k q) = Some ((pre ++ (m <$> piece_bytes q)) ++ drop (Z.to_nat q.2) rest) ∧ dp_addr (fetch m k q) = dp_addr k.
Proof.
  intros Hd Hp Hq [Hn Hl] Hr. unfold fetch, received. rewrite Hd. simpl. split; [|done]. f_equal. rewrite <- Hp, place_after.
  pose proof (Z.mod_pos_bound q.1 B (proj1 block_bounds)). rewrite take_drop_window by lia.
  replace (makeLineAddress q.1 + q.1 mod B) with q.1 by (rewrite makeLineAddress_spec by done; lia).
  rewrite <- app_assoc. do 2 f_equal. replace (Z.to_nat (vsize pre + q.2)) with (length pre + Z.to_nat q.2)%nat by (unfold vsize; lia).
  by rewrite drop_app_add.
Qed.

Lemma vsize_app {A} (l l' : list A) : vsize (l ++ l') = vsize l + vsize l'.
Proof. unfold vsize. rewrite length_app. lia. Qed.
Lemma vsize_bytes m q : 0 ≤ q.2 → vsize (m <$> piece_bytes q : list Z) = q.2.
Proof. intros H. unfold vsize, piece_bytes, zrange. rewrite length_fmap, length_seqZ. lia. Qed.

Lemma read_transfers m k d :
  packet_sane k → dp_data k = Some d →
  dp_data (foldl (fetch m) k (pieces k)) = Some (m <$> zrange (dp_addr k) (dp_addr k + dp_size k)).
Proof.
  intros Hps Hd. pose proof (first_bounds k Hps) as [Hb Hl]. pose proof Hps as []. specialize (ps_data0 d Hd).
  rewrite <- (pieces_cover k Hps), (pieces_first k), fold_cons.
  destruct (fetch_step m k (first_piece k) [] d) as [Hd1 Ha1]; [done|unfold vsize; simpl; lia|done|split; [lia|exact Hl]|lia|].
  rewrite fmap_cons, join_cons. rewrite fmap_app.
  assert (Hgoal : ∀ k' pre rest,
    dp_data k' = Some (pre ++ rest) → vsize pre = dp_addr k + (first_piece k).2 - dp_addr k' →
    vsize rest = dp_size k - (first_piece k).2 → dp_addr k + (first_piece k).2 + (dp_size k - (first_piece k).2) ≤ 2 ^ 64 →
    0 ≤ dp_addr k + (first_piece k).2 →
    dp_data (foldl (fetch m) k' (rest_pieces (dp_addr k + (first_piece k).2) (dp_size k - (first_piece k).2))) =
    Some (pre ++ (m <$> mjoin (piece_bytes <$> rest_pieces (dp_addr k + (first_piece k).2) (dp_size k - (first_piece k).2))))).
  { apply (rest_of_packet (λ a n l, ∀ k' pre rest, dp_data k' = Some (pre ++ rest) → vsize pre = a - dp_addr k' →
      vsize rest = n → a + n ≤ 2 ^ 64 → 0 ≤ a → dp_data (foldl (fetch m) k' l) = Some (pre ++ (m <$> mjoin (piece_bytes <$> l)))) k Hps).
    - intros a n Hn k' pre rest Hk' Hp Hr _ _. destruct rest; [done|]. unfold vsize in Hr. simpl in Hr. lia.
    - intros a n l Hn Ha IH k' pre rest Hk' Hp Hr Hbd Ha0. pose proof block_bounds. rewrite fold_cons.
      destruct (fetch_step m k' (a, Z.min B n) pre rest) as [Hd' Ha']; simpl; [done|done|lia|split; simpl; lia|lia|].
      rewrite (IH _ _ _ Hd'); rewrite ?Ha'; simpl; [by rewrite fmap_app, app_assoc|..]; try lia.
      + rewrite vsize_app, vsize_bytes by (simpl; lia). simpl. lia.
      + rewrite vsize_drop by lia. lia. }
  rewrite (Hgoal _ _ _ Hd1); [done|..].
  - rewrite Ha1. simpl app. rewrite vsize_bytes by lia. lia.
  - rewrite vsize_drop by lia. lia.
  - lia.
  - lia.
Qed.

(** A write: the bytes of a piece in the data of its message. *)
Definition carried (k : DMAPacket) (q : Z * Z) : list Z :=
  take (Z.to_nat q.2) (drop (Z.to_nat (q.1 mod B)) (piece_block k q)).

Lemma carried_bytes k d q :
  dp_isWrite k = true → dp_data k = Some d → in_one_line q → dp_addr k ≤ q.1 → q.1 - dp_addr k + q.2 ≤ vsize d →
  carried k q = take (Z.to_nat q.2) (drop (Z.to_nat (q.1 - dp_addr k)) d).
Proof.
  intros Hw Hd [Hn Hl] Ha He. unfold carried, piece_block. rewrite Hd, Hw. unfold place.
  pose proof (Z.mod_pos_bound q.1 B (proj1 block_bounds)). pose proof vsize_clear as Hc. unfold vsize in *.
  rewrite drop_app_length' by (rewrite length_take; lia). rewrite take_app_length'; [done|]. rewrite length_take, length_drop. lia.
Qed.

Lemma take_then_drop (d : list Z) c n : 0 ≤ c → 0 ≤ n → take (Z.to_nat n) (drop (Z.to_nat c) d) ++ drop (Z.to_nat (c + n)) d = drop (Z.to_nat c) d.
Proof.
  intros Hc Hn. rewrite Z2Nat.inj_add, <- drop_drop by lia. apply take_drop.
Qed.

Lemma write_transfers k d :
  packet_sane k → dp_isWrite k = true → dp_data k = Some d → mjoin (carried k <$> pieces k) = d.
Proof.
  intros Hps Hw Hd. pose proof (first_bounds k Hps) as [Hb Hl]. pose proof Hps as []. specialize (ps_data0 d Hd).
  assert (E : mjoin (carried k <$> rest_pieces (dp_addr k + (first_piece k).2) (dp_size k - (first_piece k).2)) =
    drop (Z.to_nat (dp_addr k + (first_piece k).2 - dp_addr k)) d).
  { apply (rest_of_packet (λ a n l, 0 ≤ a - dp_addr k → a - dp_addr k + n = vsize d →
      mjoin (carried k <$> l) = drop (Z.to_nat (a - dp_addr k)) d) k Hps); [| |lia..].
    - intros a n Hn Ha He. rewrite drop_ge; [done|]. unfold vsize in He. lia.
    - intros a n l Hn Ha IH H0 He. pose proof block_bounds. rewrite fmap_cons, join_cons. rewrite IH by lia.
      rewrite (carried_bytes k d) by (done || (simpl; lia) || (split; simpl; lia)). simpl.
      replace (a + Z.min B n - dp_addr k) with (a - dp_addr k + Z.min B n) by lia. apply take_then_drop; lia. }
  rewrite (pieces_first k), fmap_cons, join_cons. rewrite E, (carried_bytes k d) by (done || (simpl; lia) || (by split; simpl; lia)). change (first_piece k).1 with (dp_addr k).
  replace (dp_addr k + (first_piece k).2 - dp_addr k) with (dp_addr k - dp_addr k + (first_piece k).2) by lia.
  rewrite take_then_drop by lia. by rewrite Z.sub_diag.
Qed.

(** A new sequencer. *)
Definition dma_start (q : nat) (pkts : gmap nat DMAPacket) (edge period : Z) : DWorld :=
  mkDWorld ((DMASequencer_init (DMASequencer_ctor N)) <| dq_m_mandatory_q_ptr := Some q |>) pkts [] edge period.

Lemma dma_start_ok q pkts edge period :
  0 ≤ N → (∀ p k, pkts !! p = Some k → packet_sane k) → dma_ok (dma_start q pkts edge period).
Proof. intros HN Hp. split; simpl; try done. Qed.
End DMARun.

Section Runs.
Context {BS : BlockSize} {BSS : BlockSizeSpec BS}.

(** C20.  Any sequence of calls of a new DMA sequencer behaves as a map from lines
    to the pieces that are left of the request that began there.  A request is
    refused exactly when the table is full or has its first line; every answer
    makes the sequencer send the message for the next piece, or complete the
    packet after the last one; the next call, whatever it is, returns exactly when
    the map allows it.  The pieces of a packet are its bytes in order, each in one
    line; when the lines of a memory come for them one after the other, the packet
    of a read holds the bytes of that memory at its addresses; and the data that
    the messages of a write carry is the data of the packet. *)
Theorem dma_run_refines N q pkts edge period ops answers w :
  0 ≤ N → (∀ p k, pkts !! p = Some k → packet_sane k) → Forall dma_sane ops →
  exec_all dma_exec ops (dma_start N q pkts edge period) = Ok (answers, w) →
  spec_run (dma_enabled N) (dma_spec N) (mkDmaAbs ∅ pkts [] [] edge) ops answers (dma_abstract w) ∧
  next_call_exact dma_exec dma_sane (dma_enabled N) (dma_spec N) dma_abstract w ∧
  (∀ p k, pkts !! p = Some k →
    Forall in_one_line (pieces k) ∧
    mjoin (piece_bytes <$> pieces k) = zrange (dp_addr k) (dp_addr k + dp_size k) ∧
    (∀ m d, dp_data k = Some d →
      dp_data (foldl (fetch m) k (pieces k)) = Some (m <$> zrange (dp_addr k) (dp_addr k + dp_size k))) ∧
    (∀ d, dp_isWrite k = true → dp_data k = Some d → mjoin (carried k <$> pieces k) = d)).
Proof.
  intros HN Hp Hs E. pose proof (dma_start_ok N q pkts edge period HN Hp) as Hok.
  destruct (refines_run _ _ (dma_enabled N) (dma_spec N) _ _ ops _ answers w Hok Hs E) as [Hrun Hok'].
  split; [done|]. split; [by eapply refines_next; [apply _|]|]. intros p k Hk. pose proof (Hp p k Hk) as Hps.
  split_and!; [by apply pieces_in_lines|by apply pieces_cover|intros m d; by apply read_transfers|intros d; by apply write_transfers].
Qed.
End Runs.

(** ** A sample run

    A read of 100 bytes from the middle of a line, which takes three lines. *)
#[local] Existing Instance block_64.
Definition sample_dma_packet : DMAPacket := mkDMAPacket 100 100 false (Some (replicate 100 0)).
Definition sample_dma_packets : gmap nat DMAPacket := {[0%nat := sample_dma_packet]}.
Definition sample_dma_calls : list dma_op :=
  [DMake 0; DData (replicate 64 1) 64; DMake 0; DData (replicate 64 2) 64; DData (replicate 64 3) 64].

Lemma sample_dma_sane p k : sample_dma_packets !! p = Some k → packet_sane k.
Proof.
  unfold sample_dma_packets. intros [<- <-]%lookup_singleton_Some. split; simpl; [lia..|]. by intros d [= <-].
Qed.

Lemma dma_run_refines_witness :
  ∃ answers w, exec_all dma_exec sample_dma_calls (dma_start 4 7 sample_dma_packets 0 500) = Ok (answers, w) ∧
    answers = [DStatus RequestStatus_Issued; DUnit; DStatus RequestStatus_Aliased; DUnit; DUnit] ∧
    spec_run (dma_enabled 4) (dma_spec 4) (mkDmaAbs ∅ sample_dma_packets [] [] 0) sample_dma_calls answers (dma_abstract w) ∧
    da_done (dma_abstract w) = [0%nat] ∧
    (dp_data <$> da_pkts (dma_abstract w) !! 0%nat) = Some (Some (replicate 28 1 ++ replicate 64 2 ++ replicate 8 3)) ∧
    pieces sample_dma_packet = [(100, 28); (128, 64); (192, 8)].
Proof.
  destruct (exec_all dma_exec sample_dma_calls (dma_start 4 7 sample_dma_packets 0 500)) as [[answers w]|] eqn:E;
    [|vm_compute in E; discriminate E].
  exists answers, w. split; [reflexivity|].
  destruct (dma_run_refines 4 7 sample_dma_packets 0 500 sample_dma_calls answers w) as (H & _).
  - lia.
  - exact sample_dma_sane.
  - repeat constructor.
  - exact E.
  - split; [vm_compute in E; injection E as <- _; reflexivity|]. split; [exact H|]. clear H.
    split; [vm_compute in E; injection E as _ <-; vm_compute; reflexivity|].
    split; [vm_compute in E; injection E as _ <-; vm_compute; reflexivity|]. vm_compute. reflexivity.
Defined.

(** The request stays under the address of its first line.  An answer under the line
    of the second message, as the DMA controllers of the protocols give it, fails. *)
Lemma second_line_unknown :
  match exec_all dma_exec [DMake 0; DData (replicate 64 1) 64] (dma_start 4 7 sample_dma_packets 0 500) with
  | Ok (_, w) => (sm_LineAddress <$> last (da_sent (dma_abstract w))) = Some 128 ∧
      dma_exec (DData (replicate 64 2) 128) w = Abort (AssertFail "DMASequencer.cc:177")
  | Abort _ => False
  end.
Proof. vm_compute. done. Qed.
