(* ===== verification/TrafficTheory.v ===== *)
(** * Correctness of the synthetic traffic

    Every pattern that is a function of the source permutes the nodes; the
    address of a generated packet leads to the chosen destination; and the
    tester keeps to its limits and goes on ticking. *)

From Stdlib Require Import Floats.SpecFloat.
From S2P Require Import Prelude NetDestModel CommonTypes GarnetState FlitBuffer Channels RoutingUnitModel SwapModel BuildModel AddrRangeModel NetworkModel TrafficModel RoutingTheory NetDestTheory AddrRangeTheory.

(** ** Patterns on the grid *)

(** A bijection of [0 .. n-1], with its inverse. *)
Definition permutes (n : Z) (f g : Z → Z) : Prop :=
  ∀ s, 0 ≤ s < n → 0 ≤ f s < n ∧ g (f s) = s ∧ 0 ≤ g s < n ∧ f (g s) = s.

(** A map of coordinates as a map of node numbers. *)
Definition on_grid (k : Z) (f : Z * Z → Z * Z) (s : Z) : Z :=
  let '(x, y) := f (col k s, row k s) in y * k + x.
Definition grid_bij (k : Z) (f g : Z * Z → Z * Z) : Prop :=
  ∀ x y, 0 ≤ x < k → 0 ≤ y < k →
    let '(x', y') := f (x, y) in 0 ≤ x' < k ∧ 0 ≤ y' < k ∧ g (x', y') = (x, y).

Lemma on_grid_inverse k f g s :
  0 < k → 0 ≤ s < k * k → grid_bij k f g →
  0 ≤ on_grid k f s < k * k ∧ on_grid k g (on_grid k f s) = s.
Proof.
  intros Hk Hs Hb. destruct (coords k s Hk ltac:(lia)) as (E & Hx & Hy).
  pose proof (in_mesh_row k k s Hk Hs) as Hy'.
  specialize (Hb (col k s) (row k s) Hx ltac:(lia)). unfold on_grid.
  destruct (f (col k s, row k s)) as [x' y']. destruct Hb as (Hx1 & Hy1 & Hg).
  split; [nia|]. destruct (coords_of k x' y' Hx1 ltac:(lia)) as [-> ->]. rewrite Hg. lia.
Qed.

Lemma on_grid_permutes k f g :
  0 < k → grid_bij k f g → grid_bij k g f → permutes (k * k) (on_grid k f) (on_grid k g).
Proof.
  intros Hk Hf Hg s Hs.
  destruct (on_grid_inverse k f g s Hk Hs Hf). by destruct (on_grid_inverse k g f s Hk Hs Hg).
Qed.

Lemma radix_of_square k : 0 ≤ k → radix_of (k * k) = k.
Proof. apply Z.sqrt_square. Qed.

(** The coordinate maps. *)
Definition complement_xy (k : Z) : Z * Z → Z * Z := λ '(x, y), (k - x - 1, k - y - 1).
Definition transpose_xy : Z * Z → Z * Z := λ '(x, y), (y, x).
Definition shift_xy (k d : Z) : Z * Z → Z * Z := λ '(x, y), ((x + d) mod k, y).

Lemma complement_bij k : grid_bij k (complement_xy k) (complement_xy k).
Proof. intros x y Hx Hy. simpl. split_and!; try lia. f_equal; lia. Qed.
Lemma transpose_bij k : grid_bij k transpose_xy transpose_xy.
Proof. intros x y Hx Hy. simpl. done. Qed.
Lemma shift_bij k d : 0 < k → grid_bij k (shift_xy k d) (shift_xy k (- d)).
Proof.
  intros Hk x y Hx Hy. simpl. split_and!; try lia; [by apply Z.mod_pos_bound..|].
  f_equal. rewrite Z.add_mod_idemp_l by lia. rewrite <- Z.add_assoc, Z.add_opp_diag_r, Z.add_0_r.
  by apply Z.mod_small.
Qed.

(** ** Patterns on the bits *)
Lemma rotation_shuffle h s :
  0 ≤ s < 2 * h →
  0 ≤ shuffle (2 * h) s < 2 * h ∧ bit_rotation (2 * h) (shuffle (2 * h) s) = s ∧
  0 ≤ bit_rotation (2 * h) s < 2 * h ∧ shuffle (2 * h) (bit_rotation (2 * h) s) = s.
Proof.
  intros Hs. unfold shuffle, bit_rotation.
  replace ((2 * h) `quot` 2) with h by (rewrite Z.mul_comm, Z.quot_mul; lia).
  assert (Hq : ∀ z, 0 ≤ z → z = 2 * (z `quot` 2) + z `rem` 2 ∧ 0 ≤ z `rem` 2 < 2).
  { intros z Hz. pose proof (Z.quot_rem' z 2). pose proof (Z.rem_bound_pos z 2). lia. }
  pose proof (Hq s ltac:(lia)) as [Es Hr]. split; [|split; [|split]].
  - destruct (Z.ltb_spec s h); lia.
  - destruct (Z.ltb_spec s h) as [Hlt|Hlt].
    + pose proof (Hq (s * 2) ltac:(lia)). destruct (Z.eqb_spec ((s * 2) `rem` 2) 0); lia.
    + pose proof (Hq (s * 2 - 2 * h + 1) ltac:(lia)).
      destruct (Z.eqb_spec ((s * 2 - 2 * h + 1) `rem` 2) 0); lia.
  - destruct (Z.eqb_spec (s `rem` 2) 0); lia.
  - destruct (Z.eqb_spec (s `rem` 2) 0).
    + destruct (Z.ltb_spec (s `quot` 2) h); lia.
    + destruct (Z.ltb_spec (s `quot` 2 + h) h); lia.
Qed.

(** The loop of [BIT_REVERSE_] moves bits of [straight] in front. *)
Lemma reverse_loop_testbit j m straight rev i :
  0 ≤ rev < 2 ^ m → 0 ≤ m → m + Z.of_nat j ≤ 32 → 0 ≤ i →
  Z.testbit (reverse_loop j straight rev) i =
    if i <? Z.of_nat j then Z.testbit straight (Z.of_nat j - i)
    else Z.testbit rev (i - Z.of_nat j).
Proof.
  revert m straight rev i. induction j as [|j IH]; intros m straight rev i Hr Hm Hj Hi.
  { change (Z.of_nat 0) with 0. replace (i <? 0) with false by lia. by rewrite Z.sub_0_r. }
  cbn [reverse_loop].
  assert (Hp : 2 * 2 ^ m ≤ 2 ^ 32) by (rewrite <- Z.pow_succ_r by lia; apply Z.pow_le_mono_r; lia).
  rewrite Z.shiftl_mul_pow2, Z.pow_1_r by lia. unfold u32. rewrite Z.mod_small by lia.
  set (b := Z.land (Z.shiftr straight 1) 1).
  assert (Eb : b = Z.b2z (Z.testbit straight 1)).
  { unfold b. change 1 with (Z.ones 1) at 2. rewrite Z.land_ones, Z.pow_1_r by lia.
    by rewrite <- Z.bit0_mod, Z.shiftr_spec by lia. }
  assert (Hlor : Z.lor (rev * 2) b = 2 * rev + b).
  { rewrite (Z.mul_comm rev 2), <- Z.add_lor_land.
    assert (Z.land (2 * rev) b = 0) as ->; [|lia].
    rewrite Eb. destruct (Z.testbit straight 1); [|apply Z.land_0_r].
    change (Z.b2z true) with (Z.ones 1). rewrite Z.land_ones, Z.pow_1_r by lia.
    rewrite Z.mul_comm. apply Z.mod_mul. lia. }
  rewrite Hlor, (IH (Z.succ m)) by (rewrite ?Z.pow_succ_r, ?Eb by lia; destruct (Z.testbit straight 1); simpl; lia).
  destruct (Z.ltb_spec i (Z.of_nat j)).
  - destruct (Z.ltb_spec i (Z.of_nat (S j))); [|lia]. rewrite Z.shiftr_spec by lia. f_equal. lia.
  - rewrite Eb. destruct (Z.eqb_spec i (Z.of_nat j)) as [->|].
    + destruct (Z.ltb_spec (Z.of_nat j) (Z.of_nat (S j))); [|lia].
      rewrite Z.sub_diag, Z.testbit_0_r. f_equal. lia.
    + destruct (Z.ltb_spec i (Z.of_nat (S j))); [lia|].
      replace (i - Z.of_nat j) with (Z.succ (i - Z.of_nat (S j))) by lia.
      by rewrite Z.testbit_succ_r by lia.
Qed.

(** [BIT_REVERSE_] reverses the bits of a node number. *)
Lemma bit_reverse_testbit k s i :
  0 ≤ k ≤ 31 → 0 ≤ s < 2 ^ k → 0 ≤ i →
  Z.testbit (bit_reverse (2 ^ k) s) i = (i <? k) && Z.testbit s (k - 1 - i).
Proof.
  intros Hk Hs Hi. assert (2 ^ k ≤ 2 ^ 31) by (apply Z.pow_le_mono_r; lia).
  unfold bit_reverse. rewrite Z.log2_pow2 by lia. unfold u32. rewrite Z.mod_small by lia.
  change 1 with (Z.ones 1) at 2. rewrite Z.land_ones, Z.pow_1_r by lia.
  assert (Hm : 0 ≤ s mod 2 < 2 ^ 1) by (rewrite Z.pow_1_r; apply Z.mod_pos_bound; lia).
  rewrite (reverse_loop_testbit _ 1) by lia.
  destruct (Z.eqb_spec k 0) as [->|].
  { simpl in Hs. assert (s = 0) as -> by lia. simpl. rewrite !Z.bits_0. by rewrite andb_false_r; case_match. }
  rewrite Z2Nat.id by lia. destruct (Z.ltb_spec i (k - 1)).
  - by replace (i <? k) with true by lia.
  - destruct (Z.eqb_spec i (k - 1)) as [->|].
    + replace (k - 1 <? k) with true by lia. rewrite !Z.sub_diag, andb_true_l.
      by rewrite !Z.bit0_eqb, Z.mod_mod by lia.
    + replace (i <? k) with false by lia. simpl.
      rewrite <- (Z.mod_small (s mod 2) (2 ^ 1)) by done. apply Z.mod_pow2_bits_high. lia.
Qed.

Lemma bit_reverse_involutive k s :
  0 ≤ k ≤ 31 → 0 ≤ s < 2 ^ k →
  0 ≤ bit_reverse (2 ^ k) s < 2 ^ k ∧ bit_reverse (2 ^ k) (bit_reverse (2 ^ k) s) = s.
Proof.
  intros Hk Hs.
  assert (Hr : 0 ≤ bit_reverse (2 ^ k) s < 2 ^ k).
  { assert (E : bit_reverse (2 ^ k) s = bit_reverse (2 ^ k) s mod 2 ^ k).
    { apply Z.bits_inj'. intros i Hi. rewrite bit_reverse_testbit by lia.
      destruct (Z.ltb_spec i k); [|by rewrite Z.mod_pow2_bits_high by lia].
      rewrite Z.mod_pow2_bits_low, bit_reverse_testbit by lia.
      by replace (i <? k) with true by lia. }
    rewrite E. apply Z.mod_pos_bound, Z.pow_pos_nonneg; lia. }
  split; [done|]. apply Z.bits_inj'. intros i Hi. rewrite bit_reverse_testbit by lia.
  destruct (Z.ltb_spec i k); simpl.
  - rewrite bit_reverse_testbit by lia. replace (k - 1 - i <? k) with true by lia. simpl.
    f_equal. lia.
  - symmetry. rewrite <- (Z.mod_small s (2 ^ k)) by done. apply Z.mod_pow2_bits_high. lia.
Qed.

(** ** All patterns *)

(** The networks for which a pattern is meant: squares for those on the grid,
    an even number of nodes or a power of two for those on the bits. *)
Inductive pattern_fits : Z → Z → Prop :=
  | fits_grid t k :
      t = BIT_COMPLEMENT_ ∨ t = NEIGHBOR_ ∨ t = TRANSPOSE_ ∨ t = TORNADO_ → 0 < k →
      pattern_fits t (k * k)
  | fits_even t h : t = BIT_ROTATION_ ∨ t = SHUFFLE_ → 0 < h → pattern_fits t (2 * h)
  | fits_pow2 k : 0 ≤ k ≤ 31 → pattern_fits BIT_REVERSE_ (2 ^ k).

(** The four grid patterns as maps of coordinates. *)
Lemma grid_patterns t k s :
  0 < k → 0 ≤ s < k * k →
  t = BIT_COMPLEMENT_ ∨ t = NEIGHBOR_ ∨ t = TRANSPOSE_ ∨ t = TORNADO_ →
  pattern t (k * k) s = Some (on_grid k (
    if t =? BIT_COMPLEMENT_ then complement_xy k
    else if t =? NEIGHBOR_ then shift_xy k 1
    else if t =? TRANSPOSE_ then transpose_xy
    else shift_xy k (k `quot` 2 - 1)) s).
Proof.
  intros Hk Hs Ht. destruct (coords k s Hk ltac:(lia)) as (E & Hx & Hy).
  unfold pattern. rewrite radix_of_square by lia. fold (col k s) (row k s).
  assert (Hrem : ∀ z, 0 ≤ z ∨ k = 1 → z `rem` k = z mod k).
  { intros z [Hz| ->]; [by apply Z.rem_mod_nonneg|]. by rewrite Z.rem_1_r, Z.mod_1_r. }
  destruct Ht as [->|[->|[->| ->]]]; simpl; unfold on_grid; simpl; do 2 f_equal.
  - apply Hrem. lia.
  - rewrite Z.add_sub_assoc. apply Hrem.
    destruct (decide (k = 1)) as [->|]; [by right|]. left.
    assert (1 ≤ k `quot` 2) by (apply Z.quot_le_lower_bound; lia). lia.
Qed.

Lemma patterns_bijective t n :
  pattern_fits t n →
  ∃ f g, permutes n f g ∧ ∀ s, 0 ≤ s < n → pattern t n s = Some (f s).
Proof.
  intros [t' k Ht Hk|t' h Ht Hh|k Hk].
  - eexists _, (on_grid k (if t' =? BIT_COMPLEMENT_ then complement_xy k
      else if t' =? NEIGHBOR_ then shift_xy k (-1)
      else if t' =? TRANSPOSE_ then transpose_xy else shift_xy k (- (k `quot` 2 - 1)))).
    split; [|intros s Hs; by apply grid_patterns].
    assert (Hsh : ∀ d, grid_bij k (shift_xy k (- d)) (shift_xy k d)).
    { intros d. rewrite <- (Z.opp_involutive d) at 2. by apply shift_bij. }
    apply on_grid_permutes; [done|..]; destruct Ht as [->|[->|[->| ->]]]; simpl;
      auto using complement_bij, transpose_bij, shift_bij.
  - destruct Ht as [->| ->].
    + exists (bit_rotation (2 * h)), (shuffle (2 * h)). split; [|done].
      intros s Hs. by destruct (rotation_shuffle h s Hs) as (? & ? & ? & ?).
    + exists (shuffle (2 * h)), (bit_rotation (2 * h)). split; [|done].
      intros s Hs. by destruct (rotation_shuffle h s Hs) as (? & ? & ? & ?).
  - exists (bit_reverse (2 ^ k)), (bit_reverse (2 ^ k)). split; [|done].
    intros s Hs. by destruct (bit_reverse_involutive k s Hk Hs).
Qed.

(** C36.  The synthetic traffic patterns are permutations: on a network for
    which a pattern is meant, every node sends to some node of the network,
    and every node is the destination of exactly one node. *)
Theorem traffic_patterns_permute t n :
  pattern_fits t n →
  (∀ s, 0 ≤ s < n → ∃ d, pattern t n s = Some d ∧ 0 ≤ d < n) ∧
  (∀ d, 0 ≤ d < n → ∃ s, 0 ≤ s < n ∧ pattern t n s = Some d ∧
     ∀ s', 0 ≤ s' < n → pattern t n s' = Some d → s' = s).
Proof.
  intros (f & g & Hp & Hf)%patterns_bijective. split.
  - intros s Hs. exists (f s). split; [by apply Hf|]. by apply Hp.
  - intros d Hd. destruct (Hp d Hd) as (_ & _ & Hg & Hfg). exists (g d). split_and!; try lia.
    + by rewrite Hf, Hfg.
    + intros s' Hs' E. rewrite Hf in E by done. injection E as <-.
      by destruct (Hp s' Hs') as (_ & -> & _).
Qed.

Lemma traffic_patterns_permute_witness :
  pattern TORNADO_ 16 5 = Some 6 ∧ pattern BIT_REVERSE_ 16 1 = Some 8 ∧
  (∃ s, 0 ≤ s < 4 * 4 ∧ pattern TORNADO_ (4 * 4) s = Some 6 ∧
     ∀ s', 0 ≤ s' < 4 * 4 → pattern TORNADO_ (4 * 4) s' = Some 6 → s' = s).
Proof.
  split; [vm_compute; reflexivity|]. split; [vm_compute; reflexivity|].
  apply (traffic_patterns_permute TORNADO_ (4 * 4)); [|lia].
  apply fits_grid; [right; right; right; reflexivity|lia].
Defined.

(** ** Generated packets *)

(** A tester of a network with [ts_numDestinations] nodes for which its
    pattern is meant. *)
Definition well_configured (x : Tester) : Prop :=
  0 ≤ ts_id x < ts_numDestinations x ∧ ts_numDestinations x ≤ 2 ^ 31 ∧
  ts_singleDest x < ts_numDestinations x ∧
  (ts_traffic x = UNIFORM_RANDOM_ ∨ pattern_fits (ts_traffic x) (ts_numDestinations x)).

(** A destination that the tester may choose. *)
Definition may_choose (x : Tester) (d : Z) : Prop :=
  0 ≤ d < ts_numDestinations x ∧ (0 ≤ ts_singleDest x → d = ts_singleDest x) ∧
  (ts_singleDest x < 0 → ts_traffic x ≠ UNIFORM_RANDOM_ →
   pattern (ts_traffic x) (ts_numDestinations x) (ts_id x) = Some d).

Section Generate.
Context `{P : PacketPort} `{R : RandomMt} {RS : RandomMtSpec R}.
Implicit Types w : TWorld.

Lemma wp_tester_random lo hi w (Q : Z → TWorld → Prop) :
  lo ≤ hi → (∀ n, lo ≤ n ≤ hi → Q n (w <| tw_draws ::= S |>)) → wp (tester_random lo hi) Q w.
Proof.
  intros Hle HQ. unfold tester_random. apply wp_bind, wp_gets, wp_bind.
  eapply wp_run; [done|]. apply wp_ret, HQ. by apply random_mt_range.
Qed.

Lemma wp_choose_destination w :
  well_configured (tw_tester w) →
  wp choose_destination
     (λ d w', may_choose (tw_tester w) d ∧ w' = w <| tw_draws := tw_draws w' |>) w.
Proof.
  intros (Hid & Hn & Hsd & Ht). set (x := tw_tester w) in *. unfold choose_destination.
  apply wp_bind, wp_gets. change (id (tw_tester w)) with x.
  assert (Hr : 0 < radix_of (ts_numDestinations x)) by (apply Z.sqrt_pos; lia).
  replace (radix_of (ts_numDestinations x) =? 0) with false by lia. apply wp_bind, wp_ret.
  assert (Hu : ∀ d, 0 ≤ d < ts_numDestinations x → u32 d = d).
  { intros d Hd. apply Z.mod_small. lia. }
  destruct (Z.leb_spec 0 (ts_singleDest x)).
  { apply wp_ret. split; [|by destruct w]. rewrite Hu by lia. unfold may_choose. split_and!; try lia. }
  destruct (Z.eqb_spec (ts_traffic x) UNIFORM_RANDOM_) as [E|E].
  { rewrite Hu by lia. apply wp_tester_random; [lia|]. intros n Hn'.
    split; [unfold may_choose; split_and!; try lia; done|by destruct w]. }
  destruct Ht as [?|(f & g & Hp & Hf)%patterns_bijective]; [done|].
  destruct (Hp _ Hid) as [Hfr _]. rewrite (Hf _ Hid). apply wp_ret.
  split; [|by destruct w]. rewrite Hu by done. unfold may_choose.
  split_and!; try lia. intros _ _. by apply Hf.
Qed.

(** What [sendPkt] does with a packet. *)
Definition sent (pkt : Packet) (w w' : TWorld) : Prop :=
  ∃ ok, sendTimingReq pkt (tw_port w) = (ok, tw_port w') ∧
    tw_tester w' = (tw_tester w)
      <| ts_retryPkt := if (ok : bool) then ts_retryPkt (tw_tester w) else Some pkt |>
      <| ts_numPacketsSent ::= Z.succ |> ∧
    tw_curTick w' = tw_curTick w ∧ tw_period w' = tw_period w ∧
    tw_tickEvent w' = tw_tickEvent w ∧ tw_exit w' = tw_exit w.

Lemma wp_sendPkt pkt w : wp (sendPkt pkt) (λ _ w', sent pkt w w') w.
Proof.
  unfold sendPkt, port_send. apply wp_bind, wp_bind, wp_gets.
  destruct (sendTimingReq pkt (tw_port w)) as [ok s'] eqn:E.
  apply wp_bind. eapply wp_run; [done|]. apply wp_ret, wp_bind.
  destruct ok; (eapply wp_run; [done|]); (eapply wp_run; [done|]); eexists; (split; [exact E|]);
    split_and!; try done; by destruct w as [[] ? ? ? ? ? ?].
Qed.

(** The packet of a destination: the virtual network decides the kind of the
    request, the destination is in the address above the block offset. *)
Definition packet_for (x : Tester) (d : Z) (pkt : Packet) : Prop :=
  pk_paddr pkt = Z.shiftl d (ts_blockSizeBits x) ∧ pk_contextId pkt = ts_id x ∧
  (0 ≤ ts_injVnet x ≤ 2 →
   pk_cmd pkt = (if ts_injVnet x =? 2 then MemCmd_WriteReq else MemCmd_ReadReq) ∧
   pk_INST_FETCH pkt = (ts_injVnet x =? 1)).

Lemma shiftl_addr d n b : 0 ≤ b → 0 ≤ d < n → n * 2 ^ b ≤ 2 ^ 64 → 0 ≤ Z.shiftl d b < 2 ^ 64.
Proof.
  intros Hb Hd Hn. rewrite Z.shiftl_mul_pow2 by done.
  assert (0 < 2 ^ b) by (apply Z.pow_pos_nonneg; lia). nia.
Qed.

Lemma wp_generatePkt w :
  let x := tw_tester w in
  well_configured x → 0 ≤ ts_blockSizeBits x → ts_numDestinations x * 2 ^ ts_blockSizeBits x ≤ 2 ^ 64 →
  wp generatePkt (λ _ w', ∃ d pkt, may_choose x d ∧ packet_for x d pkt ∧ sent pkt w w') w.
Proof.
  intros x Hwc Hb Hfit. unfold generatePkt. apply wp_bind, wp_gets.
  change (id (tw_tester w)) with x. apply wp_bind.
  eapply wp_mono; [by apply wp_choose_destination|]. intros d w1 (Hd & Hw1).
  assert (Ha : u64 (Z.shiftl d (ts_blockSizeBits x)) = Z.shiftl d (ts_blockSizeBits x)).
  { apply u64_small. eapply shiftl_addr; [done|apply Hd|done]. }
  rewrite Ha. apply wp_bind.
  assert (Hend : ∀ v w2, (0 ≤ ts_injVnet x ≤ 2 → v = ts_injVnet x) →
    w2 = w <| tw_draws := tw_draws w2 |> →
    wp (sendPkt (if v =? 0 then mkPacket MemCmd_ReadReq false (Z.shiftl d (ts_blockSizeBits x)) 1 (ts_id x) (ts_masterId x)
        else if v =? 1 then mkPacket MemCmd_ReadReq true (Z.shiftl d (ts_blockSizeBits x)) 1 (ts_id x) (ts_masterId x)
        else mkPacket MemCmd_WriteReq false (Z.shiftl d (ts_blockSizeBits x)) 1 (ts_id x) (ts_masterId x)))
      (λ _ w', ∃ d pkt, may_choose x d ∧ packet_for x d pkt ∧ sent pkt w w') w2).
  { intros v w2 Hv Hw2. eapply wp_mono; [apply wp_sendPkt|]. intros [] w' Hs.
    eexists d, _. split; [done|]. split; [|rewrite Hw2 in Hs; exact Hs].
    split_and!; [by repeat case_match..|]. intros Hr. rewrite (Hv Hr).
    assert (ts_injVnet x = 0 ∨ ts_injVnet x = 1 ∨ ts_injVnet x = 2) as [->|[->| ->]] by lia; done. }
  destruct ((ts_injVnet x <? 0) || (2 <? ts_injVnet x)) eqn:E.
  - apply wp_tester_random; [lia|]. intros n Hn'. apply Hend; [lia|]. rewrite Hw1. by destruct w.
  - apply wp_ret, Hend; [done|]. exact Hw1.
Qed.
End Generate.

(** C37.  A packet goes where the tester sends it: with one directory per
    destination, interleaved on the address bits above the block offset, the
    address of the packet that [generatePkt] hands to the port (now or, when
    the port refuses it, by a retry) is mapped by the network to the directory
    whose number is the destination the pattern asks for, in whatever order
    the address map is iterated. *)
Theorem packet_reaches_destination `{P : PacketPort} `{R : RandomMt} {RS : RandomMtSpec R}
    `{MT : MachineTypes} (w : TWorld) (net : Network) mtype end_ k others :
  let x := tw_tester w in
  well_configured x → ts_numDestinations x = 2 ^ k → 0 ≤ k → 0 ≤ ts_blockSizeBits x →
  ts_blockSizeBits x + k ≤ 64 → 2 ^ (ts_blockSizeBits x + k) - 1 ≤ end_ →
  Forall (λ c, mid_type c.1 ≠ mtype) others →
  nw_addrMap net ≡ₚ addrMap_entries (directories mtype end_ (ts_blockSizeBits x) k ++ others) →
  wp generatePkt
     (λ _ w', ∃ d pkt, may_choose x d ∧ sent pkt w w' ∧
        mapAddressToMachine net (pk_paddr pkt) mtype = mkMachineID mtype d) w.
Proof.
  intros x Hwc Hn Hk Hb Hbk He Hot Hmap.
  assert (Hfit : ts_numDestinations x * 2 ^ ts_blockSizeBits x = 2 ^ (ts_blockSizeBits x + k)).
  { by rewrite Hn, Z.add_comm, Z.pow_add_r by lia. }
  assert (Hle : 2 ^ (ts_blockSizeBits x + k) ≤ 2 ^ 64) by (apply Z.pow_le_mono_r; lia).
  eapply wp_mono; [apply wp_generatePkt; [exact Hwc|exact Hb|change (tw_tester w) with x; lia]|].
  change (tw_tester w) with x.
  intros [] w' (d & pkt & Hd & (Ha & _) & Hs). exists d, pkt. split; [done|]. split; [done|].
  unfold mapAddressToMachine. f_equal. rewrite Ha.
  pose proof Hd as [Hr _]. rewrite Hn in Hr.
  apply (addressToNodeID_directory net mtype end_ (ts_blockSizeBits x) k others d); try done.
  rewrite Z.shiftl_mul_pow2 by done.
  assert (0 < 2 ^ ts_blockSizeBits x) by (apply Z.pow_pos_nonneg; lia).
  rewrite <- Hfit, Hn in He. nia.
Qed.

(** ** A concrete tester

    A port that takes two packets and refuses the rest, a counting random
    number generator, and a node of a 4 x 4 network. *)
Definition small_port : PacketPort :=
  {| port_state := list Packet; sendTimingReq pkt s := (Nat.ltb (length s) 2, pkt :: s) |}.
Definition counting_random : RandomMt :=
  {| random_mt n lo hi := lo + Z.of_nat n mod (hi - lo + 1) |}.
#[export] Instance counting_random_spec : RandomMtSpec counting_random.
Proof.
  intros n lo hi Hle. simpl. pose proof (Z.mod_pos_bound (Z.of_nat n) (hi - lo + 1)). lia.
Qed.
Definition sample_tester (id : Z) : Tester :=
  mkTester id None 6 0 16 1000 10 0 (-1) (-1) 1 TRANSPOSE_ (f64_of_Z 1) 2 3 5000000 0.
Definition sample_world : TWorld (P := small_port) :=
  mkTWorld (P := small_port) (sample_tester 6) [] 0 0 1 (Some 0) false.

Lemma sample_well_configured id : 0 ≤ id < 16 → well_configured (sample_tester id).
Proof.
  intros Hid. unfold well_configured. simpl. split_and!; try lia. right.
  apply (fits_grid TRANSPOSE_ 4); [|lia]. right; right; left. reflexivity.
Qed.

Lemma packet_reaches_destination_witness :
  wp (generatePkt (P := small_port) (R := counting_random))
     (λ _ w', ∃ d pkt, may_choose (sample_tester 6) d ∧ sent pkt sample_world w' ∧
        mapAddressToMachine (MT := two_types)
          (mkNetwork 4 1 8 72 [] [] [] [] (reverse (addrMap_entries (directories 1 65535 6 4))))
          (pk_paddr pkt) 1 = mkMachineID 1 d) sample_world.
Proof.
  apply (packet_reaches_destination (P := small_port) (R := counting_random) (MT := two_types)
    sample_world _ 1 65535 4 []).
  - apply sample_well_configured. lia.
  - reflexivity.
  - lia.
  - simpl. lia.
  - simpl. lia.
  - vm_compute. discriminate.
  - constructor.
  - rewrite app_nil_r. simpl nw_addrMap. apply reverse_Permutation.
Defined.

(** ** A cycle of the tester *)
Section Tick.
Context `{P : PacketPort} `{R : RandomMt} {RS : RandomMtSpec R}.
Implicit Types w : TWorld.

(** The tester may send in this cycle, as far as its limits go. *)
Definition sender_enabled (x : Tester) : Prop :=
  (0 ≤ ts_numPacketsMax x → ts_numPacketsSent x < ts_numPacketsMax x) ∧
  (0 ≤ ts_singleSender x → ts_id x = ts_singleSender x).

(** The random number of this cycle allows to send. *)
Definition rate_allows (w : TWorld) : Prop :=
  let x := tw_tester w in
  send_allowed (ts_injRate x) (ts_precision x)
    (random_mt (tw_draws w) 0 (10 ^ ts_precision x)) = true.

(** [generatePkt] does not fail in this state. *)
Definition can_generate (x : Tester) : Prop :=
  well_configured x ∧ 0 ≤ ts_blockSizeBits x ∧
  ts_numDestinations x * 2 ^ ts_blockSizeBits x ≤ 2 ^ 64.

(** The port is given the packet, which is kept for a retry if the port refuses it. *)
Definition handed_over (pkt : Packet) (w w' : TWorld) : Prop :=
  ∃ ok, sendTimingReq pkt (tw_port w) = (ok, tw_port w') ∧
    ts_retryPkt (tw_tester w') = (if (ok : bool) then ts_retryPkt (tw_tester w) else Some pkt) ∧
    ts_numPacketsSent (tw_tester w') = ts_numPacketsSent (tw_tester w) + 1.

(** One packet, for a destination that the pattern allows, goes to the port
    exactly when the rate and the limits allow it. *)
Definition sends_if_allowed (w w' : TWorld) : Prop :=
  let x := tw_tester w in
  (rate_allows w ∧ sender_enabled x ∧ ∃ d pkt, may_choose x d ∧ packet_for x d pkt ∧ handed_over pkt w w') ∨
  (¬ (rate_allows w ∧ sender_enabled x) ∧ tw_port w' = tw_port w ∧
   ts_retryPkt (tw_tester w') = ts_retryPkt x ∧ ts_numPacketsSent (tw_tester w') = ts_numPacketsSent x).

Lemma wp_tick_send w :
  can_generate (tw_tester w) →
  wp (tick_send (tw_tester w))
     (λ _ w', sends_if_allowed w w' ∧ tw_curTick w' = tw_curTick w ∧
        tw_period w' = tw_period w ∧ tw_tickEvent w' = tw_tickEvent w ∧ tw_exit w' = tw_exit w) w.
Proof.
  intros (Hwc & Hb & Hfit). set (x := tw_tester w) in *. unfold tick_send, tester_random.
  apply wp_bind, wp_bind, wp_gets, wp_bind. eapply wp_run; [done|]. apply wp_ret.
  destruct (send_allowed _ _ _) eqn:Ha.
  2: { apply wp_ret. split; [|done]. right. split; [|done]. intros [Hr _].
       unfold rate_allows in Hr. fold x in Hr. congruence. }
  cbv zeta.
  destruct (negb ((0 <=? ts_numPacketsMax x) && (ts_numPacketsMax x <=? ts_numPacketsSent x)) &&
            negb ((0 <=? ts_singleSender x) && negb (ts_id x =? ts_singleSender x))) eqn:He.
  - eapply wp_mono; [apply wp_generatePkt; done|]. intros [] w' (d & pkt & Hd & Hpk & ok & Ep & Et & Hrest).
    split; [left|by destruct Hrest]. split_and!; [done|unfold sender_enabled; fold x; lia|].
    exists d, pkt. split; [exact Hd|]. split; [exact Hpk|]. exists ok. by rewrite Et.
  - apply wp_ret. split; [|done]. right. split; [|done].
    unfold sender_enabled. fold x. lia.
Qed.

(** The next tick is in the future, or the time is over. *)
Definition schedules (w w' : TWorld) : Prop :=
  let x := tw_tester w in
  if (ts_sim_type x =? 1) && (ts_simCycles x <=? tw_curTick w)
  then tw_exit w' = true ∧ tw_tickEvent w' = None
  else tw_exit w' = tw_exit w ∧ ∃ t, tw_tickEvent w' = Some t ∧ tw_curTick w < t.

Lemma clock_edge_future t p : 0 < p → t < (t + p - 1) / p * p + 1 * p.
Proof. intros Hp. pose proof (Z.div_mod (t + p - 1) p). pose proof (Z.mod_pos_bound (t + p - 1) p). nia. Qed.

Lemma wp_tick_schedule x w (Q : () → TWorld → Prop) :
  ts_sim_type x = 1 ∨ ts_sim_type x = 2 → 0 < tw_period w → tw_tickEvent w = None →
  (∀ w', tw_tester w' = tw_tester w → tw_port w' = tw_port w →
     (if (ts_sim_type x =? 1) && (ts_simCycles x <=? tw_curTick w)
      then tw_exit w' = true ∧ tw_tickEvent w' = None
      else tw_exit w' = tw_exit w ∧ ∃ t, tw_tickEvent w' = Some t ∧ tw_curTick w < t) → Q tt w') →
  wp (tick_schedule x) Q w.
Proof.
  intros Hst Hp Hev HQ. unfold tick_schedule.
  assert (Hfut := clock_edge_future (tw_curTick w) (tw_period w) Hp).
  destruct Hst as [E|E]; rewrite E in *; simpl in *.
  - apply wp_bind, wp_gets. destruct (ts_simCycles x <=? tw_curTick w).
    + eapply wp_run; [done|]. by apply HQ.
    + apply wp_bind, wp_gets. eapply wp_run; [done|]. apply HQ; [done..|]. split; [done|]. by eexists.
  - apply wp_bind, wp_gets. eapply wp_run; [done|]. apply HQ; [done..|]. split; [done|]. by eexists.
Qed.
End Tick.

(** C38.  A cycle of the tester returns for every well-configured tester that
    has not been without a response for as long as the response limit, whatever
    the port answers.  Exactly when the random number is below the injection
    rate and its limits allow it, a packet for a destination that its pattern
    allows is given to the port, and kept for a retry if the port refuses it;
    otherwise nothing is given to the port.  So it never sends more than
    [numPacketsMax] packets.  It schedules its next tick in the future unless the
    simulated time is over, in which case the simulation is told to exit. *)
Theorem tick_correct `{P : PacketPort} `{R : RandomMt} {RS : RandomMtSpec R} (w : TWorld) :
  let x := tw_tester w in
  can_generate x → ts_sim_type x = 1 ∨ ts_sim_type x = 2 → 0 < tw_period w →
  ts_noResponseCycles x + 1 < ts_responseLimit x →
  wp GarnetSyntheticTraffic_tick (λ _ w', sends_if_allowed w w' ∧ schedules w w' ∧
    (0 ≤ ts_numPacketsMax x → ts_numPacketsSent x ≤ ts_numPacketsMax x →
     ts_numPacketsSent (tw_tester w') ≤ ts_numPacketsMax x)) w.
Proof.
  intros x Hg Hst Hper _. unfold GarnetSyntheticTraffic_tick.
  apply wp_bind. eapply wp_run; [done|]. apply wp_bind. eapply wp_run; [done|].
  apply wp_bind, wp_gets.
  match goal with |- wp _ _ ?s => set (w1 := s) end. apply wp_bind.
  eapply wp_mono; [by apply (wp_tick_send w1)|].
  intros [] w2 (Hs & Et & Ep & Ee & Ex). apply wp_tick_schedule; [done|by rewrite Ep|by rewrite Ee|].
  intros w' Ew Eo Hsch. rewrite Et, Ex in Hsch.
  assert (Hs' : sends_if_allowed w w') by (unfold sends_if_allowed, handed_over; rewrite Ew, Eo; exact Hs).
  split; [done|]. split; [exact Hsch|]. intros H0 Hle.
  destruct Hs' as [(_ & [Hmax _] & d & pkt & _ & _ & ok & _ & _ & ->)|(_ & _ & _ & ->)]; [|done].
  specialize (Hmax H0). fold x in Hmax |- *. lia.
Qed.

Lemma tick_correct_witness :
  wp (GarnetSyntheticTraffic_tick (P := small_port) (R := counting_random))
     (λ _ w', sends_if_allowed (R := counting_random) sample_world w' ∧ schedules sample_world w' ∧
        (0 ≤ 10 → 0 ≤ 10 → ts_numPacketsSent (tw_tester w') ≤ 10)) sample_world.
Proof.
  apply (tick_correct (P := small_port) (R := counting_random) sample_world).
  - split; [apply sample_well_configured; lia|]. split; [simpl; lia|]. vm_compute. discriminate.
  - left. reflexivity.
  - simpl. lia.
  - simpl. lia.
Defined.
